(** * daemonproxy: the service supervision core (service.c)

    A shallow embedding of [src/service.c] and the properties of its
    service records, variable store, state machine and indices.

    Conventions of the embedding.
    - A C [char] is the integer it holds ([char := Z]); a C [int],
      [pid_t] or [int64_t] is a [Z].  Timestamps are [int64_t]: their
      additions and subtractions are written with the two's-complement
      wrap-around ([wrap64]).
    - A [strseg_t] is a pointer and a length.  The pointer is a memory
      block (the bytes of the object pointed into) and an offset in it.
    - A [service_t*] is an address ([svc_ptr := N]); the objects live in
      a store [gmap N service_t].
    - The two intrusive doubly-linked lists are kept as the sequence of
      their members, head first; [active_prev_ptr != NULL] reads as
      membership of that sequence. *)

From Stdlib Require Import ZArith List Bool Lia String Ascii Sorted.
From stdpp Require Import base option list gmap.
Import ListNotations.
Local Open Scope Z_scope.

(* ===================================================================== *)
(** * Characters, memory blocks and string segments *)
(* ===================================================================== *)

Definition char := Z.

Definition char_of_ascii (a : ascii) : char := Z.of_N (N_of_ascii a).

(** The bytes of a C string literal (without the terminating NUL). *)
Definition lit (s : string) : list char :=
  List.map char_of_ascii (list_ascii_of_string s).

Definition NUL : char := 0.
Definition TAB : char := 9.
Definition EQUALS : char := 61.

Record strseg_t := mkseg {
  base : list char;   (* the memory block [data] points into *)
  data : Z;           (* offset of [data] in that block *)
  len  : Z
}.

(** [STRSEG("...")]: a segment spanning a whole string. *)
Definition STRSEG (s : list char) : strseg_t :=
  {| base := s; data := 0; len := Z.of_nat (length s) |}.

(** The bytes [data[0] .. data[len-1]] of a segment. *)
Definition seg_bytes (s : strseg_t) : list char :=
  take (Z.to_nat (len s)) (drop (Z.to_nat (data s)) (base s)).

(** [p[i]] for a pointer at offset [off] of block [m]. *)
Definition peek (m : list char) (off : Z) : char :=
  nth (Z.to_nat off) m 0.

(** Modelled from the spec: [strseg_cmp] of strseg.c, which is not among
    the sources.  The name index is "lexicographic on name" and keys of
    the variable store are compared for equality with it: bytes are
    compared in order, and on a common prefix the shorter segment is the
    smaller.  The result is negative, zero or positive. *)
Fixpoint bytes_cmp (x y : list char) : option Z :=
  match x, y with
  | c :: x', d :: y' =>
      if c =? d then bytes_cmp x' y' else Some (if c <? d then -1 else 1)
  | _, _ => None
  end.

Definition strseg_cmp (a b : strseg_t) : Z :=
  match bytes_cmp (seg_bytes a) (seg_bytes b) with
  | Some r => r
  | None => if len a <? len b then -1 else if len b <? len a then 1 else 0
  end.

(** Modelled from the spec: [strseg_tok_next] of strseg.c, which is not
    among the sources.  The variables are "name=value\0" entries and the
    lists are tab-separated tokens: a call splits off the bytes before
    the first separator as the token and advances the string past the
    separator; a string without separator is one token and is left with
    length -1; a string of negative length has no token (the call
    returns false).  The result is the advanced string and the token. *)
Fixpoint scan (sep : char) (l : list char) : nat :=
  match l with
  | [] => O
  | c :: l' => if c =? sep then O else S (scan sep l')
  end.

Definition strseg_tok_next (s : strseg_t) (sep : char)
  : option (strseg_t * strseg_t) :=
  if len s <? 0 then None
  else
    let i := Z.of_nat (scan sep (seg_bytes s)) in
    Some ({| base := base s; data := data s + i + 1; len := len s - (i + 1) |},
          {| base := base s; data := data s; len := i |}).

(* ===================================================================== *)
(** * Names *)
(* ===================================================================== *)

Definition name_char_ok (c : char) : bool :=
  ((c >=? char_of_ascii "a") && (c <=? char_of_ascii "z"))
  || ((c >=? char_of_ascii "A") && (c <=? char_of_ascii "Z"))
  || ((c >=? char_of_ascii "0") && (c <=? char_of_ascii "9"))
  || (c =? char_of_ascii ".") || (c =? char_of_ascii "_")
  || (c =? char_of_ascii "-").

(** Integer helpers.  [wrap64] is the two's-complement reduction of an
    [int64_t] result. *)
Definition wrap64 (z : Z) : Z := (z + 2 ^ 63) mod 2 ^ 64 - 2 ^ 63.

Definition in_int64 (z : Z) : Prop := - 2 ^ 63 <= z < 2 ^ 63.

(** C string at [off] of block [m]: the bytes up to the first NUL. *)
Definition cstr (m : list char) (off : Z) : list char :=
  let l := drop (Z.to_nat off) m in take (scan NUL l) l.

(** [memcpy(m + dst, src, |src|)], [memmove] and a one-byte store. *)
Definition memcpy (m : list char) (dst : Z) (src : list char) : list char :=
  take (Z.to_nat dst) m ++ src ++ drop (Z.to_nat dst + length src)%nat m.

Definition memmove (m : list char) (dst src n : Z) : list char :=
  memcpy m dst (take (Z.to_nat n) (drop (Z.to_nat src) m)).

Definition poke (m : list char) (off : Z) (c : char) : list char :=
  memcpy m off [c].

(* ===================================================================== *)
(** * The service record *)
(* ===================================================================== *)

Definition SVC_STATE_UNDEF  : Z := 0.
Definition SVC_STATE_DOWN   : Z := 1.
Definition SVC_STATE_START  : Z := 2.
Definition SVC_STATE_UP     : Z := 3.
Definition SVC_STATE_REAPED : Z := 4.

(** [struct service_s].  [name_buf] holds the bytes of the name, so that
    [name] is [STRSEG name_buf];
    [vars_data] is the block [vars.data] points to (its length is the
    size of the allocation; in a pool it is the rest of [name_buf] after
    the name) and [vars_len] is [vars.len].  The index
    nodes and the list links live in the indices and lists of the core.
    [autostart_signals] is the signal set as a bit mask. *)
Record service_t := mksvc {
  state : Z;
  name_buf : list char;
  vars_data : list char;
  vars_len : Z;
  pid : Z;
  auto_restart : bool;
  sigwake : bool;
  uses_control_event : bool;
  uses_control_cmd : bool;
  uses_control_socket : bool;
  wait_status : Z;
  start_time : Z;
  reap_time : Z;
  restart_interval : Z;
  autostart_signals : Z
}.

Definition set_state (v : Z) (s : service_t) : service_t :=
  mksvc v (name_buf s) (vars_data s) (vars_len s) (pid s) (auto_restart s)
    (sigwake s) (uses_control_event s) (uses_control_cmd s)
    (uses_control_socket s) (wait_status s) (start_time s) (reap_time s)
    (restart_interval s) (autostart_signals s).

Definition set_vars (d : list char) (l : Z) (s : service_t) : service_t :=
  mksvc (state s) (name_buf s) d l (pid s) (auto_restart s)
    (sigwake s) (uses_control_event s) (uses_control_cmd s)
    (uses_control_socket s) (wait_status s) (start_time s) (reap_time s)
    (restart_interval s) (autostart_signals s).

Definition set_pid (v : Z) (s : service_t) : service_t :=
  mksvc (state s) (name_buf s) (vars_data s) (vars_len s) v (auto_restart s)
    (sigwake s) (uses_control_event s) (uses_control_cmd s)
    (uses_control_socket s) (wait_status s) (start_time s) (reap_time s)
    (restart_interval s) (autostart_signals s).

Definition set_auto_restart (v : bool) (s : service_t) : service_t :=
  mksvc (state s) (name_buf s) (vars_data s) (vars_len s) (pid s) v
    (sigwake s) (uses_control_event s) (uses_control_cmd s)
    (uses_control_socket s) (wait_status s) (start_time s) (reap_time s)
    (restart_interval s) (autostart_signals s).

Definition set_sigwake (v : bool) (s : service_t) : service_t :=
  mksvc (state s) (name_buf s) (vars_data s) (vars_len s) (pid s) (auto_restart s)
    v (uses_control_event s) (uses_control_cmd s)
    (uses_control_socket s) (wait_status s) (start_time s) (reap_time s)
    (restart_interval s) (autostart_signals s).

Definition set_uses_control (e c k : bool) (s : service_t) : service_t :=
  mksvc (state s) (name_buf s) (vars_data s) (vars_len s) (pid s) (auto_restart s)
    (sigwake s) e c k (wait_status s) (start_time s) (reap_time s)
    (restart_interval s) (autostart_signals s).

Definition set_wait_status (v : Z) (s : service_t) : service_t :=
  mksvc (state s) (name_buf s) (vars_data s) (vars_len s) (pid s) (auto_restart s)
    (sigwake s) (uses_control_event s) (uses_control_cmd s)
    (uses_control_socket s) v (start_time s) (reap_time s)
    (restart_interval s) (autostart_signals s).

Definition set_start_time (v : Z) (s : service_t) : service_t :=
  mksvc (state s) (name_buf s) (vars_data s) (vars_len s) (pid s) (auto_restart s)
    (sigwake s) (uses_control_event s) (uses_control_cmd s)
    (uses_control_socket s) (wait_status s) v (reap_time s)
    (restart_interval s) (autostart_signals s).

Definition set_reap_time (v : Z) (s : service_t) : service_t :=
  mksvc (state s) (name_buf s) (vars_data s) (vars_len s) (pid s) (auto_restart s)
    (sigwake s) (uses_control_event s) (uses_control_cmd s)
    (uses_control_socket s) (wait_status s) (start_time s) v
    (restart_interval s) (autostart_signals s).

Definition set_restart_interval (v : Z) (s : service_t) : service_t :=
  mksvc (state s) (name_buf s) (vars_data s) (vars_len s) (pid s) (auto_restart s)
    (sigwake s) (uses_control_event s) (uses_control_cmd s)
    (uses_control_socket s) (wait_status s) (start_time s) (reap_time s)
    v (autostart_signals s).

Definition set_autostart_signals (v : Z) (s : service_t) : service_t :=
  mksvc (state s) (name_buf s) (vars_data s) (vars_len s) (pid s) (auto_restart s)
    (sigwake s) (uses_control_event s) (uses_control_cmd s)
    (uses_control_socket s) (wait_status s) (start_time s) (reap_time s)
    (restart_interval s) v.

(** The view [vars.data[0 .. vars.len)]: the packed variable buffer. *)
Definition vars (s : service_t) : strseg_t :=
  {| base := vars_data s; data := 0; len := vars_len s |}.

Definition vars_bytes (s : service_t) : list char := seg_bytes (vars s).

(* ===================================================================== *)
(** * The ordered indices *)
(* ===================================================================== *)

(** Modelled from the spec: the tree of Contained_RBTree.c, which is not
    among the sources.  The indices are "ordered associative containers
    supporting insert, prune, exact lookup, and ordered next-traversal":
    a binary search tree of the nodes, each holding its object (the
    service's address); the key of a node is read from its object by the
    tree's compare function.  Colours and rebalancing do not change the
    order of the nodes and are left out; the theorems on lookups hold for
    every shape of search tree. *)
Inductive RBTree :=
  | Sentinel
  | RBNode (Left : RBTree) (Object : N) (Right : RBTree).

Fixpoint elements (t : RBTree) : list N :=
  match t with
  | Sentinel => []
  | RBNode l x r => elements l ++ x :: elements r
  end.

Record RBTreeSearch := mksearch { Nearest : option N; Relation : Z }.

(** [RBTree_Find]: descend from the root; [Nearest] is the last node
    visited and [Relation] the comparison of the key with it.  [cmp n]
    is [compare(key, n)]. *)
Fixpoint RBTree_Find_from (cmp : N -> Z) (t : RBTree) (acc : RBTreeSearch)
  : RBTreeSearch :=
  match t with
  | Sentinel => acc
  | RBNode l x r =>
      let c := cmp x in
      let here := {| Nearest := Some x; Relation := c |} in
      if c <? 0 then RBTree_Find_from cmp l here
      else if c >? 0 then RBTree_Find_from cmp r here
      else here
  end.

Definition RBTree_Find (cmp : N -> Z) (t : RBTree) : RBTreeSearch :=
  RBTree_Find_from cmp t {| Nearest := None; Relation := -1 |}.

(** [RBTree_Add]: the node becomes a leaf at the place its key belongs. *)
Fixpoint RBTree_Add (cmp : N -> Z) (t : RBTree) (node : N) : RBTree :=
  match t with
  | Sentinel => RBNode Sentinel node Sentinel
  | RBNode l x r =>
      if cmp x <? 0 then RBNode (RBTree_Add cmp l node) x r
      else RBNode l x (RBTree_Add cmp r node)
  end.

(** [RBTreeNode_Prune]: unlink a node; a node with two children is
    replaced by its successor. *)
Fixpoint pop_min (l : RBTree) (x : N) (r : RBTree) : N * RBTree :=
  match l with
  | Sentinel => (x, r)
  | RBNode ll lx lr =>
      let '(m, l') := pop_min ll lx lr in (m, RBNode l' x r)
  end.

Definition join (l r : RBTree) : RBTree :=
  match r with
  | Sentinel => l
  | RBNode rl rx rr => let '(m, r') := pop_min rl rx rr in RBNode l m r'
  end.

Fixpoint RBTreeNode_Prune (t : RBTree) (node : N) : RBTree :=
  match t with
  | Sentinel => Sentinel
  | RBNode l x r =>
      if (x =? node)%N then join l r
      else RBNode (RBTreeNode_Prune l node) x (RBTreeNode_Prune r node)
  end.

(** [RBTreeNode_GetNext]: the node after [node] in the order of the tree. *)
Fixpoint next_after (node : N) (l : list N) : option N :=
  match l with
  | [] => None
  | x :: l' => if (x =? node)%N then head l' else next_after node l'
  end.

Definition RBTreeNode_GetNext (t : RBTree) (node : N) : option N :=
  next_after node (elements t).

(* ===================================================================== *)
(** * The core: globals of service.c and the collaborators it consumes *)
(* ===================================================================== *)

(** A call of [ctl_notify_svc_state]. *)
Record notification := mknote {
  n_name : list char;
  n_start_time : Z;
  n_reap_time : Z;
  n_wait_status : Z;
  n_pid : Z
}.

(** What the environment answers to one launch attempt: whether
    [ctl_alloc], [socketpair] and [ctl_ctor] succeed, and what [fork]
    returns. *)
Record launch := mklaunch {
  ctl_alloc_ok : bool;
  socketpair_ok : bool;
  ctl_ctor_ok : bool;
  fork_ret : Z
}.

(** An entry of the signal-event source: signal number, timestamp, count. *)
Record sig_event := mkevent { ev_signum : Z; ev_ts : Z; ev_count : Z }.

(** The globals of service.c ([svc_list] with [svc_list_limit] its
    length, the pool, the two indices, the two lists and the last signal
    timestamp), the wake clock ([wake->now], [wake->next]) and the
    collaborators: the pending signal events, the answers to the coming
    launch attempts, and the notifications sent so far (latest first). *)
Record core := mkcore {
  svc_mem : gmap N service_t;
  svc_list : list N;
  svc_list_count : Z;
  svc_pool : bool;
  svc_pool_size_each : Z;
  svc_by_name_index : RBTree;
  svc_by_pid_index : RBTree;
  svc_active_list : list N;
  svc_sigwake_list : list N;
  svc_last_signal_ts : Z;
  wake_now : Z;
  wake_next : Z;
  sig_events : list sig_event;
  launches : list launch;
  notified : list notification
}.

Definition put_mem (v : gmap N service_t) (g : core) : core :=
  mkcore v (svc_list g) (svc_list_count g) (svc_pool g)
    (svc_pool_size_each g) (svc_by_name_index g) (svc_by_pid_index g)
    (svc_active_list g) (svc_sigwake_list g) (svc_last_signal_ts g)
    (wake_now g) (wake_next g) (sig_events g) (launches g) (notified g).

Definition put_list (v : list N) (g : core) : core :=
  mkcore (svc_mem g) v (svc_list_count g) (svc_pool g) (svc_pool_size_each
    g) (svc_by_name_index g) (svc_by_pid_index g) (svc_active_list g)
    (svc_sigwake_list g) (svc_last_signal_ts g) (wake_now g) (wake_next g)
    (sig_events g) (launches g) (notified g).

Definition put_list_count (v : Z) (g : core) : core :=
  mkcore (svc_mem g) (svc_list g) v (svc_pool g) (svc_pool_size_each g)
    (svc_by_name_index g) (svc_by_pid_index g) (svc_active_list g)
    (svc_sigwake_list g) (svc_last_signal_ts g) (wake_now g) (wake_next g)
    (sig_events g) (launches g) (notified g).

Definition put_pool (v : bool) (g : core) : core :=
  mkcore (svc_mem g) (svc_list g) (svc_list_count g) v (svc_pool_size_each
    g) (svc_by_name_index g) (svc_by_pid_index g) (svc_active_list g)
    (svc_sigwake_list g) (svc_last_signal_ts g) (wake_now g) (wake_next g)
    (sig_events g) (launches g) (notified g).

Definition put_pool_size_each (v : Z) (g : core) : core :=
  mkcore (svc_mem g) (svc_list g) (svc_list_count g) (svc_pool g) v
    (svc_by_name_index g) (svc_by_pid_index g) (svc_active_list g)
    (svc_sigwake_list g) (svc_last_signal_ts g) (wake_now g) (wake_next g)
    (sig_events g) (launches g) (notified g).

Definition put_by_name_index (v : RBTree) (g : core) : core :=
  mkcore (svc_mem g) (svc_list g) (svc_list_count g) (svc_pool g)
    (svc_pool_size_each g) v (svc_by_pid_index g) (svc_active_list g)
    (svc_sigwake_list g) (svc_last_signal_ts g) (wake_now g) (wake_next g)
    (sig_events g) (launches g) (notified g).

Definition put_by_pid_index (v : RBTree) (g : core) : core :=
  mkcore (svc_mem g) (svc_list g) (svc_list_count g) (svc_pool g)
    (svc_pool_size_each g) (svc_by_name_index g) v (svc_active_list g)
    (svc_sigwake_list g) (svc_last_signal_ts g) (wake_now g) (wake_next g)
    (sig_events g) (launches g) (notified g).

Definition put_active_list (v : list N) (g : core) : core :=
  mkcore (svc_mem g) (svc_list g) (svc_list_count g) (svc_pool g)
    (svc_pool_size_each g) (svc_by_name_index g) (svc_by_pid_index g) v
    (svc_sigwake_list g) (svc_last_signal_ts g) (wake_now g) (wake_next g)
    (sig_events g) (launches g) (notified g).

Definition put_sigwake_list (v : list N) (g : core) : core :=
  mkcore (svc_mem g) (svc_list g) (svc_list_count g) (svc_pool g)
    (svc_pool_size_each g) (svc_by_name_index g) (svc_by_pid_index g)
    (svc_active_list g) v (svc_last_signal_ts g) (wake_now g) (wake_next g)
    (sig_events g) (launches g) (notified g).

Definition put_last_signal_ts (v : Z) (g : core) : core :=
  mkcore (svc_mem g) (svc_list g) (svc_list_count g) (svc_pool g)
    (svc_pool_size_each g) (svc_by_name_index g) (svc_by_pid_index g)
    (svc_active_list g) (svc_sigwake_list g) v (wake_now g) (wake_next g)
    (sig_events g) (launches g) (notified g).

Definition put_wake_next (v : Z) (g : core) : core :=
  mkcore (svc_mem g) (svc_list g) (svc_list_count g) (svc_pool g)
    (svc_pool_size_each g) (svc_by_name_index g) (svc_by_pid_index g)
    (svc_active_list g) (svc_sigwake_list g) (svc_last_signal_ts g)
    (wake_now g) v (sig_events g) (launches g) (notified g).

Definition put_launches (v : list launch) (g : core) : core :=
  mkcore (svc_mem g) (svc_list g) (svc_list_count g) (svc_pool g)
    (svc_pool_size_each g) (svc_by_name_index g) (svc_by_pid_index g)
    (svc_active_list g) (svc_sigwake_list g) (svc_last_signal_ts g)
    (wake_now g) (wake_next g) (sig_events g) v (notified g).

Definition put_notified (v : list notification) (g : core) : core :=
  mkcore (svc_mem g) (svc_list g) (svc_list_count g) (svc_pool g)
    (svc_pool_size_each g) (svc_by_name_index g) (svc_by_pid_index g)
    (svc_active_list g) (svc_sigwake_list g) (svc_last_signal_ts g)
    (wake_now g) (wake_next g) (sig_events g) (launches g) v.

(** ** A state and error monad for the code of service.c *)

(** Why a call does not return to its caller in the modelled process. *)
Inductive abort :=
  | BadPointer      (* the address of no object was dereferenced *)
  | InChild         (* fork returned 0: the call continues in the child *)
  | OutOfFuel       (* the loop was cut off by the model *)
  | Overrun.        (* a store went past the end of [name_buf] *)

Inductive result (A : Type) :=
  | Ok (a : A) (g : core)
  | Abort (why : abort).
Arguments Ok {A} a g.
Arguments Abort {A} why.

Definition M (A : Type) : Type := core -> result A.

Definition ret {A} (a : A) : M A := fun g => Ok a g.

Definition bind {A B} (m : M A) (k : A -> M B) : M B :=
  fun g => match m g with
           | Ok a g' => k a g'
           | Abort e => Abort e
           end.

Definition gets {A} (f : core -> A) : M A := fun g => Ok (f g) g.
Definition modify (f : core -> core) : M unit := fun g => Ok tt (f g).
Definition throw {A} (e : abort) : M A := fun _ => Abort e.

Declare Scope svc_scope.
Delimit Scope svc_scope with svc.
Notation "x <- c ;; k" := (bind c (fun x => k))
  (at level 100, c at next level, right associativity) : svc_scope.
Notation "c ;;; k" := (bind c (fun _ => k))
  (at level 100, right associativity) : svc_scope.
Local Open Scope svc_scope.

(** [*svc]: read and update the object at an address. *)
Definition deref (svc : N) : M service_t :=
  fun g => match svc_mem g !! svc with
           | Some s => Ok s g
           | None => Abort BadPointer
           end.

Definition update (svc : N) (f : service_t -> service_t) : M unit :=
  fun g => match svc_mem g !! svc with
           | Some s => Ok tt (put_mem (<[svc := f s]> (svc_mem g)) g)
           | None => Abort BadPointer
           end.

Definition when_ (b : bool) (m : M unit) : M unit := if b then m else ret tt.

(* ===================================================================== *)
(** * The functions of service.c *)
(* ===================================================================== *)

Section Service.
(** Constants and functions declared outside service.c (config.h,
    daemonproxy.h, signal.c), taken as parameters:
    - [NAME_BUF_SIZE], [FORK_RETRY_DELAY];
    - [NAME_BUF_OFFSET], the offset of [name_buf] in the struct, and
      [SIZEOF_SERVICE], the size of the struct;
    - [sig_num_by_name], from a signal's name to its number (not
      positive for an unknown name);
    - [NSIG], the bound of the valid signal numbers of [sigset_t];
    - [fresh_byte], the value read from memory that was allocated and
      not yet written. *)
Variable NAME_BUF_SIZE : Z.
Variable FORK_RETRY_DELAY : Z.
Variable NAME_BUF_OFFSET : Z.
Variable SIZEOF_SERVICE : Z.
Variable sig_num_by_name : list char -> Z.
Variable NSIG : Z.
Variable fresh_byte : char.

(** ** Signal sets and the signal-event source *)

Definition sig_valid (signum : Z) : bool := (0 <? signum) && (signum <? NSIG).

Definition sigemptyset : Z := 0.

(** [sigaddset]: [None] is the return value -1. *)
Definition sigaddset (set signum : Z) : option Z :=
  if sig_valid signum then Some (Z.setbit set (signum - 1)) else None.

(** [sigismember]: 1, 0, or -1 for an invalid signal number. *)
Definition sigismember (set signum : Z) : Z :=
  if sig_valid signum then (if Z.testbit set (signum - 1) then 1 else 0)
  else -1.

(** Modelled from the spec: [sig_get_new_events] of signal.c, which is
    not among the sources: "next_event(after_ts) -> (signum, ts, count)
    | end", the next pending event later than [after_ts]. *)
Definition sig_get_new_events (evs : list sig_event) (since_ts : Z)
  : option sig_event :=
  List.find (fun e => since_ts <? ev_ts e) evs.

(** ** Names *)

Definition svc_check_name (name : strseg_t) : bool :=
  if len name >=? NAME_BUF_SIZE then false
  else forallb name_char_ok (seg_bytes name).

Definition svc_by_name_compare (g : core) (name : strseg_t) (node : N) : Z :=
  match svc_mem g !! node with
  | Some obj => strseg_cmp name (STRSEG (name_buf obj))
  | None => 0
  end.

Definition svc_by_pid_compare (g : core) (key : Z) (node : N) : Z :=
  match svc_mem g !! node with
  | Some obj => let b := pid obj in
                if key <? b then -1 else if key >? b then 1 else 0
  | None => 0
  end.

(** ** The variable store *)

(** The loop of [svc_get_var] and of [svc_set_var]:
    [while (tail.len > 0 && strseg_tok_next(&tail, '\0', &oldval))]
    with its body; the result is [found], [oldval] and [tail] at the
    exit.  Each round consumes at least one byte of [tail]: [fuel]
    bounds the rounds and [vars.len] rounds are enough. *)
Fixpoint find_var (fuel : nat) (name tail oldval : strseg_t)
  : bool * strseg_t * strseg_t :=
  match fuel with
  | O => (false, oldval, tail)
  | S fuel' =>
      if len tail >? 0 then
        match strseg_tok_next tail NUL with
        | None => (false, oldval, tail)
        | Some (tail', entry) =>
            match strseg_tok_next entry EQUALS with
            | Some (val, key) =>
                if strseg_cmp key name =? 0 then (true, val, tail')
                else find_var fuel' name tail' val
            | None => find_var fuel' name tail' entry
            end
        end
      else (false, oldval, tail)
  end.

(** The value of [oldval] before the loop assigns it. *)
Definition seg_unset : strseg_t := {| base := []; data := 0; len := 0 |}.

Definition svc_get_var (s : service_t) (name : strseg_t) : option strseg_t :=
  match find_var (Z.to_nat (vars_len s)) name (vars s) seg_unset with
  | (true, val, _) => Some val
  | _ => None
  end.

(** [realloc(buf, n)]: the old bytes up to [n], then fresh ones. *)
Definition realloc (buf : list char) (n : Z) : list char :=
  take (Z.to_nat n) (buf ++ replicate (Z.to_nat n - length buf) fresh_byte).

(** [svc_set_var]; [realloc_ok] tells whether the allocator can serve
    the [realloc] of the call.  Lengths are far below [INT_MAX], so the
    [int] arithmetic on them is exact.

    In a pool [svc_ctor] points [vars.data] into the record itself, at
    [name_buf + name.len + 1], while the capacity test counts the whole
    slot: [buf_size] is the distance from there to the end of the slot.
    [name_buf] is the second field of [struct service_s]; a buffer that
    grows past its end lies over the fields that follow it ([name],
    [vars], the two index nodes, the list links, [pid], ...), and the
    [memmove] and [memcpy] below overwrite them.  What the record holds
    then depends on the layout of the struct, and the stores are outside
    the array they were derived from: the embedding ends such a call
    with [Overrun]. *)
Definition svc_set_var (realloc_ok : bool) (svc : N) (name : strseg_t)
    (value : option strseg_t) : M bool :=
  s <- deref svc ;;
  pool <- gets svc_pool ;;
  size_each <- gets svc_pool_size_each ;;
  let buf := vars_data s in
  match find_var (Z.to_nat (vars_len s)) name (vars s) seg_unset with
  | (found, oldval, tail) =>
    let sizediff :=
      if found
      then match value with
           | Some v => len v - len oldval
           | None => - (len oldval + 1 + len name + 1)
           end
      else match value with
           | Some v => len name + 1 + len v + 1
           | None => 0
           end in
    (* make sure we have room for new value *)
    let room :=
      if sizediff >? 0 then
        if pool then
          let buf_size :=
            size_each
            - (NAME_BUF_OFFSET + Z.of_nat (length (name_buf s)) + 1) in
          if vars_len s + sizediff >? buf_size then None else Some buf
        else
          if realloc_ok then Some (realloc buf (vars_len s + sizediff))
          else None
      else Some buf in
    match room with
    | None => ret false
    | Some buf =>
      let new_len := vars_len s + sizediff in
      if pool && (sizediff >? 0)
         && (new_len >? NAME_BUF_SIZE - (Z.of_nat (length (name_buf s)) + 1))
      then throw Overrun
      else
      (* if tail of buffer needs to move, move it *)
      let buf :=
        if negb (sizediff =? 0) && (len tail >? 0)
        then memmove buf (data tail + sizediff) (data tail) (len tail)
        else buf in
      (* adding a new var: set up the "name=" portion *)
      let '(buf, oldval_data) :=
        match found, value with
        | false, Some _ =>
            (poke (memcpy buf (data tail) (seg_bytes name))
                  (data tail + len name) EQUALS,
             data tail + len name + 1)
        | _, _ => (buf, data oldval)
        end in
      (* if we have a value, overwrite the old one *)
      let buf :=
        match value with
        | Some v => poke (memcpy buf oldval_data (seg_bytes v))
                         (oldval_data + len v) NUL
        | None => buf
        end in
      update svc (set_vars buf new_len) ;;;
      ret true
    end
  end.

(** A value returned as [const char *]: the C string at [val.data]. *)
Definition get_string (s : service_t) (key dflt : list char) : list char :=
  match svc_get_var s (STRSEG key) with
  | Some val => cstr (base val) (data val)
  | None => dflt
  end.

Definition null_fds : list char :=
  lit "null" ++ TAB :: lit "null" ++ TAB :: lit "null".

Definition svc_get_tags (s : service_t) : list char := get_string s (lit "tags") [].
Definition svc_get_argv (s : service_t) : list char := get_string s (lit "args") [].
Definition svc_get_fds (s : service_t) : list char := get_string s (lit "fds") null_fds.
Definition svc_get_triggers (s : service_t) : list char :=
  get_string s (lit "triggers") [].

Definition svc_set_tags (realloc_ok : bool) (svc : N) (new_tags : strseg_t)
  : M bool :=
  svc_set_var realloc_ok svc (STRSEG (lit "tags"))
    (if len new_tags <=? 0 then None else Some new_tags).

Definition svc_set_argv (realloc_ok : bool) (svc : N) (new_argv : strseg_t)
  : M bool :=
  svc_set_var realloc_ok svc (STRSEG (lit "args"))
    (if len new_argv <=? 0 then None else Some new_argv).

(** The loop of [svc_set_fds] over the tab-separated names; a string
    of [len] bytes has at most [len + 1] tokens. *)
Fixpoint scan_fds (fuel : nat) (new_fds : strseg_t) (e c k : bool)
  : bool * bool * bool :=
  match fuel with
  | O => (e, c, k)
  | S fuel' =>
      match strseg_tok_next new_fds TAB with
      | None => (e, c, k)
      | Some (rest, name) =>
          scan_fds fuel' rest
            (if strseg_cmp name (STRSEG (lit "control.event")) =? 0
             then true else e)
            (if strseg_cmp name (STRSEG (lit "control.cmd")) =? 0
             then true else c)
            (if strseg_cmp name (STRSEG (lit "control.socket")) =? 0
             then true else k)
      end
  end.

Definition svc_set_fds (realloc_ok : bool) (svc : N) (new_fds : strseg_t)
  : M bool :=
  let new_fds :=
    if len new_fds <? 0
    then {| base := base new_fds; data := data new_fds; len := 0 |}
    else new_fds in
  ok <- (if strseg_cmp new_fds (STRSEG null_fds) =? 0
         then svc_set_var realloc_ok svc (STRSEG (lit "fds")) None ;;; ret true
         else svc_set_var realloc_ok svc (STRSEG (lit "fds")) (Some new_fds)) ;;
  if negb ok then ret false
  else
    match scan_fds (Z.to_nat (len new_fds) + 2) new_fds false false false with
    | (e, c, k) => update svc (set_uses_control e c k) ;;; ret true
    end.

Definition svc_get_restart_interval (s : service_t) : Z := restart_interval s.

Definition svc_set_restart_interval (svc : N) (interval : Z) : M bool :=
  if Z.shiftr interval 32 <? 1 then ret false
  else update svc (set_restart_interval interval) ;;; ret true.

(** ** Lists, PID index, notification *)

Definition linked (svc : N) (l : list N) : bool := bool_decide (svc ∈ l).

Definition unlink (svc : N) (l : list N) : list N :=
  List.filter (fun x => negb (x =? svc)%N) l.

(** [svc_set_active]: insert at the head, or remove. *)
Definition svc_set_active (svc : N) (activate : bool) : M unit :=
  l <- gets svc_active_list ;;
  if activate && negb (linked svc l) then modify (put_active_list (svc :: l))
  else if negb activate && linked svc l
  then modify (put_active_list (unlink svc l))
  else ret tt.

Definition svc_set_sigwake (svc : N) (sigwake : bool) : M unit :=
  update svc (set_sigwake sigwake) ;;;
  l <- gets svc_sigwake_list ;;
  if sigwake && negb (linked svc l) then modify (put_sigwake_list (svc :: l))
  else if negb sigwake && linked svc l
  then modify (put_sigwake_list (unlink svc l))
  else ret tt.

(** The loop of [svc_check_sigwake]; each round returns a later event,
    so there are at most as many rounds as pending events. *)
Fixpoint sigwake_scan (fuel : nat) (evs : list sig_event) (sigs sig_ts : Z)
  : bool :=
  match fuel with
  | O => false
  | S fuel' =>
      match sig_get_new_events evs sig_ts with
      | None => false
      | Some e =>
          if negb (sigismember sigs (ev_signum e) =? 0) then true
          else sigwake_scan fuel' evs sigs (ev_ts e)
      end
  end.

Definition svc_check_sigwake (svc : N) : M bool :=
  s <- deref svc ;;
  if negb (sigwake s) then ret false
  else
    evs <- gets sig_events ;;
    ret (sigwake_scan (S (length evs)) evs (autostart_signals s) 0).

Definition svc_change_pid (svc : N) (new_pid : Z) : M unit :=
  s <- deref svc ;;
  when_ (negb (pid s =? 0))
    (modify (fun g => put_by_pid_index
                        (RBTreeNode_Prune (svc_by_pid_index g) svc) g)) ;;;
  update svc (set_pid new_pid) ;;;
  when_ (negb (new_pid =? 0))
    (modify (fun g => put_by_pid_index
                        (RBTree_Add (svc_by_pid_compare g new_pid)
                                    (svc_by_pid_index g) svc) g)).

Definition svc_notify_state (svc : N) : M unit :=
  s <- deref svc ;;
  modify (fun g => put_notified
    ({| n_name := name_buf s; n_start_time := start_time s;
        n_reap_time := reap_time s; n_wait_status := wait_status s;
        n_pid := pid s |} :: notified g) g).

(** ** Admin operations *)

Definition svc_handle_start (svc : N) (when : Z) : M bool :=
  s <- deref svc ;;
  if negb (state s =? SVC_STATE_DOWN) && negb (state s =? SVC_STATE_START)
  then ret false
  else
    now <- gets wake_now ;;
    let when := if wrap64 (when - now) >? 0 then when else now in
    update svc (set_state SVC_STATE_START) ;;;
    update svc (set_start_time (if when =? 0 then 1 else when)) ;;;
    svc_change_pid svc 0 ;;;
    update svc (set_reap_time 0) ;;;
    update svc (set_wait_status (-1)) ;;;
    svc_set_active svc true ;;;
    svc_notify_state svc ;;;
    modify (put_wake_next now) ;;;
    ret true.

Definition svc_cancel_start (svc : N) : M bool :=
  s <- deref svc ;;
  if negb (state s =? SVC_STATE_START) then ret false
  else
    update svc (set_state SVC_STATE_DOWN) ;;;
    update svc (set_start_time 0) ;;;
    svc_set_active svc false ;;;
    svc_notify_state svc ;;;
    ret true.

Definition svc_handle_reaped (svc : N) (wstat : Z) : M unit :=
  s <- deref svc ;;
  if state s =? SVC_STATE_UP then
    now <- gets wake_now ;;
    update svc (set_wait_status wstat) ;;;
    update svc (set_state SVC_STATE_REAPED) ;;;
    update svc (set_reap_time now) ;;;
    svc_set_active svc true ;;;
    modify (put_wake_next now)
  else ret tt.

(** ** Triggers *)

(** The loop of [svc_set_triggers]:
    [while (strseg_tok_next(&list, '\t', &trigger) && trigger.len > 0)];
    [None] is the [return false] inside the loop, otherwise the result
    is [autostart], [enable_sigs] and [sigs] at the exit. *)
Fixpoint parse_triggers (fuel : nat) (list : strseg_t)
    (autostart enable_sigs : bool) (sigs : Z) : option (bool * bool * Z) :=
  match fuel with
  | O => Some (autostart, enable_sigs, sigs)
  | S fuel' =>
      match strseg_tok_next list TAB with
      | None => Some (autostart, enable_sigs, sigs)
      | Some (list', trigger) =>
          if len trigger >? 0 then
            if strseg_cmp trigger (STRSEG (lit "always")) =? 0
            then parse_triggers fuel' list' true enable_sigs sigs
            else
              let signum := sig_num_by_name (seg_bytes trigger) in
              if signum >? 0 then
                match sigaddset sigs signum with
                | None => None
                | Some sigs' => parse_triggers fuel' list' autostart true sigs'
                end
              else None
          else Some (autostart, enable_sigs, sigs)
      end
  end.

Definition svc_set_triggers (realloc_ok : bool) (svc : N)
    (triggers_tsv : strseg_t) : M bool :=
  match parse_triggers (Z.to_nat (len triggers_tsv) + 2) triggers_tsv
                       false false sigemptyset with
  | None => ret false
  | Some (autostart, enable_sigs, sigs) =>
      ok <- svc_set_var realloc_ok svc (STRSEG (lit "triggers"))
              (if len triggers_tsv <=? 0 then None else Some triggers_tsv) ;;
      if negb ok then ret false
      else
        update svc (set_auto_restart autostart) ;;;
        update svc (set_autostart_signals sigs) ;;;
        svc_set_sigwake svc enable_sigs ;;;
        (* if a relevant signal is un-cleared, start the service *)
        s <- deref svc ;;
        pending <- (if auto_restart s then ret true
                    else svc_check_sigwake svc) ;;
        (if pending then
           now <- gets wake_now ;;
           svc_handle_start svc now ;;; ret tt
         else ret tt) ;;;
        ret true
  end.

(** ** The process launcher, as seen by the parent *)

Definition no_launch : launch :=
  {| ctl_alloc_ok := false; socketpair_ok := false; ctl_ctor_ok := false;
     fork_ret := -1 |}.

(** [svc_do_fork]: the attempt takes the next answers of the
    environment.  When [fork] returns 0 the call is in the child, which
    ends in [exec]: it does not return. *)
Definition svc_do_fork (svc : N) : M bool :=
  s <- deref svc ;;
  ls <- gets launches ;;
  let l := hd no_launch ls in
  modify (put_launches (tl ls)) ;;;
  let uses := uses_control_socket s || uses_control_event s
              || uses_control_cmd s in
  if uses && negb (ctl_alloc_ok l) then ret false
  else if uses && negb (socketpair_ok l) then ret false
  else if uses && negb (ctl_ctor_ok l) then ret false
  else
    let pid := fork_ret l in
    if pid <? 0 then ret false
    else if pid =? 0 then throw InChild
    else svc_change_pid svc pid ;;; ret true.

(** ** The state machine *)

(** [svc_run]; one unit of [fuel] is one pass through
    [re_switch_state].  The assertions of the default case are compiled
    out: an undefined state leaves the switch. *)
Fixpoint svc_run (fuel : nat) (svc : N) : M unit :=
  match fuel with
  | O => throw OutOfFuel
  | S fuel' =>
    s <- deref svc ;;
    now <- gets wake_now ;;
    if state s =? SVC_STATE_START then
      (* if not wake time yet *)
      if wrap64 (start_time s - now) >? 0 then
        next <- gets wake_next ;;
        when_ (wrap64 (start_time s - next) <? 0)
              (modify (put_wake_next (start_time s))) ;;;
        svc_set_active svc true
      else
        forked <- svc_do_fork svc ;;
        if negb forked then
          svc_handle_start svc (wrap64 (now + FORK_RETRY_DELAY)) ;;;
          svc_run fuel' svc
        else
          update svc (set_start_time (if negb (now =? 0) then now else 1)) ;;;
          update svc (set_state SVC_STATE_UP) ;;;
          svc_notify_state svc ;;;
          (* falls into case SVC_STATE_UP *)
          svc_set_active svc false
    else if state s =? SVC_STATE_UP then
      svc_set_active svc false
    else if state s =? SVC_STATE_REAPED then
      svc_notify_state svc ;;;
      update svc (set_state SVC_STATE_DOWN) ;;;
      pending <- (if auto_restart s then ret true
                  else svc_check_sigwake svc) ;;
      (if pending then
         svc_handle_start svc
           (if wrap64 (reap_time s - start_time s) <? restart_interval s
            then wrap64 (now + restart_interval s) else now) ;;;
         svc_notify_state svc
       else ret tt) ;;;
      svc_run fuel' svc
    else if state s =? SVC_STATE_DOWN then
      svc_set_active svc false
    else ret tt
  end.

(** [svc_run_active]: the signal sweep, then the state machine of
    every active service.  Both walks read the successor before the
    body runs, and the body changes the membership of the current
    record only: they visit the members the list had at the start.
    [sweep_fuel] bounds the passes of each [svc_run]. *)
Definition wake_by_signal (signum : Z) (svc : N) : M unit :=
  s <- deref svc ;;
  if negb (sigismember (autostart_signals s) signum =? 0) then
    now <- gets wake_now ;;
    svc_handle_start svc now ;;; ret tt
  else ret tt.

Fixpoint for_each (l : list N) (body : N -> M unit) : M unit :=
  match l with
  | [] => ret tt
  | svc :: l' => body svc ;;; for_each l' body
  end.

Fixpoint signal_sweep (fuel : nat) : M unit :=
  match fuel with
  | O => ret tt
  | S fuel' =>
      evs <- gets sig_events ;;
      since <- gets svc_last_signal_ts ;;
      match sig_get_new_events evs since with
      | None => ret tt
      | Some e =>
          l <- gets svc_sigwake_list ;;
          for_each l (wake_by_signal (ev_signum e)) ;;;
          modify (put_last_signal_ts (ev_ts e)) ;;;
          signal_sweep fuel'
      end
  end.

Definition svc_run_active (sweep_fuel : nat) : M unit :=
  sw <- gets svc_sigwake_list ;;
  evs <- gets sig_events ;;
  when_ (negb (bool_decide (sw = []))) (signal_sweep (S (length evs))) ;;;
  l <- gets svc_active_list ;;
  for_each l (svc_run sweep_fuel).

(** ** Creation and deletion *)

(** The object [svc_ctor] leaves at [svc]: all zero but the state and
    the name.  In a pool [vars.data] is [name_buf + name.len + 1]: the
    block of the variables is what is left of [name_buf] after the name
    and its NUL, which the [memset] has zeroed. *)
Definition svc_ctor_object (pool : bool) (name : strseg_t) : service_t :=
  {| state := SVC_STATE_DOWN;
     name_buf := seg_bytes name;
     vars_data :=
       if pool
       then replicate (Z.to_nat (NAME_BUF_SIZE - (len name + 1))) NUL
       else [];
     vars_len := 0;
     pid := 0;
     auto_restart := false;
     sigwake := false;
     uses_control_event := false;
     uses_control_cmd := false;
     uses_control_socket := false;
     wait_status := 0;
     start_time := 0;
     reap_time := 0;
     restart_interval := 0;
     autostart_signals := sigemptyset |}.

Definition svc_ctor (svc : N) (name : strseg_t) : M unit :=
  pool <- gets svc_pool ;;
  modify (fun g => put_mem (<[svc := svc_ctor_object pool name]>
                              (svc_mem g)) g) ;;;
  (* memset: the links of the object are NULL *)
  modify (fun g => put_active_list (unlink svc (svc_active_list g)) g) ;;;
  modify (fun g => put_sigwake_list (unlink svc (svc_sigwake_list g)) g) ;;;
  modify (fun g => put_by_name_index
                     (RBTree_Add (svc_by_name_compare g name)
                                 (svc_by_name_index g) svc) g).

(** Answers of the allocator to one creation: whether the vector can
    be resized, and the address [malloc] returns (0 is [NULL]). *)
Record alloc := mkalloc { resize_ok : bool; malloc_ret : N }.

Definition svc_list_resize (ok : bool) (new_limit : Z) : M bool :=
  if ok then
    modify (fun g => put_list
              (take (Z.to_nat new_limit)
                    (svc_list g ++ replicate
                       (Z.to_nat new_limit - length (svc_list g)) 0%N)) g) ;;;
    ret true
  else ret false.

Definition svc_new (a : alloc) (name : strseg_t) : M (option N) :=
  count <- gets svc_list_count ;;
  limit <- gets (fun g => Z.of_nat (length (svc_list g))) ;;
  pool <- gets svc_pool ;;
  (* enlarge the service vector if needed (and not using a pool) *)
  room <- (if count >=? limit then
             if pool then ret false
             else svc_list_resize (resize_ok a) (limit + 32)
           else ret true) ;;
  if negb room then ret None
  else if pool then
    l <- gets svc_list ;;
    let svc := default 0%N (l !! Z.to_nat count) in
    modify (put_list_count (count + 1)) ;;;
    svc_ctor svc name ;;;
    ret (Some svc)
  else if (malloc_ret a =? 0)%N then ret None
  else
    let svc := malloc_ret a in
    modify (fun g => put_list (<[Z.to_nat count := svc]> (svc_list g)) g) ;;;
    modify (put_list_count (count + 1)) ;;;
    svc_ctor svc name ;;;
    ret (Some svc).

Definition svc_dtor (svc : N) : M unit :=
  svc_set_active svc false ;;;
  svc_set_sigwake svc false ;;;
  s <- deref svc ;;
  when_ (negb (pid s =? 0))
    (modify (fun g => put_by_pid_index
                        (RBTreeNode_Prune (svc_by_pid_index g) svc) g)) ;;;
  modify (fun g => put_by_name_index
                     (RBTreeNode_Prune (svc_by_name_index g) svc) g).

(** The first index below [count] at which the vector holds [svc]. *)
Fixpoint index_of (svc : N) (l : list N) (i : nat) (count : nat)
  : option nat :=
  match count, l with
  | S count', x :: l' =>
      if (x =? svc)%N then Some i else index_of svc l' (S i) count'
  | _, _ => None
  end.

Definition svc_delete (svc : N) : M unit :=
  svc_dtor svc ;;;
  l <- gets svc_list ;;
  count <- gets svc_list_count ;;
  pool <- gets svc_pool ;;
  match index_of svc l 0 (Z.to_nat count) with
  | None => ret tt
  | Some i =>
      let last := default 0%N (l !! Z.to_nat (count - 1)) in
      modify (put_list_count (count - 1)) ;;;
      modify (put_list (<[i := last]> l)) ;;;
      if pool then
        modify (fun g => put_list (<[Z.to_nat (count - 1) := svc]> (svc_list g)) g)
      else
        modify (fun g => put_list (<[Z.to_nat (count - 1) := 0%N]> (svc_list g)) g) ;;;
        (* free(svc) *)
        modify (fun g => put_mem (delete svc (svc_mem g)) g)
  end.

(** ** Lookup and iteration *)

Definition svc_by_name (a : alloc) (name : strseg_t) (create : bool)
  : M (option N) :=
  g <- gets id ;;
  let s := RBTree_Find (svc_by_name_compare g name) (svc_by_name_index g) in
  if Relation s =? 0 then ret (Nearest s)
  else if create && svc_check_name name then svc_new a name
  else ret None.

Definition svc_by_pid (g : core) (pid : Z) : option N :=
  let s := RBTree_Find (svc_by_pid_compare g pid) (svc_by_pid_index g) in
  if Relation s =? 0 then Nearest s else None.

(** [svc_iter_next]; [from_name] is a C string. *)
Definition svc_iter_next (g : core) (svc : option N) (from_name : list char)
  : option N :=
  match svc with
  | Some p => RBTreeNode_GetNext (svc_by_name_index g) p
  | None =>
      let n := STRSEG from_name in
      let s := RBTree_Find (svc_by_name_compare g n) (svc_by_name_index g) in
      match Nearest s with
      | None => None
      | Some nearest =>
          if Relation s <? 0 then Some nearest
          else RBTreeNode_GetNext (svc_by_name_index g) nearest
      end
  end.

(** ** Initial states *)

Definition svc_init (now : Z) (evs : list sig_event) (ls : list launch)
  : core :=
  {| svc_mem := ∅; svc_list := []; svc_list_count := 0;
     svc_pool := false; svc_pool_size_each := 0;
     svc_by_name_index := Sentinel; svc_by_pid_index := Sentinel;
     svc_active_list := []; svc_sigwake_list := [];
     svc_last_signal_ts := 0; wake_now := now; wake_next := now;
     sig_events := evs; launches := ls; notified := [] |}.

(** [svc_preallocate] on the initial state, when its allocations
    succeed: [pool_base] is the address of the pool. *)
Definition svc_preallocate (pool_base : N) (count data_size_each : Z)
    (g : core) : core :=
  let size_each := SIZEOF_SERVICE + data_size_each in
  let size_each := Z.lor (size_each - 1) 15 + 1 in
  put_pool true
    (put_pool_size_each size_each
       (put_list
          (List.map (fun i => (pool_base + Z.to_N (size_each * Z.of_nat i))%N)
                    (seq 0 (Z.to_nat count))) g)).

(** ** The assertions of [svc_check], as a predicate *)

Definition svc_check (g : core) (svc : N) : bool :=
  match svc_mem g !! svc with
  | None => false
  | Some s =>
      (Z.of_nat (length (name_buf s)) >? 0)
      && (Z.of_nat (length (name_buf s)) <? NAME_BUF_SIZE)
      && (vars_len s >=? 0)
      && ((vars_len s =? 0) || (peek (vars_data s) (vars_len s - 1) =? 0))
      && (negb (svc_pool g)
          || (svc_pool_size_each g
              >=? NAME_BUF_OFFSET + Z.of_nat (length (name_buf s)) + 1
                  + vars_len s))
      && bool_decide (svc ∈ elements (svc_by_name_index g))
      && (if pid s =? 0
          then negb (bool_decide (svc ∈ elements (svc_by_pid_index g)))
          else bool_decide (svc ∈ elements (svc_by_pid_index g)))
  end.

End Service.

(* ===================================================================== *)
(** * Vocabulary of the properties *)
(* ===================================================================== *)

(** A timestamp stored with 0 reserved for "undefined". *)
Definition biased (t : Z) : Z := if t =? 0 then 1 else t.

(** The record [svc_handle_start] leaves behind, started at [t]. *)
Definition started (t : Z) (s : service_t) : service_t :=
  set_wait_status (-1)
    (set_reap_time 0 (set_pid 0 (set_start_time t (set_state SVC_STATE_START s)))).

(** The notification [svc_notify_state] sends for a record. *)
Definition note_of (s : service_t) : notification :=
  {| n_name := name_buf s; n_start_time := start_time s;
     n_reap_time := reap_time s; n_wait_status := wait_status s;
     n_pid := pid s |}.

(** Whether a signal of the record's trigger set is pending, as
    [svc_check_sigwake] computes it, and whether a reaped record is to be
    restarted. *)
Definition trigger_pending (NSIG : Z) (g : core) (s : service_t) : bool :=
  sigwake s
  && sigwake_scan NSIG (S (length (sig_events g))) (sig_events g)
                  (autostart_signals s) 0.

Definition restart_wanted (NSIG : Z) (g : core) (s : service_t) : bool :=
  auto_restart s || trigger_pending NSIG g s.

(** The back-off rule: when the restart of a reaped record is scheduled. *)
Definition restart_time (now : Z) (s : service_t) : Z :=
  if reap_time s - start_time s <? restart_interval s
  then now + restart_interval s else now.

(** The environment lets a launch of record [s] succeed with a child. *)
Definition launch_succeeds (s : service_t) (l : launch) : Prop :=
  (uses_control_socket s || uses_control_event s || uses_control_cmd s = true ->
   ctl_alloc_ok l = true /\ socketpair_ok l = true /\ ctl_ctor_ok l = true)
  /\ 0 < fork_ret l.

(** The record after a successful launch at time [now] with child [p]. *)
Definition launched (now p : Z) (s : service_t) : service_t :=
  set_state SVC_STATE_UP (set_start_time (biased now) (set_pid p s)).

(** The record [svc_cancel_start] leaves behind, and the record
    [svc_handle_reaped] leaves behind at time [now]. *)
Definition cancelled (s : service_t) : service_t :=
  set_start_time 0 (set_state SVC_STATE_DOWN s).

Definition reaped (now wstat : Z) (s : service_t) : service_t :=
  set_reap_time now (set_state SVC_STATE_REAPED (set_wait_status wstat s)).

(** The environment makes a launch of record [s] fail in the parent:
    no control object when one is needed, or [fork] fails. *)
Definition launch_fails (s : service_t) (l : launch) : Prop :=
  ((uses_control_socket s || uses_control_event s || uses_control_cmd s = true)
   /\ (ctl_alloc_ok l = false \/ socketpair_ok l = false
       \/ ctl_ctor_ok l = false))
  \/ fork_ret l < 0.

(** Where [svc_run] leaves a record: waiting in START for a time still
    to come, on the active list; or idle, DOWN or UP, off the list. *)
Definition settled (g : core) (svc : N) : Prop :=
  exists s,
    svc_mem g !! svc = Some s /\
    ((state s = SVC_STATE_START /\ wrap64 (start_time s - wake_now g) > 0
      /\ svc ∈ svc_active_list g)
     \/ ((state s = SVC_STATE_DOWN \/ state s = SVC_STATE_UP)
         /\ svc ∉ svc_active_list g)).

(** ** The packed variable buffer, read as a list of entries *)

(** The bytes of an entry ["key=value\0"] and of a sequence of entries. *)
Definition entry (kv : list char * list char) : list char :=
  kv.1 ++ EQUALS :: kv.2 ++ [NUL].

Definition encode (kvs : list (list char * list char)) : list char :=
  List.concat (List.map entry kvs).

(** A key holds neither NUL nor '='; a value holds no NUL. *)
Definition key_ok (k : list char) : Prop := (NUL ∉ k) /\ (EQUALS ∉ k).
Definition value_ok (v : list char) : Prop := NUL ∉ v.
Definition entry_ok (kv : list char * list char) : Prop :=
  key_ok kv.1 /\ value_ok kv.2.

(** The first value of a key, the removal of its first entry, and the
    replacement of its value in place (or a new entry at the end). *)
Fixpoint kv_get (k : list char) (kvs : list (list char * list char))
  : option (list char) :=
  match kvs with
  | [] => None
  | (k', v) :: kvs' => if bool_decide (k' = k) then Some v else kv_get k kvs'
  end.

Fixpoint kv_del (k : list char) (kvs : list (list char * list char))
  : list (list char * list char) :=
  match kvs with
  | [] => []
  | (k', v) :: kvs' =>
      if bool_decide (k' = k) then kvs' else (k', v) :: kv_del k kvs'
  end.

Fixpoint kv_set (k v : list char) (kvs : list (list char * list char))
  : list (list char * list char) :=
  match kvs with
  | [] => [(k, v)]
  | (k', v') :: kvs' =>
      if bool_decide (k' = k) then (k, v) :: kvs'
      else (k', v') :: kv_set k v kvs'
  end.

(** The variable buffer of [s] holds exactly the entries [kvs]. *)
Definition vars_hold (s : service_t) (kvs : list (list char * list char))
  : Prop :=
  vars_len s = Z.of_nat (length (encode kvs)) /\
  take (length (encode kvs)) (vars_data s) = encode kvs /\
  Forall entry_ok kvs.

(** The room the capacity test of [svc_set_var] counts for the variables
    of a pool-backed record: from [vars.data] to the end of the slot. *)
Definition pool_capacity (NAME_BUF_OFFSET : Z) (g : core) (s : service_t) : Z :=
  svc_pool_size_each g - (NAME_BUF_OFFSET + Z.of_nat (length (name_buf s)) + 1).

(** The room there really is before the fields that follow [name_buf]:
    what is left of [name_buf] after the name and its NUL. *)
Definition name_buf_room (NAME_BUF_SIZE : Z) (s : service_t) : Z :=
  NAME_BUF_SIZE - (Z.of_nat (length (name_buf s)) + 1).

(** In a pool the block of the variables is that rest of [name_buf]. *)
Definition slot_ok (NAME_BUF_SIZE : Z) (g : core) (s : service_t) : Prop :=
  svc_pool g = true ->
  name_buf_room NAME_BUF_SIZE s <= Z.of_nat (length (vars_data s)).

(** In a pool the variables end within [name_buf]. *)
Definition in_name_buf (NAME_BUF_SIZE : Z) (g : core) (s : service_t) : Prop :=
  svc_pool g = true -> vars_len s <= name_buf_room NAME_BUF_SIZE s.


(** Whether [svc_set_var] has to refuse a buffer that grows to [new_len]
    bytes: over the capacity of the slot, or no memory. *)
Definition no_room (NAME_BUF_OFFSET : Z) (realloc_ok : bool) (g : core)
    (s : service_t) (new_len : nat) : bool :=
  (vars_len s <? Z.of_nat new_len)
  && (if svc_pool g
      then pool_capacity NAME_BUF_OFFSET g s <? Z.of_nat new_len
      else negb realloc_ok).

(** Whether a buffer that grows to [new_len] bytes passes the end of
    [name_buf] in a pool: the stores of [svc_set_var] then run over the
    fields that follow [name_buf]. *)
Definition overruns (NAME_BUF_SIZE : Z) (g : core) (s : service_t)
    (new_len : nat) : bool :=
  svc_pool g && (vars_len s <? Z.of_nat new_len)
  && (name_buf_room NAME_BUF_SIZE s <? Z.of_nat new_len).

(** A buffer of [new_len] bytes fits: the capacity test of
    [svc_set_var] finds room for it and, in a pool, the buffer ends
    within [name_buf] before and after the call. *)
Definition fits (NAME_BUF_SIZE NAME_BUF_OFFSET : Z) (realloc_ok : bool)
    (g : core) (s : service_t) (new_len : nat) : Prop :=
  no_room NAME_BUF_OFFSET realloc_ok g s new_len = false /\
  (svc_pool g = true ->
   vars_len s <= name_buf_room NAME_BUF_SIZE s /\
   Z.of_nat new_len <= name_buf_room NAME_BUF_SIZE s).

(** The value the setters of a string pass to [svc_set_var]: [NULL] for
    the empty string. *)
Definition string_value (t : list char) : option (list char) :=
  if bool_decide (t = []) then None else Some t.

(** The value [svc_set_fds] stores: none for the default. *)
Definition fds_value (null_fds x : list char) : option (list char) :=
  if bool_decide (x = null_fds) then None else Some x.

(** The assertions of [svc_check] on the variable buffer: a length that
    is not negative, a NUL at the end of a buffer that is not empty, and,
    in a pool, a buffer that ends within the slot. *)
Definition buffer_checks (NAME_BUF_OFFSET : Z) (g : core) (s : service_t)
  : Prop :=
  vars_len s >= 0 /\
  (vars_len s = 0 \/ peek (vars_data s) (vars_len s - 1) = NUL) /\
  (svc_pool g = true ->
   svc_pool_size_each g
   >= NAME_BUF_OFFSET + Z.of_nat (length (name_buf s)) + 1 + vars_len s).

(** The entries after [svc_set_var] of key [k]: with a value the entry
    is set, without one it is removed. *)
Definition kv_put (k : list char) (v : option (list char))
    (kvs : list (list char * list char)) : list (list char * list char) :=
  match v with
  | Some x => kv_set k x kvs
  | None => kv_del k kvs
  end.

(** A segment that lies in its block: [len] bytes can be read. *)
Definition seg_ok (x : strseg_t) : Prop :=
  0 <= data x /\ 0 <= len x /\
  (Z.to_nat (data x) + Z.to_nat (len x) <= length (base x))%nat.

(** ** Tab-separated lists, read as a list of tokens *)

(** The tokens of a list: the runs of bytes between the separators (a
    list of [n] separators has [n + 1] tokens, some of them empty). *)
Fixpoint split_on (sep : char) (l : list char) : list (list char) :=
  match l with
  | [] => [[]]
  | c :: l' =>
      if c =? sep then [] :: split_on sep l'
      else match split_on sep l' with
           | t :: ts => (c :: t) :: ts
           | [] => [[c]]
           end
  end.


(** The tokens before the first empty one. *)
Fixpoint until_empty (toks : list (list char)) : list (list char) :=
  match toks with
  | [] => []
  | t :: ts => if bool_decide (t = []) then [] else t :: until_empty ts
  end.

(** What a list of trigger tokens means: [None] when a token is neither
    [always] nor the name of a signal that can be added to the set. *)
Fixpoint parse_tokens (sig_num_by_name : list char -> Z) (NSIG : Z)
    (toks : list (list char)) (autostart enable_sigs : bool) (sigs : Z)
  : option (bool * bool * Z) :=
  match toks with
  | [] => Some (autostart, enable_sigs, sigs)
  | t :: ts =>
      if bool_decide (t = lit "always")
      then parse_tokens sig_num_by_name NSIG ts true enable_sigs sigs
      else
        let signum := sig_num_by_name t in
        if signum >? 0 then
          match sigaddset NSIG sigs signum with
          | None => None
          | Some sigs' => parse_tokens sig_num_by_name NSIG ts autostart true sigs'
          end
        else None
  end.

(** No key has two entries. *)
Definition keys_unique (kvs : list (list char * list char)) : Prop :=
  NoDup (List.map fst kvs).

(** ** The order of the names *)

(** The lexicographic comparison of two byte strings: -1, 0 or 1. *)
Fixpoint lex_cmp (x y : list char) : Z :=
  match x, y with
  | [], [] => 0
  | [], _ :: _ => -1
  | _ :: _, [] => 1
  | c :: x', d :: y' =>
      if c =? d then lex_cmp x' y' else if c <? d then -1 else 1
  end.

(** The first node of a list that is above the key of [cmp], where
    [cmp n] is [compare(key, n)]. *)
Definition first_above (cmp : N -> Z) (l : list N) : option N :=
  List.find (fun q => cmp q <? 0) l.

(** What [svc_iter_next] makes of the result of a search. *)
Definition next_of_search (t : RBTree) (s : RBTreeSearch) : option N :=
  match Nearest s with
  | None => None
  | Some nearest =>
      if Relation s <? 0 then Some nearest
      else RBTreeNode_GetNext t nearest
  end.

(** The name of the record at an address. *)
Definition name_of (g : core) (svc : N) : list char :=
  match svc_mem g !! svc with
  | Some s => name_buf s
  | None => []
  end.

(** [r] is the first record of [l] whose name is greater than [key]: it
    is in [l], its name is greater, and every other record of [l] with a
    greater name has a name greater than its name; [None] when no record
    of [l] has a greater name. *)
Definition first_greater (g : core) (key : list char) (l : list N)
    (r : option N) : Prop :=
  match r with
  | Some q =>
      q ∈ l /\ lex_cmp key (name_of g q) < 0 /\
      forall q', q' ∈ l -> lex_cmp key (name_of g q') < 0 ->
                 q' = q \/ lex_cmp (name_of g q) (name_of g q') < 0
  | None => forall q', q' ∈ l -> ~ lex_cmp key (name_of g q') < 0
  end.

(** The name index holds live records in the strict order of their
    names. *)
Definition name_index_ok (g : core) : Prop :=
  Forall (fun p => is_Some (svc_mem g !! p)) (elements (svc_by_name_index g)) /\
  StronglySorted (fun p q => lex_cmp (name_of g p) (name_of g q) < 0)
                 (elements (svc_by_name_index g)).

(** The record at an address (an all-zero record when there is none). *)
Definition the_svc (g : core) (svc : N) : service_t :=
  default (mksvc 0 [] [] 0 0 false false false false false 0 0 0 0 0)
          (svc_mem g !! svc).

(** ** The live records and the invariant of the indices *)

(** The addresses of the live records: [svc_list[0 .. svc_list_count)]. *)
Definition live (g : core) : list N :=
  take (Z.to_nat (svc_list_count g)) (svc_list g).

(** The invariant of the vector and of the two indices: the live records
    are distinct objects (in a pool, the slots are distinct); the name
    index holds each live record once and nothing else; the PID index
    holds, once, the live records whose [pid] is not 0. *)
Definition index_inv (g : core) : Prop :=
  0 <= svc_list_count g <= Z.of_nat (length (svc_list g)) /\
  NoDup (live g) /\
  (svc_pool g = true -> NoDup (svc_list g)) /\
  (forall p, p ∈ live g -> is_Some (svc_mem g !! p)) /\
  NoDup (elements (svc_by_name_index g)) /\
  (forall p, p ∈ elements (svc_by_name_index g) <-> p ∈ live g) /\
  NoDup (elements (svc_by_pid_index g)) /\
  (forall p, p ∈ elements (svc_by_pid_index g)
             <-> p ∈ live g /\ pid (the_svc g p) <> 0).

(** The two intrusive lists link live records only. *)
Definition lists_inv (g : core) : Prop :=
  (forall p, p ∈ svc_active_list g -> p ∈ live g) /\
  (forall p, p ∈ svc_sigwake_list g -> p ∈ live g).

Definition core_inv (g : core) : Prop := index_inv g /\ lists_inv g.

(** An operation on the live record [p] keeps the invariant and the set
    of live records. *)
Definition keeps (p : N) {A} (m : M A) : Prop :=
  forall g a g', core_inv g -> p ∈ live g -> m g = Ok a g' ->
                 core_inv g' /\ live g' = live g.


(** The PID index holds its records in the order of their [pid]. *)
Definition pid_index_ok (g : core) : Prop :=
  StronglySorted (fun p q => pid (the_svc g p) <= pid (the_svc g q))
                 (elements (svc_by_pid_index g)).

(** An operation on the live record [p] keeps the order of the PID
    index. *)
Definition keeps_pid_order (p : N) {A} (m : M A) : Prop :=
  forall g a g', core_inv g -> pid_index_ok g -> p ∈ live g ->
                 m g = Ok a g' -> pid_index_ok g'.

(** A state of the state machine, and the states in which every live
    record is in one. *)
Definition state_ok (z : Z) : Prop :=
  z = SVC_STATE_DOWN \/ z = SVC_STATE_START \/ z = SVC_STATE_UP \/
  z = SVC_STATE_REAPED.

(** The second state has a pool exactly when the first has. *)
Definition same_pool (g g' : core) : Prop := svc_pool g' = svc_pool g.

(** Every live record satisfies [Q], which may depend on whether the
    records are in a pool; and an operation on the live record [p]
    that keeps it so. *)
Definition recs_ok (Q : bool -> service_t -> Prop) (g : core) : Prop :=
  forall p, p ∈ live g -> Q (svc_pool g) (the_svc g p).

Definition keeps_recs (Q : bool -> service_t -> Prop) (p : N) {A} (m : M A)
  : Prop :=
  forall g a g', core_inv g -> recs_ok Q g -> p ∈ live g ->
                 m g = Ok a g' -> recs_ok Q g'.

(** The record is in a state of the state machine. *)
Definition in_state (pool : bool) (s : service_t) : Prop := state_ok (state s).

Definition states_ok (g : core) : Prop := recs_ok in_state g.



(** Two states with the same objects, vector and indices, the second
    of which links no other record than the first and [p]. *)
Definition frame (p : N) (g g' : core) : Prop :=
  svc_mem g' = svc_mem g /\ svc_list g' = svc_list g /\
  svc_list_count g' = svc_list_count g /\ svc_pool g' = svc_pool g /\
  svc_by_name_index g' = svc_by_name_index g /\
  svc_by_pid_index g' = svc_by_pid_index g /\
  (forall q, q ∈ svc_active_list g' -> q = p \/ q ∈ svc_active_list g) /\
  (forall q, q ∈ svc_sigwake_list g' -> q = p \/ q ∈ svc_sigwake_list g).

(** The second state differs from the first at most in the record at
    [p], in the membership of [p] in the two lists, and in what the
    module keeps outside the records: the PID index, the wake deadline,
    the time stamp of the last signal seen, the launcher's answers
    consumed and the notifications sent. *)
Definition only_touches (p : N) (g g' : core) : Prop :=
  (forall q, q <> p -> svc_mem g' !! q = svc_mem g !! q) /\
  (is_Some (svc_mem g' !! p) <-> is_Some (svc_mem g !! p)) /\
  name_buf (the_svc g' p) = name_buf (the_svc g p) /\
  unlink p (svc_active_list g') = unlink p (svc_active_list g) /\
  unlink p (svc_sigwake_list g') = unlink p (svc_sigwake_list g) /\
  svc_list g' = svc_list g /\ svc_list_count g' = svc_list_count g /\
  svc_pool g' = svc_pool g /\ svc_pool_size_each g' = svc_pool_size_each g /\
  svc_by_name_index g' = svc_by_name_index g /\
  wake_now g' = wake_now g /\ sig_events g' = sig_events g.

(** Both states have the same vector of records and the same name
    index, and every record has the same name in both. *)
Definition same_names (g g' : core) : Prop :=
  svc_list g' = svc_list g /\ svc_list_count g' = svc_list_count g /\
  svc_pool g' = svc_pool g /\ svc_pool_size_each g' = svc_pool_size_each g /\
  svc_by_name_index g' = svc_by_name_index g /\
  (forall q, is_Some (svc_mem g' !! q) <-> is_Some (svc_mem g !! q)) /\
  (forall q, name_of g' q = name_of g q).

(** Every result of [m] is related to the state [m] started from. *)
Definition pres (R : core -> core -> Prop) {A} (m : M A) : Prop :=
  forall g a g', m g = Ok a g' -> R g g'.

(** The record at [q] and its membership in the two lists are the
    same in both states. *)
Definition untouched (q : N) (g g' : core) : Prop :=
  svc_mem g' !! q = svc_mem g !! q /\
  (q ∈ svc_active_list g' <-> q ∈ svc_active_list g) /\
  (q ∈ svc_sigwake_list g' <-> q ∈ svc_sigwake_list g).

(** ** The operations of the interface and the reachable states *)

Inductive op :=
| op_create (a : alloc) (name : strseg_t)
| op_delete (svc : N)
| op_start (svc : N) (when : Z)
| op_cancel (svc : N)
| op_reaped (svc : N) (wstat : Z)
| op_change_pid (svc : N) (new_pid : Z)
| op_run (fuel : nat) (svc : N)
| op_tick (fuel : nat)
| op_set_var (realloc_ok : bool) (svc : N) (name : strseg_t)
             (value : option strseg_t)
| op_set_tags (realloc_ok : bool) (svc : N) (new_tags : strseg_t)
| op_set_argv (realloc_ok : bool) (svc : N) (new_argv : strseg_t)
| op_set_fds (realloc_ok : bool) (svc : N) (new_fds : strseg_t)
| op_set_restart_interval (svc : N) (interval : Z)
| op_set_triggers (realloc_ok : bool) (svc : N) (triggers_tsv : strseg_t)
| op_set_sigwake (svc : N) (on : bool).

(** What the callers owe: the record they name is live, and [malloc]
    does not return the address of a live record. *)
Definition op_allowed (g : core) (o : op) : Prop :=
  match o with
  | op_create a _ => svc_pool g = false -> malloc_ret a ∉ live g
  | op_delete svc | op_start svc _ | op_cancel svc | op_reaped svc _
  | op_change_pid svc _ | op_run _ svc
  | op_set_var _ svc _ _ | op_set_tags _ svc _ | op_set_argv _ svc _
  | op_set_fds _ svc _ | op_set_restart_interval svc _
  | op_set_triggers _ svc _ | op_set_sigwake svc _ => svc ∈ live g
  | op_tick _ => True
  end.

(** The record an operation works on. *)
Definition op_target (o : op) : option N :=
  match o with
  | op_create _ _ | op_delete _ | op_tick _ => None
  | op_start svc _ | op_cancel svc | op_reaped svc _
  | op_change_pid svc _ | op_run _ svc
  | op_set_var _ svc _ _ | op_set_tags _ svc _ | op_set_argv _ svc _
  | op_set_fds _ svc _ | op_set_restart_interval svc _
  | op_set_triggers _ svc _ | op_set_sigwake svc _ => Some svc
  end.

(** There is room and memory for one more record: a free slot in the
    pool; or, without a pool, a vector that has room or can be resized,
    and a [malloc] that succeeds. *)
Definition can_create (a : alloc) (g : core) : Prop :=
  if svc_pool g then svc_list_count g < Z.of_nat (length (svc_list g))
  else (svc_list_count g < Z.of_nat (length (svc_list g)) \/ resize_ok a = true)
       /\ malloc_ret a <> 0%N.

(** The operations other than creation and deletion. *)
Definition op_keeps_records (o : op) : Prop :=
  match o with
  | op_create _ _ | op_delete _ => False
  | _ => True
  end.

(** The world outside the module: the clock and the next wake time of
    the main loop, the queue of signals, the answers of the launcher. *)
Definition set_env (now next : Z) (evs : list sig_event) (ls : list launch)
    (g : core) : core :=
  mkcore (svc_mem g) (svc_list g) (svc_list_count g) (svc_pool g)
    (svc_pool_size_each g) (svc_by_name_index g) (svc_by_pid_index g)
    (svc_active_list g) (svc_sigwake_list g) (svc_last_signal_ts g)
    now next evs ls (notified g).

Section Reach.

Variable NAME_BUF_SIZE : Z.
Variable FORK_RETRY_DELAY : Z.
Variable NAME_BUF_OFFSET : Z.
Variable SIZEOF_SERVICE : Z.
Variable sig_num_by_name : list char -> Z.
Variable NSIG : Z.
Variable fresh_byte : char.

Definition run_op (o : op) : M unit :=
  match o with
  | op_create a name =>
      svc_by_name NAME_BUF_SIZE a name true ;;; ret tt
  | op_delete svc => svc_delete svc
  | op_start svc when => svc_handle_start svc when ;;; ret tt
  | op_cancel svc => svc_cancel_start svc ;;; ret tt
  | op_reaped svc wstat => svc_handle_reaped svc wstat
  | op_change_pid svc new_pid => svc_change_pid svc new_pid
  | op_run fuel svc => svc_run FORK_RETRY_DELAY NSIG fuel svc
  | op_tick fuel => svc_run_active FORK_RETRY_DELAY NSIG fuel
  | op_set_var ok svc name value =>
      svc_set_var NAME_BUF_SIZE NAME_BUF_OFFSET fresh_byte ok svc name value ;;; ret tt
  | op_set_tags ok svc seg =>
      svc_set_tags NAME_BUF_SIZE NAME_BUF_OFFSET fresh_byte ok svc seg ;;; ret tt
  | op_set_argv ok svc seg =>
      svc_set_argv NAME_BUF_SIZE NAME_BUF_OFFSET fresh_byte ok svc seg ;;; ret tt
  | op_set_fds ok svc seg =>
      svc_set_fds NAME_BUF_SIZE NAME_BUF_OFFSET fresh_byte ok svc seg ;;; ret tt
  | op_set_restart_interval svc interval =>
      svc_set_restart_interval svc interval ;;; ret tt
  | op_set_triggers ok svc seg =>
      svc_set_triggers NAME_BUF_SIZE NAME_BUF_OFFSET sig_num_by_name NSIG fresh_byte ok svc seg
      ;;; ret tt
  | op_set_sigwake svc on => svc_set_sigwake svc on
  end.

(** The name given to a creation is a segment that lies in its block. *)
Definition name_arg_ok (o : op) : Prop :=
  match o with
  | op_create _ name => seg_ok name
  | _ => True
  end.

(** The states the module goes through: from [svc_init], with or
    without [svc_preallocate], by the operations that return.  A call
    that ends in the child of a [fork], or in a pool with stores past
    the end of [name_buf], is no step: what the embedding says of the
    reachable states it says of the states before such a call. *)
Inductive reachable : core -> Prop :=
| reach_init now evs ls : reachable (svc_init now evs ls)
| reach_pool now evs ls pool_base count data_size_each :
    0 < SIZEOF_SERVICE -> 0 <= data_size_each ->
    reachable (svc_preallocate SIZEOF_SERVICE pool_base count data_size_each
                 (svc_init now evs ls))
| reach_env g now next evs ls :
    reachable g -> reachable (set_env now next evs ls g)
| reach_step g o a g' :
    reachable g -> op_allowed g o -> run_op o g = Ok a g' -> reachable g'.

(** The states reached when, in addition, the names given to the
    creations are segments that can be read. *)
Inductive reachable_wf : core -> Prop :=
| wf_init now evs ls : reachable_wf (svc_init now evs ls)
| wf_pool now evs ls pool_base count data_size_each :
    0 < SIZEOF_SERVICE -> 0 <= data_size_each ->
    reachable_wf (svc_preallocate SIZEOF_SERVICE pool_base count data_size_each
                    (svc_init now evs ls))
| wf_env g now next evs ls :
    reachable_wf g -> reachable_wf (set_env now next evs ls g)
| wf_step g o a g' :
    reachable_wf g -> op_allowed g o -> name_arg_ok o ->
    run_op o g = Ok a g' -> reachable_wf g'.

(** What a creation leaves: the new record is appended to the live
    records, is the object of [svc_ctor] and is added to the name
    index; a creation that fails changes no record. *)
Definition created (g : core) (name : strseg_t) (r : option N) (g' : core)
  : Prop :=
  match r with
  | Some svc =>
      (svc ∉ live g) /\ live g' = live g ++ [svc] /\
      the_svc g' svc
      = svc_ctor_object NAME_BUF_SIZE (svc_pool g) name /\
      (forall q, q <> svc -> svc_mem g' !! q = svc_mem g !! q) /\
      svc_by_name_index g'
      = RBTree_Add (svc_by_name_compare g' name) (svc_by_name_index g) svc /\
      svc_by_pid_index g' = svc_by_pid_index g
  | None => live g' = live g /\ svc_mem g' = svc_mem g /\
            svc_by_name_index g' = svc_by_name_index g /\
            svc_by_pid_index g' = svc_by_pid_index g
  end.

End Reach.


(** ** Sample constants and states, for the examples *)

Definition sample_sig_num_by_name (n : list char) : Z :=
  if bool_decide (n = lit "SIGHUP") then 1
  else if bool_decide (n = lit "SIGINT") then 2
  else if bool_decide (n = lit "SIGTERM") then 15
  else 0.

Definition sample_alloc (p : N) : alloc := {| resize_ok := true; malloc_ret := p |}.

(** The state after [svc_init] at time [100 << 32] and the creation of
    the service "web" at address 16 (no pool). *)
Definition sample_core : core :=
  match svc_by_name 64 (sample_alloc 16) (STRSEG (lit "web")) true
          (svc_init (Z.shiftl 100 32) [] []) with
  | Ok _ g => g
  | Abort _ => svc_init 0 [] []
  end.

Definition sample_svc : service_t :=
  svc_ctor_object 64 false (STRSEG (lit "web")).

(** [sample_core] after [svc_handle_start] of "web" for time [130 << 32]. *)
Definition sample_started : core :=
  match svc_handle_start 16 (Z.shiftl 130 32) sample_core with
  | Ok _ g => g
  | Abort _ => sample_core
  end.

(** A launch that succeeds with child [p]. *)
Definition sample_launch (p : Z) : launch :=
  {| ctl_alloc_ok := true; socketpair_ok := true; ctl_ctor_ok := true;
     fork_ret := p |}.

(** "web" with the trigger [always] and a restart interval of 2 seconds,
    started at [90 << 32] as process 4242 and reaped at [100 << 32], the
    current time; the next launch will succeed with child 4243. *)
Definition sample_reaped_svc : service_t :=
  set_state SVC_STATE_REAPED
    (set_auto_restart true
       (set_restart_interval (Z.shiftl 2 32)
          (set_start_time (Z.shiftl 90 32)
             (set_reap_time (Z.shiftl 100 32)
                (set_wait_status 0 (set_pid 4242 sample_svc)))))).

Definition sample_reaped : core :=
  put_mem (<[16%N := sample_reaped_svc]> (svc_mem sample_core))
    (put_active_list [16%N]
       (put_by_pid_index (RBNode Sentinel 16 Sentinel)
          (put_launches [sample_launch 4243] sample_core))).

(** The reading of the REAPED tick under which the call returns with a
    restarted record in START at the time of the back-off rule. *)
Definition reaped_tick_returns_in_start (FORK_RETRY_DELAY NSIG : Z)
    (g : core) (svc : N) : Prop :=
  forall s, svc_mem g !! svc = Some s ->
    state s = SVC_STATE_REAPED ->
    restart_wanted NSIG g s = true ->
    exists fuel g' s',
      svc_run FORK_RETRY_DELAY NSIG fuel svc g = Ok tt g' /\
      svc_mem g' !! svc = Some s' /\
      state s' = SVC_STATE_START /\
      start_time s' = restart_time (wake_now g) s.

(** The reading of the validation of triggers under which any token that
    is neither [always] nor a signal name makes [svc_set_triggers] fail. *)
Definition bad_token_fails (NAME_BUF_SIZE NAME_BUF_OFFSET : Z)
    (sig_num_by_name : list char -> Z) (NSIG : Z) (fresh_byte : char)
    (g : core) (svc : N) (t : list char) : Prop :=
  forall tok, tok ∈ split_on TAB t -> tok <> [] -> tok <> lit "always" ->
    sig_num_by_name tok <= 0 ->
    forall realloc_ok,
      svc_set_triggers NAME_BUF_SIZE NAME_BUF_OFFSET sig_num_by_name NSIG fresh_byte
        realloc_ok svc (STRSEG t) g = Ok false g.

(** A pool of two slots of 240 bytes at address 1024, with "web" in the
    first slot. *)
Definition sample_pool_core : core :=
  match svc_by_name 64 (sample_alloc 0) (STRSEG (lit "web")) true
          (svc_preallocate 200 1024 2 32 (svc_init (Z.shiftl 100 32) [] [])) with
  | Ok _ g => g
  | Abort _ => svc_init 0 [] []
  end.

Definition sample_pool_svc : service_t :=
  svc_ctor_object 64 true (STRSEG (lit "web")).





(** The reading of the round trip under which clearing a variable after
    setting it restores the buffer whatever it held before. *)
Definition set_clear_restores (NAME_BUF_SIZE NAME_BUF_OFFSET : Z)
    (fresh_byte : char)
    (g : core) (svc : N) (k v : list char) : Prop :=
  forall ok1 ok2 g1 g2 s s2,
    svc_mem g !! svc = Some s ->
    svc_set_var NAME_BUF_SIZE NAME_BUF_OFFSET fresh_byte ok1 svc (STRSEG k)
      (Some (STRSEG v)) g = Ok true g1 ->
    svc_set_var NAME_BUF_SIZE NAME_BUF_OFFSET fresh_byte ok2 svc (STRSEG k) None g1
    = Ok true g2 ->
    svc_mem g2 !! svc = Some s2 ->
    vars_bytes s2 = vars_bytes s.

(** The state an operation leaves, or the old one when it does not
    return. *)
Definition after {A} (m : M A) (g : core) : core :=
  match m g with
  | Ok _ g' => g'
  | Abort _ => g
  end.

(** [sample_core] with the tags of "web" set to "a", then to "b", then
    cleared. *)
Definition sample_tagged : core :=
  after (svc_set_tags 64 4 0 true 16 (STRSEG (lit "a"))) sample_core.

Definition sample_retagged : core :=
  after (svc_set_var 64 4 0 true 16 (STRSEG (lit "tags")) (Some (STRSEG (lit "b"))))
        sample_tagged.

Definition sample_cleared : core :=
  after (svc_set_var 64 4 0 true 16 (STRSEG (lit "tags")) None) sample_retagged.

(** The operations with the constants of the examples. *)
Definition sample_run_op : op -> M unit :=
  run_op 64 (Z.shiftl 10 32) 4 sample_sig_num_by_name 65 0.

(** A run of the module: [svc_init] at time [100 << 32], with a launcher
    that will answer with child 4242; the creation of "web" at address
    16; its start, due at once. *)
Definition sample_run_0 : core :=
  svc_init (Z.shiftl 100 32) [] [sample_launch 4242].

Definition sample_run_1 : core :=
  after (sample_run_op (op_create (sample_alloc 16) (STRSEG (lit "web"))))
        sample_run_0.

Definition sample_run_2 : core :=
  after (sample_run_op (op_start 16 0)) sample_run_1.

(** The tick that launches "web". *)
Definition sample_run_3 : core :=
  after (sample_run_op (op_tick 3)) sample_run_2.

(** [sample_run_1] with "web" started for a time thirty seconds ahead. *)
Definition sample_waiting : core :=
  after (sample_run_op (op_start 16 (Z.shiftl 130 32))) sample_run_1.

(** [sample_run_2] with a launcher whose [fork] will fail. *)
Definition sample_fork_fails : core :=
  put_launches [sample_launch (-1)] sample_run_2.

(** [sample_run_2] with a second service, "db" at address 32, which
    stays idle. *)
Definition sample_two : core :=
  after (sample_run_op (op_create (sample_alloc 32) (STRSEG (lit "db"))))
        sample_run_2.

(** [sample_pool_core] with the tags of "web" set to "a". *)
Definition sample_pool_tagged : core :=
  after (svc_set_tags 64 4 0 true 1024 (STRSEG (lit "a"))) sample_pool_core.

(** Three services "a", "c" and "e", created in the order c, a, e. *)
Definition sample_ace : core :=
  after (svc_by_name 64 (sample_alloc 48) (STRSEG (lit "e")) true)
    (after (svc_by_name 64 (sample_alloc 16) (STRSEG (lit "a")) true)
       (after (svc_by_name 64 (sample_alloc 32) (STRSEG (lit "c")) true)
          (svc_init 0 [] []))).

(* ===================================================================== *)
(** * Properties *)
(* ===================================================================== *)

(** ** Integers *)

Lemma wrap64_id z : in_int64 z -> wrap64 z = z.
Proof.
  unfold in_int64, wrap64. intros H.
  rewrite Z.mod_small; lia.
Qed.

Lemma wrap64_range z : in_int64 (wrap64 z).
Proof.
  unfold in_int64, wrap64.
  pose proof (Z.mod_pos_bound (z + 2 ^ 63) (2 ^ 64) ltac:(lia)). lia.
Qed.

(** ** The monad *)

Ltac unfold_monad :=
  unfold bind, ret, gets, modify, throw, when_, deref, update in *.

Lemma lookup_put_mem m g p : svc_mem (put_mem m g) !! p = m !! p.
Proof. reflexivity. Qed.

(** ** Names *)

Section NameProperties.
Variable NAME_BUF_SIZE : Z.

(** What [svc_check_name] decides: the length is below
    [NAME_BUF_SIZE] and every byte is of the name alphabet. *)
Lemma svc_check_name_spec (name : list char) :
  svc_check_name NAME_BUF_SIZE (STRSEG name) = true <->
  Z.of_nat (length name) < NAME_BUF_SIZE /\
  Forall (fun c => name_char_ok c = true) name.
Proof.
  unfold svc_check_name, STRSEG, seg_bytes; cbn [len data base].
  rewrite Nat2Z.id, drop_0, firstn_all.
  destruct (Z.geb_spec (Z.of_nat (length name)) NAME_BUF_SIZE) as [Hge|Hlt].
  - split; [discriminate | intros [? _]; lia].
  - rewrite forallb_forall, List.Forall_forall. split.
    + intros H. split; [lia | exact H].
    + intros [_ H]. exact H.
Qed.

(** C3 (code at the failing input): [svc_check_name] accepts the empty
    name, which the assertion [svc->name.len > 0] of [svc_check] and
    the name syntax exclude. *)
Theorem svc_check_name_accepts_empty :
  0 < NAME_BUF_SIZE -> svc_check_name NAME_BUF_SIZE (STRSEG []) = true.
Proof.
  intros H. apply svc_check_name_spec. split; [simpl; lia | constructor].
Qed.
End NameProperties.

Lemma svc_check_name_accepts_empty_witness :
  0 < 64 /\ svc_check_name 64 (STRSEG []) = true.
Proof.
  split; [lia | apply (svc_check_name_accepts_empty 64); lia].
Defined.

Tactic Notation "core_simpl" :=
  cbn [svc_mem svc_list svc_list_count svc_pool svc_pool_size_each
       svc_by_name_index svc_by_pid_index svc_active_list svc_sigwake_list
       svc_last_signal_ts wake_now wake_next sig_events launches notified
       put_mem put_list put_list_count put_pool put_pool_size_each
       put_by_name_index put_by_pid_index put_active_list put_sigwake_list
       put_last_signal_ts put_wake_next put_launches put_notified
       state name_buf vars_data vars_len pid auto_restart sigwake
       uses_control_event uses_control_cmd uses_control_socket wait_status
       start_time reap_time restart_interval autostart_signals
       set_state set_vars set_pid set_auto_restart set_sigwake
       set_uses_control set_wait_status set_start_time set_reap_time
       set_restart_interval set_autostart_signals
       bind ret gets modify throw when_ negb andb orb Z.eqb Pos.eqb
       SVC_STATE_UNDEF SVC_STATE_DOWN SVC_STATE_START SVC_STATE_UP
       SVC_STATE_REAPED].

Tactic Notation "core_simpl" "in" hyp(H) :=
  cbn [svc_mem svc_list svc_list_count svc_pool svc_pool_size_each
       svc_by_name_index svc_by_pid_index svc_active_list svc_sigwake_list
       svc_last_signal_ts wake_now wake_next sig_events launches notified
       put_mem put_list put_list_count put_pool put_pool_size_each
       put_by_name_index put_by_pid_index put_active_list put_sigwake_list
       put_last_signal_ts put_wake_next put_launches put_notified
       state name_buf vars_data vars_len pid auto_restart sigwake
       uses_control_event uses_control_cmd uses_control_socket wait_status
       start_time reap_time restart_interval autostart_signals
       set_state set_vars set_pid set_auto_restart set_sigwake
       set_uses_control set_wait_status set_start_time set_reap_time
       set_restart_interval set_autostart_signals
       bind ret gets modify throw when_ negb andb orb Z.eqb Pos.eqb
       SVC_STATE_UNDEF SVC_STATE_DOWN SVC_STATE_START SVC_STATE_UP
       SVC_STATE_REAPED] in H.

(** Run the monadic code symbolically: reduce, and read the object at
    the address of hypothesis [H]. *)
Ltac mrun H :=
  repeat (progress (core_simpl; rewrite ?H, ?lookup_insert_eq)).

(** ** Admin operations *)

Lemma svc_set_active_ok (g : core) (svc : N) (activate : bool) :
  svc_set_active svc activate g =
  Ok tt (if activate
         then if linked svc (svc_active_list g) then g
              else put_active_list (svc :: svc_active_list g) g
         else if linked svc (svc_active_list g)
              then put_active_list (unlink svc (svc_active_list g)) g
              else g).
Proof.
  unfold svc_set_active. unfold_monad.
  destruct activate, (linked svc (svc_active_list g)); reflexivity.
Qed.

Lemma svc_change_pid_ok (g : core) (svc : N) (s : service_t) (p : Z) :
  svc_mem g !! svc = Some s ->
  svc_change_pid svc p g =
  Ok tt
    (let g1 := if pid s =? 0 then g
               else put_by_pid_index
                      (RBTreeNode_Prune (svc_by_pid_index g) svc) g in
     let g2 := put_mem (<[svc := set_pid p s]> (svc_mem g)) g1 in
     if p =? 0 then g2
     else put_by_pid_index
            (RBTree_Add (svc_by_pid_compare g2 p) (svc_by_pid_index g2) svc) g2).
Proof.
  intros Hs. unfold svc_change_pid. unfold_monad. rewrite Hs.
  destruct (pid s =? 0); mrun Hs; destruct (p =? 0); reflexivity.
Qed.

Lemma svc_notify_state_ok (g : core) (svc : N) (s : service_t) :
  svc_mem g !! svc = Some s ->
  svc_notify_state svc g = Ok tt (put_notified (note_of s :: notified g) g).
Proof. intros Hs. unfold svc_notify_state. unfold_monad. rewrite Hs. reflexivity. Qed.

Lemma linked_true svc (l : list N) : linked svc l = true <-> svc ∈ l.
Proof. unfold linked. apply bool_decide_eq_true. Qed.

(** The effect of [svc_handle_start] on a record that is DOWN or START,
    whatever the times are. *)
Lemma svc_handle_start_ok (g : core) (svc : N) (s : service_t) (when : Z) :
  svc_mem g !! svc = Some s ->
  state s = SVC_STATE_DOWN \/ state s = SVC_STATE_START ->
  exists g',
    svc_handle_start svc when g = Ok true g' /\
    svc_mem g' =
      <[svc := started (biased (if wrap64 (when - wake_now g) >? 0
                                then when else wake_now g)) s]> (svc_mem g) /\
    svc_active_list g' =
      (if linked svc (svc_active_list g) then svc_active_list g
       else svc :: svc_active_list g) /\
    svc_by_pid_index g' =
      (if pid s =? 0 then svc_by_pid_index g
       else RBTreeNode_Prune (svc_by_pid_index g) svc) /\
    wake_next g' = wake_now g /\
    wake_now g' = wake_now g /\
    svc_by_name_index g' = svc_by_name_index g /\
    svc_sigwake_list g' = svc_sigwake_list g /\
    svc_list g' = svc_list g /\ svc_list_count g' = svc_list_count g /\
    svc_pool g' = svc_pool g /\ svc_pool_size_each g' = svc_pool_size_each g /\
    svc_last_signal_ts g' = svc_last_signal_ts g /\
    sig_events g' = sig_events g /\ launches g' = launches g /\
    notified g' =
      note_of (started (biased (if wrap64 (when - wake_now g) >? 0
                                then when else wake_now g)) s)
      :: notified g.
Proof.
  intros Hs Hst.
  unfold svc_handle_start, svc_change_pid, svc_set_active, svc_notify_state.
  unfold_monad. rewrite Hs.
  assert (negb (state s =? SVC_STATE_DOWN) && negb (state s =? SVC_STATE_START)
          = false) as ->.
  { destruct Hst as [-> | ->]; reflexivity. }
  mrun Hs.
  destruct (pid s =? 0) eqn:Hpid; mrun Hs;
    destruct (linked svc (svc_active_list g)) eqn:Hl; mrun Hs;
    (eexists; split; [reflexivity|]); mrun Hs;
    rewrite ?insert_insert_eq; repeat split; reflexivity.
Qed.

(** C1: on a record that is DOWN or START, [svc_handle_start(when)]
    returns true and leaves the record in START with
    [start_time = max(when, now)] (1 when that is 0), [pid = 0],
    [reap_time = 0], [wait_status = -1], on the active list, and the loop
    wake deadline is [now].  The difference [when - now] is assumed to be
    an [int64_t] (its overflow is undefined in C). *)
Theorem svc_handle_start_correct (g : core) (svc : N) (s : service_t) (when : Z) :
  svc_mem g !! svc = Some s ->
  state s = SVC_STATE_DOWN \/ state s = SVC_STATE_START ->
  in_int64 (when - wake_now g) ->
  exists g' s',
    svc_handle_start svc when g = Ok true g' /\
    svc_mem g' !! svc = Some s' /\
    state s' = SVC_STATE_START /\
    start_time s' = biased (Z.max when (wake_now g)) /\
    pid s' = 0 /\ reap_time s' = 0 /\ wait_status s' = -1 /\
    svc ∈ svc_active_list g' /\
    wake_next g' = wake_now g /\ wake_now g' = wake_now g.
Proof.
  intros Hs Hst Hrange.
  destruct (svc_handle_start_ok g svc s when Hs Hst)
    as (g' & Hrun & Hmem & Hact & _ & Hnext & Hnow & _).
  exists g'. eexists. split; [exact Hrun|].
  split; [rewrite Hmem; apply lookup_insert_eq|].
  rewrite (wrap64_id _ Hrange).
  repeat split; try reflexivity; try assumption.
  - cbn. f_equal. destruct (Z.gtb_spec (when - wake_now g) 0); lia.
  - rewrite Hact. destruct (linked svc (svc_active_list g)) eqn:Hl.
    + apply linked_true, Hl.
    + apply list_elem_of_here.
Qed.

Lemma svc_handle_start_correct_witness :
  exists g' s',
    svc_handle_start 16 (Z.shiftl 130 32) sample_core = Ok true g' /\
    svc_mem g' !! 16%N = Some s' /\
    state s' = SVC_STATE_START /\
    start_time s' = biased (Z.max (Z.shiftl 130 32) (wake_now sample_core)) /\
    pid s' = 0 /\ reap_time s' = 0 /\ wait_status s' = -1 /\
    16%N ∈ svc_active_list g' /\
    wake_next g' = wake_now sample_core /\ wake_now g' = wake_now sample_core.
Proof.
  apply (svc_handle_start_correct sample_core 16 sample_svc (Z.shiftl 130 32)).
  - reflexivity.
  - left. reflexivity.
  - vm_compute. split; [discriminate | reflexivity].
Defined.

(** ** The state machine *)

Section StateMachine.
Variable FORK_RETRY_DELAY : Z.
Variable NSIG : Z.

(** One pass through [re_switch_state]. *)
Lemma svc_run_S (fuel : nat) (svc : N) :
  svc_run FORK_RETRY_DELAY NSIG (S fuel) svc =
  (s <- deref svc ;;
   now <- gets wake_now ;;
   if state s =? SVC_STATE_START then
     if wrap64 (start_time s - now) >? 0 then
       next <- gets wake_next ;;
       when_ (wrap64 (start_time s - next) <? 0)
             (modify (put_wake_next (start_time s))) ;;;
       svc_set_active svc true
     else
       forked <- svc_do_fork svc ;;
       if negb forked then
         svc_handle_start svc (wrap64 (now + FORK_RETRY_DELAY)) ;;;
         svc_run FORK_RETRY_DELAY NSIG fuel svc
       else
         update svc (set_start_time (if negb (now =? 0) then now else 1)) ;;;
         update svc (set_state SVC_STATE_UP) ;;;
         svc_notify_state svc ;;;
         svc_set_active svc false
   else if state s =? SVC_STATE_UP then
     svc_set_active svc false
   else if state s =? SVC_STATE_REAPED then
     svc_notify_state svc ;;;
     update svc (set_state SVC_STATE_DOWN) ;;;
     pending <- (if auto_restart s then ret true
                 else svc_check_sigwake NSIG svc) ;;
     (if pending then
        svc_handle_start svc
          (if wrap64 (reap_time s - start_time s) <? restart_interval s
           then wrap64 (now + restart_interval s) else now) ;;;
        svc_notify_state svc
      else ret tt) ;;;
     svc_run FORK_RETRY_DELAY NSIG fuel svc
   else if state s =? SVC_STATE_DOWN then
     svc_set_active svc false
   else ret tt)%svc.
Proof. reflexivity. Qed.

(** A tick on a record that is DOWN: it leaves the active list. *)
Lemma svc_run_down (fuel : nat) (g : core) (svc : N) (s : service_t) :
  svc_mem g !! svc = Some s ->
  state s = SVC_STATE_DOWN ->
  svc_run FORK_RETRY_DELAY NSIG (S fuel) svc g
  = Ok tt (if linked svc (svc_active_list g)
           then put_active_list (unlink svc (svc_active_list g)) g else g).
Proof.
  intros Hs Hst. rewrite svc_run_S. unfold svc_set_active. unfold_monad.
  mrun Hs. rewrite Hst. mrun Hs.
  destruct (linked svc (svc_active_list g)); reflexivity.
Qed.

(** A tick on a START record that is active and not yet due. *)
Lemma svc_run_start_future (fuel : nat) (g : core) (svc : N) (s : service_t) :
  svc_mem g !! svc = Some s ->
  state s = SVC_STATE_START ->
  wake_now g < start_time s ->
  svc ∈ svc_active_list g ->
  in_int64 (start_time s - wake_now g) ->
  in_int64 (start_time s - wake_next g) ->
  svc_run FORK_RETRY_DELAY NSIG (S fuel) svc g
  = Ok tt (put_wake_next (Z.min (wake_next g) (start_time s)) g).
Proof.
  intros Hs Hst Hfut Hact Hr1 Hr2.
  rewrite svc_run_S. unfold svc_set_active. unfold_monad. mrun Hs.
  rewrite Hst. mrun Hs.
  rewrite (wrap64_id _ Hr1).
  destruct (Z.gtb_spec (start_time s - wake_now g) 0); [|lia].
  mrun Hs. rewrite (wrap64_id _ Hr2).
  apply linked_true in Hact.
  destruct (Z.ltb_spec (start_time s - wake_next g) 0); mrun Hs;
    rewrite Hact; cbn [negb andb]; f_equal.
  - rewrite Z.min_r by lia. reflexivity.
  - rewrite Z.min_l by lia. destruct g; reflexivity.
Qed.

(** C8: a tick on a START record whose start time is still in the
    future does not fork and does not notify; the record, the lists and
    the indices are as before, and only the loop wake deadline changes,
    to the minimum of the existing deadline and the start time.  The
    record is on the active list, as every START record is; the two
    differences of timestamps are assumed to be [int64_t]. *)
Theorem svc_run_start_pending (fuel : nat) (g : core) (svc : N) (s : service_t) :
  svc_mem g !! svc = Some s ->
  state s = SVC_STATE_START ->
  wake_now g < start_time s ->
  svc ∈ svc_active_list g ->
  in_int64 (start_time s - wake_now g) ->
  in_int64 (start_time s - wake_next g) ->
  svc_run FORK_RETRY_DELAY NSIG (S fuel) svc g
  = Ok tt (put_wake_next (Z.min (wake_next g) (start_time s)) g).
Proof. apply svc_run_start_future. Qed.

Lemma not_elem_of_unlink svc (l : list N) : svc ∉ unlink svc l.
Proof.
  unfold unlink. intros H. apply list_elem_of_In, filter_In in H as [_ H].
  rewrite N.eqb_refl in H. discriminate.
Qed.

(** The REAPED pass when no restart is wanted: the record is DOWN and
    the next pass, in the same call, takes it off the active list. *)
Lemma svc_run_reaped_down (fuel : nat) (g : core) (svc : N) (s : service_t) :
  svc_mem g !! svc = Some s ->
  state s = SVC_STATE_REAPED ->
  restart_wanted NSIG g s = false ->
  exists g',
    svc_run FORK_RETRY_DELAY NSIG (S (S fuel)) svc g = Ok tt g' /\
    svc_mem g' = <[svc := set_state SVC_STATE_DOWN s]> (svc_mem g) /\
    (svc ∉ svc_active_list g') /\
    launches g' = launches g /\
    notified g' = note_of s :: notified g.
Proof.
  intros Hs Hst Hw. unfold restart_wanted, trigger_pending in Hw.
  apply orb_false_iff in Hw as [Har Hw].
  rewrite svc_run_S. unfold svc_notify_state, svc_check_sigwake.
  unfold_monad. mrun Hs. rewrite Hst. mrun Hs. rewrite Har. mrun Hs.
  assert (Hscan : (if negb (sigwake s) then false
                   else sigwake_scan NSIG (S (length (sig_events g)))
                          (sig_events g) (autostart_signals s) 0) = false).
  { destruct (sigwake s); [exact Hw | reflexivity]. }
  destruct (negb (sigwake s)); mrun Hs; rewrite ?Hscan; mrun Hs.
  all: set (g1 := put_mem _ _).
  all: assert (Hs1 : svc_mem g1 !! svc = Some (set_state SVC_STATE_DOWN s))
    by apply lookup_insert_eq.
  all: rewrite (svc_run_down fuel g1 svc _ Hs1 eq_refl).
  all: subst g1; mrun Hs.
  all: destruct (linked svc (svc_active_list g)) eqn:Hl.
  all: eexists; split; [reflexivity|]; mrun Hs.
  all: repeat split; try reflexivity.
  all: try apply not_elem_of_unlink.
  all: intros Hin; apply linked_true in Hin; congruence.
Qed.


(** The REAPED pass when a restart is wanted: [svc_handle_start] with
    the back-off rule, and the call goes on with the START case. *)
Lemma svc_run_reaped_restart (fuel : nat) (g : core) (svc : N) (s : service_t) :
  svc_mem g !! svc = Some s ->
  state s = SVC_STATE_REAPED ->
  restart_wanted NSIG g s = true ->
  0 <= restart_interval s ->
  in_int64 (restart_interval s) ->
  in_int64 (reap_time s - start_time s) ->
  in_int64 (wake_now g + restart_interval s) ->
  exists g1,
    svc_run FORK_RETRY_DELAY NSIG (S fuel) svc g
    = svc_run FORK_RETRY_DELAY NSIG fuel svc g1 /\
    svc_mem g1 = <[svc := started (biased (restart_time (wake_now g) s)) s]>
                   (svc_mem g) /\
    svc ∈ svc_active_list g1 /\
    wake_next g1 = wake_now g /\ wake_now g1 = wake_now g /\
    launches g1 = launches g.
Proof.
  intros Hs Hst Hw Hi0 Hi Hr1 Hr2.
  unfold restart_wanted, trigger_pending in Hw.
  rewrite svc_run_S. unfold svc_check_sigwake.
  unfold_monad. mrun Hs. rewrite Hst. mrun Hs.
  rewrite (svc_notify_state_ok _ _ _ Hs). mrun Hs.
  assert (Hscan : auto_restart s = false ->
                  (if negb (sigwake s) then false
                   else sigwake_scan NSIG (S (length (sig_events g)))
                          (sig_events g) (autostart_signals s) 0) = true).
  { intros Har. rewrite Har in Hw. destruct (sigwake s); [exact Hw | discriminate]. }
  set (g0 := put_mem (<[svc:=set_state SVC_STATE_DOWN s]> (svc_mem g))
               (put_notified (note_of s :: notified g) g)).
  assert (Hs0 : svc_mem g0 !! svc = Some (set_state SVC_STATE_DOWN s))
    by apply lookup_insert_eq.
  set (when := if wrap64 (reap_time s - start_time s) <? restart_interval s
               then wrap64 (wake_now g + restart_interval s) else wake_now g).
  destruct (svc_handle_start_ok g0 svc _ when Hs0 (or_introl eq_refl))
    as (g' & Hrun & Hmem & Hact & _ & Hnext & Hnow & _ & _ & _ & _ & _ & _
        & _ & _ & Hl & _).
  assert (Hgoal : exists g1,
    match
      match svc_handle_start svc when g0 with
      | Ok _ g'0 => svc_notify_state svc g'0
      | Abort e => Abort e
      end
    with
    | Ok _ g'0 => svc_run FORK_RETRY_DELAY NSIG fuel svc g'0
    | Abort e => Abort e
    end = svc_run FORK_RETRY_DELAY NSIG fuel svc g1 /\
    svc_mem g1 = <[svc := started (biased (restart_time (wake_now g) s)) s]>
                   (svc_mem g) /\
    svc ∈ svc_active_list g1 /\
    wake_next g1 = wake_now g /\ wake_now g1 = wake_now g /\
    launches g1 = launches g).
  { rewrite Hrun. erewrite svc_notify_state_ok
      by (rewrite Hmem; apply lookup_insert_eq).
    eexists. split; [reflexivity|].
    core_simpl. rewrite Hmem, Hact, Hnext, Hnow, Hl. subst g0. core_simpl.
    rewrite insert_insert_eq. repeat split.
    - assert (Ht : (if wrap64 (when - wake_now g) >? 0 then when
                    else wake_now g) = restart_time (wake_now g) s).
      { subst when. unfold restart_time.
        rewrite (wrap64_id _ Hr1), (wrap64_id _ Hr2).
        destruct (Z.ltb_spec (reap_time s - start_time s) (restart_interval s)).
        + replace (wake_now g + restart_interval s - wake_now g)
            with (restart_interval s) by lia.
          rewrite (wrap64_id _ Hi).
          destruct (Z.gtb_spec (restart_interval s) 0); lia.
        + rewrite Z.sub_diag. reflexivity. }
      rewrite Ht. reflexivity.
    - destruct (linked svc (svc_active_list g)) eqn:Hlk.
      + apply linked_true, Hlk.
      + apply list_elem_of_here. }
  destruct (auto_restart s) eqn:Har; mrun Hs.
  - exact Hgoal.
  - specialize (Hscan eq_refl).
    destruct (sigwake s) eqn:Hsw; cbn [negb] in *; [|discriminate].
    rewrite Hs0. mrun Hs. rewrite Hsw. mrun Hs.
    change (sig_events g0) with (sig_events g). rewrite Hscan. exact Hgoal.
Qed.


(** A tick on a START record that is due, when the launch succeeds:
    the record is UP with the child's pid and leaves the active list. *)
Lemma svc_run_start_launch (fuel : nat) (g : core) (svc : N) (s : service_t)
    (l : launch) (ls : list launch) :
  svc_mem g !! svc = Some s ->
  state s = SVC_STATE_START ->
  start_time s <= wake_now g ->
  in_int64 (start_time s - wake_now g) ->
  launches g = l :: ls ->
  launch_succeeds s l ->
  exists g',
    svc_run FORK_RETRY_DELAY NSIG (S fuel) svc g = Ok tt g' /\
    svc_mem g' = <[svc := launched (wake_now g) (fork_ret l) s]> (svc_mem g) /\
    (svc ∉ svc_active_list g') /\
    launches g' = ls.
Proof.
  intros Hs Hst Hdue Hr Hl [Hctl Hpid].
  rewrite svc_run_S. unfold svc_do_fork. unfold_monad. mrun Hs.
  rewrite Hst. mrun Hs. rewrite (wrap64_id _ Hr).
  destruct (Z.gtb_spec (start_time s - wake_now g) 0); [lia|].
  mrun Hs. rewrite Hl. cbn [hd tl]. mrun Hs.
  assert (Hc : (uses_control_socket s || uses_control_event s
                || uses_control_cmd s) && negb (ctl_alloc_ok l) = false
               /\ (uses_control_socket s || uses_control_event s
                   || uses_control_cmd s) && negb (socketpair_ok l) = false
               /\ (uses_control_socket s || uses_control_event s
                   || uses_control_cmd s) && negb (ctl_ctor_ok l) = false).
  { destruct (uses_control_socket s || uses_control_event s
              || uses_control_cmd s); [|auto].
    destruct (Hctl eq_refl) as (-> & -> & ->). auto. }
  destruct Hc as (-> & -> & ->).
  destruct (Z.ltb_spec (fork_ret l) 0); [lia|].
  destruct (Z.eqb_spec (fork_ret l) 0); [lia|].
  set (g0 := put_launches ls g).
  assert (Hs0 : svc_mem g0 !! svc = Some s) by exact Hs.
  rewrite (svc_change_pid_ok g0 svc s (fork_ret l) Hs0).
  cbv zeta. destruct (Z.eqb_spec (fork_ret l) 0); [lia|].
  mrun Hs0.
  erewrite svc_notify_state_ok by (core_simpl; apply lookup_insert_eq).
  rewrite svc_set_active_ok. eexists. split; [reflexivity|].
  assert (Hb : (if negb (wake_now g =? 0) then wake_now g else 1)
               = biased (wake_now g)).
  { unfold biased. destruct (wake_now g =? 0); reflexivity. }
  destruct (pid s =? 0), (linked svc _) eqn:Hlk; subst g0; core_simpl.
  all: repeat split.
  all: try (rewrite !insert_insert_eq, Hb; reflexivity).
  all: try apply not_elem_of_unlink.
  all: intros Hin; apply linked_true in Hin; core_simpl in Hlk; congruence.
Qed.


(** C2 (amended): a call of [svc_run] on a REAPED record makes the
    transition without returning in between.  With neither
    [auto_restart] nor a pending trigger signal it returns with the
    record DOWN and off the active list.  Otherwise [svc_handle_start]
    puts the record in START, at [now + restart_interval] when
    [reap_time - start_time < restart_interval] and at [now] otherwise
    (0 stored as 1), and the same call goes on with the START case: it
    returns with the record in START when that time is still in the
    future, and launches the child at once when it is not, returning
    with the record UP when the launch succeeds. *)
Theorem svc_run_reaped (fuel : nat) (g : core) (svc : N) (s : service_t) :
  svc_mem g !! svc = Some s ->
  state s = SVC_STATE_REAPED ->
  0 <= restart_interval s ->
  0 <= wake_now g ->
  in_int64 (reap_time s - start_time s) ->
  in_int64 (wake_now g + restart_interval s) ->
  let now := wake_now g in
  let t := biased (restart_time now s) in
  (restart_wanted NSIG g s = false ->
   exists g',
     svc_run FORK_RETRY_DELAY NSIG (S (S fuel)) svc g = Ok tt g' /\
     svc_mem g' !! svc = Some (set_state SVC_STATE_DOWN s) /\
     (svc ∉ svc_active_list g') /\
     launches g' = launches g) /\
  (restart_wanted NSIG g s = true ->
   (exists g1,
      svc_run FORK_RETRY_DELAY NSIG (S fuel) svc g
      = svc_run FORK_RETRY_DELAY NSIG fuel svc g1 /\
      svc_mem g1 !! svc = Some (started t s) /\
      svc ∈ svc_active_list g1 /\
      wake_next g1 = now /\ launches g1 = launches g) /\
   (now < t ->
    exists g',
      svc_run FORK_RETRY_DELAY NSIG (S (S fuel)) svc g = Ok tt g' /\
      svc_mem g' !! svc = Some (started t s) /\
      svc ∈ svc_active_list g' /\
      launches g' = launches g) /\
   (t <= now ->
    forall l ls, launches g = l :: ls -> launch_succeeds s l ->
    exists g',
      svc_run FORK_RETRY_DELAY NSIG (S (S fuel)) svc g = Ok tt g' /\
      svc_mem g' !! svc = Some (launched now (fork_ret l) (started t s)) /\
      (svc ∉ svc_active_list g') /\
      launches g' = ls)).
Proof.
  intros Hs Hst Hi0 Hn Hr1 Hr2 now t.
  assert (Hi : in_int64 (restart_interval s)).
  { unfold in_int64 in *. change (2 ^ 63) with 9223372036854775808 in *. lia. }
  split.
  - intros Hw.
    destruct (svc_run_reaped_down fuel g svc s Hs Hst Hw)
      as (g' & Hrun & Hmem & Hact & Hl & _).
    exists g'. repeat split; try assumption.
    rewrite Hmem. apply lookup_insert_eq.
  - intros Hw.
    assert (Ht : in_int64 (t - now)).
    { subst t now. unfold biased, restart_time, in_int64 in *.
      change (2 ^ 63) with 9223372036854775808 in *.
      destruct (reap_time s - start_time s <? restart_interval s);
        match goal with |- context [?a =? 0] => destruct (Z.eqb_spec a 0) end;
        lia. }
    split; [|split].
    + destruct (svc_run_reaped_restart fuel g svc s Hs Hst Hw Hi0 Hi Hr1 Hr2)
        as (g1 & Hrun & Hmem & Hact & Hnext & Hnow & Hl).
      exists g1. repeat split; try assumption.
      rewrite Hmem. apply lookup_insert_eq.
    + intros Hfut.
      destruct (svc_run_reaped_restart (S fuel) g svc s Hs Hst Hw Hi0 Hi Hr1 Hr2)
        as (g1 & Hrun & Hmem & Hact & Hnext & Hnow & Hl).
      assert (Hs1 : svc_mem g1 !! svc = Some (started t s))
        by (rewrite Hmem; apply lookup_insert_eq).
      rewrite Hrun.
      rewrite (svc_run_start_future fuel g1 svc _ Hs1 eq_refl).
      * eexists. split; [reflexivity|]. core_simpl. auto.
      * rewrite Hnow. exact Hfut.
      * exact Hact.
      * rewrite Hnow. exact Ht.
      * rewrite Hnext. exact Ht.
    + intros Hdue l ls Hlaunch Hok.
      destruct (svc_run_reaped_restart (S fuel) g svc s Hs Hst Hw Hi0 Hi Hr1 Hr2)
        as (g1 & Hrun & Hmem & Hact & Hnext & Hnow & Hl).
      assert (Hs1 : svc_mem g1 !! svc = Some (started t s))
        by (rewrite Hmem; apply lookup_insert_eq).
      rewrite Hrun.
      destruct (svc_run_start_launch fuel g1 svc _ l ls Hs1 eq_refl)
        as (g' & Hrun' & Hmem' & Hact' & Hl').
      * rewrite Hnow. exact Hdue.
      * rewrite Hnow. exact Ht.
      * rewrite Hl. exact Hlaunch.
      * exact Hok.
      * exists g'. repeat split; try assumption.
        rewrite Hmem', Hnow. apply lookup_insert_eq.
Qed.
End StateMachine.

Lemma svc_run_start_pending_witness :
  svc_run (Z.shiftl 10 32) 65 1 16 sample_started
  = Ok tt (put_wake_next
             (Z.min (wake_next sample_started)
                    (start_time (started (Z.shiftl 130 32) sample_svc)))
             sample_started).
Proof.
  apply (svc_run_start_pending (Z.shiftl 10 32) 65 0 sample_started 16
           (started (Z.shiftl 130 32) sample_svc)).
  - reflexivity.
  - reflexivity.
  - reflexivity.
  - apply (bool_decide_unpack _). vm_compute. exact I.
  - vm_compute. split; [discriminate | reflexivity].
  - vm_compute. split; [discriminate | reflexivity].
Defined.

Lemma svc_run_reaped_witness :
  exists g',
    svc_run (Z.shiftl 10 32) 65 3 16 sample_reaped = Ok tt g' /\
    svc_mem g' !! 16%N
    = Some (launched (wake_now sample_reaped) 4243
              (started (biased (restart_time (wake_now sample_reaped)
                                  sample_reaped_svc))
                       sample_reaped_svc)) /\
    (16%N ∉ svc_active_list g') /\
    launches g' = [].
Proof.
  destruct (svc_run_reaped (Z.shiftl 10 32) 65 1 sample_reaped 16
              sample_reaped_svc) as [_ H].
  - reflexivity.
  - reflexivity.
  - vm_compute. discriminate.
  - vm_compute. discriminate.
  - vm_compute. split; [discriminate | reflexivity].
  - vm_compute. split; [discriminate | reflexivity].
  - destruct (H eq_refl) as (_ & _ & Hdue).
    apply (Hdue ltac:(vm_compute; discriminate) (sample_launch 4243) []).
    + reflexivity.
    + split; [intros _; repeat split | reflexivity].
Defined.

(** C2 (as stated) fails: "web" was reaped after running longer than its
    restart interval and wants a restart; the call of [svc_run] does not
    return with the record in START at [now]: it launches the child in
    the same call and returns with the record UP. *)
Lemma svc_run_reaped_counterexample :
  ~ reaped_tick_returns_in_start (Z.shiftl 10 32) 65 sample_reaped 16.
Proof.
  intros H.
  assert (Hs : svc_mem sample_reaped !! 16%N = Some sample_reaped_svc)
    by (vm_compute; reflexivity).
  assert (Hst : state sample_reaped_svc = SVC_STATE_REAPED)
    by (vm_compute; reflexivity).
  assert (Hw : restart_wanted 65 sample_reaped sample_reaped_svc = true)
    by (vm_compute; reflexivity).
  destruct (H sample_reaped_svc Hs Hst Hw)
    as (fuel & g' & s' & Hrun & Hs' & Hst' & _).
  destruct fuel as [|[|fuel]].
  - cbn [svc_run] in Hrun. discriminate Hrun.
  - assert (E : svc_run (Z.shiftl 10 32) 65 1 16 sample_reaped = Abort OutOfFuel)
      by (vm_compute; reflexivity).
    rewrite E in Hrun. discriminate Hrun.
  - destruct (svc_run_reaped_restart (Z.shiftl 10 32) 65 (S fuel) sample_reaped 16
                sample_reaped_svc Hs Hst Hw)
      as (g1 & Hrun1 & Hmem1 & _ & _ & Hnow1 & Hl1).
    { vm_compute. discriminate. }
    { vm_compute. split; [discriminate | reflexivity]. }
    { vm_compute. split; [discriminate | reflexivity]. }
    { vm_compute. split; [discriminate | reflexivity]. }
    rewrite Hrun1 in Hrun.
    assert (Hnow : wake_now sample_reaped = Z.shiftl 100 32)
      by (vm_compute; reflexivity).
    assert (Hlaunch : launches sample_reaped = [sample_launch 4243])
      by (vm_compute; reflexivity).
    destruct (svc_run_start_launch (Z.shiftl 10 32) 65 fuel g1 16
                (started (biased (restart_time (wake_now sample_reaped)
                                    sample_reaped_svc)) sample_reaped_svc)
                (sample_launch 4243) [])
      as (g2 & Hrun2 & Hmem2 & _).
    + rewrite Hmem1. apply lookup_insert_eq.
    + reflexivity.
    + rewrite Hnow1, Hnow. vm_compute. discriminate.
    + rewrite Hnow1, Hnow. vm_compute. split; [discriminate | reflexivity].
    + rewrite Hl1. exact Hlaunch.
    + split; [intros _; repeat split | reflexivity].
    + rewrite Hrun2 in Hrun. injection Hrun as <-.
      rewrite Hmem2, lookup_insert_eq in Hs'. injection Hs' as <-.
      discriminate Hst'.
Qed.

(* ===================================================================== *)
(** * The variable store *)
(* ===================================================================== *)

(** ** Scanning for a separator *)

Lemma scan_le sep (l : list char) : (scan sep l <= length l)%nat.
Proof.
  induction l as [|c l IH]; simpl; [lia|].
  destruct (c =? sep); simpl; lia.
Qed.

Lemma scan_app_sep sep (a b : list char) :
  sep ∉ a -> scan sep (a ++ sep :: b) = length a.
Proof.
  induction a as [|c a IH]; simpl; intros Hn.
  - rewrite Z.eqb_refl. reflexivity.
  - apply not_elem_of_cons in Hn as [Hc Ha].
    destruct (Z.eqb_spec c sep); [congruence|]. rewrite IH; auto.
Qed.

Lemma scan_no_sep sep (a : list char) : sep ∉ a -> scan sep a = length a.
Proof.
  induction a as [|c a IH]; simpl; intros Hn; [reflexivity|].
  apply not_elem_of_cons in Hn as [Hc Ha].
  destruct (Z.eqb_spec c sep); [congruence|]. rewrite IH; auto.
Qed.

Lemma take_scan_no_sep sep (l : list char) : sep ∉ take (scan sep l) l.
Proof.
  induction l as [|c l IH]; simpl.
  - apply not_elem_of_nil.
  - destruct (Z.eqb_spec c sep); simpl.
    + apply not_elem_of_nil.
    + apply not_elem_of_cons. auto.
Qed.

Lemma scan_split sep (l : list char) :
  (scan sep l < length l)%nat ->
  l = take (scan sep l) l ++ sep :: drop (S (scan sep l)) l.
Proof.
  induction l as [|c l IH]; simpl; [lia|].
  destruct (Z.eqb_spec c sep); simpl; intros Hlt.
  - subst. rewrite drop_0. reflexivity.
  - f_equal. apply IH. lia.
Qed.

(** ** Segments *)

Lemma seg_bytes_STRSEG (x : list char) : seg_bytes (STRSEG x) = x.
Proof.
  unfold seg_bytes, STRSEG; cbn [len data base].
  rewrite Nat2Z.id. change (Z.to_nat 0) with 0%nat.
  rewrite drop_0. apply firstn_all.
Qed.

Lemma seg_ok_STRSEG (x : list char) : seg_ok (STRSEG x).
Proof.
  unfold seg_ok, STRSEG; cbn [len data base].
  rewrite Nat2Z.id. change (Z.to_nat 0) with 0%nat. lia.
Qed.

Lemma seg_ok_length (x : strseg_t) :
  seg_ok x -> Z.of_nat (length (seg_bytes x)) = len x.
Proof.
  unfold seg_ok, seg_bytes. intros (Hd & Hl & Hb).
  rewrite length_take, length_drop. lia.
Qed.

(** The token and the rest that [strseg_tok_next] returns, as bytes. *)
Lemma strseg_tok_next_sep (s : strseg_t) sep (a b : list char) :
  seg_ok s -> seg_bytes s = a ++ sep :: b -> sep ∉ a ->
  strseg_tok_next s sep =
    Some ({| base := base s; data := data s + Z.of_nat (length a) + 1;
             len := len s - (Z.of_nat (length a) + 1) |},
          {| base := base s; data := data s; len := Z.of_nat (length a) |}).
Proof.
  intros (Hd & Hl & Hb) Hbytes Hn. unfold strseg_tok_next.
  destruct (Z.ltb_spec (len s) 0); [lia|].
  rewrite Hbytes, scan_app_sep by assumption. reflexivity.
Qed.

Lemma strseg_tok_next_last (s : strseg_t) sep :
  seg_ok s -> sep ∉ seg_bytes s ->
  strseg_tok_next s sep =
    Some ({| base := base s; data := data s + len s + 1; len := -1 |},
          {| base := base s; data := data s; len := len s |}).
Proof.
  intros Hok Hn. unfold strseg_tok_next.
  pose proof (seg_ok_length s Hok) as Hlen. destruct Hok as (Hd & Hl & Hb).
  destruct (Z.ltb_spec (len s) 0); [lia|].
  rewrite scan_no_sep by assumption. rewrite Hlen.
  do 3 f_equal. lia.
Qed.

Lemma seg_bytes_sub (m : list char) (off n d k : Z) :
  0 <= off -> 0 <= d -> 0 <= k -> d + k <= n ->
  seg_bytes {| base := m; data := off + d; len := k |}
  = take (Z.to_nat k) (drop (Z.to_nat d)
      (seg_bytes {| base := m; data := off; len := n |})).
Proof.
  intros. unfold seg_bytes; cbn [base data len].
  rewrite skipn_firstn_comm, take_take, drop_drop.
  f_equal; [lia|]. f_equal. lia.
Qed.

(** ** Comparison *)

Lemma bytes_cmp_Some (x y : list char) r :
  bytes_cmp x y = Some r -> r <> 0 /\ x <> y.
Proof.
  revert y. induction x as [|c x IH]; intros [|d y]; cbn [bytes_cmp];
    try discriminate.
  destruct (Z.eqb_spec c d) as [->|Hne].
  - intros H. destruct (IH y H) as [Hr Hxy]. split; [exact Hr | congruence].
  - intros [= <-]. split; [destruct (c <? d); discriminate | congruence].
Qed.

Lemma bytes_cmp_None (x y : list char) :
  bytes_cmp x y = None -> length x = length y -> x = y.
Proof.
  revert y. induction x as [|c x IH]; intros [|d y]; cbn [bytes_cmp length];
    try discriminate; try reflexivity.
  destruct (Z.eqb_spec c d) as [->|Hne]; [|discriminate].
  intros H Hl. f_equal. apply IH; [exact H | lia].
Qed.

Lemma bytes_cmp_refl (x : list char) : bytes_cmp x x = None.
Proof.
  induction x as [|c x IH]; cbn [bytes_cmp]; [reflexivity|].
  rewrite Z.eqb_refl. exact IH.
Qed.

Lemma strseg_cmp_eq_iff (a b : strseg_t) :
  seg_ok a -> seg_ok b ->
  strseg_cmp a b = 0 <-> seg_bytes a = seg_bytes b.
Proof.
  intros Ha Hb. unfold strseg_cmp.
  pose proof (seg_ok_length a Ha) as Hla. pose proof (seg_ok_length b Hb) as Hlb.
  destruct (bytes_cmp (seg_bytes a) (seg_bytes b)) as [r|] eqn:Hc.
  - destruct (bytes_cmp_Some _ _ _ Hc). tauto.
  - split.
    + intros H. apply bytes_cmp_None; [exact Hc|].
      destruct (Z.ltb_spec (len a) (len b)); [discriminate|].
      destruct (Z.ltb_spec (len b) (len a)); [discriminate|]. lia.
    + intros H. rewrite H in Hla.
      destruct (Z.ltb_spec (len a) (len b)); [lia|].
      destruct (Z.ltb_spec (len b) (len a)); [lia|]. reflexivity.
Qed.

Lemma strseg_cmp_eqb (a b : strseg_t) :
  seg_ok a -> seg_ok b ->
  (strseg_cmp a b =? 0) = bool_decide (seg_bytes a = seg_bytes b).
Proof.
  intros Ha Hb. pose proof (strseg_cmp_eq_iff a b Ha Hb) as H.
  destruct (Z.eqb_spec (strseg_cmp a b) 0) as [E|E]; symmetry.
  - apply bool_decide_eq_true. tauto.
  - apply bool_decide_eq_false. tauto.
Qed.

(** ** The search loop on a well-formed buffer *)

Lemma length_entry (kv : list char * list char) :
  length (entry kv) = (length kv.1 + 1 + length kv.2 + 1)%nat.
Proof. unfold entry. rewrite length_app. cbn [length]. rewrite length_app. simpl. lia. Qed.

Lemma encode_cons kv kvs : encode (kv :: kvs) = entry kv ++ encode kvs.
Proof. reflexivity. Qed.

Lemma encode_app kvs1 kvs2 : encode (kvs1 ++ kvs2) = encode kvs1 ++ encode kvs2.
Proof. unfold encode. rewrite List.map_app, concat_app. reflexivity. Qed.

Lemma seg_eq (a b : strseg_t) :
  base a = base b -> data a = data b -> len a = len b -> a = b.
Proof. destruct a, b; cbn. intros -> -> ->. reflexivity. Qed.

(** One round of the loop on a buffer that starts with an entry: the
    key, the value and the rest. *)
Lemma find_var_round (fuel : nat) (name tail oldval : strseg_t)
    (k v rest : list char) :
  seg_ok tail -> seg_ok name ->
  seg_bytes tail = entry (k, v) ++ rest ->
  key_ok k -> value_ok v ->
  find_var (S fuel) name tail oldval =
    let val := {| base := base tail;
                  data := data tail + Z.of_nat (length k) + 1;
                  len := Z.of_nat (length v) |} in
    let tail' := {| base := base tail;
                    data := data tail + Z.of_nat (length (entry (k, v)));
                    len := len tail - Z.of_nat (length (entry (k, v))) |} in
    if bool_decide (k = seg_bytes name) then (true, val, tail')
    else find_var fuel name tail' val.
Proof.
  intros Htail Hname Hbytes [Hk0 Hke] Hv.
  pose proof (seg_ok_length tail Htail) as Hlen.
  rewrite Hbytes, length_app, length_entry in Hlen. cbn [fst snd] in Hlen.
  cbn [find_var].
  destruct (Z.gtb_spec (len tail) 0); [|lia].
  assert (Hsplit : seg_bytes tail = (k ++ EQUALS :: v) ++ NUL :: rest).
  { rewrite Hbytes. unfold entry. cbn [fst snd].
    rewrite <- !app_assoc. cbn. rewrite <- app_assoc. reflexivity. }
  assert (Hnul : NUL ∉ k ++ EQUALS :: v).
  { rewrite elem_of_app, elem_of_cons. unfold value_ok in Hv.
    intros [?|[?|?]]; [tauto | discriminate | tauto]. }
  rewrite (strseg_tok_next_sep tail NUL _ _ Htail Hsplit Hnul).
  set (ent := {| base := base tail; data := data tail;
                 len := Z.of_nat (length (k ++ EQUALS :: v)) |}).
  assert (Hent_ok : seg_ok ent).
  { destruct Htail as (? & ? & ?). unfold seg_ok, ent; cbn [base data len].
    rewrite length_app in *. cbn [length] in *. lia. }
  assert (Hent : seg_bytes ent = k ++ EQUALS :: v).
  { unfold ent. destruct Htail as (? & ? & ?).
    replace (data tail) with (data tail + 0) by lia.
    rewrite (seg_bytes_sub (base tail) (data tail) (len tail) 0
               (Z.of_nat (length (k ++ EQUALS :: v)))); try lia.
    - change (Z.to_nat 0) with 0%nat. rewrite drop_0, Nat2Z.id.
      change {| base := base tail; data := data tail; len := len tail |}
        with {| base := base tail; data := data tail; len := len tail |}.
      replace {| base := base tail; data := data tail; len := len tail |}
        with tail by (destruct tail; reflexivity).
      rewrite Hsplit. apply take_app_length.
    - rewrite length_app. cbn [length]. lia. }
  rewrite (strseg_tok_next_sep ent EQUALS k v Hent_ok Hent Hke).
  set (key := {| base := base ent; data := data ent;
                 len := Z.of_nat (length k) |}).
  assert (Hkey_ok : seg_ok key).
  { destruct Hent_ok as (? & ? & ?). unfold seg_ok, key in *;
      cbn [base data len ent] in *. rewrite length_app in *. cbn [length] in *. lia. }
  assert (Hkey : seg_bytes key = k).
  { unfold key. destruct Hent_ok as (? & ? & ?).
    replace (data ent) with (data ent + 0) by lia.
    rewrite (seg_bytes_sub (base ent) (data ent) (len ent) 0
               (Z.of_nat (length k))); try lia.
    - change (Z.to_nat 0) with 0%nat. rewrite drop_0, Nat2Z.id.
      replace {| base := base ent; data := data ent; len := len ent |}
        with ent by reflexivity.
      rewrite Hent. apply take_app_length.
    - cbn [len ent]. rewrite length_app. lia. }
  rewrite (strseg_cmp_eqb key name Hkey_ok Hname), Hkey.
  cbv zeta. cbn [base data len ent].
  rewrite length_entry. cbn [fst snd]. rewrite length_app. cbn [length].
  replace (Z.of_nat (length k + S (length v)) - (Z.of_nat (length k) + 1))
    with (Z.of_nat (length v)) by lia.
  replace (data tail + Z.of_nat (length k + S (length v)) + 1)
    with (data tail + Z.of_nat (length k + 1 + length v + 1)) by lia.
  replace (len tail - (Z.of_nat (length k + S (length v)) + 1))
    with (len tail - Z.of_nat (length k + 1 + length v + 1)) by lia.
  reflexivity.
Qed.

Lemma length_encode_ge kvs : (length kvs <= length (encode kvs))%nat.
Proof.
  induction kvs as [|kv kvs IH]; [simpl; lia|].
  rewrite encode_cons, length_app, length_entry. simpl. lia.
Qed.

(** The rest of the buffer after its first entry. *)
Lemma seg_after_entry (tail : strseg_t) (kv : list char * list char)
    (rest : list char) :
  seg_ok tail -> seg_bytes tail = entry kv ++ rest ->
  let tail' := {| base := base tail;
                  data := data tail + Z.of_nat (length (entry kv));
                  len := len tail - Z.of_nat (length (entry kv)) |} in
  seg_ok tail' /\ seg_bytes tail' = rest.
Proof.
  intros Hok Hbytes tail'.
  pose proof (seg_ok_length tail Hok) as Hlen.
  rewrite Hbytes, length_app in Hlen.
  destruct Hok as (Hd & Hl & Hb). split.
  - unfold seg_ok, tail'; cbn [base data len]. lia.
  - unfold tail'.
    rewrite (seg_bytes_sub (base tail) (data tail) (len tail)); try lia.
    replace {| base := base tail; data := data tail; len := len tail |}
      with tail by (destruct tail; reflexivity).
    rewrite Hbytes, Nat2Z.id, drop_app_length.
    apply take_ge. lia.
Qed.

(** The loop stops at the first entry of the key. *)
Lemma find_var_found (pre post : list (list char * list char))
    (k v : list char) :
  forall (fuel : nat) (name tail oldval : strseg_t),
  seg_ok tail -> seg_ok name ->
  seg_bytes tail = encode (pre ++ (k, v) :: post) ->
  Forall entry_ok (pre ++ (k, v) :: post) ->
  Forall (fun kv => kv.1 <> k) pre ->
  seg_bytes name = k ->
  (length pre < fuel)%nat ->
  find_var fuel name tail oldval =
    (true,
     {| base := base tail;
        data := data tail + Z.of_nat (length (encode pre))
                + Z.of_nat (length k) + 1;
        len := Z.of_nat (length v) |},
     {| base := base tail;
        data := data tail + Z.of_nat (length (encode pre))
                + Z.of_nat (length (entry (k, v)));
        len := Z.of_nat (length (encode post)) |}).
Proof.
  induction pre as [|[k' v'] pre IH];
    intros fuel name tail oldval Htail Hname Hbytes Hok Hpre Hk Hfuel;
    (destruct fuel as [|fuel]; [simpl in Hfuel; lia|]).
  - cbn [app] in *. rewrite encode_cons in Hbytes.
    apply Forall_cons in Hok as [[Hk1 Hv1] _]. cbn [fst snd] in *.
    rewrite (find_var_round fuel name tail oldval k v _ Htail Hname Hbytes Hk1 Hv1).
    cbv zeta. rewrite Hk, bool_decide_eq_true_2 by reflexivity.
    pose proof (seg_ok_length tail Htail) as Hlen.
    rewrite Hbytes, length_app in Hlen.
    f_equal; [f_equal|]; apply seg_eq; cbn [base data len encode List.map concat length];
      try reflexivity; lia.
  - cbn [app] in *. rewrite encode_cons in Hbytes.
    apply Forall_cons in Hok as [[Hk1 Hv1] Hok]. cbn [fst snd] in *.
    apply Forall_cons in Hpre as [Hne Hpre]. cbn [fst] in Hne.
    rewrite (find_var_round fuel name tail oldval k' v' _ Htail Hname Hbytes Hk1 Hv1).
    cbv zeta. rewrite Hk, bool_decide_eq_false_2 by exact Hne.
    destruct (seg_after_entry tail (k', v') _ Htail Hbytes) as [Hok' Hbytes'].
    rewrite (IH fuel name _ _ Hok' Hname Hbytes' Hok Hpre Hk ltac:(simpl in Hfuel; lia)).
    cbn [base data len]. rewrite encode_cons, length_app.
    f_equal; [f_equal|]; apply seg_eq; cbn [base data len]; try reflexivity; lia.
Qed.

(** Without an entry of the key the loop runs to the end of the buffer. *)
Lemma find_var_not_found (kvs : list (list char * list char)) :
  forall (fuel : nat) (name tail oldval : strseg_t),
  seg_ok tail -> seg_ok name ->
  seg_bytes tail = encode kvs ->
  Forall entry_ok kvs ->
  Forall (fun kv => kv.1 <> seg_bytes name) kvs ->
  (length kvs <= fuel)%nat ->
  exists o,
    find_var fuel name tail oldval =
      (false, o,
       {| base := base tail;
          data := data tail + Z.of_nat (length (encode kvs)); len := 0 |}).
Proof.
  induction kvs as [|[k' v'] kvs IH];
    intros fuel name tail oldval Htail Hname Hbytes Hok Hne Hfuel.
  - pose proof (seg_ok_length tail Htail) as Hlen. rewrite Hbytes in Hlen.
    cbn [encode List.map concat length] in *.
    exists oldval. destruct fuel; cbn [find_var].
    + f_equal. apply seg_eq; cbn [base data len]; try reflexivity; lia.
    + destruct (Z.gtb_spec (len tail) 0); [lia|].
      f_equal. apply seg_eq; cbn [base data len]; try reflexivity; lia.
  - destruct fuel as [|fuel]; [simpl in Hfuel; lia|].
    rewrite encode_cons in Hbytes.
    apply Forall_cons in Hok as [[Hk1 Hv1] Hok]. cbn [fst snd] in *.
    apply Forall_cons in Hne as [Hne1 Hne]. cbn [fst] in Hne1.
    rewrite (find_var_round fuel name tail oldval k' v' _ Htail Hname Hbytes Hk1 Hv1).
    cbv zeta. rewrite bool_decide_eq_false_2 by exact Hne1.
    destruct (seg_after_entry tail (k', v') _ Htail Hbytes) as [Hok' Hbytes'].
    destruct (IH fuel name _
                {| base := base tail;
                   data := data tail + Z.of_nat (length k') + 1;
                   len := Z.of_nat (length v') |}
                Hok' Hname Hbytes' Hok Hne ltac:(simpl in Hfuel; lia))
      as [o Ho].
    exists o. rewrite Ho. cbn [base data len]. rewrite encode_cons, length_app.
    f_equal. apply seg_eq; cbn [base data len]; try reflexivity; lia.
Qed.

(** Where the first entry of a key is. *)
Lemma kv_get_Some_split k v kvs :
  kv_get k kvs = Some v ->
  exists pre post, kvs = pre ++ (k, v) :: post /\
                   Forall (fun kv => kv.1 <> k) pre.
Proof.
  induction kvs as [|[k' v'] kvs IH]; cbn [kv_get]; [discriminate|].
  destruct (decide (k' = k)) as [->|Hne].
  - rewrite bool_decide_eq_true_2 by reflexivity. intros [= ->].
    exists [], kvs. split; [reflexivity | constructor].
  - rewrite bool_decide_eq_false_2 by exact Hne. intros H.
    destruct (IH H) as (pre & post & -> & Hpre).
    exists ((k', v') :: pre), post. split; [reflexivity|].
    constructor; [exact Hne | exact Hpre].
Qed.

Lemma kv_get_None k kvs :
  kv_get k kvs = None -> Forall (fun kv => kv.1 <> k) kvs.
Proof.
  induction kvs as [|[k' v'] kvs IH]; cbn [kv_get]; [constructor|].
  destruct (decide (k' = k)) as [->|Hne].
  - rewrite bool_decide_eq_true_2 by reflexivity. discriminate.
  - rewrite bool_decide_eq_false_2 by exact Hne. intros H.
    constructor; [exact Hne | exact (IH H)].
Qed.

(** ** Writing into a block *)

Lemma memcpy_eq (m : list char) (dst : Z) (y : list char) :
  memcpy m dst y
  = take (Z.to_nat dst) m ++ y ++ drop (Z.to_nat dst + length y) m.
Proof. reflexivity. Qed.

Lemma length_memcpy (m : list char) (dst : Z) (y : list char) :
  (Z.to_nat dst + length y <= length m)%nat ->
  length (memcpy m dst y) = length m.
Proof.
  intros H. rewrite memcpy_eq, !length_app, length_take, length_drop. lia.
Qed.

Lemma take_memcpy_before (m : list char) (dst : Z) (y : list char) (k : nat) :
  (k <= Z.to_nat dst)%nat -> (Z.to_nat dst <= length m)%nat ->
  take k (memcpy m dst y) = take k m.
Proof.
  intros Hk Hd. rewrite memcpy_eq, take_app_le by (rewrite length_take; lia).
  rewrite take_take. f_equal. lia.
Qed.

Lemma take_memcpy_through (m : list char) (dst : Z) (y : list char) (k : nat) :
  (Z.to_nat dst <= length m)%nat -> k = (Z.to_nat dst + length y)%nat ->
  take k (memcpy m dst y) = take (Z.to_nat dst) m ++ y.
Proof.
  intros Hd ->. rewrite memcpy_eq, app_assoc.
  apply take_app_length'. rewrite length_app, length_take. lia.
Qed.

Lemma drop_memcpy_after (m : list char) (dst : Z) (y : list char) (j : nat) :
  (Z.to_nat dst + length y <= j)%nat -> (Z.to_nat dst <= length m)%nat ->
  drop j (memcpy m dst y) = drop j m.
Proof.
  intros Hj Hd. rewrite memcpy_eq, app_assoc.
  rewrite drop_app_ge by (rewrite length_app, length_take; lia).
  rewrite length_app, length_take, drop_drop. f_equal. lia.
Qed.

Lemma take_app_at (a b : list char) (k : nat) :
  k = length a -> take k (a ++ b) = a.
Proof. intros ->. apply take_app_length. Qed.

Lemma drop_app_at (a b : list char) (k : nat) :
  k = length a -> drop k (a ++ b) = b.
Proof. intros ->. apply drop_app_length. Qed.

(** Replacing the value of an entry: the tail moves by the difference of
    the lengths, then the value and its NUL are written. *)
Lemma write_replace (buf p old q v : list char) (n : nat) :
  take n buf = p ++ old ++ NUL :: q ->
  n = length (p ++ old ++ NUL :: q) ->
  (n + length v - length old <= length buf)%nat ->
  let sizediff := Z.of_nat (length v) - Z.of_nat (length old) in
  let tail_data := Z.of_nat (length p + length old + 1) in
  let tail_len := Z.of_nat (length q) in
  let oldval_data := Z.of_nat (length p) in
  let buf1 := if negb (sizediff =? 0) && (tail_len >? 0)
              then memmove buf (tail_data + sizediff) tail_data tail_len
              else buf in
  let buf2 := poke (memcpy buf1 oldval_data v)
                   (oldval_data + Z.of_nat (length v)) NUL in
  take (length (p ++ v ++ NUL :: q)) buf2 = p ++ v ++ NUL :: q /\
  length buf2 = length buf.
Proof.
  intros Hview Hn Hcap sizediff tail_data tail_len oldval_data buf1 buf2.
  assert (Hnb : (n <= length buf)%nat).
  { pose proof (f_equal length Hview) as Hl.
    rewrite length_take, <- Hn in Hl. lia. }
  rewrite !length_app in Hn. cbn [length] in Hn.
  assert (Hbuf : buf = p ++ old ++ NUL :: q ++ drop n buf).
  { rewrite <- (take_drop n buf) at 1. rewrite Hview, <- !app_assoc. reflexivity. }
  assert (Hq : take (length q) (drop (length p + length old + 1) buf) = q).
  { rewrite Hbuf at 1. rewrite app_assoc.
    change (NUL :: q ++ drop n buf) with ([NUL] ++ q ++ drop n buf).
    rewrite app_assoc. rewrite drop_app_at
      by (rewrite !length_app; simpl; lia).
    apply take_app_length. }
  assert (Hp : take (length p) buf = p).
  { rewrite Hbuf at 1. apply take_app_length. }
  assert (Hb1 : length buf1 = length buf /\
                take (length p) buf1 = p /\
                take (length q) (drop (length p + length v + 1) buf1) = q).
  { subst buf1. destruct (Z.eqb_spec sizediff 0) as [H0|H0]; cbn [negb andb].
    - assert (length v = length old) by (subst sizediff; lia).
      repeat split; [exact Hp|]. replace (length v) with (length old). exact Hq.
    - destruct (Z.gtb_spec tail_len 0) as [Hpos|Hz].
      + unfold memmove. subst tail_data tail_len sizediff.
        rewrite !Nat2Z.id, Hq.
        split; [|split].
        * apply length_memcpy. lia.
        * rewrite take_memcpy_before by lia. exact Hp.
        * rewrite memcpy_eq.
          rewrite drop_app_at by (rewrite length_take; lia).
          apply take_app_length.
      + assert (q = []) as -> by (destruct q; [reflexivity | subst tail_len; simpl in Hz; lia]).
        cbn [length take]. repeat split. exact Hp. }
  destruct Hb1 as (Hl1 & Hp1 & Hq1).
  subst buf2 oldval_data. unfold poke.
  set (buf' := memcpy buf1 (Z.of_nat (length p)) v).
  assert (Hl' : length buf' = length buf).
  { subst buf'. rewrite length_memcpy; [exact Hl1 | lia]. }
  split.
  - rewrite !length_app. cbn [length].
    replace (length p + (length v + S (length q)))%nat
      with ((length p + length v + 1) + length q)%nat by lia.
    rewrite <- take_take_drop.
    rewrite (take_memcpy_through buf' _ [NUL] (length p + length v + 1))
      by (simpl; lia).
    rewrite drop_memcpy_after by (simpl; lia).
    replace (Z.to_nat (Z.of_nat (length p) + Z.of_nat (length v)))
      with (Z.to_nat (Z.of_nat (length p)) + length v)%nat by lia.
    subst buf'. rewrite (take_memcpy_through buf1 _ v) by lia.
    rewrite drop_memcpy_after by lia.
    rewrite Nat2Z.id, Hp1, Hq1. rewrite <- !app_assoc. reflexivity.
  - rewrite length_memcpy; [exact Hl' | simpl; lia].
Qed.

(** Deleting an entry: the tail moves down over it. *)
Lemma write_delete (buf p e q : list char) (n : nat) :
  take n buf = p ++ e ++ q ->
  n = length (p ++ e ++ q) ->
  let sizediff := - Z.of_nat (length e) in
  let tail_data := Z.of_nat (length p + length e) in
  let tail_len := Z.of_nat (length q) in
  let buf1 := if negb (sizediff =? 0) && (tail_len >? 0)
              then memmove buf (tail_data + sizediff) tail_data tail_len
              else buf in
  take (length (p ++ q)) buf1 = p ++ q /\ length buf1 = length buf.
Proof.
  intros Hview Hn sizediff tail_data tail_len buf1.
  assert (Hnb : (n <= length buf)%nat).
  { pose proof (f_equal length Hview) as Hl.
    rewrite length_take, <- Hn in Hl. lia. }
  rewrite !length_app in Hn.
  assert (Hbuf : buf = p ++ e ++ q ++ drop n buf).
  { rewrite <- (take_drop n buf) at 1. rewrite Hview, <- !app_assoc. reflexivity. }
  assert (Hq : take (length q) (drop (length p + length e) buf) = q).
  { rewrite Hbuf at 1. rewrite app_assoc.
    rewrite drop_app_at by (rewrite !length_app; lia).
    apply take_app_length. }
  assert (Hp : take (length p) buf = p).
  { rewrite Hbuf at 1. apply take_app_length. }
  subst buf1. destruct (Z.eqb_spec sizediff 0) as [H0|H0]; cbn [negb andb].
  - assert (e = []) as -> by (destruct e; [reflexivity | subst sizediff; simpl in H0; lia]).
    split; [|reflexivity]. rewrite Hbuf at 1. cbn [app].
    rewrite app_assoc. apply take_app_length.
  - destruct (Z.gtb_spec tail_len 0) as [Hpos|Hz].
    + unfold memmove. subst tail_data tail_len sizediff.
      rewrite !Nat2Z.id, Hq. split.
      * rewrite length_app.
        rewrite (take_memcpy_through buf _ q) by lia.
        replace (Z.to_nat (Z.of_nat (length p + length e) + - Z.of_nat (length e)))
          with (length p) by lia.
        rewrite Hp. reflexivity.
      * apply length_memcpy. lia.
    + assert (q = []) as -> by (destruct q; [reflexivity | subst tail_len; simpl in Hz; lia]).
      rewrite app_nil_r. split; [exact Hp | reflexivity].
Qed.

(** Adding an entry at the end of the buffer. *)
Lemma write_append (buf p k v : list char) (n : nat) :
  take n buf = p ->
  n = length p ->
  (n + length k + 1 + length v + 1 <= length buf)%nat ->
  let tail_data := Z.of_nat n in
  let oldval_data := tail_data + Z.of_nat (length k) + 1 in
  let buf1 := poke (memcpy buf tail_data k)
                   (tail_data + Z.of_nat (length k)) EQUALS in
  let buf2 := poke (memcpy buf1 oldval_data v)
                   (oldval_data + Z.of_nat (length v)) NUL in
  take (length (p ++ entry (k, v))) buf2 = p ++ entry (k, v) /\
  length buf2 = length buf.
Proof.
  intros Hview Hn Hcap tail_data oldval_data buf1 buf2.
  unfold poke in *.
  set (b1 := memcpy buf tail_data k) in *.
  assert (Hl1 : length b1 = length buf)
    by (apply length_memcpy; subst tail_data; lia).
  assert (Hl2 : length buf1 = length buf).
  { subst buf1. rewrite length_memcpy; [exact Hl1|]. subst tail_data. simpl. lia. }
  set (b3 := memcpy buf1 oldval_data v) in *.
  assert (Hl3 : length b3 = length buf).
  { subst b3. rewrite length_memcpy; [exact Hl2|]. subst oldval_data tail_data. lia. }
  split.
  - rewrite length_app, length_entry. cbn [fst snd]. unfold entry. cbn [fst snd].
    subst buf2.
    rewrite (take_memcpy_through b3 _ [NUL])
      by (subst oldval_data tail_data; simpl; lia).
    replace (Z.to_nat (oldval_data + Z.of_nat (length v)))
      with (Z.to_nat oldval_data + length v)%nat
      by (subst oldval_data tail_data; lia).
    subst b3. rewrite (take_memcpy_through buf1 _ v)
      by (subst oldval_data tail_data; lia).
    replace (Z.to_nat oldval_data)
      with (Z.to_nat (tail_data + Z.of_nat (length k)) + length [EQUALS])%nat
      by (subst oldval_data tail_data; simpl; lia).
    subst buf1. rewrite (take_memcpy_through b1 _ [EQUALS])
      by (subst tail_data; simpl; lia).
    replace (Z.to_nat (tail_data + Z.of_nat (length k)))
      with (Z.to_nat tail_data + length k)%nat by (subst tail_data; lia).
    subst b1. rewrite (take_memcpy_through buf _ k) by (subst tail_data; lia).
    subst tail_data. rewrite Nat2Z.id, Hview.
    rewrite <- !app_assoc. reflexivity.
  - subst buf2. rewrite length_memcpy; [exact Hl3|].
    subst oldval_data tail_data. simpl. lia.
Qed.

Lemma length_realloc fresh (buf : list char) (n : Z) :
  length (realloc fresh buf n) = Z.to_nat n.
Proof.
  unfold realloc. rewrite length_take, length_app, length_replicate. lia.
Qed.

Lemma take_realloc fresh (buf : list char) (n : Z) (k : nat) :
  (k <= length buf)%nat -> (k <= Z.to_nat n)%nat ->
  take k (realloc fresh buf n) = take k buf.
Proof.
  intros Hk Hn. unfold realloc. rewrite take_take.
  replace (k `min` Z.to_nat n)%nat with k by lia.
  apply take_app_le. exact Hk.
Qed.

(** ** Entries *)

Lemma kv_get_split k v pre post :
  Forall (fun kv => kv.1 <> k) pre ->
  kv_get k (pre ++ (k, v) :: post) = Some v.
Proof.
  induction pre as [|[k' v'] pre IH]; cbn [app kv_get]; intros H.
  - rewrite bool_decide_eq_true_2 by reflexivity. reflexivity.
  - apply Forall_cons in H as [Hne H]. cbn [fst] in Hne.
    rewrite bool_decide_eq_false_2 by exact Hne. apply IH, H.
Qed.

Lemma kv_get_not_found k kvs :
  Forall (fun kv => kv.1 <> k) kvs -> kv_get k kvs = None.
Proof.
  induction kvs as [|[k' v'] kvs IH]; cbn [kv_get]; intros H; [reflexivity|].
  apply Forall_cons in H as [Hne H]. cbn [fst] in Hne.
  rewrite bool_decide_eq_false_2 by exact Hne. apply IH, H.
Qed.

Lemma kv_set_split k v old pre post :
  Forall (fun kv => kv.1 <> k) pre ->
  kv_set k v (pre ++ (k, old) :: post) = pre ++ (k, v) :: post.
Proof.
  induction pre as [|[k' v'] pre IH]; cbn [app kv_set]; intros H.
  - rewrite bool_decide_eq_true_2 by reflexivity. reflexivity.
  - apply Forall_cons in H as [Hne H]. cbn [fst] in Hne.
    rewrite bool_decide_eq_false_2 by exact Hne. f_equal. apply IH, H.
Qed.

Lemma kv_set_not_found k v kvs :
  Forall (fun kv => kv.1 <> k) kvs -> kv_set k v kvs = kvs ++ [(k, v)].
Proof.
  induction kvs as [|[k' v'] kvs IH]; cbn [app kv_set]; intros H; [reflexivity|].
  apply Forall_cons in H as [Hne H]. cbn [fst] in Hne.
  rewrite bool_decide_eq_false_2 by exact Hne. f_equal. apply IH, H.
Qed.

Lemma kv_del_split k old pre post :
  Forall (fun kv => kv.1 <> k) pre ->
  kv_del k (pre ++ (k, old) :: post) = pre ++ post.
Proof.
  induction pre as [|[k' v'] pre IH]; cbn [app kv_del]; intros H.
  - rewrite bool_decide_eq_true_2 by reflexivity. reflexivity.
  - apply Forall_cons in H as [Hne H]. cbn [fst] in Hne.
    rewrite bool_decide_eq_false_2 by exact Hne. f_equal. apply IH, H.
Qed.

Lemma kv_del_not_found k kvs :
  Forall (fun kv => kv.1 <> k) kvs -> kv_del k kvs = kvs.
Proof.
  induction kvs as [|[k' v'] kvs IH]; cbn [kv_del]; intros H; [reflexivity|].
  apply Forall_cons in H as [Hne H]. cbn [fst] in Hne.
  rewrite bool_decide_eq_false_2 by exact Hne. f_equal. apply IH, H.
Qed.

Lemma vars_hold_seg (s : service_t) kvs :
  vars_hold s kvs ->
  seg_ok (vars s) /\ seg_bytes (vars s) = encode kvs /\
  Z.to_nat (vars_len s) = length (encode kvs) /\
  (length (encode kvs) <= length (vars_data s))%nat.
Proof.
  intros (Hlen & Hview & _).
  assert (Hb : (length (encode kvs) <= length (vars_data s))%nat).
  { pose proof (f_equal length Hview) as Hl. rewrite length_take in Hl. lia. }
  repeat split.
  - cbn. lia.
  - cbn. lia.
  - cbn [vars base data len]. lia.
  - unfold seg_bytes, vars; cbn [base data len].
    change (Z.to_nat 0) with 0%nat. rewrite drop_0, Hlen, Nat2Z.id. exact Hview.
  - lia.
  - exact Hb.
Qed.

(** ** [svc_get_var] on a well-formed buffer *)

Lemma cstr_at (m : list char) (off : Z) (v r : list char) :
  drop (Z.to_nat off) m = v ++ NUL :: r -> NUL ∉ v -> cstr m off = v.
Proof.
  intros Hd Hn. unfold cstr. rewrite Hd, scan_app_sep by exact Hn.
  apply take_app_length.
Qed.

(** The block of a buffer that holds [pre], an entry and [post]. *)
Lemma vars_data_split (s : service_t) pre k v post :
  vars_hold s (pre ++ (k, v) :: post) ->
  vars_data s
  = (encode pre ++ k ++ [EQUALS]) ++ v ++ NUL :: encode post
    ++ drop (length (encode (pre ++ (k, v) :: post))) (vars_data s).
Proof.
  intros (_ & Hview & _).
  rewrite <- (take_drop (length (encode (pre ++ (k, v) :: post))) (vars_data s)) at 1.
  rewrite Hview, encode_app, encode_cons. unfold entry. cbn [fst snd].
  rewrite <- !app_assoc. cbn. rewrite <- !app_assoc. reflexivity.
Qed.

Lemma svc_get_var_found (s : service_t) kvs (name : strseg_t) (v : list char) :
  vars_hold s kvs -> seg_ok name ->
  kv_get (seg_bytes name) kvs = Some v ->
  exists val,
    svc_get_var s name = Some val /\
    seg_bytes val = v /\
    cstr (base val) (data val) = v.
Proof.
  intros Hhold Hname Hget.
  destruct (kv_get_Some_split _ _ _ Hget) as (pre & post & -> & Hpre).
  destruct (vars_hold_seg s _ Hhold) as (Hok & Hbytes & Hfuel & Hb).
  pose proof (vars_data_split s pre _ v post Hhold) as Hdata.
  destruct Hhold as (Hlen & Hview & Hall).
  unfold svc_get_var.
  rewrite (find_var_found pre post (seg_bytes name) v _ name (vars s) seg_unset
             Hok Hname Hbytes Hall Hpre eq_refl).
  2:{ rewrite Hfuel. pose proof (length_encode_ge (pre ++ (seg_bytes name, v) :: post)) as Hg.
      rewrite length_app in Hg. simpl in Hg. lia. }
  eexists. split; [reflexivity|]. cbn [base data len vars].
  assert (Hdrop : drop (Z.to_nat (0 + Z.of_nat (length (encode pre))
                                  + Z.of_nat (length (seg_bytes name)) + 1))
                       (vars_data s)
                  = v ++ NUL :: encode post
                    ++ drop (length (encode (pre ++ (seg_bytes name, v) :: post)))
                         (vars_data s)).
  { rewrite Hdata at 1. apply drop_app_at.
    rewrite !length_app. simpl. lia. }
  split.
  - unfold seg_bytes at 1; cbn [base data len]. rewrite Hdrop, Nat2Z.id.
    apply take_app_length.
  - apply Forall_app in Hall as [_ Hall].
    apply Forall_cons in Hall as [[_ Hv] _].
    eapply cstr_at; [exact Hdrop | exact Hv].
Qed.

Lemma svc_get_var_not_found (s : service_t) kvs (name : strseg_t) :
  vars_hold s kvs -> seg_ok name ->
  kv_get (seg_bytes name) kvs = None ->
  svc_get_var s name = None.
Proof.
  intros Hhold Hname Hget.
  destruct (vars_hold_seg s _ Hhold) as (Hok & Hbytes & Hfuel & Hb).
  destruct Hhold as (Hlen & Hview & Hall).
  unfold svc_get_var.
  destruct (find_var_not_found kvs (Z.to_nat (vars_len s)) name (vars s) seg_unset
              Hok Hname Hbytes Hall (kv_get_None _ _ Hget)) as [o Ho].
  { rewrite Hfuel. apply length_encode_ge. }
  rewrite Ho. reflexivity.
Qed.

(** The two write lemmas with the offsets as the code computes them. *)
Lemma write_replace_at (buf p old q v : list char) (n : nat)
    (sizediff tail_data tail_len oldval_data vlen : Z) :
  take n buf = p ++ old ++ NUL :: q ->
  n = length (p ++ old ++ NUL :: q) ->
  (n + length v - length old <= length buf)%nat ->
  sizediff = Z.of_nat (length v) - Z.of_nat (length old) ->
  tail_data = Z.of_nat (length p + length old + 1) ->
  tail_len = Z.of_nat (length q) ->
  oldval_data = Z.of_nat (length p) ->
  vlen = Z.of_nat (length v) ->
  let buf1 := if negb (sizediff =? 0) && (tail_len >? 0)
              then memmove buf (tail_data + sizediff) tail_data tail_len
              else buf in
  let buf2 := poke (memcpy buf1 oldval_data v) (oldval_data + vlen) NUL in
  take (length (p ++ v ++ NUL :: q)) buf2 = p ++ v ++ NUL :: q /\
  length buf2 = length buf.
Proof.
  intros Hv Hn Hc -> -> -> -> ->.
  apply (write_replace buf p old q v n); assumption.
Qed.

Lemma write_append_at (buf p k v : list char) (n : nat)
    (tail_data klen vlen : Z) :
  take n buf = p ->
  n = length p ->
  (n + length k + 1 + length v + 1 <= length buf)%nat ->
  tail_data = Z.of_nat n -> klen = Z.of_nat (length k) ->
  vlen = Z.of_nat (length v) ->
  let buf1 := poke (memcpy buf tail_data k) (tail_data + klen) EQUALS in
  let buf2 := poke (memcpy buf1 (tail_data + klen + 1) v)
                   (tail_data + klen + 1 + vlen) NUL in
  take (length (p ++ entry (k, v))) buf2 = p ++ entry (k, v) /\
  length buf2 = length buf.
Proof.
  intros Hv Hn Hc -> -> ->. apply (write_append buf p k v n); assumption.
Qed.

Lemma write_delete_at (buf p e q : list char) (n : nat)
    (sizediff tail_data tail_len : Z) :
  take n buf = p ++ e ++ q ->
  n = length (p ++ e ++ q) ->
  sizediff = - Z.of_nat (length e) ->
  tail_data = Z.of_nat (length p + length e) ->
  tail_len = Z.of_nat (length q) ->
  let buf1 := if negb (sizediff =? 0) && (tail_len >? 0)
              then memmove buf (tail_data + sizediff) tail_data tail_len
              else buf in
  take (length (p ++ q)) buf1 = p ++ q /\ length buf1 = length buf.
Proof.
  intros Hv Hn -> -> ->. apply (write_delete buf p e q n); assumption.
Qed.

Lemma entry_ok_kv_set k v kvs :
  key_ok k -> value_ok v -> Forall entry_ok kvs ->
  Forall entry_ok (kv_set k v kvs).
Proof.
  intros Hk Hv. induction kvs as [|[k' v'] kvs IH]; cbn [kv_set]; intros H.
  - constructor; [split; assumption | constructor].
  - apply Forall_cons in H as [H1 H].
    destruct (bool_decide (k' = k)).
    + constructor; [split; assumption | exact H].
    + constructor; [exact H1 | exact (IH H)].
Qed.

Lemma entry_ok_kv_del k kvs :
  Forall entry_ok kvs -> Forall entry_ok (kv_del k kvs).
Proof.
  induction kvs as [|[k' v'] kvs IH]; cbn [kv_del]; intros H; [constructor|].
  apply Forall_cons in H as [H1 H].
  destruct (bool_decide (k' = k)); [exact H|].
  constructor; [exact H1 | exact (IH H)].
Qed.

Section VarStore.
Variable NAME_BUF_SIZE : Z.
Variable NAME_BUF_OFFSET : Z.
Variable fresh_byte : char.

(** [svc_set_var] with a value: the call fails, without any change,
    exactly when the buffer would grow and the capacity test finds no
    room; in a pool a growth that the test accepts and that passes the
    end of [name_buf] runs over the fields behind it; otherwise the
    entry of the key is replaced in place, or added at the end. *)
Lemma svc_set_var_some (realloc_ok : bool) (g : core) (svc : N)
    (s : service_t) kvs (name value : strseg_t) :
  svc_mem g !! svc = Some s ->
  vars_hold s kvs ->
  slot_ok NAME_BUF_SIZE g s ->
  seg_ok name -> key_ok (seg_bytes name) ->
  seg_ok value -> value_ok (seg_bytes value) ->
  let kvs' := kv_set (seg_bytes name) (seg_bytes value) kvs in
  if no_room NAME_BUF_OFFSET realloc_ok g s (length (encode kvs'))
  then svc_set_var NAME_BUF_SIZE NAME_BUF_OFFSET fresh_byte realloc_ok svc name
         (Some value) g
       = Ok false g
  else if overruns NAME_BUF_SIZE g s (length (encode kvs'))
  then svc_set_var NAME_BUF_SIZE NAME_BUF_OFFSET fresh_byte realloc_ok svc name
         (Some value) g
       = Abort Overrun
  else exists buf,
    svc_set_var NAME_BUF_SIZE NAME_BUF_OFFSET fresh_byte realloc_ok svc name (Some value) g
    = Ok true
        (put_mem (<[svc := set_vars buf (Z.of_nat (length (encode kvs'))) s]>
                    (svc_mem g)) g) /\
    vars_hold (set_vars buf (Z.of_nat (length (encode kvs'))) s) kvs' /\
    (svc_pool g = true -> length buf = length (vars_data s)).
Proof.
  intros Hs Hhold Hslot Hname Hkey Hvalue Hval kvs'.
  destruct (vars_hold_seg s _ Hhold) as (Hok & Hbytes & Hfuel & Hb).
  pose proof (seg_ok_length name Hname) as Hnl.
  pose proof (seg_ok_length value Hvalue) as Hvl.
  unfold svc_set_var. unfold_monad. rewrite Hs. core_simpl.
  destruct (kv_get (seg_bytes name) kvs) as [old|] eqn:Hget.
  - destruct (kv_get_Some_split _ _ _ Hget) as (pre & post & -> & Hpre).
    pose proof (vars_data_split s pre _ old post Hhold) as Hdata.
    destruct Hhold as (Hlen & Hview & Hall).
    rewrite (find_var_found pre post (seg_bytes name) old _ name (vars s)
               seg_unset Hok Hname Hbytes Hall Hpre eq_refl).
    2:{ rewrite Hfuel.
        pose proof (length_encode_ge (pre ++ (seg_bytes name, old) :: post)) as Hg.
        rewrite length_app in Hg. simpl in Hg. lia. }
    subst kvs'. rewrite (kv_set_split _ _ old pre post Hpre).
    cbn [len data base vars].
    assert (Hnew : (length (encode (pre ++ (seg_bytes name, seg_bytes value) :: post))
                    + length old
                    = length (encode (pre ++ (seg_bytes name, old) :: post))
                      + length (seg_bytes value))%nat).
    { rewrite !encode_app, !encode_cons, !length_app, !length_entry.
      cbn [fst snd]. lia. }
    assert (Hn : length (encode (pre ++ (seg_bytes name, old) :: post))
                 = length ((encode pre ++ seg_bytes name ++ [EQUALS])
                           ++ old ++ NUL :: encode post)).
    { rewrite !encode_app, !encode_cons, !length_app, !length_entry.
      cbn [fst snd length]. rewrite ?length_app. cbn [length]. lia. }
    assert (Hview' : take (length (encode (pre ++ (seg_bytes name, old) :: post)))
                          (vars_data s)
                     = (encode pre ++ seg_bytes name ++ [EQUALS])
                       ++ old ++ NUL :: encode post).
    { rewrite Hview, encode_app, encode_cons. unfold entry. cbn [fst snd].
      rewrite <- !app_assoc. cbn. rewrite <- !app_assoc. reflexivity. }
    assert (Henc' : encode (pre ++ (seg_bytes name, seg_bytes value) :: post)
                    = (encode pre ++ seg_bytes name ++ [EQUALS])
                      ++ seg_bytes value ++ NUL :: encode post).
    { rewrite encode_app, encode_cons. unfold entry. cbn [fst snd].
      rewrite <- !app_assoc. cbn. rewrite <- !app_assoc. reflexivity. }
    assert (Hall' : Forall entry_ok (pre ++ (seg_bytes name, seg_bytes value) :: post)).
    { apply Forall_app in Hall as [Hp Hq]. apply Forall_cons in Hq as [_ Hq].
      apply Forall_app. split; [exact Hp|].
      constructor; [split; assumption | exact Hq]. }
    set (sd := len value - Z.of_nat (length old)).
    assert (Hsd : vars_len s + sd
                  = Z.of_nat (length (encode
                      (pre ++ (seg_bytes name, seg_bytes value) :: post))))
      by (subst sd; lia).
    unfold no_room, overruns, pool_capacity, name_buf_room.
    replace (vars_len s <? Z.of_nat (length (encode
               (pre ++ (seg_bytes name, seg_bytes value) :: post))))
      with (sd >? 0)
      by (destruct (Z.gtb_spec sd 0), (Z.ltb_spec (vars_len s)
            (Z.of_nat (length (encode
               (pre ++ (seg_bytes name, seg_bytes value) :: post))))); lia).
    rewrite Hsd.
    (* the writes, on any block [buf] that holds the old view and has room *)
    assert (Hwrite : forall buf,
      take (length (encode (pre ++ (seg_bytes name, old) :: post))) buf
      = (encode pre ++ seg_bytes name ++ [EQUALS]) ++ old ++ NUL :: encode post ->
      (length (encode (pre ++ (seg_bytes name, seg_bytes value) :: post))
       <= length buf)%nat ->
      let buf2 :=
        poke (memcpy
                (if negb (sd =? 0) && (Z.of_nat (length (encode post)) >? 0)
                 then memmove buf
                        (0 + Z.of_nat (length (encode pre))
                         + Z.of_nat (length (entry (seg_bytes name, old))) + sd)
                        (0 + Z.of_nat (length (encode pre))
                         + Z.of_nat (length (entry (seg_bytes name, old))))
                        (Z.of_nat (length (encode post)))
                 else buf)
                (0 + Z.of_nat (length (encode pre))
                 + Z.of_nat (length (seg_bytes name)) + 1)
                (seg_bytes value))
             (0 + Z.of_nat (length (encode pre))
              + Z.of_nat (length (seg_bytes name)) + 1 + len value) NUL in
      vars_hold (set_vars buf2
                   (Z.of_nat (length (encode
                      (pre ++ (seg_bytes name, seg_bytes value) :: post)))) s)
                (pre ++ (seg_bytes name, seg_bytes value) :: post)
      /\ length buf2 = length buf).
    { intros buf Hbv Hbl buf2.
      destruct (write_replace_at buf (encode pre ++ seg_bytes name ++ [EQUALS])
                  old (encode post) (seg_bytes value)
                  (length (encode (pre ++ (seg_bytes name, old) :: post)))
                  sd
                  (0 + Z.of_nat (length (encode pre))
                   + Z.of_nat (length (entry (seg_bytes name, old))))
                  (Z.of_nat (length (encode post)))
                  (0 + Z.of_nat (length (encode pre))
                   + Z.of_nat (length (seg_bytes name)) + 1)
                  (len value) Hbv Hn) as [Htake Hlength].
      - lia.
      - subst sd. lia.
      - rewrite length_entry, !length_app. cbn [fst snd length]. lia.
      - reflexivity.
      - rewrite !length_app. cbn [length]. lia.
      - lia.
      - split; [|exact Hlength].
        split; [reflexivity|]. split; [|exact Hall'].
        cbn [vars_data set_vars]. rewrite Henc'. exact Htake. }
    destruct (Z.gtb_spec sd 0) as [Hgrow|Hshrink]; cbn [andb].
    + destruct (svc_pool g) eqn:Hpool.
      * destruct (Z.ltb_spec
                    (svc_pool_size_each g
                     - (NAME_BUF_OFFSET + Z.of_nat (length (name_buf s)) + 1))
                    (Z.of_nat (length (encode
                       (pre ++ (seg_bytes name, seg_bytes value) :: post)))))
          as [Hover|Hfit];
        match goal with |- context [?a >? ?b] =>
          destruct (Z.gtb_spec a b) end; try lia.
        -- reflexivity.
        -- destruct (Z.ltb_spec
                       (NAME_BUF_SIZE - (Z.of_nat (length (name_buf s)) + 1))
                       (Z.of_nat (length (encode
                          (pre ++ (seg_bytes name, seg_bytes value) :: post)))))
             as [Hrun|Hin];
           match goal with |- context [?a >? ?b] =>
             destruct (Z.gtb_spec a b) end; try lia; cbn [andb].
           ++ reflexivity.
           ++ rewrite Hs.
              destruct (Hwrite (vars_data s) Hview') as [Hh Hl].
              { specialize (Hslot Hpool). unfold name_buf_room in Hslot. lia. }
              eexists. split; [reflexivity|].
              split; [exact Hh | intros _; exact Hl].
      * destruct realloc_ok; cbn [negb andb]; [|reflexivity].
        rewrite Hs.
        destruct (Hwrite (realloc fresh_byte (vars_data s)
                    (Z.of_nat (length (encode
                       (pre ++ (seg_bytes name, seg_bytes value) :: post))))))
          as [Hh Hl].
        { rewrite take_realloc by lia. exact Hview'. }
        { rewrite length_realloc. lia. }
        eexists. split; [reflexivity|]. split; [exact Hh | discriminate].
    + rewrite !andb_false_r. cbn [andb]. rewrite Hs.
      destruct (Hwrite (vars_data s) Hview') as [Hh Hl]; [lia|].
      eexists. split; [reflexivity|]. split; [exact Hh | intros _; exact Hl].
  - pose proof (kv_get_None _ _ Hget) as Hne.
    destruct Hhold as (Hlen & Hview & Hall).
    destruct (find_var_not_found kvs (Z.to_nat (vars_len s)) name (vars s)
                seg_unset Hok Hname Hbytes Hall Hne) as [o Ho].
    { rewrite Hfuel. apply length_encode_ge. }
    rewrite Ho. subst kvs'. rewrite (kv_set_not_found _ _ _ Hne).
    cbn [len data base vars].
    assert (Hnew : length (encode (kvs ++ [(seg_bytes name, seg_bytes value)]))
                   = (length (encode kvs) + length (seg_bytes name) + 1
                      + length (seg_bytes value) + 1)%nat).
    { rewrite encode_app, length_app. cbn [encode List.map concat].
      rewrite app_nil_r, length_entry. cbn [fst snd]. lia. }
    assert (Henc' : encode (kvs ++ [(seg_bytes name, seg_bytes value)])
                    = encode kvs ++ entry (seg_bytes name, seg_bytes value)).
    { rewrite encode_app. cbn [encode List.map concat].
      rewrite app_nil_r. reflexivity. }
    assert (Hall' : Forall entry_ok (kvs ++ [(seg_bytes name, seg_bytes value)])).
    { apply Forall_app. split; [exact Hall|].
      constructor; [split; assumption | constructor]. }
    set (sd := len name + 1 + len value + 1).
    assert (Hsd : vars_len s + sd
                  = Z.of_nat (length (encode
                      (kvs ++ [(seg_bytes name, seg_bytes value)]))))
      by (subst sd; lia).
    assert (Hgrow : sd > 0) by (destruct Hname as (_ & ? & _),
                                  Hvalue as (_ & ? & _); subst sd; lia).
    unfold no_room, overruns, pool_capacity, name_buf_room.
    replace (vars_len s <? Z.of_nat (length (encode
               (kvs ++ [(seg_bytes name, seg_bytes value)]))))
      with true by (symmetry; apply Z.ltb_lt; lia).
    rewrite Hsd.
    destruct (Z.gtb_spec sd 0) as [_|?]; [|lia].
    destruct (Z.eqb_spec sd 0) as [?|_]; [lia|].
    cbn [negb andb Z.gtb Z.compare].
    assert (Hwrite : forall buf,
      take (length (encode kvs)) buf = encode kvs ->
      (length (encode (kvs ++ [(seg_bytes name, seg_bytes value)]))
       <= length buf)%nat ->
      let buf2 :=
        poke (memcpy
                (poke (memcpy buf (0 + Z.of_nat (length (encode kvs)))
                              (seg_bytes name))
                      (0 + Z.of_nat (length (encode kvs)) + len name) EQUALS)
                (0 + Z.of_nat (length (encode kvs)) + len name + 1)
                (seg_bytes value))
             (0 + Z.of_nat (length (encode kvs)) + len name + 1 + len value)
             NUL in
      vars_hold (set_vars buf2
                   (Z.of_nat (length (encode
                      (kvs ++ [(seg_bytes name, seg_bytes value)])))) s)
                (kvs ++ [(seg_bytes name, seg_bytes value)])
      /\ length buf2 = length buf).
    { intros buf Hbv Hbl buf2.
      destruct (write_append_at buf (encode kvs) (seg_bytes name)
                  (seg_bytes value) (length (encode kvs))
                  (0 + Z.of_nat (length (encode kvs))) (len name) (len value)
                  Hbv eq_refl) as [Htake Hlength]; try lia.
      split; [|exact Hlength].
      split; [reflexivity|]. split; [|exact Hall'].
      cbn [vars_data set_vars]. rewrite Henc'. exact Htake. }
    destruct (svc_pool g) eqn:Hpool.
    + destruct (Z.ltb_spec
                  (svc_pool_size_each g
                   - (NAME_BUF_OFFSET + Z.of_nat (length (name_buf s)) + 1))
                  (Z.of_nat (length (encode
                     (kvs ++ [(seg_bytes name, seg_bytes value)])))))
        as [Hover|Hfit];
      match goal with |- context [?a >? ?b] =>
        destruct (Z.gtb_spec a b) end; try lia.
      * reflexivity.
      * destruct (Z.ltb_spec
                    (NAME_BUF_SIZE - (Z.of_nat (length (name_buf s)) + 1))
                    (Z.of_nat (length (encode
                       (kvs ++ [(seg_bytes name, seg_bytes value)])))))
          as [Hrun|Hin];
        match goal with |- context [?a >? ?b] =>
          destruct (Z.gtb_spec a b) end; try lia; cbn [andb].
        -- reflexivity.
        -- rewrite Hs.
           destruct (Hwrite (vars_data s) Hview) as [Hh Hl].
           { specialize (Hslot Hpool). unfold name_buf_room in Hslot. lia. }
           eexists. split; [reflexivity|].
           split; [exact Hh | intros _; exact Hl].
    + destruct realloc_ok; cbn [negb andb]; [|reflexivity].
      rewrite Hs.
      destruct (Hwrite (realloc fresh_byte (vars_data s)
                  (Z.of_nat (length (encode
                     (kvs ++ [(seg_bytes name, seg_bytes value)]))))))
        as [Hh Hl].
      { rewrite take_realloc by lia. exact Hview. }
      { rewrite length_realloc. lia. }
      eexists. split; [reflexivity|]. split; [exact Hh | discriminate].
Qed.

(** [svc_set_var] without a value: the entry of the key is removed and
    the rest of the buffer moves down; the call cannot fail. *)
Lemma svc_set_var_none (realloc_ok : bool) (g : core) (svc : N)
    (s : service_t) kvs (name : strseg_t) :
  svc_mem g !! svc = Some s ->
  vars_hold s kvs ->
  seg_ok name ->
  let kvs' := kv_del (seg_bytes name) kvs in
  exists buf,
    svc_set_var NAME_BUF_SIZE NAME_BUF_OFFSET fresh_byte realloc_ok svc name None g
    = Ok true
        (put_mem (<[svc := set_vars buf (Z.of_nat (length (encode kvs'))) s]>
                    (svc_mem g)) g) /\
    vars_hold (set_vars buf (Z.of_nat (length (encode kvs'))) s) kvs' /\
    length buf = length (vars_data s).
Proof.
  intros Hs Hhold Hname kvs'.
  destruct (vars_hold_seg s _ Hhold) as (Hok & Hbytes & Hfuel & Hb).
  pose proof (seg_ok_length name Hname) as Hnl.
  unfold svc_set_var. unfold_monad. rewrite Hs. core_simpl.
  destruct (kv_get (seg_bytes name) kvs) as [old|] eqn:Hget.
  - destruct (kv_get_Some_split _ _ _ Hget) as (pre & post & -> & Hpre).
    destruct Hhold as (Hlen & Hview & Hall).
    rewrite (find_var_found pre post (seg_bytes name) old _ name (vars s)
               seg_unset Hok Hname Hbytes Hall Hpre eq_refl).
    2:{ rewrite Hfuel.
        pose proof (length_encode_ge (pre ++ (seg_bytes name, old) :: post)) as Hg.
        rewrite length_app in Hg. simpl in Hg. lia. }
    subst kvs'. rewrite (kv_del_split _ old pre post Hpre).
    cbn [len data base vars].
    assert (Hold : length (encode (pre ++ (seg_bytes name, old) :: post))
                   = length (encode pre ++ entry (seg_bytes name, old)
                             ++ encode post)).
    { rewrite encode_app, encode_cons. reflexivity. }
    assert (Hview' : take (length (encode (pre ++ (seg_bytes name, old) :: post)))
                          (vars_data s)
                     = encode pre ++ entry (seg_bytes name, old) ++ encode post).
    { rewrite Hview, encode_app, encode_cons. reflexivity. }
    assert (Hall' : Forall entry_ok (pre ++ post)).
    { apply Forall_app in Hall as [Hp Hq]. apply Forall_cons in Hq as [_ Hq].
      apply Forall_app. split; assumption. }
    set (sd := - (Z.of_nat (length old) + 1 + len name + 1)).
    assert (Hsd : vars_len s + sd = Z.of_nat (length (encode (pre ++ post)))).
    { subst sd. rewrite Hlen, !encode_app, encode_cons, !length_app, length_entry.
      cbn [fst snd]. lia. }
    rewrite Hsd.
    destruct (Z.gtb_spec sd 0) as [?|_]; [subst sd; lia|].
    rewrite !andb_false_r. cbn [andb]. rewrite Hs.
    destruct (write_delete_at (vars_data s) (encode pre)
                (entry (seg_bytes name, old)) (encode post)
                (length (encode (pre ++ (seg_bytes name, old) :: post)))
                sd
                (0 + Z.of_nat (length (encode pre))
                 + Z.of_nat (length (entry (seg_bytes name, old))))
                (Z.of_nat (length (encode post))) Hview' Hold)
      as [Htake Hlength].
    + subst sd. rewrite length_entry. cbn [fst snd]. lia.
    + lia.
    + reflexivity.
    + eexists. split; [reflexivity|]. split; [|exact Hlength].
      split; [reflexivity|]. split; [|exact Hall'].
      cbn [vars_data set_vars]. rewrite encode_app. exact Htake.
  - pose proof (kv_get_None _ _ Hget) as Hne.
    pose proof Hhold as (Hlen & Hview & Hall).
    destruct (find_var_not_found kvs (Z.to_nat (vars_len s)) name (vars s)
                seg_unset Hok Hname Hbytes Hall Hne) as [o Ho].
    { rewrite Hfuel. apply length_encode_ge. }
    rewrite Ho. subst kvs'. rewrite (kv_del_not_found _ _ Hne).
    cbn [len data base vars Z.gtb Z.compare Z.eqb negb andb].
    rewrite !andb_false_r. cbn [andb]. rewrite Hs.
    rewrite Z.add_0_r, <- Hlen.
    eexists. split; [reflexivity|]. split; [|reflexivity].
    rewrite Hlen. split; [reflexivity|]. split; [exact Hview | exact Hall].
Qed.
End VarStore.

(* ===================================================================== *)
(** * Tab-separated lists *)
(* ===================================================================== *)

Lemma split_on_no_sep sep (a : list char) : sep ∉ a -> split_on sep a = [a].
Proof.
  induction a as [|c a IH]; cbn [split_on]; intros Hn; [reflexivity|].
  apply not_elem_of_cons in Hn as [Hc Ha].
  destruct (Z.eqb_spec c sep); [congruence|]. rewrite IH by exact Ha. reflexivity.
Qed.

Lemma split_on_sep sep (a r : list char) :
  sep ∉ a -> split_on sep (a ++ sep :: r) = a :: split_on sep r.
Proof.
  induction a as [|c a IH]; cbn [split_on app]; intros Hn.
  - rewrite Z.eqb_refl. reflexivity.
  - apply not_elem_of_cons in Hn as [Hc Ha].
    destruct (Z.eqb_spec c sep); [congruence|]. rewrite IH by exact Ha. reflexivity.
Qed.

(** The two outcomes of [strseg_tok_next] on a segment, with the tokens
    of its bytes. *)
Lemma strseg_tok_next_cases (x : strseg_t) sep :
  seg_ok x ->
  (exists x' t,
     strseg_tok_next x sep = Some (x', t) /\
     seg_ok t /\ seg_bytes t = seg_bytes x /\ len x' = -1 /\
     split_on sep (seg_bytes x) = [seg_bytes x]) \/
  (exists x' t,
     strseg_tok_next x sep = Some (x', t) /\
     seg_ok t /\ seg_ok x' /\
     (length (seg_bytes x') < length (seg_bytes x))%nat /\
     split_on sep (seg_bytes x) = seg_bytes t :: split_on sep (seg_bytes x')).
Proof.
  intros Hx. pose proof (seg_ok_length x Hx) as Hlen.
  pose proof (scan_le sep (seg_bytes x)) as Hle.
  destruct (Nat.eq_dec (scan sep (seg_bytes x)) (length (seg_bytes x))) as [Heq|Hne].
  - left.
    assert (Hn : sep ∉ seg_bytes x).
    { pose proof (take_scan_no_sep sep (seg_bytes x)) as H.
      rewrite Heq, firstn_all in H. exact H. }
    rewrite (strseg_tok_next_last x sep Hx Hn).
    eexists _, _. split; [reflexivity|].
    replace {| base := base x; data := data x; len := len x |} with x
      by (destruct x; reflexivity).
    repeat split; try apply Hx. apply split_on_no_sep, Hn.
  - right.
    pose proof (scan_split sep (seg_bytes x) ltac:(lia)) as Hsplit.
    pose proof (take_scan_no_sep sep (seg_bytes x)) as Hn.
    set (a := take (scan sep (seg_bytes x)) (seg_bytes x)) in *.
    set (r := drop (S (scan sep (seg_bytes x))) (seg_bytes x)) in *.
    assert (Hla : length a = scan sep (seg_bytes x)).
    { subst a. rewrite length_take. lia. }
    rewrite (strseg_tok_next_sep x sep a r Hx Hsplit Hn).
    assert (Hlx : length (seg_bytes x) = (length a + 1 + length r)%nat).
    { rewrite Hsplit at 1. rewrite length_app. simpl. lia. }
    destruct Hx as (Hd & Hl & Hb).
    eexists _, _. split; [reflexivity|].
    assert (Ht : seg_bytes {| base := base x; data := data x;
                              len := Z.of_nat (length a) |} = a).
    { replace (data x) with (data x + 0) by lia.
      rewrite (seg_bytes_sub (base x) (data x) (len x) 0); try lia.
      replace {| base := base x; data := data x; len := len x |} with x
        by (destruct x; reflexivity).
      change (Z.to_nat 0) with 0%nat.
      rewrite drop_0, Nat2Z.id, Hsplit. apply take_app_length. }
    assert (Hr : seg_bytes {| base := base x;
                              data := data x + Z.of_nat (length a) + 1;
                              len := len x - (Z.of_nat (length a) + 1) |} = r).
    { replace (data x + Z.of_nat (length a) + 1)
        with (data x + (Z.of_nat (length a) + 1)) by lia.
      rewrite (seg_bytes_sub (base x) (data x) (len x)); try lia.
      replace {| base := base x; data := data x; len := len x |} with x
        by (destruct x; reflexivity).
      rewrite Hsplit.
      replace (Z.to_nat (Z.of_nat (length a) + 1)) with (length (a ++ [sep]))
        by (rewrite length_app; simpl; lia).
      change (a ++ sep :: r) with (a ++ [sep] ++ r).
      rewrite app_assoc, drop_app_length. apply take_ge. lia. }
    rewrite Ht, Hr.
    repeat split; cbn [base data len]; try lia.
    rewrite Hsplit at 1. apply split_on_sep, Hn.
Qed.

Lemma strseg_tok_next_exhausted (x : strseg_t) sep :
  len x = -1 -> strseg_tok_next x sep = None.
Proof. intros H. unfold strseg_tok_next. rewrite H. reflexivity. Qed.

(** ** The scan of [svc_set_fds] *)


(** ** The parser of [svc_set_triggers] *)

Section Triggers.
Variable sig_num_by_name : list char -> Z.
Variable NSIG : Z.

(** The loop reads the tokens up to the first empty one. *)
Lemma parse_triggers_tokens :
  forall (fuel : nat) (x : strseg_t) (a e : bool) (sigs : Z),
  seg_ok x -> (length (seg_bytes x) + 2 <= fuel)%nat ->
  parse_triggers sig_num_by_name NSIG fuel x a e sigs =
  parse_tokens sig_num_by_name NSIG
    (until_empty (split_on TAB (seg_bytes x))) a e sigs.
Proof.
  assert (Hpos : forall t : strseg_t, seg_ok t ->
            (len t >? 0) = negb (bool_decide (seg_bytes t = []))).
  { intros t Ht. pose proof (seg_ok_length t Ht) as Hl.
    destruct (seg_bytes t) as [|c l] eqn:E.
    - rewrite bool_decide_eq_true_2 by reflexivity. simpl in Hl.
      destruct (Z.gtb_spec (len t) 0); [lia | reflexivity].
    - rewrite bool_decide_eq_false_2 by discriminate. simpl in Hl.
      destruct (Z.gtb_spec (len t) 0); [reflexivity | lia]. }
  induction fuel as [|fuel IH]; intros x a e sigs Hx Hfuel; [lia|].
  cbn [parse_triggers].
  destruct (strseg_tok_next_cases x TAB Hx)
    as [(x' & t & Hnext & Ht & Hbytes & Hlen & Hsplit)
       |(x' & t & Hnext & Ht & Hx' & Hlt & Hsplit)].
  - rewrite Hnext, Hsplit, <- Hbytes, (Hpos t Ht). cbn [until_empty].
    destruct (bool_decide (seg_bytes t = [])); cbn [negb]; [reflexivity|].
    cbn [parse_tokens].
    rewrite (strseg_cmp_eqb t _ Ht (seg_ok_STRSEG _)), seg_bytes_STRSEG.
    assert (Hend : forall a e sigs,
              parse_triggers sig_num_by_name NSIG fuel x' a e sigs
              = Some (a, e, sigs)).
    { intros. destruct fuel; cbn [parse_triggers]; [reflexivity|].
      rewrite (strseg_tok_next_exhausted x' TAB Hlen). reflexivity. }
    destruct (bool_decide (seg_bytes t = lit "always")); [apply Hend|].
    destruct (sig_num_by_name (seg_bytes t) >? 0); [|reflexivity].
    destruct (sigaddset NSIG sigs (sig_num_by_name (seg_bytes t)));
      [apply Hend | reflexivity].
  - rewrite Hnext, Hsplit, (Hpos t Ht). cbn [until_empty].
    destruct (bool_decide (seg_bytes t = [])); cbn [negb]; [reflexivity|].
    cbn [parse_tokens].
    rewrite (strseg_cmp_eqb t _ Ht (seg_ok_STRSEG _)), seg_bytes_STRSEG.
    destruct (bool_decide (seg_bytes t = lit "always"));
      [apply IH; [assumption | lia]|].
    destruct (sig_num_by_name (seg_bytes t) >? 0); [|reflexivity].
    destruct (sigaddset NSIG sigs (sig_num_by_name (seg_bytes t)));
      [apply IH; [assumption | lia] | reflexivity].
Qed.

(** A token that is not recognized, with no empty token before it,
    makes the parse fail. *)
Lemma parse_tokens_bad (pre : list (list char)) (bad : list char) rest :
  forall a e sigs,
  bad <> lit "always" -> sig_num_by_name bad <= 0 ->
  parse_tokens sig_num_by_name NSIG (pre ++ bad :: rest) a e sigs = None.
Proof.
  induction pre as [|t pre IH]; intros a e sigs Hna Hns; cbn [app parse_tokens].
  - rewrite bool_decide_eq_false_2 by exact Hna.
    destruct (Z.gtb_spec (sig_num_by_name bad) 0); [lia | reflexivity].
  - destruct (bool_decide (t = lit "always")); [apply IH; assumption|].
    destruct (sig_num_by_name t >? 0); [|reflexivity].
    destruct (sigaddset NSIG sigs (sig_num_by_name t));
      [apply IH; assumption | reflexivity].
Qed.

Lemma until_empty_app (pre : list (list char)) (t : list char) rest :
  Forall (fun t => t <> []) pre ->
  until_empty (pre ++ t :: rest)
  = pre ++ until_empty (t :: rest).
Proof.
  induction pre as [|p pre IH]; intros H; [reflexivity|].
  apply Forall_cons in H as [Hp H]. cbn [app until_empty].
  rewrite bool_decide_eq_false_2 by exact Hp. f_equal. apply IH, H.
Qed.
End Triggers.

(* ===================================================================== *)
(** * The setters *)
(* ===================================================================== *)

(** A computation that ends in [ret true] does not return false. *)
Lemma bind_ret_true_not_false {A} (m : M A) (g g' : core) :
  bind m (fun _ => ret true) g = Ok false g' -> False.
Proof. unfold bind, ret. destruct (m g); discriminate. Qed.

Ltac split_bind H :=
  match type of H with
  | bind ?m ?k ?g = _ =>
      let r := fresh "r" in
      let E := fresh "E" in
      unfold bind at 1 in H; destruct (m g) as [r ?|] eqn:E; [|discriminate H]
  end.

Section Setters.
Variable NAME_BUF_SIZE : Z.
Variable NAME_BUF_OFFSET : Z.
Variable fresh_byte : char.
Variable sig_num_by_name : list char -> Z.
Variable NSIG : Z.

(** A failing [svc_set_var] returns before it writes anything. *)
Lemma svc_set_var_false (realloc_ok : bool) (svc : N) (name : strseg_t)
    (value : option strseg_t) (g g' : core) :
  svc_set_var NAME_BUF_SIZE NAME_BUF_OFFSET fresh_byte realloc_ok svc name value g
  = Ok false g' -> g' = g.
Proof.
  unfold svc_set_var. unfold_monad.
  destruct (svc_mem g !! svc) as [s|]; [|discriminate].
  destruct (find_var _ _ _ _) as [[found oldval] tail].
  match goal with |- context [match ?room with Some _ => _ | None => _ end] =>
    destruct room as [buf|] end.
  - destruct (svc_pool g && _ && _); [discriminate|].
    destruct found, value; cbn; destruct (svc_mem g !! svc); discriminate.
  - intros [= <-]. reflexivity.
Qed.

Lemma svc_set_tags_false (realloc_ok : bool) (svc : N) (new_tags : strseg_t)
    (g g' : core) :
  svc_set_tags NAME_BUF_SIZE NAME_BUF_OFFSET fresh_byte realloc_ok svc new_tags g
  = Ok false g' -> g' = g.
Proof. apply svc_set_var_false. Qed.

Lemma svc_set_argv_false (realloc_ok : bool) (svc : N) (new_argv : strseg_t)
    (g g' : core) :
  svc_set_argv NAME_BUF_SIZE NAME_BUF_OFFSET fresh_byte realloc_ok svc new_argv g
  = Ok false g' -> g' = g.
Proof. apply svc_set_var_false. Qed.

Lemma svc_set_fds_false (realloc_ok : bool) (svc : N) (new_fds : strseg_t)
    (g g' : core) :
  svc_set_fds NAME_BUF_SIZE NAME_BUF_OFFSET fresh_byte realloc_ok svc new_fds g
  = Ok false g' -> g' = g.
Proof.
  unfold svc_set_fds. intros H. split_bind H.
  destruct r; cbn [negb] in H.
  - destruct (scan_fds _ _ _ _ _) as [[e c] k].
    exfalso. eapply bind_ret_true_not_false. exact H.
  - unfold ret in H. injection H as <-.
    destruct (strseg_cmp _ _ =? 0).
    + exfalso. eapply bind_ret_true_not_false. exact E.
    + eapply svc_set_var_false. exact E.
Qed.

Lemma svc_set_restart_interval_false (svc : N) (interval : Z) (g g' : core) :
  svc_set_restart_interval svc interval g = Ok false g' -> g' = g.
Proof.
  unfold svc_set_restart_interval.
  destruct (Z.shiftr interval 32 <? 1).
  - intros [= <-]. reflexivity.
  - intros H. exfalso. eapply bind_ret_true_not_false. exact H.
Qed.

Lemma svc_set_triggers_false (realloc_ok : bool) (svc : N)
    (triggers_tsv : strseg_t) (g g' : core) :
  svc_set_triggers NAME_BUF_SIZE NAME_BUF_OFFSET sig_num_by_name NSIG fresh_byte
    realloc_ok svc triggers_tsv g = Ok false g' -> g' = g.
Proof.
  unfold svc_set_triggers.
  destruct (parse_triggers _ _ _ _ _ _ _) as [[[autostart enable_sigs] sigs]|].
  - intros H. split_bind H. destruct r; cbn [negb] in H.
    + exfalso. repeat split_bind H. discriminate H.
    + unfold ret in H. injection H as <-.
      eapply svc_set_var_false. exact E.
  - intros [= <-]. reflexivity.
Qed.
End Setters.

Section SetterFailures.
Variable NAME_BUF_SIZE : Z.
Variable NAME_BUF_OFFSET : Z.
Variable fresh_byte : char.
Variable sig_num_by_name : list char -> Z.
Variable NSIG : Z.

(** C4 (amended): every setter failure is atomic.  [svc_set_triggers]
    returns false on a non-empty token that is neither [always] nor a
    known signal name when no empty token precedes it;
    [svc_set_restart_interval] returns false on an interval whose
    whole-seconds part is below 1; [svc_set_var] returns false when the
    buffer of a pool-backed record would grow over the capacity of its
    slot; and whenever one of the setters returns false, the core (every
    field of every record, the lists and the indices) is exactly as
    before the call. *)
Theorem setter_failure_atomic :
  (forall realloc_ok g svc (t : list char) pre bad rest,
     split_on TAB t = pre ++ bad :: rest ->
     Forall (fun tok => tok <> []) pre ->
     bad <> [] -> bad <> lit "always" -> sig_num_by_name bad <= 0 ->
     svc_set_triggers NAME_BUF_SIZE NAME_BUF_OFFSET sig_num_by_name NSIG fresh_byte
       realloc_ok svc (STRSEG t) g = Ok false g) /\
  (forall g svc interval,
     Z.shiftr interval 32 < 1 ->
     svc_set_restart_interval svc interval g = Ok false g) /\
  (forall realloc_ok g svc s kvs (name value : strseg_t),
     svc_mem g !! svc = Some s ->
     vars_hold s kvs -> slot_ok NAME_BUF_SIZE g s ->
     seg_ok name -> key_ok (seg_bytes name) ->
     seg_ok value -> value_ok (seg_bytes value) ->
     svc_pool g = true ->
     let new_len :=
       length (encode (kv_set (seg_bytes name) (seg_bytes value) kvs)) in
     vars_len s < Z.of_nat new_len ->
     pool_capacity NAME_BUF_OFFSET g s < Z.of_nat new_len ->
     svc_set_var NAME_BUF_SIZE NAME_BUF_OFFSET fresh_byte realloc_ok svc name (Some value) g
     = Ok false g) /\
  (forall realloc_ok g g' svc (x : strseg_t) (v : option strseg_t) interval,
     (svc_set_var NAME_BUF_SIZE NAME_BUF_OFFSET fresh_byte realloc_ok svc x v g
      = Ok false g' -> g' = g) /\
     (svc_set_tags NAME_BUF_SIZE NAME_BUF_OFFSET fresh_byte realloc_ok svc x g
      = Ok false g' -> g' = g) /\
     (svc_set_argv NAME_BUF_SIZE NAME_BUF_OFFSET fresh_byte realloc_ok svc x g
      = Ok false g' -> g' = g) /\
     (svc_set_fds NAME_BUF_SIZE NAME_BUF_OFFSET fresh_byte realloc_ok svc x g
      = Ok false g' -> g' = g) /\
     (svc_set_triggers NAME_BUF_SIZE NAME_BUF_OFFSET sig_num_by_name NSIG fresh_byte
        realloc_ok svc x g = Ok false g' -> g' = g) /\
     (svc_set_restart_interval svc interval g = Ok false g' -> g' = g)).
Proof.
  split; [|split; [|split]].
  - intros realloc_ok g svc t pre bad rest Hsplit Hpre Hne Hna Hns.
    unfold svc_set_triggers.
    rewrite parse_triggers_tokens.
    + rewrite seg_bytes_STRSEG, Hsplit, until_empty_app by exact Hpre.
      cbn [until_empty]. rewrite bool_decide_eq_false_2 by exact Hne.
      rewrite (parse_tokens_bad _ _ pre bad _ _ _ _ Hna Hns). reflexivity.
    + apply seg_ok_STRSEG.
    + rewrite seg_bytes_STRSEG. cbn [len STRSEG]. lia.
  - intros g svc interval Hi. unfold svc_set_restart_interval.
    destruct (Z.ltb_spec (Z.shiftr interval 32) 1); [reflexivity | lia].
  - intros realloc_ok g svc s kvs name value Hs Hhold Hslot Hname Hkey
      Hvalue Hval Hpool new_len Hgrow Hover.
    pose proof (svc_set_var_some NAME_BUF_SIZE NAME_BUF_OFFSET fresh_byte realloc_ok g svc s
                  kvs name value Hs Hhold Hslot Hname Hkey Hvalue Hval) as H.
    cbv zeta in H. unfold no_room in H. rewrite Hpool in H.
    fold new_len in H.
    destruct (Z.ltb_spec (vars_len s) (Z.of_nat new_len)); [|lia].
    destruct (Z.ltb_spec (pool_capacity NAME_BUF_OFFSET g s) (Z.of_nat new_len));
      [|lia].
    exact H.
  - intros realloc_ok g g' svc x v interval. repeat split.
    + apply svc_set_var_false.
    + apply svc_set_tags_false.
    + apply svc_set_argv_false.
    + apply svc_set_fds_false.
    + apply svc_set_triggers_false.
    + apply svc_set_restart_interval_false.
Qed.
End SetterFailures.

Lemma setter_failure_atomic_witness :
  svc_set_triggers 64 4 sample_sig_num_by_name 65 0 true 16
    (STRSEG (lit "SIGHUP" ++ TAB :: lit "bogus" ++ TAB :: lit "always"))
    sample_core = Ok false sample_core /\
  svc_set_restart_interval 16 (Z.shiftl 1 31) sample_core = Ok false sample_core /\
  svc_set_var 64 4 0 true 1024 (STRSEG (lit "tags"))
    (Some (STRSEG (replicate 300 (char_of_ascii "x")))) sample_pool_core
  = Ok false sample_pool_core.
Proof.
  destruct (setter_failure_atomic 64 4 0 sample_sig_num_by_name 65)
    as (Htrig & Hint & Hvar & _).
  split; [|split].
  - apply (Htrig true sample_core 16%N _ [lit "SIGHUP"] (lit "bogus") [lit "always"]).
    + reflexivity.
    + constructor; [discriminate | constructor].
    + discriminate.
    + discriminate.
    + vm_compute. discriminate.
  - apply Hint. reflexivity.
  - apply (Hvar true sample_pool_core 1024%N sample_pool_svc []).
    + reflexivity.
    + split; [reflexivity|]. split; [reflexivity | constructor].
    + intros _. vm_compute. discriminate.
    + apply seg_ok_STRSEG.
    + rewrite seg_bytes_STRSEG. split.
      * apply (bool_decide_unpack _). vm_compute. exact I.
      * apply (bool_decide_unpack _). vm_compute. exact I.
    + apply seg_ok_STRSEG.
    + rewrite seg_bytes_STRSEG. unfold value_ok.
      apply (bool_decide_unpack _). vm_compute. exact I.
    + reflexivity.
    + vm_compute. reflexivity.
    + vm_compute. reflexivity.
Defined.

(** C4 (as stated) fails: the token [bogus] of ["always\t\tbogus"] is
    neither [always] nor a signal name, yet [svc_set_triggers] returns
    true, because the parser stops at the empty token before it. *)
Lemma setter_failure_atomic_counterexample :
  ~ bad_token_fails 64 4 sample_sig_num_by_name 65 0 sample_core 16
      (lit "always" ++ TAB :: TAB :: lit "bogus").
Proof.
  intros H.
  specialize (H (lit "bogus")).
  assert (Hin : lit "bogus" ∈ split_on TAB (lit "always" ++ TAB :: TAB :: lit "bogus")).
  { apply (bool_decide_unpack _). vm_compute. exact I. }
  specialize (H Hin ltac:(discriminate) ltac:(discriminate)
                ltac:(vm_compute; discriminate) true).
  vm_compute in H. discriminate H.
Qed.

(* ===================================================================== *)
(** * Round trip of a variable *)
(* ===================================================================== *)

Lemma kv_get_kv_set k v kvs : kv_get k (kv_set k v kvs) = Some v.
Proof.
  induction kvs as [|[k' v'] kvs IH]; cbn [kv_set kv_get].
  - rewrite bool_decide_eq_true_2 by reflexivity. reflexivity.
  - destruct (decide (k' = k)) as [->|Hne].
    + rewrite bool_decide_eq_true_2 by reflexivity. cbn [kv_get].
      rewrite bool_decide_eq_true_2 by reflexivity. reflexivity.
    + rewrite bool_decide_eq_false_2 by exact Hne. cbn [kv_get].
      rewrite bool_decide_eq_false_2 by exact Hne. exact IH.
Qed.

Lemma keys_kv_set k v kvs :
  List.map fst (kv_set k v kvs)
  = if bool_decide (k ∈ List.map fst kvs) then List.map fst kvs
    else List.map fst kvs ++ [k].
Proof.
  induction kvs as [|[k' v'] kvs IH]; cbn [kv_set List.map fst].
  - rewrite bool_decide_eq_false_2 by apply not_elem_of_nil. reflexivity.
  - destruct (decide (k' = k)) as [->|Hne].
    + rewrite bool_decide_eq_true_2 by reflexivity.
      rewrite bool_decide_eq_true_2 by apply list_elem_of_here. reflexivity.
    + rewrite bool_decide_eq_false_2 by exact Hne. cbn [List.map fst].
      rewrite IH. destruct (decide (k ∈ List.map fst kvs)) as [Hin|Hnin].
      * rewrite !bool_decide_eq_true_2; [reflexivity | | exact Hin].
        apply list_elem_of_further, Hin.
      * rewrite !bool_decide_eq_false_2; [reflexivity | | exact Hnin].
        rewrite elem_of_cons. intros [?|?]; [congruence | contradiction].
Qed.

Lemma keys_unique_kv_set k v kvs :
  keys_unique kvs -> keys_unique (kv_set k v kvs).
Proof.
  unfold keys_unique. intros H. rewrite keys_kv_set.
  destruct (decide (k ∈ List.map fst kvs)) as [Hin|Hnin].
  - rewrite bool_decide_eq_true_2 by exact Hin. exact H.
  - rewrite bool_decide_eq_false_2 by exact Hnin.
    apply NoDup_app. split; [exact H|]. split.
    + intros x Hx Hx'. apply list_elem_of_singleton in Hx'. congruence.
    + apply NoDup_singleton.
Qed.

Lemma kv_get_elem_of k kvs :
  k ∉ List.map fst kvs -> kv_get k kvs = None.
Proof.
  induction kvs as [|[k' v'] kvs IH]; cbn [kv_get List.map fst]; intros H;
    [reflexivity|].
  apply not_elem_of_cons in H as [Hne H].
  rewrite bool_decide_eq_false_2 by congruence. apply IH, H.
Qed.

Lemma kv_get_kv_del k kvs :
  keys_unique kvs -> kv_get k (kv_del k kvs) = None.
Proof.
  unfold keys_unique.
  induction kvs as [|[k' v'] kvs IH]; cbn [kv_del List.map fst]; intros H;
    [reflexivity|].
  apply NoDup_cons in H as [Hnin H].
  destruct (decide (k' = k)) as [->|Hne].
  - rewrite bool_decide_eq_true_2 by reflexivity.
    apply kv_get_elem_of, Hnin.
  - rewrite bool_decide_eq_false_2 by exact Hne. cbn [kv_get].
    rewrite bool_decide_eq_false_2 by exact Hne. apply IH, H.
Qed.

Lemma kv_del_kv_set_absent k v kvs :
  kv_get k kvs = None -> kv_del k (kv_set k v kvs) = kvs.
Proof.
  intros H. pose proof (kv_get_None _ _ H) as Hne.
  rewrite (kv_set_not_found _ _ _ Hne).
  replace (kvs ++ [(k, v)]) with (kvs ++ (k, v) :: []) by reflexivity.
  rewrite (kv_del_split _ _ _ _ Hne). apply app_nil_r.
Qed.

Lemma slot_ok_put_mem off g m s buf l :
  slot_ok off g s -> (svc_pool g = true -> length buf = length (vars_data s)) ->
  slot_ok off (put_mem m g) (set_vars buf l s).
Proof.
  unfold slot_ok, name_buf_room. cbn. intros H Hl Hp.
  rewrite (Hl Hp). apply H, Hp.
Qed.

Lemma kv_set_kv_set k v w kvs : kv_set k w (kv_set k v kvs) = kv_set k w kvs.
Proof.
  induction kvs as [|[k' v'] kvs IH]; cbn [kv_set].
  - rewrite bool_decide_eq_true_2 by reflexivity. reflexivity.
  - destruct (decide (k' = k)) as [->|Hne].
    + rewrite bool_decide_eq_true_2 by reflexivity. cbn [kv_set].
      rewrite bool_decide_eq_true_2 by reflexivity. reflexivity.
    + rewrite bool_decide_eq_false_2 by exact Hne. cbn [kv_set].
      rewrite bool_decide_eq_false_2 by exact Hne. rewrite IH. reflexivity.
Qed.

Lemma length_encode_kv_set_le k v w kvs :
  (length w <= length v)%nat ->
  (length (encode (kv_set k w kvs)) <= length (encode (kv_set k v kvs)))%nat.
Proof.
  intros Hle. induction kvs as [|[k' v'] kvs IH]; cbn [kv_set].
  - rewrite !encode_cons, !length_app, !length_entry. cbn [fst snd]. lia.
  - destruct (bool_decide (k' = k)).
    + rewrite !encode_cons, !length_app, !length_entry. cbn [fst snd]. lia.
    + rewrite !encode_cons, !length_app. lia.
Qed.

Lemma fits_overruns n off ok g s new_len :
  fits n off ok g s new_len -> overruns n g s new_len = false.
Proof.
  intros [_ H]. unfold overruns. destruct (svc_pool g); [|reflexivity].
  destruct (H eq_refl) as [_ Hn]. cbn [andb]. apply andb_false_iff. right.
  apply Z.ltb_ge. exact Hn.
Qed.

Section RoundTrip.
Variable NAME_BUF_SIZE : Z.
Variable NAME_BUF_OFFSET : Z.
Variable fresh_byte : char.

(** C5 (amended): [svc_set_var(k, v)] with a valid key and value, on a
    well-formed buffer with unique keys, when the capacity test finds
    room and, in a pool, the buffer ends within [name_buf] before and
    after the call, returns true, and [svc_get_var(k)] then finds
    exactly [v] (as a segment and as the C string it points to).  A
    [svc_set_var(k, NULL)], which is what [svc_set_tags] and
    [svc_set_argv] make of an empty string, after it
    returns true and makes [k] absent, and when [k] had no entry before
    the first set the packed buffer is then byte for byte what it was
    before the first set.  A [svc_set_var] of [k] to an empty value that
    is not [NULL] returns true as well, but keeps [k], with the empty
    value. *)
Theorem svc_set_var_round_trip (ok1 ok2 ok3 : bool) (g : core) (svc : N)
    (s : service_t) kvs (k v : list char) :
  svc_mem g !! svc = Some s ->
  vars_hold s kvs -> keys_unique kvs ->
  slot_ok NAME_BUF_SIZE g s ->
  key_ok k -> value_ok v ->
  fits NAME_BUF_SIZE NAME_BUF_OFFSET ok1 g s (length (encode (kv_set k v kvs))) ->
  exists g1 s1,
    svc_set_var NAME_BUF_SIZE NAME_BUF_OFFSET fresh_byte ok1 svc (STRSEG k)
      (Some (STRSEG v)) g = Ok true g1 /\
    svc_mem g1 !! svc = Some s1 /\
    (exists val,
       svc_get_var s1 (STRSEG k) = Some val /\
       seg_bytes val = v /\ cstr (base val) (data val) = v) /\
    (exists g2 s2,
       svc_set_var NAME_BUF_SIZE NAME_BUF_OFFSET fresh_byte ok2 svc (STRSEG k)
         None g1 = Ok true g2 /\
       svc_mem g2 !! svc = Some s2 /\
       svc_get_var s2 (STRSEG k) = None /\
       (kv_get k kvs = None -> vars_bytes s2 = vars_bytes s)) /\
    (exists g3 s3 val,
       svc_set_var NAME_BUF_SIZE NAME_BUF_OFFSET fresh_byte ok3 svc (STRSEG k)
         (Some (STRSEG [])) g1 = Ok true g3 /\
       svc_mem g3 !! svc = Some s3 /\
       svc_get_var s3 (STRSEG k) = Some val /\ seg_bytes val = []).
Proof.
  intros Hs Hhold Huniq Hslot Hk Hv Hfit.
  pose proof (fits_overruns _ _ _ _ _ _ Hfit) as Hin. destruct Hfit as [Hroom _].
  pose proof (svc_set_var_some NAME_BUF_SIZE NAME_BUF_OFFSET fresh_byte ok1 g svc s kvs
                (STRSEG k) (STRSEG v) Hs Hhold Hslot (seg_ok_STRSEG k)) as H.
  rewrite !seg_bytes_STRSEG in H. specialize (H Hk (seg_ok_STRSEG v) Hv).
  cbv zeta in H. rewrite Hroom, Hin in H.
  destruct H as (buf & Hrun & Hhold1 & Hlen1).
  set (s1 := set_vars buf (Z.of_nat (length (encode (kv_set k v kvs)))) s) in *.
  set (g1 := put_mem (<[svc := s1]> (svc_mem g)) g) in *.
  assert (Hs1 : svc_mem g1 !! svc = Some s1) by apply lookup_insert_eq.
  exists g1, s1. split; [exact Hrun|]. split; [exact Hs1|].
  split; [|split].
  - apply (svc_get_var_found s1 (kv_set k v kvs) (STRSEG k) v Hhold1
             (seg_ok_STRSEG k)).
    rewrite seg_bytes_STRSEG. apply kv_get_kv_set.
  - pose proof (svc_set_var_none NAME_BUF_SIZE NAME_BUF_OFFSET fresh_byte ok2 _ svc s1
                  (kv_set k v kvs) (STRSEG k) Hs1 Hhold1 (seg_ok_STRSEG k)) as H.
    cbv zeta in H. rewrite seg_bytes_STRSEG in H.
    destruct H as (buf2 & Hrun2 & Hhold2 & Hlen2).
    eexists _, _. split; [exact Hrun2|].
    split; [apply lookup_insert_eq|]. split.
    + apply (svc_get_var_not_found _ _ (STRSEG k) Hhold2 (seg_ok_STRSEG k)).
      rewrite seg_bytes_STRSEG.
      apply kv_get_kv_del, keys_unique_kv_set, Huniq.
    + intros Habs. unfold vars_bytes.
      destruct (vars_hold_seg _ _ Hhold2) as (_ & -> & _).
      destruct (vars_hold_seg _ _ Hhold) as (_ & -> & _).
      rewrite (kv_del_kv_set_absent _ _ _ Habs). reflexivity.
  - assert (Hslot1 : slot_ok NAME_BUF_SIZE g1 s1)
      by (apply slot_ok_put_mem; assumption).
    assert (Hnil : value_ok []) by apply not_elem_of_nil.
    pose proof (svc_set_var_some NAME_BUF_SIZE NAME_BUF_OFFSET fresh_byte ok3 g1 svc s1
                  (kv_set k v kvs) (STRSEG k) (STRSEG []) Hs1 Hhold1 Hslot1
                  (seg_ok_STRSEG k)) as H.
    rewrite !seg_bytes_STRSEG in H. specialize (H Hk (seg_ok_STRSEG []) Hnil).
    cbv zeta in H. rewrite kv_set_kv_set in H.
    assert (Hle : (length (encode (kv_set k [] kvs))
                   <= length (encode (kv_set k v kvs)))%nat)
      by (apply length_encode_kv_set_le; cbn; lia).
    assert (Hlen : vars_len s1 = Z.of_nat (length (encode (kv_set k v kvs))))
      by reflexivity.
    assert (Hlt : (vars_len s1 <? Z.of_nat (length (encode (kv_set k [] kvs))))
                  = false) by (apply Z.ltb_ge; lia).
    unfold no_room, overruns in H. rewrite Hlt in H.
    rewrite andb_false_r in H. cbn [andb] in H.
    destruct H as (buf3 & Hrun3 & Hhold3 & _).
    destruct (svc_get_var_found _ (kv_set k [] kvs) (STRSEG k) [] Hhold3
                (seg_ok_STRSEG k)) as (val & Hget & Hbytes & _).
    { rewrite seg_bytes_STRSEG. apply kv_get_kv_set. }
    eexists _, _, val. split; [exact Hrun3|].
    split; [apply lookup_insert_eq|]. split; [exact Hget | exact Hbytes].
Qed.
End RoundTrip.

Lemma svc_set_var_round_trip_witness :
  exists g1 s1,
    svc_set_var 64 4 0 true 1024 (STRSEG (lit "tags")) (Some (STRSEG (lit "a")))
      sample_pool_core = Ok true g1 /\
    svc_mem g1 !! 1024%N = Some s1 /\
    (exists val,
       svc_get_var s1 (STRSEG (lit "tags")) = Some val /\
       seg_bytes val = lit "a" /\ cstr (base val) (data val) = lit "a") /\
    (exists g2 s2,
       svc_set_var 64 4 0 true 1024 (STRSEG (lit "tags")) None g1 = Ok true g2 /\
       svc_mem g2 !! 1024%N = Some s2 /\
       svc_get_var s2 (STRSEG (lit "tags")) = None /\
       (kv_get (lit "tags") [] = None -> vars_bytes s2 = vars_bytes sample_pool_svc)) /\
    (exists g3 s3 val,
       svc_set_var 64 4 0 true 1024 (STRSEG (lit "tags")) (Some (STRSEG [])) g1
       = Ok true g3 /\
       svc_mem g3 !! 1024%N = Some s3 /\
       svc_get_var s3 (STRSEG (lit "tags")) = Some val /\ seg_bytes val = []).
Proof.
  apply (svc_set_var_round_trip 64 4 0 true true true sample_pool_core 1024
           sample_pool_svc [] (lit "tags") (lit "a")).
  - reflexivity.
  - split; [reflexivity|]. split; [reflexivity | constructor].
  - constructor.
  - intros _. vm_compute. discriminate.
  - split; apply (bool_decide_unpack _); vm_compute; exact I.
  - apply (bool_decide_unpack _). vm_compute. exact I.
  - split; [vm_compute; reflexivity|]. intros _. vm_compute.
    split; discriminate.
Defined.

(** C5 (as stated) fails when the key had an entry before the first set:
    with the tags "a", setting the tags to "b" and then clearing them
    leaves an empty buffer, not the buffer ["tags=a\0"]. *)
Lemma svc_set_var_round_trip_counterexample :
  ~ set_clear_restores 64 4 0 sample_tagged 16 (lit "tags") (lit "b").
Proof.
  intros H.
  assert (L1 : svc_mem sample_tagged !! 16%N = Some (the_svc sample_tagged 16))
    by (vm_compute; reflexivity).
  assert (E1 : svc_set_var 64 4 0 true 16 (STRSEG (lit "tags"))
                 (Some (STRSEG (lit "b"))) sample_tagged = Ok true sample_retagged)
    by (vm_compute; reflexivity).
  assert (E2 : svc_set_var 64 4 0 true 16 (STRSEG (lit "tags")) None sample_retagged
               = Ok true sample_cleared)
    by (vm_compute; reflexivity).
  assert (L2 : svc_mem sample_cleared !! 16%N = Some (the_svc sample_cleared 16))
    by (vm_compute; reflexivity).
  assert (Hne : vars_bytes (the_svc sample_cleared 16)
                <> vars_bytes (the_svc sample_tagged 16))
    by (vm_compute; discriminate).
  exact (Hne (H true true _ _ _ _ L1 E1 E2 L2)).
Qed.

(* ===================================================================== *)
(** * The file descriptor specification *)
(* ===================================================================== *)


Lemma vars_hold_set_uses_control e c k (s : service_t) kvs :
  vars_hold s kvs -> vars_hold (set_uses_control e c k s) kvs.
Proof. intros H. exact H. Qed.

Section Fds.
Variable NAME_BUF_SIZE : Z.
Variable NAME_BUF_OFFSET : Z.
Variable fresh_byte : char.

End Fds.


(* ===================================================================== *)
(** * Triggers *)
(* ===================================================================== *)


(** [svc_handle_start] in any state: it returns, and the fields of the
    setters are not touched. *)
Lemma svc_handle_start_any (g : core) (svc : N) (s : service_t) (when : Z) :
  svc_mem g !! svc = Some s ->
  exists b g' s',
    svc_handle_start svc when g = Ok b g' /\
    svc_mem g' !! svc = Some s' /\
    vars_data s' = vars_data s /\ vars_len s' = vars_len s /\
    auto_restart s' = auto_restart s /\
    autostart_signals s' = autostart_signals s /\
    sigwake s' = sigwake s.
Proof.
  intros Hs.
  destruct (Z.eqb_spec (state s) SVC_STATE_DOWN) as [Hd|Hd];
    [|destruct (Z.eqb_spec (state s) SVC_STATE_START) as [Hst|Hst]].
  - destruct (svc_handle_start_ok g svc s when Hs (or_introl Hd))
      as (g' & Hrun & Hmem & _).
    exists true, g'. eexists. split; [exact Hrun|].
    split; [rewrite Hmem; apply lookup_insert_eq|]. repeat split.
  - destruct (svc_handle_start_ok g svc s when Hs (or_intror Hst))
      as (g' & Hrun & Hmem & _).
    exists true, g'. eexists. split; [exact Hrun|].
    split; [rewrite Hmem; apply lookup_insert_eq|]. repeat split.
  - exists false, g, s. split; [|repeat split; exact Hs].
    unfold svc_handle_start. unfold_monad. rewrite Hs.
    destruct (Z.eqb_spec (state s) SVC_STATE_DOWN); [contradiction|].
    destruct (Z.eqb_spec (state s) SVC_STATE_START); [contradiction|].
    reflexivity.
Qed.

Section TriggerSetter.
Variable NAME_BUF_SIZE : Z.
Variable NAME_BUF_OFFSET : Z.
Variable fresh_byte : char.
Variable sig_num_by_name : list char -> Z.
Variable NSIG : Z.


End TriggerSetter.



(* ===================================================================== *)
(** * The name index *)
(* ===================================================================== *)

(** ** The order of the names *)

Lemma strseg_cmp_lex (a b : list char) :
  strseg_cmp (STRSEG a) (STRSEG b) = lex_cmp a b.
Proof.
  unfold strseg_cmp. rewrite !seg_bytes_STRSEG. cbn [len STRSEG].
  revert b. induction a as [|c a IH]; intros [|d b]; cbn [bytes_cmp lex_cmp length].
  - reflexivity.
  - destruct (Z.ltb_spec (Z.of_nat 0) (Z.of_nat (S (length b)))); [reflexivity | lia].
  - destruct (Z.ltb_spec (Z.of_nat (S (length a))) (Z.of_nat 0)); [lia|].
    destruct (Z.ltb_spec (Z.of_nat 0) (Z.of_nat (S (length a)))); [reflexivity | lia].
  - destruct (c =? d); [|reflexivity].
    rewrite <- IH. destruct (bytes_cmp a b); [reflexivity|].
    destruct (Z.ltb_spec (Z.of_nat (length a)) (Z.of_nat (length b))),
      (Z.ltb_spec (Z.of_nat (S (length a))) (Z.of_nat (S (length b))));
      try lia; try reflexivity.
    destruct (Z.ltb_spec (Z.of_nat (length b)) (Z.of_nat (length a))),
      (Z.ltb_spec (Z.of_nat (S (length b))) (Z.of_nat (S (length a))));
      try lia; reflexivity.
Qed.

Lemma lex_cmp_refl (a : list char) : lex_cmp a a = 0.
Proof.
  induction a as [|c a IH]; cbn [lex_cmp]; [reflexivity|].
  rewrite Z.eqb_refl. exact IH.
Qed.

Lemma lex_cmp_eq (a b : list char) : lex_cmp a b = 0 -> a = b.
Proof.
  revert b. induction a as [|c a IH]; intros [|d b]; cbn [lex_cmp];
    try discriminate; try reflexivity.
  destruct (Z.eqb_spec c d) as [->|Hne].
  - intros H. f_equal. apply IH, H.
  - destruct (c <? d); discriminate.
Qed.

Lemma lex_cmp_antisym (a b : list char) : lex_cmp b a = - lex_cmp a b.
Proof.
  revert b. induction a as [|c a IH]; intros [|d b]; cbn [lex_cmp];
    try reflexivity.
  destruct (Z.eqb_spec c d) as [->|Hne].
  - rewrite Z.eqb_refl. apply IH.
  - destruct (Z.eqb_spec d c); [congruence|].
    destruct (Z.ltb_spec c d), (Z.ltb_spec d c); try lia; reflexivity.
Qed.

Lemma lex_cmp_trans (a b c : list char) :
  lex_cmp a b < 0 -> lex_cmp b c < 0 -> lex_cmp a c < 0.
Proof.
  revert b c. induction a as [|x a IH]; intros [|y b] [|z c]; cbn [lex_cmp];
    try lia.
  destruct (Z.eqb_spec x y) as [->|Hxy].
  - destruct (Z.eqb_spec y z) as [->|Hyz].
    + apply IH.
    + intros _ H. exact H.
  - destruct (Z.ltb_spec x y); [|lia]. intros _.
    destruct (Z.eqb_spec y z) as [->|Hyz].
    + intros _. destruct (Z.eqb_spec x z); [lia|].
      destruct (Z.ltb_spec x z); lia.
    + destruct (Z.ltb_spec y z); [|lia]. intros _.
      destruct (Z.eqb_spec x z); [lia|].
      destruct (Z.ltb_spec x z); lia.
Qed.

Lemma lex_cmp_le_lt_trans (a b c : list char) :
  lex_cmp a b <= 0 -> lex_cmp b c < 0 -> lex_cmp a c < 0.
Proof.
  intros Hab Hbc. destruct (Z.eq_dec (lex_cmp a b) 0) as [E|E].
  - apply lex_cmp_eq in E. subst. exact Hbc.
  - apply (lex_cmp_trans a b c); [lia | exact Hbc].
Qed.

Lemma lex_cmp_lt_le_trans (a b c : list char) :
  lex_cmp a b < 0 -> lex_cmp b c <= 0 -> lex_cmp a c < 0.
Proof.
  intros Hab Hbc. destruct (Z.eq_dec (lex_cmp b c) 0) as [E|E].
  - apply lex_cmp_eq in E. subst. exact Hab.
  - apply (lex_cmp_trans a b c); [exact Hab | lia].
Qed.

(** ** Search trees *)

Lemma StronglySorted_split {A} (R : A -> A -> Prop) (l1 : list A) x l2 :
  StronglySorted R (l1 ++ x :: l2) ->
  StronglySorted R l1 /\ StronglySorted R l2 /\
  Forall (fun a => R a x) l1 /\ Forall (R x) l2 /\
  Forall (fun a => Forall (R a) l2) l1.
Proof.
  induction l1 as [|a l1 IH]; cbn [app]; intros H.
  - apply StronglySorted_inv in H as [H1 H2].
    repeat split; auto using SSorted_nil.
  - apply StronglySorted_inv in H as [H1 H2].
    destruct (IH H1) as (Ha & Hb & Hc & Hd & He).
    apply Forall_app in H2 as [H2 H3]. apply Forall_cons in H3 as [H3 H4].
    repeat split; auto.
    constructor; assumption.
Qed.

Section SearchTree.
(** [cmp n] is the comparison of the key with node [n]; [lt] is the
    order of the nodes; both agree on the nodes of [dom]. *)
Variable cmp : N -> Z.
Variable lt : N -> N -> Prop.
Variable dom : N -> Prop.
Hypothesis lt_irrefl : forall x, dom x -> ~ lt x x.
Hypothesis cmp_below :
  forall x y, dom x -> dom y -> 0 <= cmp x -> lt y x -> 0 < cmp y.
Hypothesis cmp_above :
  forall x y, dom x -> dom y -> cmp x <= 0 -> lt x y -> cmp y < 0.

Lemma first_above_at (A B : list N) (n : N) :
  Forall (fun q => 0 < cmp q) A -> cmp n < 0 ->
  first_above cmp (A ++ n :: B) = Some n.
Proof.
  unfold first_above. induction A as [|a A IH]; cbn [app find]; intros HA Hn.
  - destruct (Z.ltb_spec (cmp n) 0); [reflexivity | lia].
  - apply Forall_cons in HA as [Ha HA].
    destruct (Z.ltb_spec (cmp a) 0); [lia|]. apply IH; assumption.
Qed.

Lemma first_above_after (A B : list N) (n : N) :
  Forall (fun q => 0 < cmp q) A -> 0 <= cmp n ->
  Forall (fun q => cmp q < 0) B ->
  first_above cmp (A ++ n :: B) = head B.
Proof.
  unfold first_above. induction A as [|a A IH]; cbn [app find]; intros HA Hn HB.
  - destruct (Z.ltb_spec (cmp n) 0); [lia|].
    destruct B as [|b B]; [reflexivity|]. cbn [find head].
    apply Forall_cons in HB as [Hb _].
    destruct (Z.ltb_spec (cmp b) 0); [reflexivity | lia].
  - apply Forall_cons in HA as [Ha HA].
    destruct (Z.ltb_spec (cmp a) 0); [lia|]. apply IH; assumption.
Qed.

Lemma next_after_at (A B : list N) (n : N) :
  n ∉ A -> next_after n (A ++ n :: B) = head B.
Proof.
  induction A as [|a A IH]; cbn [app next_after]; intros Hn.
  - rewrite N.eqb_refl. reflexivity.
  - apply not_elem_of_cons in Hn as [Hne Hn].
    destruct (N.eqb_spec a n); [congruence|]. apply IH, Hn.
Qed.

(** The search ends at a node [n] such that the nodes before [n] are
    below the key and, unless [n] is above the key, the nodes after
    [n] are above it. *)
Lemma RBTree_Find_from_spec (t : RBTree) :
  Forall dom (elements t) ->
  StronglySorted lt (elements t) ->
  t <> Sentinel ->
  forall acc, exists n A B,
    RBTree_Find_from cmp t acc = {| Nearest := Some n; Relation := cmp n |} /\
    elements t = A ++ n :: B /\
    Forall (fun q => 0 < cmp q) A /\
    (0 <= cmp n -> Forall (fun q => cmp q < 0) B).
Proof.
  induction t as [|l IHl x r IHr]; intros Hdom Hsorted Hne acc; [congruence|].
  cbn [elements] in *.
  destruct (StronglySorted_split _ _ _ _ Hsorted) as (Hsl & Hsr & Hlx & Hxr & Hlr).
  apply Forall_app in Hdom as [Hdl Hdr]. apply Forall_cons in Hdr as [Hdx Hdr].
  cbn [RBTree_Find_from].
  destruct (Z.ltb_spec (cmp x) 0) as [Hlt|Hge].
  - (* the key is below x: left *)
    destruct l as [|ll lx lr].
    + cbn [RBTree_Find_from elements app].
      exists x, [], (elements r). repeat split; [constructor | lia].
    + destruct (IHl Hdl Hsl ltac:(discriminate)
                  {| Nearest := Some x; Relation := cmp x |})
        as (n & A & B & Hfind & Hel & HA & HB).
      exists n, A, (B ++ x :: elements r). split; [exact Hfind|].
      split; [rewrite Hel, <- app_assoc; reflexivity|].
      split; [exact HA|]. intros Hn.
      apply Forall_app. split; [exact (HB Hn)|].
      constructor; [exact Hlt|].
      rewrite Forall_forall in Hxr, Hdr |- *. intros y Hy.
      apply (cmp_above x y Hdx (Hdr y Hy) ltac:(lia) (Hxr y Hy)).
  - destruct (Z.gtb_spec (cmp x) 0) as [Hgt|Hle].
    + (* the key is above x: right *)
      assert (Hbelow : Forall (fun q => 0 < cmp q) (elements l ++ [x])).
      { apply Forall_app. split; [|constructor; [lia | constructor]].
        rewrite Forall_forall in Hlx, Hdl |- *. intros y Hy.
        apply (cmp_below x y Hdx (Hdl y Hy) ltac:(lia) (Hlx y Hy)). }
      destruct r as [|rl rx rr].
      * cbn [RBTree_Find_from elements].
        exists x, (elements l), []. repeat split.
        -- apply Forall_app in Hbelow as [H _]. exact H.
        -- constructor.
      * destruct (IHr Hdr Hsr ltac:(discriminate)
                    {| Nearest := Some x; Relation := cmp x |})
          as (n & A & B & Hfind & Hel & HA & HB).
        exists n, ((elements l ++ [x]) ++ A), B. split; [exact Hfind|].
        split; [rewrite Hel, <- !app_assoc; reflexivity|].
        split; [apply Forall_app; split; assumption | exact HB].
    + (* the key is at x *)
      exists x, (elements l), (elements r). repeat split.
      * rewrite Forall_forall in Hlx, Hdl |- *. intros y Hy.
        apply (cmp_below x y Hdx (Hdl y Hy) ltac:(lia) (Hlx y Hy)).
      * intros _. rewrite Forall_forall in Hxr, Hdr |- *. intros y Hy.
        apply (cmp_above x y Hdx (Hdr y Hy) ltac:(lia) (Hxr y Hy)).
Qed.

Lemma sorted_not_elem_before (A B : list N) (n : N) :
  Forall dom (A ++ n :: B) -> StronglySorted lt (A ++ n :: B) -> n ∉ A.
Proof.
  intros Hdom Hs Hin.
  destruct (StronglySorted_split _ _ _ _ Hs) as (_ & _ & HA & _).
  rewrite Forall_forall in HA. specialize (HA n Hin).
  apply Forall_app in Hdom as [_ Hd]. apply Forall_cons in Hd as [Hd _].
  exact (lt_irrefl n Hd HA).
Qed.

(** What [svc_iter_next] computes from a search is the first node
    above the key. *)
Lemma next_of_search_spec (t : RBTree) :
  Forall dom (elements t) ->
  StronglySorted lt (elements t) ->
  next_of_search t (RBTree_Find cmp t) = first_above cmp (elements t).
Proof.
  intros Hdom Hsorted. unfold next_of_search, RBTree_Find.
  destruct t as [|l x r]; [reflexivity|].
  destruct (RBTree_Find_from_spec _ Hdom Hsorted ltac:(discriminate)
              {| Nearest := None; Relation := -1 |})
    as (n & A & B & -> & Hel & HA & HB).
  cbn [Nearest Relation]. unfold RBTreeNode_GetNext. rewrite Hel.
  destruct (Z.ltb_spec (cmp n) 0) as [Hlt|Hge].
  - symmetry. apply first_above_at; assumption.
  - rewrite first_above_after by auto.
    apply next_after_at.
    rewrite Hel in Hdom, Hsorted.
    apply (sorted_not_elem_before A B n Hdom Hsorted).
Qed.

(** The successor of a node at the key is the first node above it. *)
Lemma GetNext_spec (t : RBTree) (p : N) :
  Forall dom (elements t) ->
  StronglySorted lt (elements t) ->
  p ∈ elements t -> cmp p = 0 ->
  RBTreeNode_GetNext t p = first_above cmp (elements t).
Proof.
  intros Hdom Hsorted Hin Hp. unfold RBTreeNode_GetNext.
  apply list_elem_of_split in Hin as (A & B & Hel). rewrite Hel in *.
  destruct (StronglySorted_split _ _ _ _ Hsorted) as (_ & _ & HA & HB & _).
  pose proof Hdom as Hdom'.
  apply Forall_app in Hdom' as [HdA HdB]. apply Forall_cons in HdB as [Hdp HdB].
  rewrite first_above_after.
  - apply next_after_at, (sorted_not_elem_before A B p Hdom Hsorted).
  - rewrite Forall_forall in HA, HdA |- *. intros y Hy.
    apply (cmp_below p y Hdp (HdA y Hy) ltac:(lia) (HA y Hy)).
  - lia.
  - rewrite Forall_forall in HB, HdB |- *. intros y Hy.
    apply (cmp_above p y Hdp (HdB y Hy) ltac:(lia) (HB y Hy)).
Qed.

(** The first node above the key is the least one above it. *)
Lemma first_above_least (l : list N) :
  StronglySorted lt l ->
  match first_above cmp l with
  | Some q => q ∈ l /\ cmp q < 0 /\
              forall q', q' ∈ l -> cmp q' < 0 -> q' = q \/ lt q q'
  | None => forall q', q' ∈ l -> ~ cmp q' < 0
  end.
Proof.
  unfold first_above. induction l as [|a l IH]; cbn [find]; intros Hs.
  - intros q' Hq'. apply elem_of_nil in Hq'. contradiction.
  - apply StronglySorted_inv in Hs as [Hs Ha].
    destruct (Z.ltb_spec (cmp a) 0) as [Hlt|Hge].
    + split; [apply list_elem_of_here|]. split; [exact Hlt|].
      intros q' Hq' _. apply elem_of_cons in Hq' as [->|Hq']; [left; reflexivity|].
      right. rewrite Forall_forall in Ha. apply Ha, Hq'.
    + specialize (IH Hs). destruct (find _ l) as [q|].
      * destruct IH as (Hq & Hc & Hleast).
        split; [apply list_elem_of_further, Hq|]. split; [exact Hc|].
        intros q' Hq' Hc'. apply elem_of_cons in Hq' as [->|Hq']; [lia|].
        apply Hleast; assumption.
      * intros q' Hq'. apply elem_of_cons in Hq' as [->|Hq']; [lia|].
        apply IH, Hq'.
Qed.
End SearchTree.

(** ** Iteration by name *)

Section NameIteration.
Variable g : core.

Lemma svc_by_name_compare_live (key : list char) (p : N) :
  is_Some (svc_mem g !! p) ->
  svc_by_name_compare g (STRSEG key) p = lex_cmp key (name_of g p).
Proof.
  intros [s Hs]. unfold svc_by_name_compare, name_of. rewrite Hs.
  apply strseg_cmp_lex.
Qed.

Lemma name_lt_irrefl (x : N) :
  is_Some (svc_mem g !! x) -> ~ lex_cmp (name_of g x) (name_of g x) < 0.
Proof. intros _. rewrite lex_cmp_refl. lia. Qed.

Lemma name_cmp_below (key : list char) (x y : N) :
  is_Some (svc_mem g !! x) -> is_Some (svc_mem g !! y) ->
  0 <= svc_by_name_compare g (STRSEG key) x ->
  lex_cmp (name_of g y) (name_of g x) < 0 ->
  0 < svc_by_name_compare g (STRSEG key) y.
Proof.
  intros Hx Hy. rewrite !svc_by_name_compare_live by assumption.
  intros H1 H2. rewrite (lex_cmp_antisym (name_of g y) key).
  assert (lex_cmp (name_of g y) key < 0); [|lia].
  apply (lex_cmp_lt_le_trans _ (name_of g x)); [exact H2|].
  rewrite (lex_cmp_antisym key). lia.
Qed.

Lemma name_cmp_above (key : list char) (x y : N) :
  is_Some (svc_mem g !! x) -> is_Some (svc_mem g !! y) ->
  svc_by_name_compare g (STRSEG key) x <= 0 ->
  lex_cmp (name_of g x) (name_of g y) < 0 ->
  svc_by_name_compare g (STRSEG key) y < 0.
Proof.
  intros Hx Hy. rewrite !svc_by_name_compare_live by assumption.
  intros H1 H2. apply (lex_cmp_le_lt_trans _ (name_of g x)); assumption.
Qed.

(** The first node above a key, in terms of the names. *)
Lemma first_above_first_greater (key : list char) :
  name_index_ok g ->
  first_greater g key (elements (svc_by_name_index g))
    (first_above (svc_by_name_compare g (STRSEG key))
                 (elements (svc_by_name_index g))).
Proof.
  intros [Hlive Hsorted].
  pose proof (first_above_least (svc_by_name_compare g (STRSEG key)) _ _ Hsorted) as H.
  rewrite Forall_forall in Hlive. unfold first_greater.
  destruct (first_above _ _) as [q|].
  - destruct H as (Hq & Hc & Hleast). split; [exact Hq|].
    rewrite svc_by_name_compare_live in Hc by (apply Hlive, Hq).
    split; [exact Hc|]. intros q' Hq' Hc'. apply Hleast; [exact Hq'|].
    rewrite svc_by_name_compare_live by (apply Hlive, Hq'). exact Hc'.
  - intros q' Hq' Hc'. apply (H q' Hq').
    rewrite svc_by_name_compare_live by (apply Hlive, Hq'). exact Hc'.
Qed.

Lemma svc_iter_next_from_name (from_name : list char) :
  name_index_ok g ->
  svc_iter_next g None from_name
  = first_above (svc_by_name_compare g (STRSEG from_name))
                (elements (svc_by_name_index g)).
Proof.
  intros [Hlive Hsorted].
  apply (next_of_search_spec (svc_by_name_compare g (STRSEG from_name)) _ _
           name_lt_irrefl (name_cmp_below from_name) (name_cmp_above from_name)
           _ Hlive Hsorted).
Qed.

Lemma svc_iter_next_from_record (p : N) (from_name : list char) :
  name_index_ok g ->
  p ∈ elements (svc_by_name_index g) ->
  svc_iter_next g (Some p) from_name
  = first_above (svc_by_name_compare g (STRSEG (name_of g p)))
                (elements (svc_by_name_index g)).
Proof.
  intros [Hlive Hsorted] Hp.
  apply (GetNext_spec (svc_by_name_compare g (STRSEG (name_of g p))) _ _
           name_lt_irrefl (name_cmp_below _) (name_cmp_above _)
           _ p Hlive Hsorted Hp).
  rewrite Forall_forall in Hlive.
  rewrite svc_by_name_compare_live by (apply Hlive, Hp). apply lex_cmp_refl.
Qed.

(** C7: with the records of the name index in the order of their
    names, [svc_iter_next] given a record returns the record with the
    least name greater than its name (none for the last); given
    [from_name] it returns the record with the least name greater than
    [from_name] (none if there is no such record), which is the
    successor of the record named [from_name] when there is one. *)
Theorem svc_iter_next_correct :
  name_index_ok g ->
  (forall p from_name,
     p ∈ elements (svc_by_name_index g) ->
     first_greater g (name_of g p) (elements (svc_by_name_index g))
       (svc_iter_next g (Some p) from_name)) /\
  (forall from_name,
     first_greater g from_name (elements (svc_by_name_index g))
       (svc_iter_next g None from_name)) /\
  (forall p from_name,
     p ∈ elements (svc_by_name_index g) ->
     name_of g p = from_name ->
     svc_iter_next g None from_name = svc_iter_next g (Some p) from_name).
Proof.
  intros Hok. split; [|split].
  - intros p from_name Hp.
    rewrite (svc_iter_next_from_record p from_name Hok Hp).
    apply first_above_first_greater, Hok.
  - intros from_name. rewrite (svc_iter_next_from_name from_name Hok).
    apply first_above_first_greater, Hok.
  - intros p from_name Hp <-.
    rewrite (svc_iter_next_from_record p _ Hok Hp).
    apply svc_iter_next_from_name, Hok.
Qed.
End NameIteration.

Lemma sample_ace_index_ok : name_index_ok sample_ace.
Proof.
  assert (E : elements (svc_by_name_index sample_ace) = [16; 32; 48]%N)
    by (vm_compute; reflexivity).
  unfold name_index_ok. rewrite E. split.
  - repeat constructor; apply (bool_decide_unpack _); vm_compute; exact I.
  - repeat constructor; vm_compute; reflexivity.
Qed.

Lemma svc_iter_next_correct_witness :
  first_greater sample_ace (lit "b") (elements (svc_by_name_index sample_ace))
    (svc_iter_next sample_ace None (lit "b")) /\
  first_greater sample_ace (name_of sample_ace 32)
    (elements (svc_by_name_index sample_ace))
    (svc_iter_next sample_ace (Some 32%N) []) /\
  svc_iter_next sample_ace None (lit "c")
  = svc_iter_next sample_ace (Some 32%N) (lit "c").
Proof.
  destruct (svc_iter_next_correct sample_ace sample_ace_index_ok)
    as (Hrec & Hname & Hexact).
  split; [apply Hname|]. split.
  - apply Hrec. apply (bool_decide_unpack _). vm_compute. exact I.
  - apply (Hexact 32%N (lit "c")).
    + apply (bool_decide_unpack _). vm_compute. exact I.
    + vm_compute. reflexivity.
Defined.

(** The scenario of the specification: with the records "a", "c" and
    "e", the record after the name "b" is "c", the record after "c" is
    "e", and there is none after "e". *)
Example svc_iter_next_scenario :
  svc_iter_next sample_ace None (lit "b") = Some 32%N /\
  svc_iter_next sample_ace (Some 32%N) [] = Some 48%N /\
  svc_iter_next sample_ace (Some 48%N) [] = None /\
  name_of sample_ace 32 = lit "c" /\ name_of sample_ace 48 = lit "e".
Proof. vm_compute. repeat split. Qed.

(* ===================================================================== *)
(** * The indices and the live records *)
(* ===================================================================== *)

(** ** Nodes of a tree after [RBTree_Add] and [RBTreeNode_Prune] *)

Lemma elements_RBTree_Add (cmp : N -> Z) (t : RBTree) (p : N) :
  elements (RBTree_Add cmp t p) ≡ₚ p :: elements t.
Proof.
  induction t as [|l IHl x r IHr]; cbn [RBTree_Add elements]; [reflexivity|].
  destruct (cmp x <? 0); cbn [elements].
  - rewrite IHl. reflexivity.
  - rewrite IHr.
    change (elements l ++ x :: p :: elements r)
      with (elements l ++ [x] ++ p :: elements r).
    rewrite app_assoc, <- Permutation_middle, <- app_assoc. reflexivity.
Qed.

Lemma elements_pop_min (l : RBTree) (x : N) (r : RBTree) :
  (pop_min l x r).1 :: elements (pop_min l x r).2
  = elements l ++ x :: elements r.
Proof.
  revert x r. induction l as [|ll IHll lx lr _]; intros x r;
    cbn [pop_min elements]; [reflexivity|].
  specialize (IHll lx lr). destruct (pop_min ll lx lr) as [m l'].
  cbn [fst snd elements] in *.
  change (m :: elements l' ++ x :: elements r)
    with ((m :: elements l') ++ x :: elements r).
  rewrite IHll. reflexivity.
Qed.

Lemma elements_join (l r : RBTree) :
  elements (join l r) = elements l ++ elements r.
Proof.
  destruct r as [|rl rx rr]; cbn [join elements]; [symmetry; apply app_nil_r|].
  pose proof (elements_pop_min rl rx rr) as H.
  destruct (pop_min rl rx rr) as [m r']. cbn [fst snd elements] in *.
  rewrite H. reflexivity.
Qed.

Lemma elements_RBTreeNode_Prune (t : RBTree) (p : N) :
  NoDup (elements t) ->
  elements (RBTreeNode_Prune t p) = filter (fun q => q <> p) (elements t).
Proof.
  induction t as [|l IHl x r IHr]; cbn [RBTreeNode_Prune elements]; intros Hnd;
    [reflexivity|].
  apply NoDup_app in Hnd as (Hl & Hlx & Hxr).
  apply NoDup_cons in Hxr as [Hx Hr].
  rewrite filter_app, filter_cons.
  destruct (N.eqb_spec x p) as [->|Hne].
  - rewrite decide_False by (intros H; apply H; reflexivity).
    rewrite elements_join.
    assert (Hid : forall l0 : list N, p ∉ l0 -> filter (fun q => q <> p) l0 = l0).
    { intros l0. induction l0 as [|a l0 IH]; intros Hn; [reflexivity|].
      apply not_elem_of_cons in Hn as [Ha Hn].
      rewrite filter_cons, decide_True by congruence. f_equal. apply IH, Hn. }
    rewrite !Hid; [reflexivity | exact Hx |].
    intros Hin. apply (Hlx p Hin). apply list_elem_of_here.
  - rewrite decide_True by exact Hne. cbn [elements].
    rewrite IHl, IHr by assumption. reflexivity.
Qed.

Lemma elem_of_Prune (t : RBTree) (p q : N) :
  NoDup (elements t) ->
  q ∈ elements (RBTreeNode_Prune t p) <-> q ∈ elements t /\ q <> p.
Proof.
  intros Hnd. rewrite elements_RBTreeNode_Prune by exact Hnd.
  rewrite list_elem_of_filter. tauto.
Qed.

Lemma NoDup_Prune (t : RBTree) (p : N) :
  NoDup (elements t) -> NoDup (elements (RBTreeNode_Prune t p)).
Proof.
  intros Hnd. rewrite elements_RBTreeNode_Prune by exact Hnd.
  apply NoDup_filter, Hnd.
Qed.

Lemma elem_of_Add (cmp : N -> Z) (t : RBTree) (p q : N) :
  q ∈ elements (RBTree_Add cmp t p) <-> q = p \/ q ∈ elements t.
Proof. rewrite elements_RBTree_Add. apply elem_of_cons. Qed.

Lemma NoDup_Add (cmp : N -> Z) (t : RBTree) (p : N) :
  p ∉ elements t -> NoDup (elements t) ->
  NoDup (elements (RBTree_Add cmp t p)).
Proof.
  intros Hp Hnd. rewrite elements_RBTree_Add. apply NoDup_cons. auto.
Qed.

(** ** Operations that keep the invariant *)

Lemma the_svc_insert (g g0 : core) (p q : N) (s : service_t) :
  the_svc (put_mem (<[p := s]> (svc_mem g)) g0) q
  = if decide (q = p) then s else the_svc g q.
Proof.
  unfold the_svc. cbn [svc_mem put_mem]. destruct (decide (q = p)) as [->|Hne].
  - rewrite lookup_insert_eq. reflexivity.
  - rewrite lookup_insert_ne by congruence. reflexivity.
Qed.

Lemma live_eq (g g' : core) :
  svc_list g' = svc_list g -> svc_list_count g' = svc_list_count g ->
  live g' = live g.
Proof. intros E1 E2. unfold live. rewrite E1, E2. reflexivity. Qed.

(** A step that leaves the vector and the name index alone. *)
Lemma core_inv_same_live (p : N) (g g' : core) :
  core_inv g -> p ∈ live g ->
  svc_list g' = svc_list g -> svc_list_count g' = svc_list_count g ->
  svc_pool g' = svc_pool g ->
  svc_by_name_index g' = svc_by_name_index g ->
  (forall q, q ∈ live g -> is_Some (svc_mem g' !! q)) ->
  NoDup (elements (svc_by_pid_index g')) ->
  (forall q, q ∈ elements (svc_by_pid_index g')
             <-> q ∈ live g /\ pid (the_svc g' q) <> 0) ->
  (forall q, q ∈ svc_active_list g' -> q = p \/ q ∈ svc_active_list g) ->
  (forall q, q ∈ svc_sigwake_list g' -> q = p \/ q ∈ svc_sigwake_list g) ->
  core_inv g' /\ live g' = live g.
Proof.
  intros [(H1 & H2 & H3 & H4 & H5 & H6 & H7 & H8) [L1 L2]] Hp
         El Ec Epool En Hmem Hnd Hpid Ha Hs.
  assert (Hlive : live g' = live g) by (apply live_eq; assumption).
  split; [|exact Hlive]. split.
  - unfold index_inv. rewrite Hlive, El, Ec, Epool, En.
    split; [exact H1|]. split; [exact H2|]. split; [exact H3|].
    split; [exact Hmem|]. split; [exact H5|]. split; [exact H6|].
    split; [exact Hnd|exact Hpid].
  - split; intros q Hq; rewrite Hlive.
    + destruct (Ha q Hq) as [->|Hq']; [exact Hp | apply L1, Hq'].
    + destruct (Hs q Hq) as [->|Hq']; [exact Hp | apply L2, Hq'].
Qed.

Lemma frame_inv (p : N) (g g' : core) :
  frame p g g' -> core_inv g -> p ∈ live g -> core_inv g' /\ live g' = live g.
Proof.
  intros (Hm & Hl & Hc & Hpool & Hn & Hpi & Ha & Hs) Hinv Hp.
  pose proof Hinv as [(H1 & H2 & H3 & H4 & H5 & H6 & H7 & H8) _].
  apply (core_inv_same_live p g g'); try assumption.
  - intros q Hq. rewrite Hm. apply H4, Hq.
  - rewrite Hpi. exact H7.
  - intros q. rewrite Hpi. unfold the_svc. rewrite Hm. apply H8.
Qed.

Lemma keeps_ret (p : N) {A} (a : A) : keeps p (ret a).
Proof. intros g a' g' Hinv Hp [= _ <-]. auto. Qed.

Lemma keeps_gets (p : N) {A} (f : core -> A) : keeps p (gets f).
Proof. intros g a' g' Hinv Hp [= _ <-]. auto. Qed.

Lemma keeps_throw (p : N) {A} (e : abort) : keeps p (throw (A := A) e).
Proof. intros g a' g' Hinv Hp H. discriminate H. Qed.

Lemma keeps_deref (p q : N) : keeps p (deref q).
Proof.
  intros g a' g' Hinv Hp H. unfold deref in H.
  destruct (svc_mem g !! q); [|discriminate]. injection H as _ <-. auto.
Qed.

Lemma keeps_bind (p : N) {A B} (m : M A) (k : A -> M B) :
  keeps p m -> (forall a, keeps p (k a)) -> keeps p (bind m k).
Proof.
  intros Hm Hk g b g' Hinv Hp H. unfold bind in H.
  destruct (m g) as [a g1|] eqn:E; [|discriminate].
  destruct (Hm g a g1 Hinv Hp E) as [Hinv1 Hl1].
  destruct (Hk a g1 b g' Hinv1 ltac:(rewrite Hl1; exact Hp) H) as [Hinv' Hl'].
  split; [exact Hinv' | congruence].
Qed.

Lemma keeps_when (p : N) (b : bool) (m : M unit) :
  keeps p m -> keeps p (when_ b m).
Proof. intros Hm. destruct b; [exact Hm | apply keeps_ret]. Qed.

Lemma keeps_modify (p : N) (f : core -> core) :
  (forall g, frame p g (f g)) -> keeps p (modify f).
Proof.
  intros Hf g a g' Hinv Hp H. unfold modify in H. injection H as _ <-.
  apply (frame_inv p); [apply Hf | exact Hinv | exact Hp].
Qed.

Ltac frame_tac := intros ?; unfold frame; core_simpl; repeat split; auto.

(** An update of the record that does not touch [pid]. *)
Lemma keeps_update (p : N) (f : service_t -> service_t) :
  (forall s, pid (f s) = pid s) -> keeps p (update p f).
Proof.
  intros Hf g a g' Hinv Hp H. unfold update in H.
  destruct (svc_mem g !! p) as [s|] eqn:Hs; [|discriminate]. injection H as _ <-.
  assert (Hsvc : forall q, pid (the_svc (put_mem (<[p := f s]> (svc_mem g)) g) q)
                           = pid (the_svc g q)).
  { intros q. rewrite the_svc_insert. destruct (decide (q = p)) as [->|]; [|reflexivity].
    rewrite Hf. unfold the_svc. rewrite Hs. reflexivity. }
  pose proof Hinv as [(H1 & H2 & H3 & H4 & H5 & H6 & H7 & H8) _].
  apply (core_inv_same_live p g); try assumption; try reflexivity; auto.
  - intros q Hq. cbn [svc_mem put_mem].
    destruct (decide (q = p)) as [->|Hne].
    + rewrite lookup_insert_eq. eauto.
    + rewrite lookup_insert_ne by congruence. apply H4, Hq.
  - intros q. rewrite Hsvc. apply H8.
Qed.

Lemma keeps_svc_set_active (p : N) (b : bool) : keeps p (svc_set_active p b).
Proof.
  intros g a g' Hinv Hp H. rewrite svc_set_active_ok in H. injection H as _ <-.
  apply (frame_inv p); [|exact Hinv|exact Hp].
  destruct b, (linked p (svc_active_list g)); unfold frame; core_simpl;
    repeat split; auto.
  - intros q Hq. apply elem_of_cons in Hq. tauto.
  - intros q Hq. right. unfold unlink in Hq.
    apply list_elem_of_In, filter_In in Hq. apply list_elem_of_In, Hq.
Qed.

Lemma keeps_svc_notify_state (p : N) : keeps p (svc_notify_state p).
Proof.
  unfold svc_notify_state. apply keeps_bind; [apply keeps_deref|].
  intros s. apply keeps_modify. frame_tac.
Qed.

Lemma keeps_svc_check_sigwake (NSIG : Z) (p : N) :
  keeps p (svc_check_sigwake NSIG p).
Proof.
  unfold svc_check_sigwake. apply keeps_bind; [apply keeps_deref|].
  intros s. destruct (negb (sigwake s)); [apply keeps_ret|].
  apply keeps_bind; [apply keeps_gets|]. intros evs. apply keeps_ret.
Qed.

Lemma keeps_svc_set_sigwake (p : N) (b : bool) : keeps p (svc_set_sigwake p b).
Proof.
  unfold svc_set_sigwake.
  apply keeps_bind; [apply keeps_update; reflexivity|]. intros _.
  intros g a g' Hinv Hp H. unfold bind, gets, modify, ret in H.
  apply (frame_inv p); [|exact Hinv|exact Hp].
  destruct (b && negb (linked p (svc_sigwake_list g))).
  { injection H as _ <-. unfold frame. core_simpl. repeat split; auto.
    intros q Hq. apply elem_of_cons in Hq. tauto. }
  destruct (negb b && linked p (svc_sigwake_list g)); injection H as _ <-.
  - unfold frame. core_simpl. repeat split; auto.
    intros q Hq. right. unfold unlink in Hq.
    apply list_elem_of_In, filter_In in Hq. apply list_elem_of_In, Hq.
  - unfold frame. repeat split; auto.
Qed.

(** [svc_change_pid] moves the record into or out of the PID index as
    its new [pid] requires. *)
Lemma keeps_svc_change_pid (p : N) (new_pid : Z) :
  keeps p (svc_change_pid p new_pid).
Proof.
  intros g a g' Hinv Hp H.
  pose proof Hinv as [(H1 & H2 & H3 & H4 & H5 & H6 & H7 & H8) _].
  destruct (H4 p Hp) as [s Hs].
  rewrite (svc_change_pid_ok g p s new_pid Hs) in H. injection H as _ Eg.
  assert (Hsp : the_svc g p = s) by (unfold the_svc; rewrite Hs; reflexivity).
  set (idx1 := if pid s =? 0 then svc_by_pid_index g
               else RBTreeNode_Prune (svc_by_pid_index g) p).
  assert (Hnd1 : NoDup (elements idx1)).
  { subst idx1. destruct (pid s =? 0); [exact H7 | apply NoDup_Prune, H7]. }
  assert (Hin1 : forall q, q ∈ elements idx1
                           <-> q ∈ elements (svc_by_pid_index g) /\ q <> p).
  { intros q. subst idx1. destruct (Z.eqb_spec (pid s) 0) as [E|E].
    - split; [|tauto]. intros Hq. split; [exact Hq|]. intros ->.
      apply H8 in Hq as [_ Hq]. rewrite Hsp in Hq. contradiction.
    - apply elem_of_Prune, H7. }
  assert (Emem : svc_mem g' = <[p := set_pid new_pid s]> (svc_mem g)).
  { rewrite <- Eg. cbv zeta. destruct (pid s =? 0), (new_pid =? 0); reflexivity. }
  assert (Eidx : svc_by_pid_index g'
                 = if new_pid =? 0 then idx1
                   else RBTree_Add (svc_by_pid_compare g' new_pid) idx1 p).
  { rewrite <- Eg at 1. rewrite <- Emem. subst idx1. rewrite <- Eg. cbv zeta.
    destruct (pid s =? 0), (new_pid =? 0); reflexivity. }
  assert (Hpidq : forall q, pid (the_svc g' q)
                            = if decide (q = p) then new_pid else pid (the_svc g q)).
  { intros q. unfold the_svc at 1. rewrite Emem.
    destruct (decide (q = p)) as [->|Hne].
    - rewrite lookup_insert_eq. reflexivity.
    - rewrite lookup_insert_ne by congruence. reflexivity. }
  apply (core_inv_same_live p g g'); try assumption;
    try (rewrite <- Eg; cbv zeta; destruct (pid s =? 0), (new_pid =? 0); reflexivity);
    try (rewrite <- Eg; cbv zeta; destruct (pid s =? 0), (new_pid =? 0); auto; fail).
  - intros q Hq. rewrite Emem. destruct (decide (q = p)) as [->|Hne].
    + rewrite lookup_insert_eq. eauto.
    + rewrite lookup_insert_ne by congruence. apply H4, Hq.
  - rewrite Eidx. destruct (new_pid =? 0); [exact Hnd1|].
    apply NoDup_Add; [rewrite Hin1; tauto | exact Hnd1].
  - intros q. rewrite Eidx, Hpidq.
    destruct (Z.eqb_spec new_pid 0) as [Hn|Hn].
    + rewrite Hin1, H8. destruct (decide (q = p)) as [->|Hne]; tauto.
    + rewrite elem_of_Add, Hin1, H8.
      destruct (decide (q = p)) as [->|Hne]; [|tauto].
      split; [intros _; auto | auto].
Qed.

(** ** The operations on one record *)

Ltac keeps_step :=
  first
    [ apply keeps_ret
    | apply keeps_gets
    | apply keeps_throw
    | apply keeps_deref
    | apply keeps_svc_set_active
    | apply keeps_svc_notify_state
    | apply keeps_svc_check_sigwake
    | apply keeps_svc_set_sigwake
    | apply keeps_svc_change_pid
    | apply keeps_update; reflexivity
    | apply keeps_modify; frame_tac
    | apply keeps_when
    | apply keeps_bind; [|intros ?] ].

Lemma keeps_svc_handle_start (p : N) (when : Z) :
  keeps p (svc_handle_start p when).
Proof.
  unfold svc_handle_start. apply keeps_bind; [apply keeps_deref|]. intros s.
  destruct (negb (state s =? SVC_STATE_DOWN) && negb (state s =? SVC_STATE_START));
    repeat keeps_step.
Qed.

Lemma keeps_svc_cancel_start (p : N) : keeps p (svc_cancel_start p).
Proof.
  unfold svc_cancel_start. apply keeps_bind; [apply keeps_deref|]. intros s.
  destruct (negb (state s =? SVC_STATE_START)); repeat keeps_step.
Qed.

Lemma keeps_svc_handle_reaped (p : N) (wstat : Z) :
  keeps p (svc_handle_reaped p wstat).
Proof.
  unfold svc_handle_reaped. apply keeps_bind; [apply keeps_deref|]. intros s.
  destruct (state s =? SVC_STATE_UP); repeat keeps_step.
Qed.

Lemma keeps_svc_do_fork (p : N) : keeps p (svc_do_fork p).
Proof.
  unfold svc_do_fork. apply keeps_bind; [apply keeps_deref|]. intros s.
  apply keeps_bind; [apply keeps_gets|]. intros ls.
  apply keeps_bind; [apply keeps_modify; frame_tac|]. intros _. cbv zeta.
  repeat match goal with
         | |- keeps _ (if ?c then _ else _) => destruct c
         end; repeat keeps_step.
Qed.

Lemma keeps_svc_run (FORK_RETRY_DELAY NSIG : Z) (fuel : nat) (p : N) :
  keeps p (svc_run FORK_RETRY_DELAY NSIG fuel p).
Proof.
  induction fuel as [|fuel IH]; cbn [svc_run]; [apply keeps_throw|].
  apply keeps_bind; [apply keeps_deref|]. intros s.
  apply keeps_bind; [apply keeps_gets|]. intros now.
  repeat match goal with
         | |- keeps _ (if ?c then _ else _) => destruct c
         | |- keeps _ (bind _ _) => apply keeps_bind; [|intros ?]
         | |- keeps _ (svc_run _ _ _ _) => exact IH
         | |- keeps _ (svc_handle_start _ _) => apply keeps_svc_handle_start
         | |- keeps _ (svc_do_fork _) => apply keeps_svc_do_fork
         | |- _ => keeps_step
         end.
Qed.

(** ** The setters *)

Ltac keeps_match :=
  repeat match goal with
         | |- keeps _ (match ?x with _ => _ end) => destruct x
         | |- keeps _ (let '(_, _) := ?x in _) => destruct x
         | |- keeps _ (bind _ _) => apply keeps_bind; [|intros ?]
         | |- _ => keeps_step
         end.

Section SettersKeep.
Variable NAME_BUF_SIZE : Z.
Variable NAME_BUF_OFFSET : Z.
Variable sig_num_by_name : list char -> Z.
Variable NSIG : Z.
Variable fresh_byte : char.

Lemma keeps_svc_set_var (ok : bool) (p : N) (name : strseg_t)
    (value : option strseg_t) :
  keeps p (svc_set_var NAME_BUF_SIZE NAME_BUF_OFFSET fresh_byte ok p name value).
Proof.
  unfold svc_set_var. apply keeps_bind; [apply keeps_deref|]. intros s.
  apply keeps_bind; [apply keeps_gets|]. intros pool.
  apply keeps_bind; [apply keeps_gets|]. intros size_each. cbv zeta.
  destruct (find_var _ _ _ _) as [[found oldval] tail].
  keeps_match.
Qed.

Lemma keeps_svc_set_tags (ok : bool) (p : N) (seg : strseg_t) :
  keeps p (svc_set_tags NAME_BUF_SIZE NAME_BUF_OFFSET fresh_byte ok p seg).
Proof. apply keeps_svc_set_var. Qed.

Lemma keeps_svc_set_argv (ok : bool) (p : N) (seg : strseg_t) :
  keeps p (svc_set_argv NAME_BUF_SIZE NAME_BUF_OFFSET fresh_byte ok p seg).
Proof. apply keeps_svc_set_var. Qed.

Lemma keeps_svc_set_fds (ok : bool) (p : N) (seg : strseg_t) :
  keeps p (svc_set_fds NAME_BUF_SIZE NAME_BUF_OFFSET fresh_byte ok p seg).
Proof.
  unfold svc_set_fds. cbv zeta. apply keeps_bind.
  - destruct (strseg_cmp _ _ =? 0); [|apply keeps_svc_set_var].
    apply keeps_bind; [apply keeps_svc_set_var|]. intros _. apply keeps_ret.
  - intros r. destruct (negb r); [apply keeps_ret|].
    destruct (scan_fds _ _ _ _ _) as [[e c] k]. repeat keeps_step.
Qed.

Lemma keeps_svc_set_restart_interval (p : N) (interval : Z) :
  keeps p (svc_set_restart_interval p interval).
Proof.
  unfold svc_set_restart_interval. destruct (Z.shiftr interval 32 <? 1);
    repeat keeps_step.
Qed.

Lemma keeps_svc_set_triggers (ok : bool) (p : N) (seg : strseg_t) :
  keeps p (svc_set_triggers NAME_BUF_SIZE NAME_BUF_OFFSET sig_num_by_name NSIG fresh_byte
             ok p seg).
Proof.
  unfold svc_set_triggers.
  destruct (parse_triggers _ _ _ _ _ _ _) as [[[autostart enable_sigs] sigs]|];
    [|apply keeps_ret].
  apply keeps_bind; [apply keeps_svc_set_var|]. intros r.
  destruct (negb r); [apply keeps_ret|].
  repeat match goal with
         | |- keeps _ (if ?c then _ else _) => destruct c
         | |- keeps _ (bind _ _) => apply keeps_bind; [|intros ?]
         | |- keeps _ (svc_handle_start _ _) => apply keeps_svc_handle_start
         | |- _ => keeps_step
         end.
Qed.

End SettersKeep.

(** ** The sweep over the lists *)

(** A computation that keeps the invariant and the live records, on
    whatever record it works. *)
Lemma keeps_for_each (l : list N) (body : N -> M unit) :
  (forall p, keeps p (body p)) ->
  forall g a g', core_inv g -> (forall p, p ∈ l -> p ∈ live g) ->
                 for_each l body g = Ok a g' ->
                 core_inv g' /\ live g' = live g.
Proof.
  intros Hbody. induction l as [|p l IH]; intros g a g' Hinv Hl H.
  - injection H as _ <-. auto.
  - cbn [for_each] in H. unfold bind in H.
    destruct (body p g) as [u g1|] eqn:E; [|discriminate].
    destruct (Hbody p g u g1 Hinv ltac:(apply Hl; left) E) as [Hinv1 Hl1].
    destruct (IH g1 a g' Hinv1) as [Hinv' Hl']; [|exact H|].
    + intros q Hq. rewrite Hl1. apply Hl. right. exact Hq.
    + split; [exact Hinv' | congruence].
Qed.

Lemma keeps_wake_by_signal (NSIG signum : Z) (p : N) :
  keeps p (wake_by_signal NSIG signum p).
Proof.
  unfold wake_by_signal. apply keeps_bind; [apply keeps_deref|]. intros s.
  destruct (negb (sigismember NSIG (autostart_signals s) signum =? 0));
    [|apply keeps_ret].
  apply keeps_bind; [apply keeps_gets|]. intros now.
  apply keeps_bind; [apply keeps_svc_handle_start|]. intros _. apply keeps_ret.
Qed.

Lemma core_inv_put_last_signal_ts (ts : Z) (g : core) :
  core_inv g -> core_inv (put_last_signal_ts ts g).
Proof. intros H. exact H. Qed.

Lemma signal_sweep_inv (NSIG : Z) (fuel : nat) :
  forall g a g', core_inv g -> signal_sweep NSIG fuel g = Ok a g' ->
                 core_inv g' /\ live g' = live g.
Proof.
  induction fuel as [|fuel IH]; intros g a g' Hinv H; cbn [signal_sweep] in H.
  - injection H as _ <-. auto.
  - unfold bind at 1 2, gets at 1 2 in H.
    destruct (sig_get_new_events (sig_events g) (svc_last_signal_ts g)) as [e|].
    2:{ injection H as _ <-. auto. }
    unfold bind at 1, gets at 1 in H. unfold bind at 1 in H.
    destruct (for_each (svc_sigwake_list g) (wake_by_signal NSIG (ev_signum e)) g)
      as [u g1|] eqn:E; [|discriminate].
    destruct (keeps_for_each _ _ (keeps_wake_by_signal NSIG (ev_signum e))
                g u g1 Hinv (proj2 (proj2 Hinv)) E) as [Hinv1 Hl1].
    unfold bind at 1, modify at 1 in H.
    destruct (IH _ a g' (core_inv_put_last_signal_ts (ev_ts e) g1 Hinv1) H)
      as [Hinv' Hl'].
    split; [exact Hinv'|]. rewrite Hl'. exact Hl1.
Qed.

Lemma svc_run_active_inv (FORK_RETRY_DELAY NSIG : Z) (fuel : nat) :
  forall g a g', core_inv g ->
                 svc_run_active FORK_RETRY_DELAY NSIG fuel g = Ok a g' ->
                 core_inv g' /\ live g' = live g.
Proof.
  intros g a g' Hinv H. unfold svc_run_active in H.
  unfold bind at 1 2, gets at 1 2 in H. unfold bind at 1 in H.
  assert (Hsweep : exists g1, core_inv g1 /\ live g1 = live g /\
            when_ (negb (bool_decide (svc_sigwake_list g = [])))
                  (signal_sweep NSIG (S (length (sig_events g)))) g = Ok tt g1).
  { destruct (when_ _ _ g) as [[] g1|] eqn:E; [|discriminate].
    exists g1. unfold when_ in E.
    destruct (negb (bool_decide (svc_sigwake_list g = []))).
    - destruct (signal_sweep_inv _ _ _ _ _ Hinv E). auto.
    - injection E as <-. auto. }
  destruct Hsweep as (g1 & Hinv1 & Hl1 & E). rewrite E in H.
  unfold bind at 1, gets at 1 in H.
  destruct (keeps_for_each _ _ (keeps_svc_run FORK_RETRY_DELAY NSIG fuel)
              g1 a g' Hinv1 (proj1 (proj2 Hinv1)) H) as [Hinv' Hl'].
  split; [exact Hinv' | congruence].
Qed.

(** ** The vector of live records *)

Lemma unlink_elem_of (p q : N) (l : list N) :
  q ∈ unlink p l <-> q ∈ l /\ q <> p.
Proof.
  unfold unlink. rewrite !list_elem_of_In, filter_In, negb_true_iff, N.eqb_neq.
  reflexivity.
Qed.

Lemma unlink_not_linked (p : N) (l : list N) : p ∉ l -> unlink p l = l.
Proof.
  induction l as [|x l IH]; intros Hp; [reflexivity|].
  apply not_elem_of_cons in Hp as [Hne Hp]. unfold unlink in *. cbn [List.filter].
  destruct (N.eqb_spec x p) as [->|_]; [contradiction|].
  cbn [negb]. rewrite IH by exact Hp. reflexivity.
Qed.

Lemma index_of_found (p : N) (l : list N) (count : nat) :
  p ∈ take count l ->
  forall i, exists j, index_of p l i count = Some (i + j)%nat /\
                      (j < count)%nat /\ l !! j = Some p.
Proof.
  revert l. induction count as [|count IH]; intros l Hp i.
  - rewrite take_0 in Hp. apply elem_of_nil in Hp. contradiction.
  - destruct l as [|x l]; [apply elem_of_nil in Hp; contradiction|].
    cbn [index_of]. destruct (N.eqb_spec x p) as [->|Hne].
    + exists 0%nat. rewrite Nat.add_0_r. repeat split. lia.
    + cbn [take] in Hp. apply elem_of_cons in Hp as [->|Hp]; [contradiction|].
      destruct (IH l Hp (S i)) as (j & E & Hj & Hl).
      exists (S j). rewrite E. repeat split; [f_equal; lia | lia | exact Hl].
Qed.

(** The hole a deleted record leaves is filled with the last live
    record. *)
Lemma take_swap_last (l : list N) (c i : nat) (p last : N) :
  NoDup (take (S c) l) -> (i <= c)%nat ->
  l !! i = Some p -> l !! c = Some last ->
  NoDup (take c (<[i := last]> l)) /\
  forall q, q ∈ take c (<[i := last]> l) <-> q ∈ take (S c) l /\ q <> p.
Proof.
  intros Hnd Hi Hli Hlc.
  rewrite (take_S_r l c last Hlc) in *.
  apply NoDup_app in Hnd as (Hnd1 & Hnd2 & _).
  destruct (decide (i = c)) as [->|Hne].
  - assert (last = p) by congruence. subst last.
    rewrite take_insert_ge by lia. split; [exact Hnd1|].
    intros q. rewrite elem_of_app, list_elem_of_singleton. split.
    + intros Hq. split; [auto|]. intros ->. apply (Hnd2 p Hq), list_elem_of_singleton.
      reflexivity.
    + intros [[Hq| ->] Hqp]; [exact Hq | contradiction].
  - rewrite take_insert_lt by lia.
    assert (Hti : take c l !! i = Some p) by (rewrite lookup_take_lt by lia; exact Hli).
    pose proof (take_drop_middle _ _ _ Hti) as Esplit.
    set (l1 := take i (take c l)) in *. set (l2 := drop (S i) (take c l)) in *.
    assert (Hlen : length l1 = i).
    { subst l1. rewrite length_take. apply lookup_lt_Some in Hti. lia. }
    assert (Eins : <[i := last]> (take c l) = l1 ++ last :: l2).
    { rewrite <- Esplit. rewrite <- Hlen at 1.
      rewrite insert_app_r_alt by lia. rewrite Nat.sub_diag. reflexivity. }
    rewrite Eins. rewrite <- Esplit in Hnd1, Hnd2 |- *.
    assert (Hlast : last ∉ l1 ++ p :: l2).
    { intros Hin. apply (Hnd2 last Hin), list_elem_of_singleton. reflexivity. }
    apply NoDup_app in Hnd1 as (N1 & N2 & N3). apply NoDup_cons in N3 as [N3 N4].
    rewrite elem_of_app, elem_of_cons in Hlast.
    split.
    + apply NoDup_app. split; [exact N1|]. split.
      * intros x Hx Hx'. apply elem_of_cons in Hx' as [->|Hx'].
        -- apply Hlast. auto.
        -- apply (N2 x Hx). right. exact Hx'.
      * apply NoDup_cons. split; [|exact N4]. intros Hx. apply Hlast. auto.
    + intros q. rewrite !elem_of_app, !elem_of_cons, elem_of_nil.
      split.
      * intros [Hq|[->|Hq]].
        -- split; [auto|]. intros ->. apply (N2 p Hq). left.
        -- split; [auto|]. intros ->. apply Hlast. auto.
        -- split; [auto|]. intros ->. contradiction.
      * intros [[[Hq|[->|Hq]]|[->|[]]] Hqp]; auto. contradiction.
Qed.

Lemma NoDup_insert_swap (l : list N) (i j : nat) (x y : N) :
  NoDup l -> l !! i = Some x -> l !! j = Some y ->
  NoDup (<[j := x]> (<[i := y]> l)).
Proof.
  intros Hnd Hi Hj. rewrite NoDup_alt in *.
  assert (Hlook : forall a, <[j := x]> (<[i := y]> l) !! a
                            = if decide (a = j) then Some x
                              else if decide (a = i) then Some y else l !! a).
  { intros a. apply lookup_lt_Some in Hi as Hi', Hj as Hj'.
    destruct (decide (a = j)) as [->|Haj].
    - rewrite list_lookup_insert_eq by (rewrite length_insert; lia). reflexivity.
    - rewrite list_lookup_insert_ne by congruence.
      destruct (decide (a = i)) as [->|Hai].
      + rewrite list_lookup_insert_eq by lia. reflexivity.
      + rewrite list_lookup_insert_ne by congruence. reflexivity. }
  intros a b z. rewrite !Hlook. intros Ha Hb.
  repeat match goal with
         | H : context [decide ?P] |- _ => destruct (decide P); subst
         end;
    repeat match goal with
           | H : Some _ = Some _ |- _ => injection H as H; subst
           end; try reflexivity; try congruence; eauto.
  all: try (exfalso; match goal with
            | n : ?u <> ?v |- _ => apply n; eapply Hnd; eassumption
            end).
Qed.

(** ** Deletion *)

Lemma svc_set_active_false (g : core) (p : N) :
  svc_set_active p false g
  = Ok tt (put_active_list (unlink p (svc_active_list g)) g).
Proof.
  rewrite svc_set_active_ok. destruct (linked p (svc_active_list g)) eqn:E;
    [reflexivity|].
  rewrite unlink_not_linked.
  - destruct g; reflexivity.
  - intros Hin. apply linked_true in Hin. congruence.
Qed.

Lemma svc_set_sigwake_false (g : core) (p : N) (s : service_t) :
  svc_mem g !! p = Some s ->
  svc_set_sigwake p false g
  = Ok tt (put_sigwake_list (unlink p (svc_sigwake_list g))
             (put_mem (<[p := set_sigwake false s]> (svc_mem g)) g)).
Proof.
  intros Hs. unfold svc_set_sigwake. unfold_monad. rewrite Hs. core_simpl.
  cbn [andb negb]. destruct (linked p (svc_sigwake_list g)) eqn:E; [reflexivity|].
  rewrite unlink_not_linked.
  - destruct g; reflexivity.
  - intros Hin. apply linked_true in Hin. congruence.
Qed.

(** The state [svc_dtor] leaves. *)
Lemma svc_dtor_ok (g : core) (p : N) (s : service_t) :
  svc_mem g !! p = Some s ->
  svc_dtor p g
  = Ok tt
      (let g2 := put_sigwake_list (unlink p (svc_sigwake_list g))
                   (put_mem (<[p := set_sigwake false s]> (svc_mem g))
                      (put_active_list (unlink p (svc_active_list g)) g)) in
       let g3 := if pid s =? 0 then g2
                 else put_by_pid_index
                        (RBTreeNode_Prune (svc_by_pid_index g) p) g2 in
       put_by_name_index (RBTreeNode_Prune (svc_by_name_index g) p) g3).
Proof.
  intros Hs. unfold svc_dtor. unfold bind at 1. rewrite svc_set_active_false.
  unfold bind at 1. rewrite (svc_set_sigwake_false _ p s) by exact Hs.
  unfold_monad. core_simpl. rewrite lookup_insert_eq.
  change (pid (set_sigwake false s)) with (pid s).
  destruct (pid s =? 0); reflexivity.
Qed.

(** [svc_delete] takes the record, and nothing else, out of the live
    records, the two indices and the two lists. *)
Lemma svc_delete_inv (g : core) (p : N) (a : unit) (g' : core) :
  core_inv g -> p ∈ live g -> svc_delete p g = Ok a g' ->
  core_inv g' /\
  (forall q, q ∈ live g' <-> q ∈ live g /\ q <> p) /\
  (forall q, q <> p -> the_svc g' q = the_svc g q) /\
  (svc_pool g = false -> svc_mem g' !! p = None) /\
  svc_by_name_index g' = RBTreeNode_Prune (svc_by_name_index g) p /\
  svc_by_pid_index g'
  = (if pid (the_svc g p) =? 0 then svc_by_pid_index g
     else RBTreeNode_Prune (svc_by_pid_index g) p).
Proof.
  intros Hinv Hp H.
  pose proof Hinv as [(H1 & H2 & H3 & H4 & H5 & H6 & H7 & H8) [L1 L2]].
  destruct (H4 p Hp) as [s Hs].
  destruct (index_of_found p (svc_list g) (Z.to_nat (svc_list_count g)) Hp 0%nat)
    as (i & Ei & Hi & Hli).
  cbn [Nat.add] in Ei.
  unfold svc_delete in H. unfold bind at 1 in H.
  rewrite (svc_dtor_ok g p s Hs) in H.
  match type of H with _ ?t = _ => remember t as gd eqn:Egd end.
  assert (Gd : svc_list gd = svc_list g /\ svc_list_count gd = svc_list_count g /\
               svc_pool gd = svc_pool g /\
               svc_mem gd = <[p := set_sigwake false s]> (svc_mem g) /\
               svc_by_name_index gd = RBTreeNode_Prune (svc_by_name_index g) p /\
               svc_by_pid_index gd
               = (if pid s =? 0 then svc_by_pid_index g
                  else RBTreeNode_Prune (svc_by_pid_index g) p) /\
               svc_active_list gd = unlink p (svc_active_list g) /\
               svc_sigwake_list gd = unlink p (svc_sigwake_list g)).
  { subst gd. cbv zeta. destruct (pid s =? 0); repeat split; reflexivity. }
  destruct Gd as (Gl & Gc & Gpool & Gmem & Gname & Gpid & Gact & Gsig).
  clear Egd.
  unfold bind at 1 2 3, gets at 1 2 3 in H. rewrite Gl, Gc, Ei in H.
  set (c' := Z.to_nat (svc_list_count g - 1)) in H.
  assert (Hc' : Z.to_nat (svc_list_count g) = S c') by (subst c'; lia).
  set (l := svc_list g) in *.
  destruct (lookup_lt_is_Some_2 l c') as [last Hlast].
  { subst l. lia. }
  rewrite Hlast in H. cbn [default] in H.
  assert (Hfin : exists x fin,
            svc_list g' = <[c' := x]> (<[i := last]> l) /\
            svc_list_count g' = svc_list_count g - 1 /\
            svc_pool g' = svc_pool g /\
            svc_mem g' = fin (svc_mem gd) /\
            (forall q m, q <> p -> fin m !! q = m !! q) /\
            (svc_pool g = false -> forall m, fin m !! p = None) /\
            (svc_pool g = true -> x = p) /\
            svc_by_name_index g' = svc_by_name_index gd /\
            svc_by_pid_index g' = svc_by_pid_index gd /\
            svc_active_list g' = svc_active_list gd /\
            svc_sigwake_list g' = svc_sigwake_list gd).
  { unfold_monad. destruct (svc_pool gd) eqn:Epool; injection H as _ <-;
      core_simpl.
    - exists p, (fun m => m). rewrite <- Gpool. repeat split; auto.
      congruence.
    - exists 0%N, (delete p). rewrite <- Gpool. repeat split; auto.
      + intros q m Hq. apply lookup_delete_ne. congruence.
      + intros _ m. apply lookup_delete_eq.
      + congruence. }
  destruct Hfin as (x & fin & Fl & Fc & Fpool & Fmem & Ffin & Ffree & Fx & Fname
                    & Fpid & Fact & Fsig).
  assert (Hlive' : live g' = take c' (<[i := last]> l)).
  { unfold live. rewrite Fl, Fc. fold c'. apply take_insert_ge. lia. }
  destruct (take_swap_last l c' i p last) as [Hnd' Hin'];
    [rewrite <- Hc'; exact H2 | lia | exact Hli | exact Hlast |].
  rewrite <- Hc' in Hin'. fold (live g) in Hin'. rewrite <- Hlive' in Hnd', Hin'.
  assert (Hsvc : forall q, q <> p -> the_svc g' q = the_svc g q).
  { intros q Hq. unfold the_svc. rewrite Fmem, Ffin, Gmem by exact Hq.
    rewrite lookup_insert_ne by congruence. reflexivity. }
  split; [|split; [exact Hin' | split; [exact Hsvc|split; [|split]]]].
  2:{ intros Hpool. rewrite Fmem. apply Ffree, Hpool. }
  2:{ rewrite Fname. exact Gname. }
  2:{ rewrite Fpid, Gpid. unfold the_svc. rewrite Hs. reflexivity. }
  split; [|split].
  - split; [|split; [exact Hnd'|]].
    { rewrite Fl, Fc, !length_insert. fold l. lia. }
    split.
    { intros Hpool. rewrite Fpool in Hpool. rewrite Fl, (Fx Hpool).
      apply NoDup_insert_swap; [apply H3, Hpool | exact Hli | exact Hlast]. }
    split.
    { intros q Hq. apply Hin' in Hq as [Hq Hne].
      rewrite Fmem, Ffin, Gmem by exact Hne.
      rewrite lookup_insert_ne by congruence. apply H4, Hq. }
    split; [rewrite Fname, Gname; apply NoDup_Prune, H5|].
    split.
    { intros q. rewrite Fname, Gname, elem_of_Prune, H6, Hin' by exact H5.
      reflexivity. }
    assert (Hpidx : forall q, q ∈ elements (svc_by_pid_index g')
                              <-> q ∈ elements (svc_by_pid_index g) /\ q <> p).
    { intros q. rewrite Fpid, Gpid. destruct (Z.eqb_spec (pid s) 0) as [E|E].
      - split; [|tauto]. intros Hq. split; [exact Hq|]. intros ->.
        apply H8 in Hq as [_ Hq]. unfold the_svc in Hq. rewrite Hs in Hq.
        contradiction.
      - apply elem_of_Prune, H7. }
    split.
    { rewrite Fpid, Gpid. destruct (pid s =? 0); [exact H7 | apply NoDup_Prune, H7]. }
    intros q. rewrite Hpidx, H8, Hin'. split.
    + intros [[Hq Hpq] Hne]. rewrite Hsvc by exact Hne. auto.
    + intros [[Hq Hne] Hpq]. rewrite Hsvc in Hpq by exact Hne. auto.
  - intros q Hq. rewrite Fact, Gact in Hq. apply unlink_elem_of in Hq as [Hq Hne].
    apply Hin'. auto.
  - intros q Hq. rewrite Fsig, Gsig in Hq. apply unlink_elem_of in Hq as [Hq Hne].
    apply Hin'. auto.
Qed.

(** [svc_delete] returns. *)
Lemma svc_delete_returns (g : core) (p : N) (s : service_t) :
  svc_mem g !! p = Some s -> exists g', svc_delete p g = Ok tt g'.
Proof.
  intros Hs. unfold svc_delete. unfold bind at 1. rewrite (svc_dtor_ok g p s Hs).
  unfold_monad.
  repeat match goal with
         | |- context [match ?x with _ => _ end] => destruct x
         end; eauto.
Qed.

(** ** Creation *)

Lemma core_inv_add (g g' : core) (svc : N) (o : service_t) (cmp : N -> Z) :
  core_inv g -> svc ∉ live g ->
  live g' = live g ++ [svc] ->
  0 <= svc_list_count g' <= Z.of_nat (length (svc_list g')) ->
  (svc_pool g' = true -> NoDup (svc_list g')) ->
  svc_mem g' = <[svc := o]> (svc_mem g) -> pid o = 0 ->
  svc_by_name_index g' = RBTree_Add cmp (svc_by_name_index g) svc ->
  svc_by_pid_index g' = svc_by_pid_index g ->
  (forall q, q ∈ svc_active_list g' -> q ∈ svc_active_list g) ->
  (forall q, q ∈ svc_sigwake_list g' -> q ∈ svc_sigwake_list g) ->
  core_inv g'.
Proof.
  intros [(H1 & H2 & H3 & H4 & H5 & H6 & H7 & H8) [L1 L2]] Hfresh
         Hlive Hc Hpool Hmem Hpid Hname Hpidx Ha Hs.
  assert (Hsvc : forall q, pid (the_svc g' q)
                           = if decide (q = svc) then 0 else pid (the_svc g q)).
  { intros q. unfold the_svc at 1. rewrite Hmem.
    destruct (decide (q = svc)) as [->|Hne].
    - rewrite lookup_insert_eq. exact Hpid.
    - rewrite lookup_insert_ne by congruence. reflexivity. }
  split; [|split].
  - unfold index_inv. rewrite Hlive, Hname, Hpidx.
    split; [exact Hc|]. split.
    { apply NoDup_app. split; [exact H2|]. split; [|apply NoDup_singleton].
      intros q Hq Hq'. apply list_elem_of_singleton in Hq'. subst q. contradiction. }
    split; [exact Hpool|]. split.
    { intros q Hq. rewrite Hmem. destruct (decide (q = svc)) as [->|Hne].
      - rewrite lookup_insert_eq. eauto.
      - rewrite lookup_insert_ne by congruence. apply H4.
        apply elem_of_app in Hq as [Hq|Hq]; [exact Hq|].
        apply list_elem_of_singleton in Hq. contradiction. }
    split; [apply NoDup_Add; [rewrite H6; exact Hfresh | exact H5]|].
    split.
    { intros q. rewrite elem_of_Add, H6, elem_of_app, list_elem_of_singleton. tauto. }
    split; [exact H7|].
    intros q. rewrite H8, Hsvc, elem_of_app, list_elem_of_singleton.
    destruct (decide (q = svc)) as [->|Hne]; tauto.
  - intros q Hq. rewrite Hlive, elem_of_app. left. apply L1, Ha, Hq.
  - intros q Hq. rewrite Hlive, elem_of_app. left. apply L2, Hs, Hq.
Qed.

(** The vector after [svc_list_resize(svc_list_limit + 32)]. *)
Lemma resize_32 (l : list N) :
  take (Z.to_nat (Z.of_nat (length l) + 32))
       (l ++ replicate (Z.to_nat (Z.of_nat (length l) + 32) - length l) 0%N)
  = l ++ replicate 32 0%N.
Proof.
  replace (Z.to_nat (Z.of_nat (length l) + 32)) with (length l + 32)%nat by lia.
  replace (length l + 32 - length l)%nat with 32%nat by lia.
  apply take_ge. rewrite length_app, length_replicate. lia.
Qed.

Section Creation.
Variable NAME_BUF_SIZE : Z.
Variable NAME_BUF_OFFSET : Z.
Variable fresh_byte : char.

Lemma svc_ctor_ok (g : core) (svc : N) (name : strseg_t) :
  svc_ctor NAME_BUF_SIZE svc name g
  = Ok tt
      (let g1 := put_mem (<[svc := svc_ctor_object NAME_BUF_SIZE (svc_pool g) name]>
                            (svc_mem g)) g in
       let g2 := put_sigwake_list (unlink svc (svc_sigwake_list g))
                   (put_active_list (unlink svc (svc_active_list g)) g1) in
       put_by_name_index
         (RBTree_Add (svc_by_name_compare g2 name) (svc_by_name_index g) svc) g2).
Proof. reflexivity. Qed.

Lemma svc_new_tail (a : alloc) (name : strseg_t) (g : core) (r : option N)
    (g' : core) :
  core_inv g -> svc_list_count g < Z.of_nat (length (svc_list g)) ->
  (svc_pool g = false -> malloc_ret a ∉ live g) ->
  (if svc_pool g then
     l <- gets svc_list ;;
     let svc := default 0%N (l !! Z.to_nat (svc_list_count g)) in
     modify (put_list_count (svc_list_count g + 1)) ;;;
     svc_ctor NAME_BUF_SIZE svc name ;;;
     ret (Some svc)
   else if (malloc_ret a =? 0)%N then ret None
   else
     let svc := malloc_ret a in
     modify (fun g0 => put_list (<[Z.to_nat (svc_list_count g) := svc]>
                                  (svc_list g0)) g0) ;;;
     modify (put_list_count (svc_list_count g + 1)) ;;;
     svc_ctor NAME_BUF_SIZE svc name ;;;
     ret (Some svc)) g = Ok r g' ->
  core_inv g' /\ created NAME_BUF_SIZE g name r g'.
Proof.
  intros Hinv Hroom Hfresh H.
  pose proof Hinv as [(H1 & H2 & H3 & H4 & H5 & H6 & H7 & H8) [L1 L2]].
  set (c := Z.to_nat (svc_list_count g)) in *.
  assert (Hc : Z.to_nat (svc_list_count g + 1) = S c) by (subst c; lia).
  assert (Hlen : (c < length (svc_list g))%nat) by (subst c; lia).
  destruct (svc_pool g) eqn:Epool.
  - destruct (lookup_lt_is_Some_2 (svc_list g) c Hlen) as [svc Hsvc].
    unfold bind at 1, gets at 1 in H. rewrite Hsvc in H. cbn [default] in H.
    cbv zeta in H. unfold bind at 1, modify at 1 in H. unfold bind at 1 in H.
    rewrite svc_ctor_ok in H. unfold ret in H. injection H as <- <-.
    assert (Hlive : take (S c) (svc_list g) = live g ++ [svc]).
    { unfold live. fold c. apply take_S_r, Hsvc. }
    assert (Hnew : svc ∉ live g).
    { intros Hin. pose proof (H3 eq_refl) as Hnd.
      rewrite <- (take_drop (S c) (svc_list g)), Hlive in Hnd.
      apply NoDup_app in Hnd as [Hnd _]. apply NoDup_app in Hnd as (_ & Hnd & _).
      apply (Hnd svc Hin), list_elem_of_singleton. reflexivity. }
    split.
    + eapply (core_inv_add g _ svc); try exact Hinv; try exact Hnew; core_simpl;
        try reflexivity.
      * unfold live. core_simpl. rewrite Hc. exact Hlive.
      * lia.
      * intros _. apply H3. reflexivity.
      * intros q Hq. apply unlink_elem_of in Hq. tauto.
      * intros q Hq. apply unlink_elem_of in Hq. tauto.
    + cbn [created]. split; [exact Hnew|]. split.
      { unfold live. core_simpl. rewrite Hc. exact Hlive. }
      split; [|split; [|split]].
      * unfold the_svc. core_simpl. rewrite lookup_insert_eq, Epool. reflexivity.
      * intros q Hq. core_simpl.
        rewrite lookup_insert_ne by congruence. reflexivity.
      * reflexivity.
      * reflexivity.
  - destruct (N.eqb_spec (malloc_ret a) 0) as [E0|E0].
    { unfold ret in H. injection H as <- <-. split; [exact Hinv|].
      repeat split; reflexivity. }
    cbv zeta in H. unfold bind at 1, modify at 1 in H.
    unfold bind at 1, modify at 1 in H. unfold bind at 1 in H.
    rewrite svc_ctor_ok in H. unfold ret in H. injection H as <- <-.
    specialize (Hfresh eq_refl).
    assert (Hlive : take (S c) (<[c := malloc_ret a]> (svc_list g))
                    = live g ++ [malloc_ret a]).
    { erewrite take_S_r by (apply list_lookup_insert_eq; exact Hlen).
      rewrite take_insert_ge by lia. reflexivity. }
    split.
    + eapply (core_inv_add g _ (malloc_ret a)); try exact Hinv; try exact Hfresh;
        core_simpl; try reflexivity.
      * unfold live. core_simpl. rewrite Hc. exact Hlive.
      * rewrite length_insert. lia.
      * rewrite Epool. discriminate.
      * intros q Hq. apply unlink_elem_of in Hq. tauto.
      * intros q Hq. apply unlink_elem_of in Hq. tauto.
    + cbn [created]. split; [exact Hfresh|]. split.
      { unfold live. core_simpl. rewrite Hc. exact Hlive. }
      split; [|split; [|split]].
      * unfold the_svc. core_simpl. rewrite lookup_insert_eq, Epool. reflexivity.
      * intros q Hq. core_simpl.
        rewrite lookup_insert_ne by congruence. reflexivity.
      * reflexivity.
      * reflexivity.
Qed.

Lemma core_inv_resized (g : core) :
  core_inv g -> svc_pool g = false ->
  core_inv (put_list (svc_list g ++ replicate 32 0%N) g).
Proof.
  intros Hinv Hpool.
  pose proof Hinv as [(H1 & H2 & H3 & H4 & H5 & H6 & H7 & H8) [L1 L2]].
  assert (Hlive : live (put_list (svc_list g ++ replicate 32 0%N) g) = live g).
  { unfold live. core_simpl. apply take_app_le. lia. }
  split; [|split].
  - unfold index_inv. rewrite Hlive. core_simpl.
    split; [rewrite length_app; lia|]. split; [exact H2|].
    split; [rewrite Hpool; discriminate|].
    split; [exact H4|]. split; [exact H5|]. split; [exact H6|].
    split; [exact H7 | exact H8].
  - intros q Hq. rewrite Hlive. apply L1, Hq.
  - intros q Hq. rewrite Hlive. apply L2, Hq.
Qed.

Lemma svc_new_inv (a : alloc) (name : strseg_t) (g : core) (r : option N)
    (g' : core) :
  core_inv g -> (svc_pool g = false -> malloc_ret a ∉ live g) ->
  svc_new NAME_BUF_SIZE a name g = Ok r g' ->
  core_inv g' /\ created NAME_BUF_SIZE g name r g'.
Proof.
  intros Hinv Hfresh H.
  pose proof Hinv as [(H1 & H2 & H3 & H4 & H5 & H6 & H7 & H8) [L1 L2]].
  unfold svc_new in H. unfold bind at 1 2 3, gets at 1 2 3 in H.
  destruct (Z.geb_spec (svc_list_count g) (Z.of_nat (length (svc_list g))))
    as [Hfull|Hroom].
  - destruct (svc_pool g) eqn:Epool.
    { unfold bind at 1, ret at 1 in H. cbn [negb] in H. unfold ret in H.
      injection H as <- <-. split; [exact Hinv|].
      repeat split; reflexivity. }
    unfold svc_list_resize in H. destruct (resize_ok a).
    2:{ unfold bind at 1, ret at 1 in H. cbn [negb] in H. unfold ret in H.
        injection H as <- <-. split; [exact Hinv|].
      repeat split; reflexivity. }
    unfold bind at 1 2, modify at 1, ret at 1 in H. cbn [negb] in H.
    rewrite resize_32 in H.
    pose proof (core_inv_resized g Hinv Epool) as Hinv_r.
    set (gr := put_list (svc_list g ++ replicate 32 0%N) g) in *.
    assert (Hlive_r : live gr = live g).
    { unfold live. subst gr. core_simpl. apply take_app_le. lia. }
    destruct (svc_new_tail a name gr r g' Hinv_r) as [Hinv' Hcr].
    + subst gr. core_simpl. rewrite length_app, length_replicate. lia.
    + intros _. rewrite Hlive_r. apply Hfresh. reflexivity.
    + subst gr. core_simpl. rewrite Epool. exact H.
    + split; [exact Hinv'|]. destruct r as [svc|]; cbn [created] in *.
      * rewrite Hlive_r in Hcr. exact Hcr.
      * rewrite Hlive_r in Hcr. exact Hcr.
  - unfold bind at 1, ret at 1 in H. cbn [negb] in H.
    apply (svc_new_tail a name g r g' Hinv); [lia | exact Hfresh | exact H].
Qed.

Lemma svc_by_name_inv (a : alloc) (name : strseg_t) (create : bool) (g : core)
    (r : option N) (g' : core) :
  core_inv g -> (svc_pool g = false -> malloc_ret a ∉ live g) ->
  svc_by_name NAME_BUF_SIZE a name create g = Ok r g' ->
  core_inv g'.
Proof.
  intros Hinv Hfresh H. unfold svc_by_name in H.
  unfold bind at 1, gets at 1 in H. cbv zeta in H.
  destruct (Relation _ =? 0); [injection H as _ <-; exact Hinv|].
  destruct (create && svc_check_name NAME_BUF_SIZE name).
  - apply (svc_new_inv a name g r g' Hinv Hfresh H).
  - injection H as _ <-. exact Hinv.
Qed.

End Creation.

(** ** The reachable states *)

(** A state without live records. *)
Lemma core_inv_empty (g : core) :
  svc_list_count g = 0 -> (svc_pool g = true -> NoDup (svc_list g)) ->
  svc_by_name_index g = Sentinel -> svc_by_pid_index g = Sentinel ->
  svc_active_list g = [] -> svc_sigwake_list g = [] ->
  core_inv g.
Proof.
  intros Hc Hpool Hn Hp Ha Hs.
  assert (Hlive : live g = []) by (unfold live; rewrite Hc; apply take_0).
  unfold core_inv, index_inv, lists_inv.
  rewrite Hlive, Hc, Hn, Hp, Ha, Hs. cbn [elements].
  split; [|split; intros q Hq; exact Hq].
  split; [lia|]. split; [apply NoDup_nil_2|]. split; [exact Hpool|].
  split; [intros q Hq; apply elem_of_nil in Hq; contradiction|].
  split; [apply NoDup_nil_2|]. split; [tauto|]. split; [apply NoDup_nil_2|].
  intros q. rewrite elem_of_nil. tauto.
Qed.

Lemma core_inv_svc_init (now : Z) (evs : list sig_event) (ls : list launch) :
  core_inv (svc_init now evs ls).
Proof. apply core_inv_empty; try reflexivity. discriminate. Qed.

Lemma NoDup_slots (base : N) (size_each : Z) (n : nat) :
  0 < size_each ->
  NoDup (List.map (fun i => (base + Z.to_N (size_each * Z.of_nat i))%N) (seq 0 n)).
Proof.
  intros Hpos. apply NoDup_fmap_2_strong; [|apply NoDup_seq].
  intros i j _ _ E. nia.
Qed.

Lemma core_inv_svc_preallocate (SIZEOF_SERVICE : Z) (pool_base : N)
    (count data_size_each : Z) (now : Z) (evs : list sig_event)
    (ls : list launch) :
  0 < SIZEOF_SERVICE -> 0 <= data_size_each ->
  core_inv (svc_preallocate SIZEOF_SERVICE pool_base count data_size_each
              (svc_init now evs ls)).
Proof.
  intros Hsize Hdata. apply core_inv_empty; try reflexivity.
  intros _. unfold svc_preallocate. cbv zeta. core_simpl.
  apply NoDup_slots.
  assert (0 <= Z.lor (SIZEOF_SERVICE + data_size_each - 1) 15)
    by (apply Z.lor_nonneg; lia).
  lia.
Qed.

Lemma core_inv_set_env (now next : Z) (evs : list sig_event) (ls : list launch)
    (g : core) :
  core_inv g -> core_inv (set_env now next evs ls g).
Proof. intros H. exact H. Qed.


Section Reachable.
Variable NAME_BUF_SIZE : Z.
Variable FORK_RETRY_DELAY : Z.
Variable NAME_BUF_OFFSET : Z.
Variable SIZEOF_SERVICE : Z.
Variable sig_num_by_name : list char -> Z.
Variable NSIG : Z.
Variable fresh_byte : char.

Lemma run_op_inv (o : op) (g : core) (a : unit) (g' : core) :
  core_inv g -> op_allowed g o ->
  run_op NAME_BUF_SIZE FORK_RETRY_DELAY NAME_BUF_OFFSET sig_num_by_name NSIG
         fresh_byte o g
  = Ok a g' ->
  core_inv g'.
Proof.
  intros Hinv Hok H. destruct o as [al name|p|p when|p|p wstat|p new_pid|fuel p|fuel
                  |ok p name value|ok p seg|ok p seg|ok p seg|p interval
                  |ok p seg|p on];
    cbn [run_op op_allowed] in *.
  - unfold bind in H.
    destruct (svc_by_name _ _ _ _ g) as [r g1|] eqn:E; [|discriminate].
    injection H as _ <-.
    apply (svc_by_name_inv _ _ _ _ _ _ _ Hinv Hok E).
  - apply (svc_delete_inv g p a g' Hinv Hok H).
  - eapply (keeps_bind p _ _ (keeps_svc_handle_start p when)
              (fun _ => keeps_ret p tt)); eassumption.
  - eapply (keeps_bind p _ _ (keeps_svc_cancel_start p)
              (fun _ => keeps_ret p tt)); eassumption.
  - eapply (keeps_svc_handle_reaped p wstat); eassumption.
  - eapply (keeps_svc_change_pid p new_pid); eassumption.
  - eapply (keeps_svc_run FORK_RETRY_DELAY NSIG fuel p); eassumption.
  - eapply (svc_run_active_inv FORK_RETRY_DELAY NSIG fuel); eassumption.
  - eapply (keeps_bind p _ _ (keeps_svc_set_var _ _ _ ok p name value)
              (fun _ => keeps_ret p tt)); eassumption.
  - eapply (keeps_bind p _ _ (keeps_svc_set_tags _ _ _ ok p seg)
              (fun _ => keeps_ret p tt)); eassumption.
  - eapply (keeps_bind p _ _ (keeps_svc_set_argv _ _ _ ok p seg)
              (fun _ => keeps_ret p tt)); eassumption.
  - eapply (keeps_bind p _ _ (keeps_svc_set_fds _ _ _ ok p seg)
              (fun _ => keeps_ret p tt)); eassumption.
  - eapply (keeps_bind p _ _ (keeps_svc_set_restart_interval p interval)
              (fun _ => keeps_ret p tt)); eassumption.
  - eapply (keeps_bind p _ _ (keeps_svc_set_triggers _ _ _ _ _ ok p seg)
              (fun _ => keeps_ret p tt)); eassumption.
  - eapply (keeps_svc_set_sigwake p on); eassumption.
Qed.

Lemma reachable_core_inv (g : core) :
  reachable NAME_BUF_SIZE FORK_RETRY_DELAY NAME_BUF_OFFSET SIZEOF_SERVICE
            sig_num_by_name NSIG fresh_byte g ->
  core_inv g.
Proof.
  induction 1 as [now evs ls|now evs ls base count dsize Hs Hd
                  |g now next evs ls _ IH|g o a g' _ IH Hok Hrun].
  - apply core_inv_svc_init.
  - apply core_inv_svc_preallocate; assumption.
  - apply core_inv_set_env, IH.
  - apply (run_op_inv o g a g' IH Hok Hrun).
Qed.


End Reachable.

Lemma sample_run_reachable :
  reachable 64 (Z.shiftl 10 32) 4 200 sample_sig_num_by_name 65 0 sample_run_2.
Proof.
  apply (reach_step _ _ _ _ _ _ _ sample_run_1 (op_start 16 0) tt).
  - apply (reach_step _ _ _ _ _ _ _ sample_run_0
             (op_create (sample_alloc 16) (STRSEG (lit "web"))) tt).
    + apply reach_init.
    + intros _. apply (bool_decide_unpack _). vm_compute. exact I.
    + vm_compute. reflexivity.
  - cbn [op_allowed]. apply (bool_decide_unpack _). vm_compute. exact I.
  - vm_compute. reflexivity.
Defined.


Lemma sample_pool_reachable :
  reachable 64 (Z.shiftl 10 32) 4 200 sample_sig_num_by_name 65 0
            sample_pool_core.
Proof.
  apply (reach_step _ _ _ _ _ _ _
           (svc_preallocate 200 1024 2 32 (svc_init (Z.shiftl 100 32) [] []))
           (op_create (sample_alloc 0) (STRSEG (lit "web"))) tt).
  - apply reach_pool; lia.
  - intros Hp. vm_compute in Hp. discriminate Hp.
  - vm_compute. reflexivity.
Defined.



(* ===================================================================== *)
(** * Further properties of the state machine *)
(* ===================================================================== *)

Lemma unlink_cons_same (p : N) (l : list N) : unlink p (p :: l) = unlink p l.
Proof. unfold unlink. cbn [List.filter]. rewrite N.eqb_refl. reflexivity. Qed.

Lemma unlink_idem (p : N) (l : list N) : unlink p (unlink p l) = unlink p l.
Proof. apply unlink_not_linked, not_elem_of_unlink. Qed.

(** The effect of [svc_cancel_start] on a record in START. *)
Lemma svc_cancel_start_ok (g : core) (svc : N) (s : service_t) :
  svc_mem g !! svc = Some s -> state s = SVC_STATE_START ->
  svc_cancel_start svc g
  = Ok true
      (put_notified (note_of (cancelled s) :: notified g)
         (put_active_list (unlink svc (svc_active_list g))
            (put_mem (<[svc := cancelled s]> (svc_mem g)) g))).
Proof.
  intros Hs Hst. unfold svc_cancel_start. unfold bind at 1, deref at 1.
  rewrite Hs, Hst. cbn [negb Z.eqb SVC_STATE_START Pos.eqb].
  unfold bind at 1, update at 1. rewrite Hs.
  unfold bind at 1, update at 1. core_simpl. rewrite lookup_insert_eq.
  unfold bind at 1. rewrite svc_set_active_false.
  unfold bind at 1.
  erewrite svc_notify_state_ok by (core_simpl; apply lookup_insert_eq).
  unfold ret. core_simpl. rewrite insert_insert_eq. reflexivity.
Qed.

(** X1: [svc_cancel_start] refuses a record that is not in START and
    changes nothing then; after [svc_handle_start] on a DOWN record it
    succeeds and takes the record back to DOWN with [start_time = 0]
    and off the active list, the rest of the record being as
    [svc_handle_start] left it; both calls have sent a notification. *)
Theorem svc_cancel_start_undoes_start (g : core) (svc : N) (s : service_t)
    (when : Z) :
  svc_mem g !! svc = Some s ->
  (state s <> SVC_STATE_START -> svc_cancel_start svc g = Ok false g) /\
  (state s = SVC_STATE_DOWN ->
   exists t g1 g2,
     svc_handle_start svc when g = Ok true g1 /\
     svc_cancel_start svc g1 = Ok true g2 /\
     svc_mem g2 = <[svc := cancelled (started t s)]> (svc_mem g) /\
     svc_active_list g2 = unlink svc (svc_active_list g) /\
     notified g2
     = note_of (cancelled (started t s)) :: note_of (started t s) :: notified g).
Proof.
  intros Hs. split.
  - intros Hst. unfold svc_cancel_start. unfold_monad. rewrite Hs.
    destruct (Z.eqb_spec (state s) SVC_STATE_START); [contradiction|reflexivity].
  - intros Hst.
    destruct (svc_handle_start_ok g svc s when Hs (or_introl Hst))
      as (g1 & Hrun & Hmem & Hact & _ & _ & _ & _ & _ & _ & _ & _ & _ & _ & _
          & _ & Hnote).
    eexists _, g1, _. split; [exact Hrun|].
    assert (Hs1 : svc_mem g1 !! svc = Some (started _ s))
      by (rewrite Hmem; apply lookup_insert_eq).
    split; [apply (svc_cancel_start_ok g1 svc _ Hs1 eq_refl)|].
    core_simpl. rewrite Hmem, Hact, Hnote, insert_insert_eq.
    repeat split.
    destruct (linked svc (svc_active_list g)); [reflexivity|].
    apply unlink_cons_same.
Qed.

Lemma svc_cancel_start_undoes_start_witness :
  (state sample_svc <> SVC_STATE_START ->
   svc_cancel_start 16 sample_core = Ok false sample_core) /\
  (state sample_svc = SVC_STATE_DOWN ->
   exists t g1 g2,
     svc_handle_start 16 (Z.shiftl 130 32) sample_core = Ok true g1 /\
     svc_cancel_start 16 g1 = Ok true g2 /\
     svc_mem g2 = <[16%N := cancelled (started t sample_svc)]> (svc_mem sample_core) /\
     svc_active_list g2 = unlink 16 (svc_active_list sample_core) /\
     notified g2
     = note_of (cancelled (started t sample_svc))
       :: note_of (started t sample_svc) :: notified sample_core).
Proof.
  apply (svc_cancel_start_undoes_start sample_core 16 sample_svc (Z.shiftl 130 32)).
  vm_compute. reflexivity.
Defined.

(** The effect of [svc_handle_reaped] on a record that is UP. *)
Lemma svc_handle_reaped_ok (g : core) (svc : N) (s : service_t) (wstat : Z) :
  svc_mem g !! svc = Some s -> state s = SVC_STATE_UP ->
  svc_handle_reaped svc wstat g
  = Ok tt
      (put_wake_next (wake_now g)
         (put_active_list
            (if linked svc (svc_active_list g) then svc_active_list g
             else svc :: svc_active_list g)
            (put_mem (<[svc := reaped (wake_now g) wstat s]> (svc_mem g)) g))).
Proof.
  intros Hs Hst. unfold svc_handle_reaped. unfold bind at 1, deref at 1.
  rewrite Hs, Hst. cbn [Z.eqb SVC_STATE_UP Pos.eqb].
  unfold bind at 1, gets at 1.
  unfold bind at 1, update at 1. rewrite Hs.
  unfold bind at 1, update at 1. core_simpl. rewrite lookup_insert_eq.
  unfold bind at 1, update at 1. core_simpl. rewrite lookup_insert_eq.
  unfold bind at 1. rewrite svc_set_active_ok. unfold modify. core_simpl.
  rewrite !insert_insert_eq.
  destruct (linked svc (svc_active_list g)); [|reflexivity].
  destruct g; reflexivity.
Qed.

Section Reaping.
Variable FORK_RETRY_DELAY : Z.
Variable NSIG : Z.

(** X2: [svc_handle_reaped] ignores a record that is not UP; on a record
    that is UP it stores the wait status and the time, keeps [pid], puts
    the record on the active list and asks for an immediate wake-up, and
    the next [svc_run], when no restart is wanted, sends one
    notification carrying that wait status and leaves the record DOWN
    and off the active list without any launch. *)
Theorem svc_handle_reaped_then_run (fuel : nat) (g : core) (svc : N)
    (s : service_t) (wstat : Z) :
  svc_mem g !! svc = Some s ->
  (state s <> SVC_STATE_UP -> svc_handle_reaped svc wstat g = Ok tt g) /\
  (state s = SVC_STATE_UP ->
   exists g1,
     svc_handle_reaped svc wstat g = Ok tt g1 /\
     svc_mem g1 = <[svc := reaped (wake_now g) wstat s]> (svc_mem g) /\
     pid (reaped (wake_now g) wstat s) = pid s /\
     svc ∈ svc_active_list g1 /\
     wake_next g1 = wake_now g /\
     svc_by_pid_index g1 = svc_by_pid_index g /\
     (restart_wanted NSIG g s = false ->
      exists g2,
        svc_run FORK_RETRY_DELAY NSIG (S (S fuel)) svc g1 = Ok tt g2 /\
        svc_mem g2
        = <[svc := set_state SVC_STATE_DOWN (reaped (wake_now g) wstat s)]>
            (svc_mem g) /\
        (svc ∉ svc_active_list g2) /\
        launches g2 = launches g /\
        notified g2 = note_of (reaped (wake_now g) wstat s) :: notified g)).
Proof.
  intros Hs. split.
  - intros Hst. unfold svc_handle_reaped. unfold_monad. rewrite Hs.
    destruct (Z.eqb_spec (state s) SVC_STATE_UP); [contradiction|reflexivity].
  - intros Hst. eexists. split; [apply (svc_handle_reaped_ok g svc s wstat Hs Hst)|].
    core_simpl. split; [reflexivity|]. split; [reflexivity|].
    split.
    { destruct (linked svc (svc_active_list g)) eqn:Hl.
      - apply linked_true, Hl.
      - left. }
    split; [reflexivity|]. split; [reflexivity|].
    intros Hw.
    match goal with
    | |- exists g2, svc_run _ _ _ _ ?g1 = _ /\ _ =>
        destruct (svc_run_reaped_down FORK_RETRY_DELAY NSIG fuel g1 svc
                    (reaped (wake_now g) wstat s))
          as (g2 & Hrun & Hmem & Hact & Hl & Hn)
    end.
    + core_simpl. apply lookup_insert_eq.
    + reflexivity.
    + exact Hw.
    + exists g2. split; [exact Hrun|]. core_simpl in Hmem.
      rewrite insert_insert_eq in Hmem. auto.
Qed.

End Reaping.

Lemma svc_handle_reaped_then_run_witness :
  svc_mem sample_run_3 !! 16%N = Some (the_svc sample_run_3 16) /\
  exists g1,
    svc_handle_reaped 16 9 sample_run_3 = Ok tt g1 /\
    exists g2,
      svc_run (Z.shiftl 10 32) 65 2 16 g1 = Ok tt g2 /\
      state (the_svc g2 16) = SVC_STATE_DOWN /\
      wait_status (the_svc g2 16) = 9 /\
      (16%N ∉ svc_active_list g2).
Proof.
  assert (Hs : svc_mem sample_run_3 !! 16%N = Some (the_svc sample_run_3 16))
    by (vm_compute; reflexivity).
  split; [exact Hs|].
  destruct (svc_handle_reaped_then_run (Z.shiftl 10 32) 65 0 sample_run_3 16
              (the_svc sample_run_3 16) 9 Hs) as [_ H].
  destruct (H ltac:(vm_compute; reflexivity))
    as (g1 & Hrun1 & _ & _ & _ & _ & _ & H2).
  exists g1. split; [exact Hrun1|].
  destruct (H2 ltac:(vm_compute; reflexivity)) as (g2 & Hrun2 & Hmem & Hact & _).
  exists g2. split; [exact Hrun2|].
  unfold the_svc at 1 2. rewrite Hmem, lookup_insert_eq. cbn [default].
  repeat split. exact Hact.
Defined.

(** ** Launches *)

Lemma svc_do_fork_fails (g : core) (svc : N) (s : service_t) (l : launch)
    (ls : list launch) :
  svc_mem g !! svc = Some s -> launches g = l :: ls -> launch_fails s l ->
  svc_do_fork svc g = Ok false (put_launches ls g).
Proof.
  intros Hs Hl Hfail. unfold svc_do_fork. unfold_monad. rewrite Hs, Hl.
  cbn [hd tl]. destruct Hfail as [[Huses Hctl]|Hfork].
  - rewrite Huses. cbn [andb].
    destruct Hctl as [->|[->| ->]]; cbn [negb];
      repeat match goal with |- context [negb ?b] => destruct b; cbn [negb] end;
      reflexivity.
  - destruct (Z.ltb_spec (fork_ret l) 0); [|lia].
    repeat match goal with
           | |- context [if ?b && ?c then _ else _] => destruct (b && c)
           end; reflexivity.
Qed.

Lemma svc_do_fork_succeeds (g : core) (svc : N) (s : service_t) (l : launch)
    (ls : list launch) :
  svc_mem g !! svc = Some s -> launches g = l :: ls -> launch_succeeds s l ->
  svc_do_fork svc g
  = (svc_change_pid svc (fork_ret l) ;;; ret true) (put_launches ls g).
Proof.
  intros Hs Hl [Hctl Hpid]. unfold svc_do_fork.
  unfold bind at 1, deref at 1. rewrite Hs.
  unfold bind at 1, gets at 1. rewrite Hl. cbn [hd tl].
  unfold bind at 1, modify at 1. cbv zeta.
  destruct (uses_control_socket s || uses_control_event s || uses_control_cmd s).
  - destruct (Hctl eq_refl) as (-> & -> & ->). cbn [andb negb].
    destruct (Z.ltb_spec (fork_ret l) 0); [lia|].
    destruct (Z.eqb_spec (fork_ret l) 0); [lia|]. reflexivity.
  - cbn [andb].
    destruct (Z.ltb_spec (fork_ret l) 0); [lia|].
    destruct (Z.eqb_spec (fork_ret l) 0); [lia|]. reflexivity.
Qed.

Section Launching.
Variable FORK_RETRY_DELAY : Z.
Variable NSIG : Z.

(** X3: when the launch of a due START record fails in the parent (no
    control object, or [fork] fails), the same call of [svc_run]
    schedules a new attempt [FORK_RETRY_DELAY] later: it returns with
    the record in START at [now + FORK_RETRY_DELAY], [pid = 0], on the
    active list, one answer of the launcher consumed, and the wake
    deadline at [now]. *)
Theorem svc_run_fork_failure_retries (fuel : nat) (g : core) (svc : N)
    (s : service_t) (l : launch) (ls : list launch) :
  svc_mem g !! svc = Some s ->
  state s = SVC_STATE_START ->
  start_time s <= wake_now g ->
  in_int64 (start_time s - wake_now g) ->
  launches g = l :: ls ->
  launch_fails s l ->
  0 < FORK_RETRY_DELAY ->
  0 <= wake_now g ->
  in_int64 (wake_now g + FORK_RETRY_DELAY) ->
  exists g',
    svc_run FORK_RETRY_DELAY NSIG (S (S fuel)) svc g = Ok tt g' /\
    svc_mem g' = <[svc := started (wake_now g + FORK_RETRY_DELAY) s]> (svc_mem g) /\
    svc ∈ svc_active_list g' /\
    launches g' = ls /\
    wake_next g' = wake_now g.
Proof.
  intros Hs Hst Hdue Hr Hl Hfail Hd Hnow Hnd.
  assert (Hin : in_int64 FORK_RETRY_DELAY).
  { unfold in_int64 in *. change (2 ^ 63) with 9223372036854775808 in *. lia. }
  set (g0 := put_launches ls g).
  assert (Hs0 : svc_mem g0 !! svc = Some s) by exact Hs.
  destruct (svc_handle_start_ok g0 svc s (wrap64 (wake_now g + FORK_RETRY_DELAY))
              Hs0 (or_intror Hst))
    as (g1 & Hrun1 & Hmem1 & Hact1 & _ & Hnext1 & Hnow1 & _ & _ & _ & _ & _ & _
        & _ & _ & Hl1 & _).
  change (wake_now g0) with (wake_now g) in *.
  rewrite (wrap64_id _ Hnd) in Hrun1, Hmem1.
  replace (wake_now g + FORK_RETRY_DELAY - wake_now g) with FORK_RETRY_DELAY
    in Hmem1 by lia.
  rewrite (wrap64_id _ Hin) in Hmem1.
  destruct (Z.gtb_spec FORK_RETRY_DELAY 0) as [_|]; [|lia].
  assert (Hb : biased (wake_now g + FORK_RETRY_DELAY) = wake_now g + FORK_RETRY_DELAY).
  { unfold biased. destruct (Z.eqb_spec (wake_now g + FORK_RETRY_DELAY) 0); lia. }
  rewrite Hb in Hmem1.
  set (s1 := started (wake_now g + FORK_RETRY_DELAY) s) in *.
  assert (Hs1 : svc_mem g1 !! svc = Some s1)
    by (rewrite Hmem1; apply lookup_insert_eq).
  assert (Hact : svc ∈ svc_active_list g1).
  { rewrite Hact1. destruct (linked svc (svc_active_list g0)) eqn:E.
    - apply linked_true, E.
    - left. }
  assert (Hst1 : start_time s1 = wake_now g + FORK_RETRY_DELAY) by reflexivity.
  pose proof (svc_run_start_future FORK_RETRY_DELAY NSIG fuel g1 svc s1 Hs1
                eq_refl) as Hrun2.
  rewrite Hst1, Hnow1, Hnext1 in Hrun2.
  change (wake_now g0) with (wake_now g) in Hrun2.
  replace (wake_now g + FORK_RETRY_DELAY - wake_now g) with FORK_RETRY_DELAY
    in Hrun2 by lia.
  specialize (Hrun2 ltac:(lia) Hact Hin Hin).
  rewrite Z.min_l in Hrun2 by lia.
  exists (put_wake_next (wake_now g) g1). split.
  - rewrite svc_run_S. unfold bind at 1, deref at 1. rewrite Hs.
    unfold bind at 1, gets at 1. rewrite Hst.
    cbn [Z.eqb SVC_STATE_START Pos.eqb].
    rewrite (wrap64_id _ Hr).
    destruct (Z.gtb_spec (start_time s - wake_now g) 0); [lia|].
    unfold bind at 1. rewrite (svc_do_fork_fails g svc s l ls Hs Hl Hfail).
    cbn [negb]. unfold bind at 1. fold g0. rewrite (wrap64_id _ Hnd), Hrun1.
    exact Hrun2.
  - core_simpl. rewrite Hmem1, Hl1. repeat split. exact Hact.
Qed.

(** X4: when the launch of a due START record succeeds, [svc_run]
    returns with the record UP, its [pid] the child's, its start time
    the current time (1 for 0), off the active list, entered in the PID
    index, and with one notification sent. *)
Theorem svc_run_launch_enters_pid_index (fuel : nat) (g : core) (svc : N)
    (s : service_t) (l : launch) (ls : list launch) :
  svc_mem g !! svc = Some s ->
  state s = SVC_STATE_START ->
  pid s = 0 ->
  start_time s <= wake_now g ->
  in_int64 (start_time s - wake_now g) ->
  launches g = l :: ls ->
  launch_succeeds s l ->
  exists g',
    svc_run FORK_RETRY_DELAY NSIG (S fuel) svc g = Ok tt g' /\
    svc_mem g' = <[svc := launched (wake_now g) (fork_ret l) s]> (svc_mem g) /\
    elements (svc_by_pid_index g') ≡ₚ svc :: elements (svc_by_pid_index g) /\
    (svc ∉ svc_active_list g') /\
    notified g'
    = note_of (launched (wake_now g) (fork_ret l) s) :: notified g.
Proof.
  intros Hs Hst Hpid0 Hdue Hr Hl Hok.
  pose proof Hok as [_ Hpos].
  rewrite svc_run_S. unfold bind at 1, deref at 1. rewrite Hs.
  unfold bind at 1, gets at 1. rewrite Hst.
  cbn [Z.eqb SVC_STATE_START Pos.eqb]. rewrite (wrap64_id _ Hr).
  destruct (Z.gtb_spec (start_time s - wake_now g) 0); [lia|].
  unfold bind at 1. rewrite (svc_do_fork_succeeds g svc s l ls Hs Hl Hok).
  set (g0 := put_launches ls g).
  assert (Hs0 : svc_mem g0 !! svc = Some s) by exact Hs.
  unfold bind at 1. rewrite (svc_change_pid_ok g0 svc s (fork_ret l) Hs0).
  cbv zeta. rewrite Hpid0. cbn [Z.eqb].
  destruct (Z.eqb_spec (fork_ret l) 0); [lia|].
  unfold ret at 1. cbn [negb].
  unfold bind at 1, update at 1. core_simpl. rewrite lookup_insert_eq.
  unfold bind at 1, update at 1. core_simpl. rewrite lookup_insert_eq.
  unfold bind at 1.
  erewrite svc_notify_state_ok by (core_simpl; apply lookup_insert_eq).
  rewrite svc_set_active_false. eexists. split; [reflexivity|].
  core_simpl. rewrite !insert_insert_eq.
  assert (Hb : (if negb (wake_now g =? 0) then wake_now g else 1)
               = biased (wake_now g)).
  { unfold biased. destruct (wake_now g =? 0); reflexivity. }
  rewrite Hb. split; [reflexivity|]. split; [apply elements_RBTree_Add|].
  split; [apply not_elem_of_unlink | reflexivity].
Qed.

End Launching.

Lemma svc_run_fork_failure_retries_witness :
  exists g',
    svc_run (Z.shiftl 10 32) 65 2 16 sample_fork_fails = Ok tt g' /\
    svc_mem g'
    = <[16%N := started (wake_now sample_fork_fails + Z.shiftl 10 32)
                  (the_svc sample_fork_fails 16)]> (svc_mem sample_fork_fails) /\
    16%N ∈ svc_active_list g' /\
    launches g' = [] /\
    wake_next g' = wake_now sample_fork_fails.
Proof.
  apply (svc_run_fork_failure_retries (Z.shiftl 10 32) 65 0 sample_fork_fails 16
           (the_svc sample_fork_fails 16) (sample_launch (-1)) []).
  - vm_compute. reflexivity.
  - vm_compute. reflexivity.
  - vm_compute. discriminate.
  - vm_compute. split; [discriminate | reflexivity].
  - vm_compute. reflexivity.
  - right. vm_compute. reflexivity.
  - vm_compute. reflexivity.
  - vm_compute. discriminate.
  - vm_compute. split; [discriminate | reflexivity].
Defined.

Lemma svc_run_launch_enters_pid_index_witness :
  exists g',
    svc_run (Z.shiftl 10 32) 65 1 16 sample_run_2 = Ok tt g' /\
    svc_mem g'
    = <[16%N := launched (wake_now sample_run_2) 4242 (the_svc sample_run_2 16)]>
        (svc_mem sample_run_2) /\
    elements (svc_by_pid_index g') ≡ₚ 16%N :: elements (svc_by_pid_index sample_run_2) /\
    (16%N ∉ svc_active_list g') /\
    notified g'
    = note_of (launched (wake_now sample_run_2) 4242 (the_svc sample_run_2 16))
      :: notified sample_run_2.
Proof.
  apply (svc_run_launch_enters_pid_index (Z.shiftl 10 32) 65 0 sample_run_2 16
           (the_svc sample_run_2 16) (sample_launch 4242) []).
  - vm_compute. reflexivity.
  - vm_compute. reflexivity.
  - vm_compute. reflexivity.
  - vm_compute. discriminate.
  - vm_compute. split; [discriminate | reflexivity].
  - vm_compute. reflexivity.
  - split; [intros _; repeat split | reflexivity].
Defined.

(** ** Where a run of the state machine ends *)

Lemma svc_do_fork_cases (g : core) (svc : N) (s : service_t) :
  svc_mem g !! svc = Some s ->
  let g0 := put_launches (tl (launches g)) g in
  let p := fork_ret (hd no_launch (launches g)) in
  svc_do_fork svc g = Ok false g0 \/
  svc_do_fork svc g = Abort InChild \/
  (0 < p /\ svc_do_fork svc g = (svc_change_pid svc p ;;; ret true) g0).
Proof.
  intros Hs g0 p.
  assert (E : svc_do_fork svc g
              = (let uses := uses_control_socket s || uses_control_event s
                             || uses_control_cmd s in
                 let l := hd no_launch (launches g) in
                 if uses && negb (ctl_alloc_ok l) then ret false
                 else if uses && negb (socketpair_ok l) then ret false
                 else if uses && negb (ctl_ctor_ok l) then ret false
                 else if p <? 0 then ret false
                 else if p =? 0 then throw InChild
                 else svc_change_pid svc p ;;; ret true) g0).
  { unfold svc_do_fork. unfold bind at 1, deref at 1. rewrite Hs. reflexivity. }
  rewrite E. cbv zeta.
  repeat match goal with
         | |- context [if ?b && ?c then _ else _] =>
             destruct (b && c); [left; reflexivity|]
         end.
  destruct (Z.ltb_spec p 0); [left; reflexivity|].
  destruct (Z.eqb_spec p 0); [right; left; reflexivity|].
  right. right. split; [lia | reflexivity].
Qed.

Section Settling.
Variable FORK_RETRY_DELAY : Z.
Variable NSIG : Z.

Lemma svc_run_idle (fuel : nat) (g : core) (svc : N) (s : service_t) :
  svc_mem g !! svc = Some s ->
  state s = SVC_STATE_DOWN \/ state s = SVC_STATE_UP ->
  svc_run FORK_RETRY_DELAY NSIG (S fuel) svc g
  = Ok tt (put_active_list (unlink svc (svc_active_list g)) g).
Proof.
  intros Hs Hst. rewrite svc_run_S. unfold bind at 1, deref at 1. rewrite Hs.
  unfold bind at 1, gets at 1.
  destruct Hst as [-> | ->]; cbn [Z.eqb SVC_STATE_DOWN SVC_STATE_UP
                                   SVC_STATE_START SVC_STATE_REAPED Pos.eqb];
    apply svc_set_active_false.
Qed.

Lemma settled_idle (g : core) (svc : N) (s : service_t) :
  svc_mem g !! svc = Some s ->
  state s = SVC_STATE_DOWN \/ state s = SVC_STATE_UP ->
  settled (put_active_list (unlink svc (svc_active_list g)) g) svc.
Proof.
  intros Hs Hst. exists s. split; [exact Hs|]. right. split; [exact Hst|].
  apply not_elem_of_unlink.
Qed.

Lemma svc_run_waiting (fuel : nat) (g : core) (svc : N) (s : service_t) :
  svc_mem g !! svc = Some s ->
  state s = SVC_STATE_START ->
  wrap64 (start_time s - wake_now g) > 0 ->
  exists g',
    svc_run FORK_RETRY_DELAY NSIG (S fuel) svc g = Ok tt g' /\ settled g' svc.
Proof.
  intros Hs Hst Hw. rewrite svc_run_S. unfold bind at 1, deref at 1. rewrite Hs.
  unfold bind at 1, gets at 1. rewrite Hst.
  cbn [Z.eqb SVC_STATE_START Pos.eqb].
  destruct (Z.gtb_spec (wrap64 (start_time s - wake_now g)) 0); [|lia].
  unfold bind at 1, gets at 1. unfold bind at 1.
  set (g1 := if wrap64 (start_time s - wake_next g) <? 0
             then put_wake_next (start_time s) g else g).
  assert (E : when_ (wrap64 (start_time s - wake_next g) <? 0)
                    (modify (put_wake_next (start_time s))) g = Ok tt g1).
  { subst g1. unfold when_, modify, ret.
    destruct (wrap64 (start_time s - wake_next g) <? 0); reflexivity. }
  rewrite E, svc_set_active_ok. eexists. split; [reflexivity|].
  exists s. assert (Hs1 : svc_mem g1 !! svc = Some s).
  { subst g1. destruct (_ <? 0); exact Hs. }
  assert (Hn1 : wake_now g1 = wake_now g).
  { subst g1. destruct (_ <? 0); reflexivity. }
  destruct (linked svc (svc_active_list g1)) eqn:El; core_simpl.
  - split; [exact Hs1|]. left. rewrite Hn1. repeat split; try assumption.
    apply linked_true, El.
  - split; [exact Hs1|]. left. rewrite Hn1. repeat split; try assumption. left.
Qed.

Hypothesis delay_pos : 0 < FORK_RETRY_DELAY.

(** A due START record: one pass, or two when the launch fails. *)
Lemma svc_run_due (fuel : nat) (g : core) (svc : N) (s : service_t) :
  svc_mem g !! svc = Some s ->
  state s = SVC_STATE_START ->
  0 <= wake_now g -> in_int64 (wake_now g + FORK_RETRY_DELAY) ->
  svc_run FORK_RETRY_DELAY NSIG (S (S fuel)) svc g = Abort InChild \/
  exists g',
    svc_run FORK_RETRY_DELAY NSIG (S (S fuel)) svc g = Ok tt g' /\ settled g' svc.
Proof.
  intros Hs Hst Hnow Hnd.
  destruct (Z.gtb_spec (wrap64 (start_time s - wake_now g)) 0) as [Hw|Hw].
  { right. apply (svc_run_waiting (S fuel) g svc s Hs Hst). lia. }
  assert (Hin : in_int64 FORK_RETRY_DELAY).
  { unfold in_int64 in *. change (2 ^ 63) with 9223372036854775808 in *. lia. }
  remember (svc_run FORK_RETRY_DELAY NSIG (S (S fuel)) svc g) as r eqn:Er.
  rewrite svc_run_S in Er. unfold bind at 1, deref at 1 in Er. rewrite Hs in Er.
  unfold bind at 1, gets at 1 in Er. rewrite Hst in Er.
  cbn [Z.eqb SVC_STATE_START Pos.eqb] in Er.
  destruct (Z.gtb_spec (wrap64 (start_time s - wake_now g)) 0); [lia|].
  unfold bind at 1 in Er.
  set (g0 := put_launches (tl (launches g)) g) in *.
  assert (Hs0 : svc_mem g0 !! svc = Some s) by exact Hs.
  destruct (svc_do_fork_cases g svc s Hs) as [E|[E|[Hpos E]]]; rewrite E in Er.
  - right. cbn [negb] in Er. unfold bind at 1 in Er. fold g0 in Er.
    destruct (svc_handle_start_ok g0 svc s (wrap64 (wake_now g + FORK_RETRY_DELAY))
                Hs0 (or_intror Hst))
      as (g1 & Hrun1 & Hmem1 & _ & _ & _ & Hnow1 & _).
    change (wake_now g0) with (wake_now g) in *.
    rewrite Hrun1 in Er. rewrite (wrap64_id _ Hnd) in Hmem1.
    replace (wake_now g + FORK_RETRY_DELAY - wake_now g) with FORK_RETRY_DELAY
      in Hmem1 by lia.
    rewrite (wrap64_id _ Hin) in Hmem1.
    destruct (Z.gtb_spec FORK_RETRY_DELAY 0) as [_|]; [|lia].
    assert (Hb : biased (wake_now g + FORK_RETRY_DELAY)
                 = wake_now g + FORK_RETRY_DELAY).
    { unfold biased. destruct (Z.eqb_spec (wake_now g + FORK_RETRY_DELAY) 0); lia. }
    rewrite Hb in Hmem1. rewrite Er.
    apply (svc_run_waiting fuel g1 svc
             (started (wake_now g + FORK_RETRY_DELAY) s)).
    + rewrite Hmem1. apply lookup_insert_eq.
    + reflexivity.
    + rewrite Hnow1. cbn [start_time started set_wait_status set_reap_time
                            set_pid set_start_time].
      replace (wake_now g + FORK_RETRY_DELAY - wake_now g) with FORK_RETRY_DELAY
        by lia.
      rewrite (wrap64_id _ Hin). lia.
  - left. exact Er.
  - right. fold g0 in Er. unfold bind at 1 in Er.
    rewrite (svc_change_pid_ok g0 svc s _ Hs0) in Er. cbv zeta in Er.
    unfold ret at 1 in Er. cbn [negb] in Er.
    match type of Er with
    | _ = _ ?gx =>
        set (g1 := gx) in Er;
        assert (Hs1 : exists s1, svc_mem g1 !! svc = Some s1)
    end.
    { subst g1. destruct (Z.eqb_spec (fork_ret (hd no_launch (launches g))) 0);
        [lia|].
      destruct (pid s =? 0); core_simpl; rewrite lookup_insert_eq; eauto. }
    destruct Hs1 as [s1 Hs1].
    unfold bind at 1, update at 1 in Er. rewrite Hs1 in Er.
    unfold bind at 1, update at 1 in Er. core_simpl in Er.
    rewrite lookup_insert_eq in Er.
    unfold bind at 1 in Er.
    erewrite svc_notify_state_ok in Er by (core_simpl; apply lookup_insert_eq).
    rewrite svc_set_active_false in Er. rewrite Er.
    eexists. split; [reflexivity|].
    eexists. core_simpl. split; [apply lookup_insert_eq|].
    right. split; [right; reflexivity | apply not_elem_of_unlink].
Qed.

Lemma svc_run_settles_spec (fuel : nat) (g : core) (svc : N) (s : service_t) :
  svc_mem g !! svc = Some s ->
  state s = SVC_STATE_DOWN \/ state s = SVC_STATE_START \/
  state s = SVC_STATE_UP \/ state s = SVC_STATE_REAPED ->
  0 <= wake_now g -> in_int64 (wake_now g + FORK_RETRY_DELAY) ->
  svc_run FORK_RETRY_DELAY NSIG (S (S (S fuel))) svc g = Abort InChild \/
  exists g',
    svc_run FORK_RETRY_DELAY NSIG (S (S (S fuel))) svc g = Ok tt g' /\
    settled g' svc.
Proof.
  intros Hs Hst Hnow Hnd.
  destruct Hst as [Hst|[Hst|[Hst|Hst]]].
  - right. rewrite (svc_run_idle _ g svc s Hs (or_introl Hst)).
    eexists. split; [reflexivity|]. apply (settled_idle g svc s Hs). auto.
  - apply (svc_run_due (S fuel) g svc s Hs Hst Hnow Hnd).
  - right. rewrite (svc_run_idle _ g svc s Hs (or_intror Hst)).
    eexists. split; [reflexivity|]. apply (settled_idle g svc s Hs). auto.
  - remember (svc_run FORK_RETRY_DELAY NSIG (S (S (S fuel))) svc g) as r eqn:Er.
    rewrite svc_run_S in Er. unfold bind at 1, deref at 1 in Er. rewrite Hs in Er.
    unfold bind at 1, gets at 1 in Er. rewrite Hst in Er.
    cbn [Z.eqb SVC_STATE_START SVC_STATE_UP SVC_STATE_REAPED Pos.eqb] in Er.
    unfold bind at 1 in Er. rewrite (svc_notify_state_ok g svc s Hs) in Er.
    unfold bind at 1, update at 1 in Er. core_simpl in Er. rewrite Hs in Er.
    set (s0 := set_state SVC_STATE_DOWN s) in *.
    match type of Er with
    | _ = _ ?gx => set (g0 := gx) in Er
    end.
    assert (Hs0 : svc_mem g0 !! svc = Some s0) by apply lookup_insert_eq.
    unfold bind at 1 in Er.
    assert (Hpend : exists b,
              (if auto_restart s then ret true else svc_check_sigwake NSIG svc) g0
              = Ok b g0).
    { destruct (auto_restart s); [exists true; reflexivity|].
      unfold svc_check_sigwake. unfold_monad. rewrite Hs0.
      destruct (negb (sigwake s0)); eauto. }
    destruct Hpend as [b Hb]. rewrite Hb in Er. unfold bind at 1 in Er.
    destruct b.
    + unfold bind at 1 in Er.
      destruct (svc_handle_start_ok g0 svc s0
                  (if wrap64 (reap_time s - start_time s) <? restart_interval s
                   then wrap64 (wake_now g + restart_interval s) else wake_now g)
                  Hs0 (or_introl eq_refl))
        as (g1 & Hrun1 & Hmem1 & _ & _ & _ & Hnow1 & _).
      rewrite Hrun1 in Er.
      assert (Hs1 : exists s1, svc_mem g1 !! svc = Some s1
                               /\ state s1 = SVC_STATE_START).
      { eexists. rewrite Hmem1. split; [apply lookup_insert_eq | reflexivity]. }
      destruct Hs1 as (s1 & Hs1 & Hst1).
      rewrite (svc_notify_state_ok g1 svc s1 Hs1) in Er. rewrite Er.
      apply (svc_run_due fuel _ svc s1).
      * exact Hs1.
      * exact Hst1.
      * core_simpl. rewrite Hnow1. exact Hnow.
      * core_simpl. rewrite Hnow1. exact Hnd.
    + right. unfold ret at 1 in Er.
      rewrite (svc_run_idle _ g0 svc s0 Hs0 (or_introl eq_refl)) in Er.
      rewrite Er.
      eexists. split; [reflexivity|]. apply (settled_idle g0 svc s0 Hs0). auto.
Qed.

(** X5: [svc_run] needs at most three passes through its switch, and
    ends in the child of a [fork], or returns with the record settled:
    in START, waiting for a time still to come, and on the active list;
    or DOWN or UP and off the active list.  It never returns with the
    record in REAPED. *)
Theorem svc_run_settles (fuel : nat) (g : core) (svc : N) (s : service_t) :
  svc_mem g !! svc = Some s ->
  state s = SVC_STATE_DOWN \/ state s = SVC_STATE_START \/
  state s = SVC_STATE_UP \/ state s = SVC_STATE_REAPED ->
  0 <= wake_now g -> in_int64 (wake_now g + FORK_RETRY_DELAY) ->
  svc_run FORK_RETRY_DELAY NSIG (S (S (S fuel))) svc g = Abort InChild \/
  exists g',
    svc_run FORK_RETRY_DELAY NSIG (S (S (S fuel))) svc g = Ok tt g' /\
    settled g' svc.
Proof. apply svc_run_settles_spec. Qed.

End Settling.

Lemma svc_run_settles_witness :
  svc_run (Z.shiftl 10 32) 65 3 16 sample_reaped = Abort InChild \/
  exists g',
    svc_run (Z.shiftl 10 32) 65 3 16 sample_reaped = Ok tt g' /\
    settled g' 16.
Proof.
  apply (svc_run_settles (Z.shiftl 10 32) 65 ltac:(vm_compute; reflexivity) 0
           sample_reaped 16 sample_reaped_svc).
  - vm_compute. reflexivity.
  - right. right. right. reflexivity.
  - vm_compute. discriminate.
  - vm_compute. split; [discriminate | reflexivity].
Defined.

(* ===================================================================== *)
(** * What an operation on one record leaves alone *)
(* ===================================================================== *)

Lemma only_touches_refl (p : N) (g : core) : only_touches p g g.
Proof. unfold only_touches. repeat split; auto. Qed.

Lemma only_touches_trans (p : N) (g1 g2 g3 : core) :
  only_touches p g1 g2 -> only_touches p g2 g3 -> only_touches p g1 g3.
Proof.
  intros (A1 & A2 & A3 & A4 & A5 & A6 & A7 & A8 & A9 & A10 & A11 & A12)
         (B1 & B2 & B3 & B4 & B5 & B6 & B7 & B8 & B9 & B10 & B11 & B12).
  unfold only_touches. repeat split; try congruence.
  - intros q Hq. rewrite B1, A1 by exact Hq. reflexivity.
  - intros H. apply A2, B2, H.
  - intros H. apply B2, A2, H.
Qed.

Lemma pres_ret (p : N) {A} (a : A) : pres (only_touches p) (ret a).
Proof. intros g a' g' [= _ <-]. apply only_touches_refl. Qed.

Lemma pres_gets (p : N) {A} (f : core -> A) : pres (only_touches p) (gets f).
Proof. intros g a' g' [= _ <-]. apply only_touches_refl. Qed.

Lemma pres_throw (p : N) {A} (e : abort) :
  pres (only_touches p) (throw (A := A) e).
Proof. intros g a' g' H. discriminate H. Qed.

Lemma pres_deref (p q : N) : pres (only_touches p) (deref q).
Proof.
  intros g a' g' H. unfold deref in H.
  destruct (svc_mem g !! q); [|discriminate]. injection H as _ <-.
  apply only_touches_refl.
Qed.

Lemma pres_bind (p : N) {A B} (m : M A) (k : A -> M B) :
  pres (only_touches p) m -> (forall a, pres (only_touches p) (k a)) ->
  pres (only_touches p) (bind m k).
Proof.
  intros Hm Hk g b g' H. unfold bind in H.
  destruct (m g) as [a g1|] eqn:E; [|discriminate].
  apply (only_touches_trans p g g1 g'); [apply (Hm g a g1 E) | apply (Hk a g1 b g' H)].
Qed.

Lemma pres_when (p : N) (b : bool) (m : M unit) :
  pres (only_touches p) m -> pres (only_touches p) (when_ b m).
Proof. intros Hm. destruct b; [exact Hm | apply pres_ret]. Qed.

Lemma pres_modify (p : N) (f : core -> core) :
  (forall g, only_touches p g (f g)) -> pres (only_touches p) (modify f).
Proof. intros Hf g a g' H. unfold modify in H. injection H as _ <-. apply Hf. Qed.

Ltac touches_tac :=
  intros ?; unfold only_touches; core_simpl;
  rewrite ?unlink_cons_same, ?unlink_idem; repeat split; auto.

Lemma pres_update (p : N) (f : service_t -> service_t) :
  (forall s, name_buf (f s) = name_buf s) -> pres (only_touches p) (update p f).
Proof.
  intros Hf g a g' H. unfold update in H.
  destruct (svc_mem g !! p) as [s|] eqn:Hs; [|discriminate]. injection H as _ <-.
  unfold only_touches, the_svc. core_simpl. rewrite lookup_insert_eq, Hs.
  cbn [default]. repeat split; auto; try (intros _; eauto).
  - intros q Hq. apply lookup_insert_ne. congruence.
  - apply Hf.
Qed.

Lemma pres_svc_set_active (p : N) (b : bool) :
  pres (only_touches p) (svc_set_active p b).
Proof.
  intros g a g' H. rewrite svc_set_active_ok in H. injection H as _ <-.
  destruct b, (linked p (svc_active_list g)); unfold only_touches; core_simpl;
    rewrite ?unlink_cons_same, ?unlink_idem; repeat split; auto.
Qed.

Lemma pres_svc_set_sigwake (p : N) (b : bool) :
  pres (only_touches p) (svc_set_sigwake p b).
Proof.
  unfold svc_set_sigwake. apply pres_bind; [apply pres_update; reflexivity|].
  intros _ g a g' H. unfold bind, gets, modify, ret in H.
  destruct (b && negb (linked p (svc_sigwake_list g)));
    [|destruct (negb b && linked p (svc_sigwake_list g))];
    injection H as _ <-; unfold only_touches; core_simpl;
    rewrite ?unlink_cons_same, ?unlink_idem; repeat split; auto.
Qed.

Ltac pres_step :=
  first
    [ apply pres_ret
    | apply pres_gets
    | apply pres_throw
    | apply pres_deref
    | apply pres_svc_set_active
    | apply pres_svc_set_sigwake
    | apply pres_update; reflexivity
    | apply pres_modify; touches_tac
    | apply pres_when
    | apply pres_bind; [|intros ?] ].

Ltac pres_match :=
  repeat match goal with
         | |- pres _ (if ?c then _ else _) => destruct c
         | |- pres _ (match ?x with _ => _ end) => destruct x
         | |- pres _ (let '(_, _) := ?x in _) => destruct x
         | |- pres _ (bind _ _) => apply pres_bind; [|intros ?]
         | |- _ => pres_step
         end.

Lemma pres_svc_notify_state (p : N) : pres (only_touches p) (svc_notify_state p).
Proof. unfold svc_notify_state. pres_match. Qed.

Lemma pres_svc_check_sigwake (NSIG : Z) (p : N) :
  pres (only_touches p) (svc_check_sigwake NSIG p).
Proof. unfold svc_check_sigwake. pres_match. Qed.

Lemma pres_svc_change_pid (p : N) (new_pid : Z) :
  pres (only_touches p) (svc_change_pid p new_pid).
Proof. unfold svc_change_pid. pres_match. Qed.

Lemma pres_svc_handle_start (p : N) (when : Z) :
  pres (only_touches p) (svc_handle_start p when).
Proof.
  unfold svc_handle_start. apply pres_bind; [apply pres_deref|]. intros s.
  destruct (negb (state s =? SVC_STATE_DOWN) && negb (state s =? SVC_STATE_START));
    [apply pres_ret|].
  repeat first [ apply pres_svc_change_pid | apply pres_svc_notify_state
               | pres_step ].
Qed.

Lemma pres_svc_cancel_start (p : N) : pres (only_touches p) (svc_cancel_start p).
Proof.
  unfold svc_cancel_start. apply pres_bind; [apply pres_deref|]. intros s.
  destruct (negb (state s =? SVC_STATE_START)); [apply pres_ret|].
  repeat first [ apply pres_svc_notify_state | pres_step ].
Qed.

Lemma pres_svc_handle_reaped (p : N) (wstat : Z) :
  pres (only_touches p) (svc_handle_reaped p wstat).
Proof.
  unfold svc_handle_reaped. apply pres_bind; [apply pres_deref|]. intros s.
  destruct (state s =? SVC_STATE_UP); repeat pres_step.
Qed.

Lemma pres_svc_do_fork (p : N) : pres (only_touches p) (svc_do_fork p).
Proof.
  unfold svc_do_fork. apply pres_bind; [apply pres_deref|]. intros s.
  apply pres_bind; [apply pres_gets|]. intros ls.
  apply pres_bind; [apply pres_modify; touches_tac|]. intros _. cbv zeta.
  repeat match goal with
         | |- pres _ (if ?c then _ else _) => destruct c
         end;
    repeat first [ apply pres_svc_change_pid | pres_step ].
Qed.

Lemma pres_svc_run (FORK_RETRY_DELAY NSIG : Z) (fuel : nat) (p : N) :
  pres (only_touches p) (svc_run FORK_RETRY_DELAY NSIG fuel p).
Proof.
  induction fuel as [|fuel IH]; cbn [svc_run]; [apply pres_throw|].
  apply pres_bind; [apply pres_deref|]. intros s.
  apply pres_bind; [apply pres_gets|]. intros now.
  repeat match goal with
         | |- pres _ (if ?c then _ else _) => destruct c
         | |- pres _ (bind _ _) => apply pres_bind; [|intros ?]
         | |- pres _ (svc_run _ _ _ _) => exact IH
         | |- pres _ (svc_handle_start _ _) => apply pres_svc_handle_start
         | |- pres _ (svc_do_fork _) => apply pres_svc_do_fork
         | |- pres _ (svc_notify_state _) => apply pres_svc_notify_state
         | |- pres _ (svc_check_sigwake _ _) => apply pres_svc_check_sigwake
         | |- _ => pres_step
         end.
Qed.

Section SettersFrame.
Variable NAME_BUF_SIZE : Z.
Variable NAME_BUF_OFFSET : Z.
Variable sig_num_by_name : list char -> Z.
Variable NSIG : Z.
Variable fresh_byte : char.

Lemma pres_svc_set_var (ok : bool) (p : N) (name : strseg_t)
    (value : option strseg_t) :
  pres (only_touches p) (svc_set_var NAME_BUF_SIZE NAME_BUF_OFFSET fresh_byte ok p name value).
Proof.
  unfold svc_set_var. apply pres_bind; [apply pres_deref|]. intros s.
  apply pres_bind; [apply pres_gets|]. intros pool.
  apply pres_bind; [apply pres_gets|]. intros size_each. cbv zeta.
  destruct (find_var _ _ _ _) as [[found oldval] tail].
  pres_match.
Qed.

Lemma pres_svc_set_fds (ok : bool) (p : N) (seg : strseg_t) :
  pres (only_touches p) (svc_set_fds NAME_BUF_SIZE NAME_BUF_OFFSET fresh_byte ok p seg).
Proof.
  unfold svc_set_fds. cbv zeta. apply pres_bind.
  - destruct (strseg_cmp _ _ =? 0); [|apply pres_svc_set_var].
    apply pres_bind; [apply pres_svc_set_var|]. intros _. apply pres_ret.
  - intros r. destruct (negb r); [apply pres_ret|].
    destruct (scan_fds _ _ _ _ _) as [[e c] k]. repeat pres_step.
Qed.

Lemma pres_svc_set_restart_interval (p : N) (interval : Z) :
  pres (only_touches p) (svc_set_restart_interval p interval).
Proof.
  unfold svc_set_restart_interval. destruct (Z.shiftr interval 32 <? 1);
    repeat pres_step.
Qed.

Lemma pres_svc_set_triggers (ok : bool) (p : N) (seg : strseg_t) :
  pres (only_touches p)
       (svc_set_triggers NAME_BUF_SIZE NAME_BUF_OFFSET sig_num_by_name NSIG fresh_byte ok p seg).
Proof.
  unfold svc_set_triggers.
  destruct (parse_triggers _ _ _ _ _ _ _) as [[[autostart enable_sigs] sigs]|];
    [|apply pres_ret].
  apply pres_bind; [apply pres_svc_set_var|]. intros r.
  destruct (negb r); [apply pres_ret|].
  repeat match goal with
         | |- pres _ (if ?c then _ else _) => destruct c
         | |- pres _ (bind _ _) => apply pres_bind; [|intros ?]
         | |- pres _ (svc_handle_start _ _) => apply pres_svc_handle_start
         | |- pres _ (svc_check_sigwake _ _) => apply pres_svc_check_sigwake
         | |- _ => pres_step
         end.
Qed.

End SettersFrame.

Section Frame.
Variable NAME_BUF_SIZE : Z.
Variable FORK_RETRY_DELAY : Z.
Variable NAME_BUF_OFFSET : Z.
Variable sig_num_by_name : list char -> Z.
Variable NSIG : Z.
Variable fresh_byte : char.

Lemma run_op_only_touches_frame (o : op) (p : N) (g : core) (a : unit)
    (g' : core) :
  op_target o = Some p ->
  run_op NAME_BUF_SIZE FORK_RETRY_DELAY NAME_BUF_OFFSET sig_num_by_name NSIG
         fresh_byte o g = Ok a g' ->
  only_touches p g g'.
Proof.
  intros Ht H.
  destruct o as [al name|q|q when|q|q wstat|q new_pid|fuel q|fuel
                 |ok q name value|ok q seg|ok q seg|ok q seg|q interval
                 |ok q seg|q on];
    cbn [op_target] in Ht; try discriminate; injection Ht as ->;
    cbn [run_op] in H; revert H; revert g a g'.
  - apply (pres_bind p); [apply pres_svc_handle_start|intros; apply pres_ret].
  - apply (pres_bind p); [apply pres_svc_cancel_start|intros; apply pres_ret].
  - apply pres_svc_handle_reaped.
  - apply pres_svc_change_pid.
  - apply pres_svc_run.
  - apply (pres_bind p); [apply pres_svc_set_var|intros; apply pres_ret].
  - apply (pres_bind p); [apply pres_svc_set_var|intros; apply pres_ret].
  - apply (pres_bind p); [apply pres_svc_set_var|intros; apply pres_ret].
  - apply (pres_bind p); [apply pres_svc_set_fds|intros; apply pres_ret].
  - apply (pres_bind p); [apply pres_svc_set_restart_interval|intros; apply pres_ret].
  - apply (pres_bind p); [apply pres_svc_set_triggers|intros; apply pres_ret].
  - apply pres_svc_set_sigwake.
Qed.


End Frame.



(** ** What a tick leaves alone *)

Lemma only_touches_untouched (p q : N) (g g' : core) :
  q <> p -> only_touches p g g' -> untouched q g g'.
Proof.
  intros Hne (A1 & _ & _ & A4 & A5 & _). split; [apply A1, Hne|].
  split.
  - transitivity (q ∈ unlink p (svc_active_list g')).
    + rewrite unlink_elem_of. tauto.
    + rewrite A4, unlink_elem_of. tauto.
  - transitivity (q ∈ unlink p (svc_sigwake_list g')).
    + rewrite unlink_elem_of. tauto.
    + rewrite A5, unlink_elem_of. tauto.
Qed.

Lemma untouched_refl (q : N) (g : core) : untouched q g g.
Proof. unfold untouched. tauto. Qed.

Lemma untouched_trans (q : N) (g1 g2 g3 : core) :
  untouched q g1 g2 -> untouched q g2 g3 -> untouched q g1 g3.
Proof.
  intros (A1 & A2 & A3) (B1 & B2 & B3). unfold untouched.
  rewrite B1, A1, B2, A2, B3, A3. tauto.
Qed.

Lemma for_each_untouched (l : list N) (body : N -> M unit) (q : N) :
  (forall p, pres (only_touches p) (body p)) -> q ∉ l ->
  pres (untouched q) (for_each l body).
Proof.
  intros Hbody. induction l as [|p l IH]; intros Hq g a g' H.
  - injection H as _ <-. apply untouched_refl.
  - apply not_elem_of_cons in Hq as [Hne Hq].
    cbn [for_each] in H. unfold bind in H.
    destruct (body p g) as [u g1|] eqn:E; [|discriminate].
    apply (untouched_trans q g g1 g').
    + apply (only_touches_untouched p q g g1 Hne), (Hbody p g u g1 E).
    + apply (IH Hq g1 a g' H).
Qed.

Lemma pres_wake_by_signal (NSIG signum : Z) (p : N) :
  pres (only_touches p) (wake_by_signal NSIG signum p).
Proof.
  unfold wake_by_signal. apply pres_bind; [apply pres_deref|]. intros s.
  destruct (negb (sigismember NSIG (autostart_signals s) signum =? 0));
    [|apply pres_ret].
  apply pres_bind; [apply pres_gets|]. intros now.
  apply pres_bind; [apply pres_svc_handle_start|]. intros _. apply pres_ret.
Qed.

Lemma signal_sweep_untouched (NSIG : Z) (q : N) (fuel : nat) :
  forall g a g', q ∉ svc_sigwake_list g ->
                 signal_sweep NSIG fuel g = Ok a g' -> untouched q g g'.
Proof.
  induction fuel as [|fuel IH]; intros g a g' Hq H; cbn [signal_sweep] in H.
  - injection H as _ <-. apply untouched_refl.
  - unfold bind at 1 2, gets at 1 2 in H.
    destruct (sig_get_new_events (sig_events g) (svc_last_signal_ts g)) as [e|].
    2:{ injection H as _ <-. apply untouched_refl. }
    unfold bind at 1, gets at 1 in H. unfold bind at 1 in H.
    destruct (for_each (svc_sigwake_list g) (wake_by_signal NSIG (ev_signum e)) g)
      as [u g1|] eqn:E; [|discriminate].
    pose proof (for_each_untouched _ _ q (pres_wake_by_signal NSIG (ev_signum e))
                  Hq g u g1 E) as H1.
    unfold bind at 1, modify at 1 in H.
    apply (untouched_trans q g g1 g' H1).
    apply (untouched_trans q g1 (put_last_signal_ts (ev_ts e) g1) g').
    + unfold untouched. core_simpl. tauto.
    + apply (IH _ a g'); [|exact H]. core_simpl.
      destruct H1 as (_ & _ & H1). rewrite H1. exact Hq.
Qed.

Section Tick.
Variable FORK_RETRY_DELAY : Z.
Variable NSIG : Z.

(** X7: a tick, [svc_run_active], works on the records of the signal
    list and of the active list only: a record that is on neither list
    is not changed and is on neither list afterwards. *)
Theorem svc_run_active_leaves_idle (fuel : nat) (g : core) (a : unit)
    (g' : core) (q : N) :
  q ∉ svc_active_list g -> q ∉ svc_sigwake_list g ->
  svc_run_active FORK_RETRY_DELAY NSIG fuel g = Ok a g' ->
  untouched q g g'.
Proof.
  intros Ha Hs H. unfold svc_run_active in H.
  unfold bind at 1 2, gets at 1 2 in H. unfold bind at 1 in H.
  destruct (when_ _ _ g) as [[] g1|] eqn:E; [|discriminate].
  assert (H1 : untouched q g g1).
  { unfold when_ in E. destruct (negb (bool_decide (svc_sigwake_list g = []))).
    - apply (signal_sweep_untouched NSIG q _ g tt g1 Hs E).
    - injection E as <-. apply untouched_refl. }
  unfold bind at 1, gets at 1 in H.
  apply (untouched_trans q g g1 g' H1).
  apply (for_each_untouched _ _ q (pres_svc_run FORK_RETRY_DELAY NSIG fuel)
           ltac:(destruct H1 as (_ & H1 & _); rewrite H1; exact Ha) g1 a g' H).
Qed.

End Tick.

Lemma svc_run_active_leaves_idle_witness :
  untouched 32 sample_two (after (sample_run_op (op_tick 3)) sample_two).
Proof.
  apply (svc_run_active_leaves_idle (Z.shiftl 10 32) 65 3 sample_two tt).
  - apply (bool_decide_unpack _). vm_compute. exact I.
  - apply (bool_decide_unpack _). vm_compute. exact I.
  - vm_compute. reflexivity.
Defined.

(** ** What only creation and deletion change *)

Lemma same_names_refl (g : core) : same_names g g.
Proof. unfold same_names. repeat split; auto. Qed.

Lemma same_names_trans (g1 g2 g3 : core) :
  same_names g1 g2 -> same_names g2 g3 -> same_names g1 g3.
Proof.
  intros (A1 & A2 & A3 & A4 & A5 & A6 & A7) (B1 & B2 & B3 & B4 & B5 & B6 & B7).
  unfold same_names.
  split; [congruence|]. split; [congruence|]. split; [congruence|].
  split; [congruence|]. split; [congruence|]. split.
  - intros q. rewrite B6. apply A6.
  - intros q. rewrite B7. apply A7.
Qed.

Lemma name_of_the_svc (g : core) (q : N) : name_of g q = name_buf (the_svc g q).
Proof. unfold name_of, the_svc. destruct (svc_mem g !! q); reflexivity. Qed.

Lemma only_touches_same_names (p : N) (g g' : core) :
  only_touches p g g' -> same_names g g'.
Proof.
  intros (A1 & A2 & A3 & _ & _ & A6 & A7 & A8 & A9 & A10 & _).
  unfold same_names.
  split; [exact A6|]. split; [exact A7|]. split; [exact A8|].
  split; [exact A9|]. split; [exact A10|]. split.
  - intros q. destruct (decide (q = p)) as [->|Hne]; [apply A2|].
    rewrite A1 by exact Hne. reflexivity.
  - intros q. destruct (decide (q = p)) as [->|Hne].
    + rewrite !name_of_the_svc. exact A3.
    + unfold name_of. rewrite A1 by exact Hne. reflexivity.
Qed.

Lemma for_each_same_names (l : list N) (body : N -> M unit) :
  (forall p, pres (only_touches p) (body p)) ->
  pres same_names (for_each l body).
Proof.
  intros Hbody. induction l as [|p l IH]; intros g a g' H.
  - injection H as _ <-. apply same_names_refl.
  - cbn [for_each] in H. unfold bind in H.
    destruct (body p g) as [u g1|] eqn:E; [|discriminate].
    apply (same_names_trans g g1 g').
    + apply (only_touches_same_names p), (Hbody p g u g1 E).
    + apply (IH g1 a g' H).
Qed.

Lemma signal_sweep_same_names (NSIG : Z) (fuel : nat) :
  pres same_names (signal_sweep NSIG fuel).
Proof.
  induction fuel as [|fuel IH]; intros g a g' H; cbn [signal_sweep] in H.
  - injection H as _ <-. apply same_names_refl.
  - unfold bind at 1 2, gets at 1 2 in H.
    destruct (sig_get_new_events (sig_events g) (svc_last_signal_ts g)) as [e|].
    2:{ injection H as _ <-. apply same_names_refl. }
    unfold bind at 1, gets at 1 in H. unfold bind at 1 in H.
    destruct (for_each (svc_sigwake_list g) (wake_by_signal NSIG (ev_signum e)) g)
      as [u g1|] eqn:E; [|discriminate].
    pose proof (for_each_same_names _ _ (pres_wake_by_signal NSIG (ev_signum e))
                  g u g1 E) as H1.
    unfold bind at 1, modify at 1 in H.
    apply (same_names_trans g g1 g' H1).
    apply (same_names_trans g1 (put_last_signal_ts (ev_ts e) g1) g').
    + unfold same_names, name_of. core_simpl. repeat split; auto.
    + apply (IH _ a g' H).
Qed.

Lemma svc_run_active_same_names (FORK_RETRY_DELAY NSIG : Z) (fuel : nat) :
  pres same_names (svc_run_active FORK_RETRY_DELAY NSIG fuel).
Proof.
  intros g a g' H. unfold svc_run_active in H.
  unfold bind at 1 2, gets at 1 2 in H. unfold bind at 1 in H.
  destruct (when_ _ _ g) as [[] g1|] eqn:E; [|discriminate].
  assert (H1 : same_names g g1).
  { unfold when_ in E. destruct (negb (bool_decide (svc_sigwake_list g = []))).
    - apply (signal_sweep_same_names NSIG _ g tt g1 E).
    - injection E as <-. apply same_names_refl. }
  unfold bind at 1, gets at 1 in H.
  apply (same_names_trans g g1 g' H1).
  apply (for_each_same_names _ _ (pres_svc_run FORK_RETRY_DELAY NSIG fuel)
           g1 a g' H).
Qed.

Section Names.
Variable NAME_BUF_SIZE : Z.
Variable FORK_RETRY_DELAY : Z.
Variable NAME_BUF_OFFSET : Z.
Variable sig_num_by_name : list char -> Z.
Variable NSIG : Z.
Variable fresh_byte : char.

Lemma run_op_same_names (o : op) (g : core) (a : unit) (g' : core) :
  op_keeps_records o ->
  run_op NAME_BUF_SIZE FORK_RETRY_DELAY NAME_BUF_OFFSET sig_num_by_name NSIG
         fresh_byte o g = Ok a g' ->
  same_names g g'.
Proof.
  intros Hk H. destruct (op_target o) as [p|] eqn:Et.
  - apply (only_touches_same_names p).
    apply (run_op_only_touches_frame NAME_BUF_SIZE FORK_RETRY_DELAY NAME_BUF_OFFSET
             sig_num_by_name NSIG fresh_byte o p g a g' Et H).
  - destruct o; try discriminate Et; try contradiction.
    apply (svc_run_active_same_names FORK_RETRY_DELAY NSIG fuel g a g' H).
Qed.


End Names.


(* ===================================================================== *)
(** * Creation, deletion and lookup *)
(* ===================================================================== *)

Lemma core_inv_not_live (g : core) (p : N) :
  core_inv g -> p ∉ live g ->
  (p ∉ elements (svc_by_name_index g)) /\ (p ∉ elements (svc_by_pid_index g)) /\
  (p ∉ svc_active_list g) /\ (p ∉ svc_sigwake_list g).
Proof.
  intros [(H1 & H2 & H3 & H4 & H5 & H6 & H7 & H8) [L1 L2]] Hp.
  repeat split; intros Hin; apply Hp.
  - apply H6, Hin.
  - apply H8, Hin.
  - apply L1, Hin.
  - apply L2, Hin.
Qed.

(** X9: [svc_delete] of a live record returns; afterwards the record is
    no longer live, is in neither index and on neither list, and, when
    there is no pool, its memory is freed; the other live records stay
    live and unchanged, and the invariant of the module holds again. *)
Theorem svc_delete_removes (g : core) (p : N) :
  core_inv g -> p ∈ live g ->
  exists g',
    svc_delete p g = Ok tt g' /\
    core_inv g' /\
    (forall q, q ∈ live g' <-> q ∈ live g /\ q <> p) /\
    (p ∉ elements (svc_by_name_index g')) /\
    (p ∉ elements (svc_by_pid_index g')) /\
    (p ∉ svc_active_list g') /\ (p ∉ svc_sigwake_list g') /\
    (forall q, q <> p -> the_svc g' q = the_svc g q) /\
    (svc_pool g = false -> svc_mem g' !! p = None).
Proof.
  intros Hinv Hp.
  pose proof Hinv as [(_ & _ & _ & H4 & _) _].
  destruct (H4 p Hp) as [s Hs].
  destruct (svc_delete_returns g p s Hs) as [g' Hrun].
  destruct (svc_delete_inv g p tt g' Hinv Hp Hrun)
    as (Hinv' & Hlive & Hsvc & Hfree & _).
  assert (Hgone : p ∉ live g') by (rewrite Hlive; tauto).
  destruct (core_inv_not_live g' p Hinv' Hgone) as (Hn & Hpi & Ha & Hsw).
  exists g'. split; [exact Hrun|]. split; [exact Hinv'|]. split; [exact Hlive|].
  auto 10.
Qed.

Lemma sample_two_reachable :
  reachable 64 (Z.shiftl 10 32) 4 200 sample_sig_num_by_name 65 0 sample_two.
Proof.
  apply (reach_step _ _ _ _ _ _ _ sample_run_2
           (op_create (sample_alloc 32) (STRSEG (lit "db"))) tt).
  - exact sample_run_reachable.
  - intros _. apply (bool_decide_unpack _). vm_compute. exact I.
  - vm_compute. reflexivity.
Defined.

Lemma svc_delete_removes_witness :
  exists g',
    svc_delete 16 sample_two = Ok tt g' /\
    core_inv g' /\
    (forall q, q ∈ live g' <-> q ∈ live sample_two /\ q <> 16%N) /\
    (16%N ∉ elements (svc_by_name_index g')) /\
    (16%N ∉ elements (svc_by_pid_index g')) /\
    (16%N ∉ svc_active_list g') /\ (16%N ∉ svc_sigwake_list g') /\
    (forall q, q <> 16%N -> the_svc g' q = the_svc sample_two q) /\
    (svc_pool sample_two = false -> svc_mem g' !! 16%N = None).
Proof.
  apply (svc_delete_removes sample_two 16).
  - apply (reachable_core_inv _ _ _ _ _ _ _ _ sample_two_reachable).
  - apply (bool_decide_unpack _). vm_compute. exact I.
Defined.

Section NoDangling.
Variable NAME_BUF_SIZE : Z.
Variable FORK_RETRY_DELAY : Z.
Variable NAME_BUF_OFFSET : Z.
Variable SIZEOF_SERVICE : Z.
Variable sig_num_by_name : list char -> Z.
Variable NSIG : Z.
Variable fresh_byte : char.


End NoDangling.


(** ** Creation *)

Section ByName.
Variable NAME_BUF_SIZE : Z.
Variable NAME_BUF_OFFSET : Z.
Variable fresh_byte : char.

(** [svc_by_name] without creation is the search of the name index. *)
Lemma svc_by_name_lookup (a : alloc) (name : strseg_t) (g : core) :
  svc_by_name NAME_BUF_SIZE a name false g
  = Ok (let s := RBTree_Find (svc_by_name_compare g name) (svc_by_name_index g) in
        if Relation s =? 0 then Nearest s else None) g.
Proof.
  unfold svc_by_name. unfold bind, gets. cbv zeta. cbn [id andb].
  destruct (Relation _ =? 0); reflexivity.
Qed.

Lemma svc_new_returns_some (a : alloc) (name : strseg_t) (g : core) :
  0 <= svc_list_count g <= Z.of_nat (length (svc_list g)) ->
  can_create a g ->
  exists svc g', svc_new NAME_BUF_SIZE a name g = Ok (Some svc) g'.
Proof.
  intros Hc Hcan. unfold can_create in Hcan. unfold svc_new.
  unfold bind at 1 2 3, gets at 1 2 3.
  destruct (svc_pool g) eqn:Epool.
  - destruct (Z.geb_spec (svc_list_count g) (Z.of_nat (length (svc_list g))));
      [lia|].
    unfold bind at 1, ret at 1. cbn [negb]. unfold_monad. eauto.
  - destruct Hcan as [Hroom Hmalloc].
    destruct (Z.geb_spec (svc_list_count g) (Z.of_nat (length (svc_list g)))).
    + destruct Hroom as [Hroom|Hres]; [lia|]. rewrite Hres.
      unfold svc_list_resize. unfold_monad. cbn [negb].
      destruct (N.eqb_spec (malloc_ret a) 0); [contradiction|]. eauto.
    + unfold_monad. cbn [negb].
      destruct (N.eqb_spec (malloc_ret a) 0); [contradiction|]. eauto.
Qed.

(** X11: a call of [svc_by_name] with [create] for a valid name that
    the search does not find, when there is room and memory, creates
    the record: it returns a record that was not live, now the last of
    the live records and entered in the name index but not in the PID
    index; its object is the one of [svc_ctor], DOWN, with the name
    given, [pid = 0] and no variable; the other records are unchanged
    and the invariant of the module holds again. *)
Theorem svc_by_name_creates (a : alloc) (name : strseg_t) (g : core) :
  core_inv g -> (svc_pool g = false -> malloc_ret a ∉ live g) ->
  svc_by_name NAME_BUF_SIZE a name false g = Ok None g ->
  svc_check_name NAME_BUF_SIZE name = true ->
  can_create a g ->
  exists svc g',
    svc_by_name NAME_BUF_SIZE a name true g
    = Ok (Some svc) g' /\
    core_inv g' /\
    created NAME_BUF_SIZE g name (Some svc) g' /\
    svc ∈ elements (svc_by_name_index g') /\
    (svc ∉ elements (svc_by_pid_index g')) /\
    state (the_svc g' svc) = SVC_STATE_DOWN /\
    name_buf (the_svc g' svc) = seg_bytes name /\
    pid (the_svc g' svc) = 0 /\ vars_len (the_svc g' svc) = 0.
Proof.
  intros Hinv Hfresh Hlook Hname Hcan.
  rewrite svc_by_name_lookup in Hlook. cbv zeta in Hlook.
  assert (Hrun : svc_by_name NAME_BUF_SIZE a name true g
                 = svc_new NAME_BUF_SIZE a name g).
  { unfold svc_by_name. unfold bind at 1, gets at 1. cbv zeta. cbn [id].
    rewrite Hname. cbn [andb].
    destruct (Relation _ =? 0) eqn:Erel; [|reflexivity].
    injection Hlook as Hnone.
    (* a search that ends at a node has found one *)
    exfalso. revert Erel Hnone. unfold RBTree_Find.
    destruct (svc_by_name_index g) as [|l x r]; [discriminate|].
    generalize {| Nearest := None; Relation := -1 |}.
    generalize (svc_by_name_compare g name). intros cmp.
    assert (Hsome : forall t acc, t <> Sentinel ->
              Nearest (RBTree_Find_from cmp t acc) <> None).
    { induction t as [|tl IHl tx tr IHr]; intros acc Hne; [congruence|].
      cbn [RBTree_Find_from]. cbv zeta.
      destruct (cmp tx <? 0).
      - destruct tl; [discriminate | apply IHl; discriminate].
      - destruct (cmp tx >? 0); [|discriminate].
        destruct tr; [discriminate | apply IHr; discriminate]. }
    intros acc _ Hnone. apply (Hsome (RBNode l x r) acc); [discriminate|exact Hnone]. }
  pose proof Hinv as [(H1 & _) _].
  destruct (svc_new_returns_some a name g H1 Hcan) as (svc & g' & Hnew).
  destruct (svc_new_inv NAME_BUF_SIZE a name g (Some svc) g'
              Hinv Hfresh Hnew) as [Hinv' Hcr].
  exists svc, g'. rewrite Hrun. split; [exact Hnew|]. split; [exact Hinv'|].
  split; [exact Hcr|].
  destruct Hcr as (Hnot & Hlive & Hobj & Hothers & _).
  pose proof Hinv' as [(_ & _ & _ & _ & _ & H6 & _ & H8) _].
  assert (Hin : svc ∈ live g').
  { rewrite Hlive. apply elem_of_app. right. apply list_elem_of_singleton.
    reflexivity. }
  split; [apply H6, Hin|]. rewrite Hobj. split; [|repeat split].
  intros Hpid. apply H8 in Hpid as [_ Hpid]. rewrite Hobj in Hpid. apply Hpid.
  reflexivity.
Qed.

(** X12: [svc_by_name] creates nothing, and leaves the whole state as
    it is, when [create] is not set, when the name is not a valid
    service name, or when the pool has no free slot: it returns what
    the search of the name index finds. *)
Theorem svc_by_name_no_create (a : alloc) (name : strseg_t) (create : bool)
    (g : core) :
  create = false \/ svc_check_name NAME_BUF_SIZE name = false \/
  (svc_pool g = true /\ svc_list_count g >= Z.of_nat (length (svc_list g))) ->
  exists r,
    svc_by_name NAME_BUF_SIZE a name create g = Ok r g /\
    svc_by_name NAME_BUF_SIZE a name false g = Ok r g.
Proof.
  intros Hcase. rewrite svc_by_name_lookup. cbv zeta.
  unfold svc_by_name. unfold bind at 1, gets at 1. cbv zeta. cbn [id].
  destruct (Relation _ =? 0); [eauto|].
  destruct Hcase as [->|[->|[Hpool Hfull]]].
  - cbn [andb]. eauto.
  - rewrite andb_false_r. eauto.
  - destruct (create && svc_check_name NAME_BUF_SIZE name); [|eauto].
    unfold svc_new. unfold bind at 1 2 3, gets at 1 2 3. rewrite Hpool.
    destruct (Z.geb_spec (svc_list_count g) (Z.of_nat (length (svc_list g))));
      [|lia].
    unfold bind, ret. cbn [negb]. eauto.
Qed.

End ByName.

Lemma svc_by_name_creates_witness :
  exists svc g',
    svc_by_name 64 (sample_alloc 32) (STRSEG (lit "db")) true sample_run_2
    = Ok (Some svc) g' /\
    core_inv g' /\
    created 64 sample_run_2 (STRSEG (lit "db")) (Some svc) g' /\
    svc ∈ elements (svc_by_name_index g') /\
    (svc ∉ elements (svc_by_pid_index g')) /\
    state (the_svc g' svc) = SVC_STATE_DOWN /\
    name_buf (the_svc g' svc) = seg_bytes (STRSEG (lit "db")) /\
    pid (the_svc g' svc) = 0 /\ vars_len (the_svc g' svc) = 0.
Proof.
  apply (svc_by_name_creates 64 (sample_alloc 32) (STRSEG (lit "db"))
           sample_run_2).
  - apply (reachable_core_inv _ _ _ _ _ _ _ _ sample_run_reachable).
  - intros _. apply (bool_decide_unpack _). vm_compute. exact I.
  - vm_compute. reflexivity.
  - vm_compute. reflexivity.
  - vm_compute. split; [left; reflexivity | discriminate].
Defined.

Lemma svc_by_name_no_create_witness :
  exists r,
    svc_by_name 64 (sample_alloc 32) (STRSEG (lit "no such")) true sample_run_2
    = Ok r sample_run_2 /\
    svc_by_name 64 (sample_alloc 32) (STRSEG (lit "no such")) false sample_run_2
    = Ok r sample_run_2.
Proof.
  apply (svc_by_name_no_create 64 (sample_alloc 32) (STRSEG (lit "no such"))
           true sample_run_2).
  right. left. vm_compute. reflexivity.
Defined.

(* ===================================================================== *)
(** * The order of the name index *)
(* ===================================================================== *)

(** ** Insertion and removal in a sorted tree *)

Lemma StronglySorted_app_intro {A} (R : A -> A -> Prop) (l1 l2 : list A) :
  StronglySorted R l1 -> StronglySorted R l2 ->
  Forall (fun a => Forall (R a) l2) l1 ->
  StronglySorted R (l1 ++ l2).
Proof.
  induction l1 as [|a l1 IH]; cbn [app]; intros H1 H2 H12; [exact H2|].
  apply StronglySorted_inv in H1 as [H1 Ha].
  apply Forall_cons in H12 as [Ha2 H12].
  constructor; [apply IH; assumption|].
  apply Forall_app. split; assumption.
Qed.

Lemma StronglySorted_filter_ne {A} (R : A -> A -> Prop) (P : A -> Prop)
    `{forall x, Decision (P x)} (l : list A) :
  StronglySorted R l -> StronglySorted R (filter P l).
Proof.
  induction l as [|a l IH]; intros Hs; [constructor|].
  apply StronglySorted_inv in Hs as [Hs Ha]. rewrite filter_cons.
  destruct (decide (P a)); [|apply IH, Hs].
  constructor; [apply IH, Hs|].
  rewrite Forall_forall in Ha |- *. intros x Hx.
  apply list_elem_of_filter in Hx as [_ Hx]. apply Ha, Hx.
Qed.

Lemma RBTree_Add_ext (cmp cmp' : N -> Z) (t : RBTree) (p : N) :
  (forall x, x ∈ elements t -> cmp x = cmp' x) ->
  RBTree_Add cmp t p = RBTree_Add cmp' t p.
Proof.
  induction t as [|l IHl x r IHr]; cbn [RBTree_Add elements]; intros H;
    [reflexivity|].
  rewrite <- (H x) by (apply elem_of_app; right; left).
  rewrite IHl, IHr; [reflexivity | |].
  - intros y Hy. apply H, elem_of_app. right. right. exact Hy.
  - intros y Hy. apply H, elem_of_app. left. exact Hy.
Qed.

Lemma RBTree_Find_from_ext (cmp cmp' : N -> Z) (t : RBTree) (acc : RBTreeSearch) :
  (forall x, x ∈ elements t -> cmp x = cmp' x) ->
  RBTree_Find_from cmp t acc = RBTree_Find_from cmp' t acc.
Proof.
  revert acc. induction t as [|l IHl x r IHr]; cbn [RBTree_Find_from elements];
    intros acc H; [reflexivity|].
  rewrite <- (H x) by (apply elem_of_app; right; left). cbv zeta.
  rewrite IHl, IHr; [reflexivity | |].
  - intros y Hy. apply H, elem_of_app. right. right. exact Hy.
  - intros y Hy. apply H, elem_of_app. left. exact Hy.
Qed.

Section SortedTree.
Variable cmp : N -> Z.
Variable lt : N -> N -> Prop.
Variable dom : N -> Prop.
Hypothesis lt_irrefl : forall x, dom x -> ~ lt x x.
Hypothesis cmp_below :
  forall x y, dom x -> dom y -> 0 <= cmp x -> lt y x -> 0 < cmp y.
Hypothesis cmp_above :
  forall x y, dom x -> dom y -> cmp x <= 0 -> lt x y -> cmp y < 0.

(** In a sorted tree the search ends at the node of the key, if there
    is one. *)
Lemma RBTree_Find_sorted (t : RBTree) :
  Forall dom (elements t) -> StronglySorted lt (elements t) ->
  forall p, p ∈ elements t -> cmp p = 0 ->
            RBTree_Find cmp t = {| Nearest := Some p; Relation := 0 |}.
Proof.
  intros Hdom Hsorted p Hp Hc. unfold RBTree_Find.
  destruct t as [|l x r]; [apply elem_of_nil in Hp; contradiction|].
  destruct (RBTree_Find_from_spec cmp lt dom cmp_below cmp_above _ Hdom Hsorted
              ltac:(discriminate) {| Nearest := None; Relation := -1 |})
    as (n & A & B & Hfind & Hel & HA & HB).
  rewrite Hfind. rewrite Hel in Hp, Hsorted, Hdom.
  destruct (StronglySorted_split _ _ _ _ Hsorted) as (_ & _ & _ & HnB & _).
  pose proof Hdom as Hdom'.
  apply Forall_app in Hdom' as [_ HdB]. apply Forall_cons in HdB as [Hdn HdB].
  apply elem_of_app in Hp as [Hp|Hp].
  { rewrite Forall_forall in HA. specialize (HA p Hp). lia. }
  apply elem_of_cons in Hp as [->|Hp]; [rewrite Hc; reflexivity|].
  exfalso. rewrite Forall_forall in HnB, HdB.
  destruct (Z.le_gt_cases 0 (cmp n)) as [Hge|Hlt].
  - specialize (HB Hge). rewrite Forall_forall in HB. specialize (HB p Hp). lia.
  - pose proof (cmp_above n p Hdn (HdB p Hp) ltac:(lia) (HnB p Hp)). lia.
Qed.

(** The node a search returns is a node of the tree. *)
Lemma RBTree_Find_from_elem (t : RBTree) (acc : RBTreeSearch) (n : N) :
  Nearest (RBTree_Find_from cmp t acc) = Some n ->
  n ∈ elements t \/ Nearest acc = Some n.
Proof.
  revert acc. induction t as [|l IHl x r IHr]; cbn [RBTree_Find_from elements];
    intros acc H; [right; exact H|]. cbv zeta in H.
  destruct (cmp x <? 0).
  - destruct (IHl _ H) as [Hn|Hn].
    + left. apply elem_of_app. left. exact Hn.
    + left. injection Hn as <-. apply elem_of_app. right. left.
  - destruct (cmp x >? 0).
    + destruct (IHr _ H) as [Hn|Hn].
      * left. apply elem_of_app. right. right. exact Hn.
      * left. injection Hn as <-. apply elem_of_app. right. left.
    + left. injection H as <-. apply elem_of_app. right. left.
Qed.

Lemma RBTree_Find_from_relation (t : RBTree) (acc : RBTreeSearch) (n : N) :
  Nearest (RBTree_Find_from cmp t acc) = Some n ->
  Relation (RBTree_Find_from cmp t acc) = cmp n \/
  RBTree_Find_from cmp t acc = acc.
Proof.
  revert acc. induction t as [|l IHl x r IHr]; cbn [RBTree_Find_from];
    intros acc H; [right; reflexivity|]. cbv zeta in *.
  destruct (cmp x <? 0).
  - destruct (IHl _ H) as [Hn|Hn]; [left; exact Hn|].
    rewrite Hn in H |- *. injection H as <-. left. reflexivity.
  - destruct (cmp x >? 0).
    + destruct (IHr _ H) as [Hn|Hn]; [left; exact Hn|].
      rewrite Hn in H |- *. injection H as <-. left. reflexivity.
    + injection H as <-. left. reflexivity.
Qed.

Hypothesis lt_trans : forall x y z, lt x y -> lt y z -> lt x z.

(** A node whose key is below the nodes [cmp] sends it left of and
    above the others goes to its place in the order. *)
Lemma RBTree_Add_sorted (t : RBTree) (p : N) :
  StronglySorted lt (elements t) ->
  (forall x, x ∈ elements t -> if cmp x <? 0 then lt p x else lt x p) ->
  StronglySorted lt (elements (RBTree_Add cmp t p)).
Proof.
  induction t as [|l IHl x r IHr]; cbn [RBTree_Add elements]; intros Hs Hp.
  - repeat constructor.
  - destruct (StronglySorted_split _ _ _ _ Hs) as (Hsl & Hsr & Hlx & Hxr & Hlr).
    assert (Hpl : forall y, y ∈ elements l -> if cmp y <? 0 then lt p y else lt y p).
    { intros y Hy. apply Hp, elem_of_app. left. exact Hy. }
    assert (Hpr : forall y, y ∈ elements r -> if cmp y <? 0 then lt p y else lt y p).
    { intros y Hy. apply Hp, elem_of_app. right. right. exact Hy. }
    pose proof (Hp x ltac:(apply elem_of_app; right; left)) as Hpx.
    rewrite Forall_forall in Hlx, Hxr, Hlr.
    destruct (cmp x <? 0); cbn [elements].
    + apply StronglySorted_app_intro.
      * apply IHl; assumption.
      * constructor; [exact Hsr | apply Forall_forall, Hxr].
      * apply Forall_forall. intros y Hy. apply elem_of_Add in Hy as [->|Hy].
        -- constructor; [exact Hpx|]. apply Forall_forall. intros z Hz.
           apply (lt_trans _ x); [exact Hpx | apply Hxr, Hz].
        -- constructor; [apply Hlx, Hy|].
           specialize (Hlr y Hy). exact Hlr.
    + apply StronglySorted_app_intro.
      * exact Hsl.
      * constructor; [apply IHr; assumption|].
        apply Forall_forall. intros z Hz. apply elem_of_Add in Hz as [->|Hz].
        -- exact Hpx.
        -- apply Hxr, Hz.
      * apply Forall_forall. intros y Hy.
        constructor; [apply Hlx, Hy|].
        apply Forall_forall. intros z Hz. apply elem_of_Add in Hz as [->|Hz].
        -- apply (lt_trans _ x); [apply Hlx, Hy | exact Hpx].
        -- specialize (Hlr y Hy). rewrite Forall_forall in Hlr. apply Hlr, Hz.
Qed.

End SortedTree.

(** ** The name index of the module *)

Lemma StronglySorted_impl_in {A} (R R' : A -> A -> Prop) (l : list A) :
  (forall x y, x ∈ l -> y ∈ l -> R x y -> R' x y) ->
  StronglySorted R l -> StronglySorted R' l.
Proof.
  induction l as [|a l IH]; intros HR Hs; [constructor|].
  apply StronglySorted_inv in Hs as [Hs Ha]. constructor.
  - apply IH; [|exact Hs]. intros x y Hx Hy. apply HR; right; assumption.
  - rewrite Forall_forall in Ha |- *. intros y Hy.
    apply HR; [left | right; exact Hy | apply Ha, Hy].
Qed.

Lemma strseg_cmp_seg_ok (a b : strseg_t) :
  seg_ok a -> strseg_cmp a b = strseg_cmp (STRSEG (seg_bytes a)) b.
Proof.
  intros Ha. unfold strseg_cmp. rewrite seg_bytes_STRSEG. cbn [len STRSEG].
  rewrite (seg_ok_length a Ha). reflexivity.
Qed.

Lemma svc_by_name_compare_seg (g : core) (name : strseg_t) (p : N) :
  seg_ok name ->
  svc_by_name_compare g name p
  = svc_by_name_compare g (STRSEG (seg_bytes name)) p.
Proof.
  intros Hname. unfold svc_by_name_compare.
  destruct (svc_mem g !! p); [|reflexivity]. apply strseg_cmp_seg_ok, Hname.
Qed.

Lemma name_index_ok_eq (g g' : core) :
  svc_by_name_index g' = svc_by_name_index g ->
  (forall q, q ∈ elements (svc_by_name_index g) ->
             is_Some (svc_mem g' !! q) /\ name_of g' q = name_of g q) ->
  name_index_ok g -> name_index_ok g'.
Proof.
  intros Hidx Hsame [Hlive Hsorted]. unfold name_index_ok. rewrite Hidx. split.
  - rewrite Forall_forall in Hlive |- *. intros q Hq. apply Hsame, Hq.
  - eapply StronglySorted_impl_in; [|exact Hsorted].
    intros x y Hx Hy. cbv beta.
    destruct (Hsame x Hx) as [_ ->]. destruct (Hsame y Hy) as [_ ->]. auto.
Qed.

Lemma name_index_ok_same_names (g g' : core) :
  same_names g g' -> name_index_ok g -> name_index_ok g'.
Proof.
  intros (_ & _ & _ & _ & Hidx & Hsome & Hname) Hok.
  apply (name_index_ok_eq g g' Hidx); [|exact Hok].
  destruct Hok as [Hlive _]. rewrite Forall_forall in Hlive.
  intros q Hq. split; [apply Hsome, Hlive, Hq | apply Hname].
Qed.

(** In a sorted index, a search that does not end on the key shows
    that no record has the name. *)
Lemma name_search_fails (g : core) (key : list char) :
  name_index_ok g ->
  Relation (RBTree_Find (svc_by_name_compare g (STRSEG key))
                        (svc_by_name_index g)) <> 0 ->
  forall q, q ∈ elements (svc_by_name_index g) -> name_of g q <> key.
Proof.
  intros [Hlive Hsorted] Hrel q Hq Hname. apply Hrel.
  rewrite (RBTree_Find_sorted (svc_by_name_compare g (STRSEG key)) _ _
             (name_cmp_below g key) (name_cmp_above g key) _ Hlive Hsorted q Hq).
  - reflexivity.
  - rewrite Forall_forall in Hlive.
    rewrite svc_by_name_compare_live by (apply Hlive, Hq).
    rewrite Hname. apply lex_cmp_refl.
Qed.

Section Sorted.
Variable NAME_BUF_SIZE : Z.
Variable FORK_RETRY_DELAY : Z.
Variable NAME_BUF_OFFSET : Z.
Variable SIZEOF_SERVICE : Z.
Variable sig_num_by_name : list char -> Z.
Variable NSIG : Z.
Variable fresh_byte : char.

Lemma name_index_ok_created (g g' : core) (name : strseg_t) (svc : N) :
  core_inv g -> core_inv g' -> name_index_ok g -> seg_ok name ->
  Relation (RBTree_Find (svc_by_name_compare g name) (svc_by_name_index g)) <> 0 ->
  created NAME_BUF_SIZE g name (Some svc) g' ->
  name_index_ok g'.
Proof.
  intros Hinv Hinv' Hok Hname Hrel (Hnew & Hlive' & Hobj & Hothers & Hidx & _).
  pose proof Hinv as [(_ & _ & _ & _ & _ & H6 & _) _].
  pose proof Hinv' as [(_ & _ & _ & H4' & _ & H6' & _) _].
  pose proof Hok as [Hlive Hsorted]. rewrite Forall_forall in Hlive.
  set (key := seg_bytes name).
  assert (Hold : forall q, q ∈ elements (svc_by_name_index g) ->
                           q <> svc /\ svc_mem g' !! q = svc_mem g !! q /\
                           name_of g' q = name_of g q).
  { intros q Hq. assert (Hne : q <> svc).
    { intros ->. apply Hnew, H6, Hq. }
    split; [exact Hne|]. split; [apply Hothers, Hne|].
    unfold name_of. rewrite Hothers by exact Hne. reflexivity. }
  assert (Hsvc : name_of g' svc = key).
  { rewrite name_of_the_svc, Hobj. reflexivity. }
  assert (Hcmp : forall q, q ∈ elements (svc_by_name_index g) ->
                           svc_by_name_compare g' name q
                           = lex_cmp key (name_of g q)).
  { intros q Hq. destruct (Hold q Hq) as (_ & Hmem & _).
    rewrite svc_by_name_compare_seg by exact Hname.
    transitivity (svc_by_name_compare g (STRSEG key) q).
    - unfold svc_by_name_compare. rewrite Hmem. reflexivity.
    - apply svc_by_name_compare_live, Hlive, Hq. }
  assert (Hnz : forall q, q ∈ elements (svc_by_name_index g) ->
                          name_of g q <> key).
  { apply name_search_fails; [exact Hok|].
    intros E. apply Hrel. rewrite <- E. unfold RBTree_Find.
    apply f_equal. apply RBTree_Find_from_ext. intros x _.
    apply svc_by_name_compare_seg, Hname. }
  split.
  - rewrite Forall_forall. intros q Hq. apply H4', H6', Hq.
  - rewrite Hidx.
    apply (RBTree_Add_sorted (svc_by_name_compare g' name)
             (fun p q => lex_cmp (name_of g' p) (name_of g' q) < 0)).
    + intros x y z. apply lex_cmp_trans.
    + eapply StronglySorted_impl_in; [|exact Hsorted].
      intros x y Hx Hy. cbv beta.
      destruct (Hold x Hx) as (_ & _ & ->). destruct (Hold y Hy) as (_ & _ & ->).
      auto.
    + intros x Hx. rewrite (Hcmp x Hx), Hsvc.
      destruct (Hold x Hx) as (_ & _ & ->).
      destruct (Z.ltb_spec (lex_cmp key (name_of g x)) 0) as [Hlt|Hge];
        [exact Hlt|].
      rewrite lex_cmp_antisym.
      assert (lex_cmp key (name_of g x) <> 0).
      { intros E. apply lex_cmp_eq in E. apply (Hnz x Hx). congruence. }
      lia.
Qed.

Lemma name_index_ok_deleted (g g' : core) (p : N) :
  core_inv g -> core_inv g' -> name_index_ok g ->
  (forall q, q <> p -> the_svc g' q = the_svc g q) ->
  svc_by_name_index g' = RBTreeNode_Prune (svc_by_name_index g) p ->
  name_index_ok g'.
Proof.
  intros Hinv Hinv' [Hlive Hsorted] Hsvc Hidx.
  pose proof Hinv as [(_ & _ & _ & _ & H5 & _) _].
  pose proof Hinv' as [(_ & _ & _ & H4' & _ & H6' & _) _].
  split.
  - rewrite Forall_forall. intros q Hq. apply H4', H6', Hq.
  - rewrite Hidx, elements_RBTreeNode_Prune by exact H5.
    eapply StronglySorted_impl_in;
      [|apply StronglySorted_filter_ne; exact Hsorted].
    intros x y Hx Hy. cbv beta.
    apply list_elem_of_filter in Hx as [Hx _].
    apply list_elem_of_filter in Hy as [Hy _].
    rewrite !name_of_the_svc, !Hsvc by assumption. auto.
Qed.

Lemma run_op_name_index_ok (o : op) (g : core) (a : unit) (g' : core) :
  core_inv g -> name_index_ok g -> op_allowed g o -> name_arg_ok o ->
  run_op NAME_BUF_SIZE FORK_RETRY_DELAY NAME_BUF_OFFSET sig_num_by_name NSIG
         fresh_byte o g = Ok a g' ->
  name_index_ok g'.
Proof.
  intros Hinv Hok Hallow Hname H.
  pose proof (run_op_inv NAME_BUF_SIZE FORK_RETRY_DELAY NAME_BUF_OFFSET
                sig_num_by_name NSIG fresh_byte o g a g' Hinv Hallow H) as Hinv'.
  destruct o as [al name|p| | | | | | | | | | | | | ];
    try (apply (name_index_ok_same_names g g'); [|exact Hok];
         match type of H with
         | run_op _ _ _ _ _ _ ?o' _ = _ =>
             apply (run_op_same_names NAME_BUF_SIZE FORK_RETRY_DELAY
                      NAME_BUF_OFFSET sig_num_by_name NSIG fresh_byte o' g a g' I H)
         end).
  - cbn [run_op op_allowed name_arg_ok] in *. unfold bind in H.
    destruct (svc_by_name _ _ _ _ g) as [r g1|] eqn:E; [|discriminate].
    injection H as _ <-. unfold svc_by_name in E.
    unfold bind at 1, gets at 1 in E. cbv zeta in E. cbn [id] in E.
    destruct (Z.eqb_spec
                (Relation (RBTree_Find (svc_by_name_compare g name)
                                       (svc_by_name_index g))) 0) as [Hrel|Hrel].
    { injection E as _ <-. exact Hok. }
    destruct (true && svc_check_name NAME_BUF_SIZE name).
    2:{ injection E as _ <-. exact Hok. }
    destruct (svc_new_inv NAME_BUF_SIZE al name g r g1 Hinv Hallow E)
      as [_ Hcr].
    destruct r as [svc|].
    + apply (name_index_ok_created g g1 name svc Hinv Hinv' Hok Hname Hrel Hcr).
    + destruct Hcr as (_ & Hmem & Hidx & _).
      apply (name_index_ok_eq g g1 Hidx); [|exact Hok].
      destruct Hok as [Hlive _]. rewrite Forall_forall in Hlive.
      intros q Hq. unfold name_of. rewrite Hmem. split; [apply Hlive, Hq|reflexivity].
  - cbn [run_op op_allowed] in *.
    destruct (svc_delete_inv g p a g' Hinv Hallow H)
      as (_ & _ & Hsvc & _ & Hidx & _).
    apply (name_index_ok_deleted g g' p Hinv Hinv' Hok Hsvc Hidx).
Qed.

Lemma reachable_wf_reachable (g : core) :
  reachable_wf NAME_BUF_SIZE FORK_RETRY_DELAY NAME_BUF_OFFSET SIZEOF_SERVICE
               sig_num_by_name NSIG fresh_byte g ->
  reachable NAME_BUF_SIZE FORK_RETRY_DELAY NAME_BUF_OFFSET SIZEOF_SERVICE
            sig_num_by_name NSIG fresh_byte g.
Proof.
  induction 1 as [now evs ls|now evs ls base count dsize Hs Hd
                  |g now next evs ls _ IH|g o a g' _ IH Hok Hname Hrun].
  - apply reach_init.
  - apply reach_pool; assumption.
  - apply reach_env, IH.
  - apply (reach_step _ _ _ _ _ _ _ g o a g' IH Hok Hrun).
Qed.

Lemma reachable_wf_name_index_ok (g : core) :
  reachable_wf NAME_BUF_SIZE FORK_RETRY_DELAY NAME_BUF_OFFSET SIZEOF_SERVICE
               sig_num_by_name NSIG fresh_byte g ->
  name_index_ok g.
Proof.
  induction 1 as [now evs ls|now evs ls base count dsize Hs Hd
                  |g now next evs ls _ IH|g o a g' Hwf IH Hok Hname Hrun].
  - split; constructor.
  - split; constructor.
  - exact IH.
  - apply (run_op_name_index_ok o g a g'); try assumption.
    apply (reachable_core_inv NAME_BUF_SIZE FORK_RETRY_DELAY NAME_BUF_OFFSET
             SIZEOF_SERVICE sig_num_by_name NSIG fresh_byte).
    apply reachable_wf_reachable, Hwf.
Qed.

Lemma sorted_names_unique (g : core) (p q : N) :
  name_index_ok g ->
  p ∈ elements (svc_by_name_index g) -> q ∈ elements (svc_by_name_index g) ->
  name_of g p = name_of g q -> p = q.
Proof.
  intros [_ Hsorted] Hp Hq Hname.
  apply list_elem_of_split in Hp as (A & B & Hel). rewrite Hel in *.
  destruct (StronglySorted_split _ _ _ _ Hsorted) as (_ & _ & HA & HB & _).
  rewrite Forall_forall in HA, HB.
  apply elem_of_app in Hq as [Hq|Hq].
  - specialize (HA q Hq). cbv beta in HA. rewrite Hname, lex_cmp_refl in HA. lia.
  - apply elem_of_cons in Hq as [->|Hq]; [reflexivity|].
    specialize (HB q Hq). cbv beta in HB. rewrite Hname, lex_cmp_refl in HB. lia.
Qed.


Lemma svc_by_name_find_spec (a : alloc) (name : strseg_t) (g : core) :
  core_inv g -> name_index_ok g ->
  seg_ok name ->
  exists r,
    svc_by_name NAME_BUF_SIZE a name false g = Ok r g /\
    forall p, r = Some p <-> p ∈ live g /\ name_of g p = seg_bytes name.
Proof.
  intros Hinv Hok Hname.
  destruct Hinv as [(_ & _ & _ & _ & _ & H6 & _) _].
  rewrite svc_by_name_lookup. cbv zeta. eexists. split; [reflexivity|].
  pose proof Hok as [HliveF Hsorted]. pose proof HliveF as Hlive.
  rewrite Forall_forall in Hlive.
  set (key := seg_bytes name).
  assert (Efind : RBTree_Find (svc_by_name_compare g name) (svc_by_name_index g)
                  = RBTree_Find (svc_by_name_compare g (STRSEG key))
                                (svc_by_name_index g)).
  { unfold RBTree_Find. apply RBTree_Find_from_ext. intros x _.
    apply svc_by_name_compare_seg, Hname. }
  rewrite Efind. intros p. split.
  - destruct (Z.eqb_spec (Relation (RBTree_Find (svc_by_name_compare g (STRSEG key))
                                      (svc_by_name_index g))) 0) as [Hrel|Hrel];
      [|discriminate].
    intros Hnear. unfold RBTree_Find in Hnear, Hrel.
    destruct (RBTree_Find_from_elem _ _ _ _ Hnear) as [Hp|Hp]; [|discriminate].
    split; [apply H6, Hp|].
    destruct (RBTree_Find_from_relation _ _ _ _ Hnear) as [E|E].
    + rewrite E in Hrel.
      rewrite svc_by_name_compare_live in Hrel by (apply Hlive, Hp).
      apply lex_cmp_eq in Hrel. congruence.
    + rewrite E in Hnear. discriminate.
  - intros [Hp Hpn]. apply H6 in Hp.
    rewrite (RBTree_Find_sorted (svc_by_name_compare g (STRSEG key)) _ _
               (name_cmp_below g key) (name_cmp_above g key) _ HliveF Hsorted p Hp).
    + reflexivity.
    + rewrite svc_by_name_compare_live by (apply Hlive, Hp).
      rewrite Hpn. apply lex_cmp_refl.
Qed.

(** X14: in a state that satisfies the invariant of the module and
    whose name index holds the live records in the strict order of
    their names, [svc_by_name] without creation changes nothing and
    returns the live record that has the name, and none when no live
    record has it. *)
Theorem svc_by_name_finds (a : alloc) (name : strseg_t) (g : core) :
  core_inv g -> name_index_ok g ->
  seg_ok name ->
  exists r,
    svc_by_name NAME_BUF_SIZE a name false g = Ok r g /\
    forall p, r = Some p <-> p ∈ live g /\ name_of g p = seg_bytes name.
Proof. apply svc_by_name_find_spec. Qed.

(** X15: creation, lookup and deletion compose.  From a state that
    satisfies the invariant of the module and whose name index holds the
    live records in the strict order of their names, the record that
    [svc_by_name] with [create] returns is the one a later lookup of
    the name returns; after [svc_delete] of that record the lookup of
    the name returns none. *)
Theorem svc_by_name_round_trip (a a1 a2 : alloc) (name : strseg_t)
    (g g' : core) (svc : N) :
  core_inv g -> name_index_ok g ->
  seg_ok name ->
  (svc_pool g = false -> malloc_ret a ∉ live g) ->
  svc_by_name NAME_BUF_SIZE a name true g
  = Ok (Some svc) g' ->
  svc_by_name NAME_BUF_SIZE a1 name false g'
  = Ok (Some svc) g' /\
  exists g'',
    svc_delete svc g' = Ok tt g'' /\
    svc_by_name NAME_BUF_SIZE a2 name false g''
    = Ok None g''.
Proof.
  intros Hinv Hok Hname Hfresh Hrun.
  assert (Hstep : run_op NAME_BUF_SIZE FORK_RETRY_DELAY NAME_BUF_OFFSET
                    sig_num_by_name NSIG fresh_byte (op_create a name) g
                  = Ok tt g').
  { cbn [run_op]. unfold bind. rewrite Hrun. reflexivity. }
  pose proof (run_op_inv NAME_BUF_SIZE FORK_RETRY_DELAY NAME_BUF_OFFSET
                sig_num_by_name NSIG fresh_byte (op_create a name) g tt g'
                Hinv Hfresh Hstep) as Hinv'.
  pose proof (run_op_name_index_ok (op_create a name) g tt g' Hinv Hok Hfresh
                Hname Hstep) as Hok'.
  pose proof Hinv' as [(_ & _ & _ & H4' & _ & H6' & _) _].
  (* the record returned is live and has the name *)
  assert (Hsvc : svc ∈ live g' /\ name_of g' svc = seg_bytes name).
  { unfold svc_by_name in Hrun. unfold bind at 1, gets at 1 in Hrun.
    cbv zeta in Hrun. cbn [id] in Hrun.
    destruct (Z.eqb_spec
                (Relation (RBTree_Find (svc_by_name_compare g name)
                                       (svc_by_name_index g))) 0) as [Hrel|Hrel].
    - injection Hrun as Hnear <-.
      destruct (svc_by_name_find_spec a name g Hinv Hok Hname)
        as (r & Hlook & Hiff).
      rewrite svc_by_name_lookup in Hlook. cbv zeta in Hlook.
      rewrite Hrel, Hnear in Hlook. cbn [Z.eqb] in Hlook. injection Hlook as <-.
      apply Hiff. reflexivity.
    - destruct (true && svc_check_name NAME_BUF_SIZE name); [|discriminate].
      destruct (svc_new_inv NAME_BUF_SIZE a name g (Some svc) g'
                  Hinv Hfresh Hrun) as [_ (_ & Hlive & Hobj & _)].
      split.
      + rewrite Hlive. apply elem_of_app. right. apply list_elem_of_singleton.
        reflexivity.
      + rewrite name_of_the_svc, Hobj. reflexivity. }
  split.
  - destruct (svc_by_name_find_spec a1 name g' Hinv' Hok' Hname)
      as (r & Hlook & Hiff).
    rewrite Hlook. f_equal. apply Hiff, Hsvc.
  - destruct Hsvc as [Hlive Hnm]. destruct (H4' svc Hlive) as [s Hs].
    destruct (svc_delete_returns g' svc s Hs) as [g'' Hdel].
    exists g''. split; [exact Hdel|].
    pose proof (run_op_name_index_ok (op_delete svc) g' tt g'' Hinv' Hok' Hlive
                  I Hdel) as Hok''.
    destruct (svc_delete_inv g' svc tt g'' Hinv' Hlive Hdel)
      as (Hinv'' & Hlive'' & Hsame & _).
    destruct (svc_by_name_find_spec a2 name g'' Hinv'' Hok'' Hname)
      as (r & Hlook & Hiff).
    rewrite Hlook. f_equal. destruct r as [p|]; [|reflexivity].
    exfalso. destruct (proj1 (Hiff p) eq_refl) as [Hp Hpn].
    apply Hlive'' in Hp as [Hp Hne]. apply Hne.
    apply (sorted_names_unique g' p svc Hok'); [apply H6', Hp | apply H6', Hlive|].
    rewrite Hnm, <- Hpn, !name_of_the_svc, Hsame by exact Hne. reflexivity.
Qed.

End Sorted.

Lemma sample_run_wf :
  reachable_wf 64 (Z.shiftl 10 32) 4 200 sample_sig_num_by_name 65 0 sample_run_2.
Proof.
  apply (wf_step _ _ _ _ _ _ _ sample_run_1 (op_start 16 0) tt).
  - apply (wf_step _ _ _ _ _ _ _ sample_run_0
             (op_create (sample_alloc 16) (STRSEG (lit "web"))) tt).
    + apply wf_init.
    + intros _. apply (bool_decide_unpack _). vm_compute. exact I.
    + apply seg_ok_STRSEG.
    + vm_compute. reflexivity.
  - cbn [op_allowed]. apply (bool_decide_unpack _). vm_compute. exact I.
  - exact I.
  - vm_compute. reflexivity.
Defined.

Lemma sample_two_wf :
  reachable_wf 64 (Z.shiftl 10 32) 4 200 sample_sig_num_by_name 65 0 sample_two.
Proof.
  apply (wf_step _ _ _ _ _ _ _ sample_run_2
           (op_create (sample_alloc 32) (STRSEG (lit "db"))) tt).
  - exact sample_run_wf.
  - intros _. apply (bool_decide_unpack _). vm_compute. exact I.
  - apply seg_ok_STRSEG.
  - vm_compute. reflexivity.
Defined.


Lemma svc_by_name_finds_witness :
  exists r,
    svc_by_name 64 (sample_alloc 0) (STRSEG (lit "db")) false sample_two
    = Ok r sample_two /\
    forall p, r = Some p
              <-> p ∈ live sample_two
                  /\ name_of sample_two p = seg_bytes (STRSEG (lit "db")).
Proof.
  apply (svc_by_name_finds 64 (sample_alloc 0) (STRSEG (lit "db")) sample_two).
  - apply (reachable_core_inv _ _ _ _ _ _ _ _ sample_two_reachable).
  - apply (reachable_wf_name_index_ok _ _ _ _ _ _ _ _ sample_two_wf).
  - apply seg_ok_STRSEG.
Defined.

Lemma svc_by_name_round_trip_witness :
  svc_by_name 64 (sample_alloc 0) (STRSEG (lit "db")) false sample_two
  = Ok (Some 32%N) sample_two /\
  exists g'',
    svc_delete 32 sample_two = Ok tt g'' /\
    svc_by_name 64 (sample_alloc 0) (STRSEG (lit "db")) false g''
    = Ok None g''.
Proof.
  apply (svc_by_name_round_trip 64 (Z.shiftl 10 32) 4 sample_sig_num_by_name
           65 0 (sample_alloc 32) (sample_alloc 0) (sample_alloc 0)
           (STRSEG (lit "db")) sample_run_2 sample_two 32).
  - apply (reachable_core_inv _ _ _ _ _ _ _ _ sample_run_reachable).
  - apply (reachable_wf_name_index_ok _ _ _ _ _ _ _ _ sample_run_wf).
  - apply seg_ok_STRSEG.
  - intros _. apply (bool_decide_unpack _). vm_compute. exact I.
  - vm_compute. reflexivity.
Defined.

(* ===================================================================== *)
(** * Further properties of the variable store *)
(* ===================================================================== *)

Lemma kv_get_kv_set_ne k k' v kvs :
  k' <> k -> kv_get k' (kv_set k v kvs) = kv_get k' kvs.
Proof.
  intros Hne. induction kvs as [|[k0 v0] kvs IH]; cbn [kv_set kv_get].
  - rewrite bool_decide_eq_false_2 by congruence. reflexivity.
  - destruct (decide (k0 = k)) as [->|Hk].
    + rewrite bool_decide_eq_true_2 by reflexivity. cbn [kv_get].
      rewrite !bool_decide_eq_false_2 by congruence. reflexivity.
    + rewrite bool_decide_eq_false_2 by exact Hk. cbn [kv_get].
      rewrite IH. reflexivity.
Qed.

Lemma kv_get_kv_del_ne k k' kvs :
  k' <> k -> kv_get k' (kv_del k kvs) = kv_get k' kvs.
Proof.
  intros Hne. induction kvs as [|[k0 v0] kvs IH]; cbn [kv_del kv_get];
    [reflexivity|].
  destruct (decide (k0 = k)) as [->|Hk].
  - rewrite bool_decide_eq_true_2 by reflexivity.
    rewrite bool_decide_eq_false_2 by congruence. reflexivity.
  - rewrite bool_decide_eq_false_2 by exact Hk. cbn [kv_get].
    rewrite IH. reflexivity.
Qed.

Lemma kv_get_kv_put_ne k k' v kvs :
  k' <> k -> kv_get k' (kv_put k v kvs) = kv_get k' kvs.
Proof.
  destruct v; cbn [kv_put]; [apply kv_get_kv_set_ne | apply kv_get_kv_del_ne].
Qed.

Lemma kv_get_kv_put k v kvs :
  keys_unique kvs -> kv_get k (kv_put k v kvs) = v.
Proof.
  destruct v; cbn [kv_put]; intros Hu; [apply kv_get_kv_set | apply kv_get_kv_del, Hu].
Qed.

Lemma keys_unique_kv_del k kvs : keys_unique kvs -> keys_unique (kv_del k kvs).
Proof.
  unfold keys_unique. induction kvs as [|[k0 v0] kvs IH]; cbn [kv_del List.map fst];
    intros H; [exact H|].
  apply NoDup_cons in H as [Hnin H].
  destruct (bool_decide (k0 = k)); [exact H|].
  cbn [List.map fst]. apply NoDup_cons. split; [|apply IH, H].
  intros Hin. apply Hnin. clear -Hin.
  induction kvs as [|[k1 v1] kvs IH]; cbn [kv_del List.map fst] in *; [exact Hin|].
  destruct (bool_decide (k1 = k)).
  - right. exact Hin.
  - cbn [List.map fst] in Hin. apply elem_of_cons in Hin as [->|Hin]; [left|].
    right. apply IH, Hin.
Qed.

Lemma keys_unique_kv_put k v kvs :
  keys_unique kvs -> keys_unique (kv_put k v kvs).
Proof.
  destruct v; cbn [kv_put]; [apply keys_unique_kv_set | apply keys_unique_kv_del].
Qed.

(** What a getter of a string finds, in terms of the entries. *)
Lemma svc_get_var_bytes (s : service_t) kvs (k : list char) :
  vars_hold s kvs ->
  option_map seg_bytes (svc_get_var s (STRSEG k)) = kv_get k kvs.
Proof.
  intros Hhold. destruct (kv_get k kvs) as [v|] eqn:Hget.
  - destruct (svc_get_var_found s kvs (STRSEG k) v Hhold (seg_ok_STRSEG k))
      as (val & -> & Hb & _).
    + rewrite seg_bytes_STRSEG. exact Hget.
    + cbn [option_map]. rewrite Hb. reflexivity.
  - rewrite (svc_get_var_not_found s kvs (STRSEG k) Hhold (seg_ok_STRSEG k)).
    + reflexivity.
    + rewrite seg_bytes_STRSEG. exact Hget.
Qed.

Lemma get_string_spec (s : service_t) kvs (k dflt : list char) :
  vars_hold s kvs -> get_string s k dflt = default dflt (kv_get k kvs).
Proof.
  intros Hhold. unfold get_string. destruct (kv_get k kvs) as [v|] eqn:Hget.
  - destruct (svc_get_var_found s kvs (STRSEG k) v Hhold (seg_ok_STRSEG k))
      as (val & -> & _ & Hc).
    + rewrite seg_bytes_STRSEG. exact Hget.
    + exact Hc.
  - rewrite (svc_get_var_not_found s kvs (STRSEG k) Hhold (seg_ok_STRSEG k)).
    + reflexivity.
    + rewrite seg_bytes_STRSEG. exact Hget.
Qed.

Section VarsMore.
Variable NAME_BUF_SIZE : Z.
Variable NAME_BUF_OFFSET : Z.
Variable fresh_byte : char.

(** [svc_set_var], with or without a value, of a buffer that fits. *)
Lemma svc_set_var_put (ok : bool) (g : core) (svc : N) (s : service_t) kvs
    (k : list char) (v : option (list char)) :
  svc_mem g !! svc = Some s ->
  vars_hold s kvs -> slot_ok NAME_BUF_SIZE g s ->
  key_ok k -> (forall x, v = Some x -> value_ok x) ->
  fits NAME_BUF_SIZE NAME_BUF_OFFSET ok g s (length (encode (kv_put k v kvs))) ->
  exists buf,
    let s' := set_vars buf (Z.of_nat (length (encode (kv_put k v kvs)))) s in
    svc_set_var NAME_BUF_SIZE NAME_BUF_OFFSET fresh_byte ok svc (STRSEG k)
      (option_map STRSEG v) g
    = Ok true (put_mem (<[svc := s']> (svc_mem g)) g) /\
    vars_hold s' (kv_put k v kvs) /\
    slot_ok NAME_BUF_SIZE (put_mem (<[svc := s']> (svc_mem g)) g) s'.
Proof.
  intros Hs Hhold Hslot Hk Hv Hfit.
  pose proof (fits_overruns _ _ _ _ _ _ Hfit) as Hin. destruct Hfit as [Hroom _].
  destruct v as [x|]; cbn [option_map kv_put] in *.
  - pose proof (svc_set_var_some NAME_BUF_SIZE NAME_BUF_OFFSET fresh_byte ok g svc s kvs
                  (STRSEG k) (STRSEG x) Hs Hhold Hslot (seg_ok_STRSEG k)) as H.
    rewrite !seg_bytes_STRSEG in H.
    specialize (H Hk (seg_ok_STRSEG x) (Hv x eq_refl)). cbv zeta in H.
    rewrite Hroom, Hin in H.
    destruct H as (buf & Hrun' & Hhold' & Hlen').
    exists buf. cbv zeta. split; [exact Hrun'|]. split; [exact Hhold'|].
    apply slot_ok_put_mem; assumption.
  - pose proof (svc_set_var_none NAME_BUF_SIZE NAME_BUF_OFFSET fresh_byte ok g svc s kvs
                  (STRSEG k) Hs Hhold (seg_ok_STRSEG k)) as H.
    cbv zeta in H. rewrite seg_bytes_STRSEG in H.
    destruct H as (buf & Hrun' & Hhold' & Hlen').
    exists buf. cbv zeta. split; [exact Hrun'|]. split; [exact Hhold'|].
    apply slot_ok_put_mem; [assumption | intros _; exact Hlen'].
Qed.

(** X16: a [svc_set_var] of one key, with or without a value, of a
    buffer that fits (the capacity test finds room and, in a pool, the
    buffer ends within [name_buf] before and after the call) returns
    true and changes the value of no other key: [svc_get_var] of any
    other key finds the same bytes as before, or nothing as before. *)
Theorem svc_set_var_keeps_other_keys (ok : bool) (g : core) (svc : N)
    (s : service_t) kvs (k k' : list char) (v : option (list char)) :
  svc_mem g !! svc = Some s ->
  vars_hold s kvs -> slot_ok NAME_BUF_SIZE g s ->
  key_ok k -> (forall x, v = Some x -> value_ok x) ->
  k' <> k ->
  fits NAME_BUF_SIZE NAME_BUF_OFFSET ok g s (length (encode (kv_put k v kvs))) ->
  exists g' s',
    svc_set_var NAME_BUF_SIZE NAME_BUF_OFFSET fresh_byte ok svc (STRSEG k)
      (option_map STRSEG v) g = Ok true g' /\
    svc_mem g' !! svc = Some s' /\
    option_map seg_bytes (svc_get_var s' (STRSEG k')) = kv_get k' kvs /\
    option_map seg_bytes (svc_get_var s (STRSEG k')) = kv_get k' kvs.
Proof.
  intros Hs Hhold Hslot Hk Hv Hne Hfit.
  destruct (svc_set_var_put ok g svc s kvs k v Hs Hhold Hslot Hk Hv Hfit)
    as (buf & Hrun & Hhold' & _).
  eexists _, _. split; [exact Hrun|]. split; [apply lookup_insert_eq|].
  rewrite (svc_get_var_bytes _ _ k' Hhold'), (svc_get_var_bytes _ _ k' Hhold).
  split; [apply kv_get_kv_put_ne, Hne | reflexivity].
Qed.

End VarsMore.

Lemma sample_pool_tagged_holds :
  svc_mem sample_pool_tagged !! 1024%N = Some (the_svc sample_pool_tagged 1024) /\
  vars_hold (the_svc sample_pool_tagged 1024) [(lit "tags", lit "a")] /\
  keys_unique [(lit "tags", lit "a")] /\
  slot_ok 64 sample_pool_tagged (the_svc sample_pool_tagged 1024).
Proof.
  split; [vm_compute; reflexivity|]. split; [|split].
  - split; [vm_compute; reflexivity|]. split; [vm_compute; reflexivity|].
    repeat constructor; cbn; apply (bool_decide_unpack _); vm_compute; exact I.
  - apply (bool_decide_unpack _). vm_compute. exact I.
  - intros _. vm_compute. discriminate.
Qed.

Lemma svc_set_var_keeps_other_keys_witness :
  exists g' s',
    svc_set_var 64 4 0 true 1024 (STRSEG (lit "args")) (Some (STRSEG (lit "-v")))
      sample_pool_tagged = Ok true g' /\
    svc_mem g' !! 1024%N = Some s' /\
    option_map seg_bytes (svc_get_var s' (STRSEG (lit "tags"))) = Some (lit "a") /\
    option_map seg_bytes (svc_get_var (the_svc sample_pool_tagged 1024)
                                      (STRSEG (lit "tags"))) = Some (lit "a").
Proof.
  destruct sample_pool_tagged_holds as (Hs & Hhold & _ & Hslot).
  apply (svc_set_var_keeps_other_keys 64 4 0 true sample_pool_tagged 1024
           (the_svc sample_pool_tagged 1024) [(lit "tags", lit "a")]
           (lit "args") (lit "tags") (Some (lit "-v")) Hs Hhold Hslot).
  - split; apply (bool_decide_unpack _); vm_compute; exact I.
  - intros x [= <-]. apply (bool_decide_unpack _). vm_compute. exact I.
  - apply (bool_decide_unpack _). vm_compute. exact I.
  - split; [vm_compute; reflexivity|]. intros _. vm_compute. split; discriminate.
Defined.

(** ** The four strings of a record *)

Lemma lit_keys_distinct :
  lit "tags" <> lit "args" /\ lit "tags" <> lit "fds" /\
  lit "tags" <> lit "triggers" /\ lit "args" <> lit "fds" /\
  lit "args" <> lit "triggers" /\ lit "fds" <> lit "triggers".
Proof. repeat split; apply (bool_decide_unpack _); vm_compute; exact I. Qed.

Lemma lit_keys_ok :
  key_ok (lit "tags") /\ key_ok (lit "args") /\ key_ok (lit "fds").
Proof.
  repeat split; apply (bool_decide_unpack _); vm_compute; exact I.
Qed.

Lemma STRSEG_len_le_0 (t : list char) : (len (STRSEG t) <=? 0) = bool_decide (t = []).
Proof.
  cbn [len STRSEG]. destruct t as [|c t]; cbn [length].
  - reflexivity.
  - rewrite bool_decide_eq_false_2 by discriminate.
    destruct (Z.leb_spec (Z.of_nat (S (length t))) 0); [lia | reflexivity].
Qed.

Lemma string_value_ok (t : list char) :
  value_ok t -> forall x, string_value t = Some x -> value_ok x.
Proof.
  intros Hval x. unfold string_value. destruct (bool_decide (t = []));
    [discriminate|]. intros [= <-]. exact Hval.
Qed.

Lemma default_string_value (t : list char) : default [] (string_value t) = t.
Proof. destruct t; reflexivity. Qed.

Section Strings.
Variable NAME_BUF_SIZE : Z.
Variable NAME_BUF_OFFSET : Z.
Variable fresh_byte : char.

(** [svc_set_tags] and [svc_set_argv] as [svc_set_var]: the empty string
    removes the entry. *)
Lemma svc_set_tags_as_put (ok : bool) (svc : N) (t : list char) :
  svc_set_tags NAME_BUF_SIZE NAME_BUF_OFFSET fresh_byte ok svc (STRSEG t)
  = svc_set_var NAME_BUF_SIZE NAME_BUF_OFFSET fresh_byte ok svc (STRSEG (lit "tags"))
      (option_map STRSEG (string_value t)).
Proof.
  unfold svc_set_tags, string_value. rewrite STRSEG_len_le_0.
  destruct (bool_decide (t = [])); reflexivity.
Qed.

Lemma svc_set_argv_as_put (ok : bool) (svc : N) (t : list char) :
  svc_set_argv NAME_BUF_SIZE NAME_BUF_OFFSET fresh_byte ok svc (STRSEG t)
  = svc_set_var NAME_BUF_SIZE NAME_BUF_OFFSET fresh_byte ok svc (STRSEG (lit "args"))
      (option_map STRSEG (string_value t)).
Proof.
  unfold svc_set_argv, string_value. rewrite STRSEG_len_le_0.
  destruct (bool_decide (t = [])); reflexivity.
Qed.

(** X17: [svc_set_tags(t)], when the new buffer fits (the capacity test
    finds room and, in a pool, the buffer ends within [name_buf]),
    returns true, and then [svc_get_tags] returns [t] (the empty string
    is stored as no entry and read back as the empty string), and the
    arguments, the file descriptors and the triggers read as before;
    likewise [svc_set_argv] and [svc_get_argv]. *)
Theorem svc_set_tags_argv_round_trip (ok : bool) (g : core) (svc : N)
    (s : service_t) kvs (t : list char) :
  svc_mem g !! svc = Some s ->
  vars_hold s kvs -> keys_unique kvs -> slot_ok NAME_BUF_SIZE g s ->
  value_ok t ->
  (fits NAME_BUF_SIZE NAME_BUF_OFFSET ok g s
     (length (encode (kv_put (lit "tags") (string_value t) kvs))) ->
   exists g' s',
     svc_set_tags NAME_BUF_SIZE NAME_BUF_OFFSET fresh_byte ok svc (STRSEG t) g
     = Ok true g' /\
     svc_mem g' !! svc = Some s' /\
     svc_get_tags s' = t /\
     svc_get_argv s' = svc_get_argv s /\
     svc_get_fds s' = svc_get_fds s /\
     svc_get_triggers s' = svc_get_triggers s) /\
  (fits NAME_BUF_SIZE NAME_BUF_OFFSET ok g s
     (length (encode (kv_put (lit "args") (string_value t) kvs))) ->
   exists g' s',
     svc_set_argv NAME_BUF_SIZE NAME_BUF_OFFSET fresh_byte ok svc (STRSEG t) g
     = Ok true g' /\
     svc_mem g' !! svc = Some s' /\
     svc_get_argv s' = t /\
     svc_get_tags s' = svc_get_tags s /\
     svc_get_fds s' = svc_get_fds s /\
     svc_get_triggers s' = svc_get_triggers s).
Proof.
  intros Hs Hhold Huniq Hslot Hval.
  destruct lit_keys_distinct as (D1 & D2 & D3 & D4 & D5 & D6).
  destruct lit_keys_ok as (K1 & K2 & K3).
  pose proof (string_value_ok t Hval) as Hv.
  split; intros Hfit.
  - rewrite svc_set_tags_as_put.
    destruct (svc_set_var_put NAME_BUF_SIZE NAME_BUF_OFFSET fresh_byte ok g svc s kvs _ _
                Hs Hhold Hslot K1 Hv Hfit) as (buf & Hrun & Hhold' & _).
    eexists _, _. split; [exact Hrun|]. split; [apply lookup_insert_eq|].
    unfold svc_get_tags, svc_get_argv, svc_get_fds, svc_get_triggers.
    rewrite !(get_string_spec _ _ _ _ Hhold'), !(get_string_spec _ _ _ _ Hhold).
    rewrite (kv_get_kv_put _ _ _ Huniq), !kv_get_kv_put_ne by congruence.
    rewrite default_string_value. repeat split.
  - rewrite svc_set_argv_as_put.
    destruct (svc_set_var_put NAME_BUF_SIZE NAME_BUF_OFFSET fresh_byte ok g svc s kvs _ _
                Hs Hhold Hslot K2 Hv Hfit) as (buf & Hrun & Hhold' & _).
    eexists _, _. split; [exact Hrun|]. split; [apply lookup_insert_eq|].
    unfold svc_get_tags, svc_get_argv, svc_get_fds, svc_get_triggers.
    rewrite !(get_string_spec _ _ _ _ Hhold'), !(get_string_spec _ _ _ _ Hhold).
    rewrite (kv_get_kv_put _ _ _ Huniq), !kv_get_kv_put_ne by congruence.
    rewrite default_string_value. repeat split.
Qed.

(** X18: [svc_set_fds(x)], when the new buffer fits (the capacity test
    finds room and, in a pool, the buffer ends within [name_buf]),
    returns true, and then [svc_get_fds] returns [x], also for the
    default ["null\tnull\tnull"], which is stored as no entry, and for
    the empty string, which is stored as an empty entry; the tags, the
    arguments and the triggers read as before. *)
Theorem svc_set_fds_round_trip (ok : bool) (g : core) (svc : N)
    (s : service_t) kvs (x : list char) :
  svc_mem g !! svc = Some s ->
  vars_hold s kvs -> keys_unique kvs -> slot_ok NAME_BUF_SIZE g s ->
  value_ok x ->
  fits NAME_BUF_SIZE NAME_BUF_OFFSET ok g s
    (length (encode (kv_put (lit "fds") (fds_value null_fds x) kvs))) ->
  exists g' s',
    svc_set_fds NAME_BUF_SIZE NAME_BUF_OFFSET fresh_byte ok svc (STRSEG x) g
    = Ok true g' /\
    svc_mem g' !! svc = Some s' /\
    svc_get_fds s' = x /\
    svc_get_tags s' = svc_get_tags s /\
    svc_get_argv s' = svc_get_argv s /\
    svc_get_triggers s' = svc_get_triggers s.
Proof.
  intros Hs Hhold Huniq Hslot Hval Hfit.
  destruct lit_keys_distinct as (D1 & D2 & D3 & D4 & D5 & D6).
  destruct lit_keys_ok as (K1 & K2 & K3).
  set (v := fds_value null_fds x) in *.
  assert (Hv : forall y, v = Some y -> value_ok y).
  { intros y. subst v. unfold fds_value.
    destruct (bool_decide (x = null_fds)); [discriminate|].
    intros [= <-]. exact Hval. }
  assert (Hdef : default null_fds v = x).
  { subst v. unfold fds_value. destruct (decide (x = null_fds)) as [->|Hne].
    - rewrite bool_decide_eq_true_2 by reflexivity. reflexivity.
    - rewrite bool_decide_eq_false_2 by exact Hne. reflexivity. }
  destruct (svc_set_var_put NAME_BUF_SIZE NAME_BUF_OFFSET fresh_byte ok g svc s kvs _ _
              Hs Hhold Hslot K3 Hv Hfit) as (buf & Hset & Hhold' & _).
  remember (svc_set_fds NAME_BUF_SIZE NAME_BUF_OFFSET fresh_byte ok svc (STRSEG x) g)
    as r eqn:Er.
  unfold svc_set_fds in Er. cbv zeta in Er.
  assert (Hlen : (len (STRSEG x) <? 0) = false).
  { cbn [len STRSEG]. destruct (Z.ltb_spec (Z.of_nat (length x)) 0); [lia|reflexivity]. }
  rewrite Hlen in Er.
  rewrite (strseg_cmp_eqb _ _ (seg_ok_STRSEG x) (seg_ok_STRSEG null_fds)) in Er.
  rewrite !seg_bytes_STRSEG in Er.
  unfold bind at 1 in Er.
  assert (Hfirst :
    (if bool_decide (x = null_fds)
     then svc_set_var NAME_BUF_SIZE NAME_BUF_OFFSET fresh_byte ok svc
            (STRSEG (lit "fds")) None ;;; ret true
     else svc_set_var NAME_BUF_SIZE NAME_BUF_OFFSET fresh_byte ok svc
            (STRSEG (lit "fds")) (Some (STRSEG x)))%svc g
    = Ok true (put_mem (<[svc := set_vars buf
                 (Z.of_nat (length (encode (kv_put (lit "fds") v kvs)))) s]>
                 (svc_mem g)) g)).
  { subst v. unfold fds_value in *.
    destruct (bool_decide (x = null_fds)); cbn [option_map] in Hset.
    - unfold bind. rewrite Hset. reflexivity.
    - exact Hset. }
  rewrite Hfirst in Er. cbn [negb] in Er.
  destruct (scan_fds _ _ _ _ _) as [[e c] k].
  unfold bind, update, ret in Er. core_simpl in Er.
  rewrite lookup_insert_eq in Er. rewrite Er.
  eexists _, _. split; [reflexivity|]. core_simpl.
  split; [apply lookup_insert_eq|].
  apply (vars_hold_set_uses_control e c k) in Hhold'.
  unfold svc_get_tags, svc_get_argv, svc_get_fds, svc_get_triggers.
  rewrite !(get_string_spec _ _ _ _ Hhold'), !(get_string_spec _ _ _ _ Hhold).
  rewrite (kv_get_kv_put _ _ _ Huniq), !kv_get_kv_put_ne by congruence.
  rewrite Hdef. repeat split.
Qed.

End Strings.

Lemma svc_set_tags_argv_round_trip_witness :
  (exists g' s',
     svc_set_tags 64 4 0 true 1024 (STRSEG (lit "b")) sample_pool_tagged
     = Ok true g' /\
     svc_mem g' !! 1024%N = Some s' /\
     svc_get_tags s' = lit "b" /\
     svc_get_argv s' = svc_get_argv (the_svc sample_pool_tagged 1024) /\
     svc_get_fds s' = svc_get_fds (the_svc sample_pool_tagged 1024) /\
     svc_get_triggers s' = svc_get_triggers (the_svc sample_pool_tagged 1024)) /\
  (exists g' s',
     svc_set_argv 64 4 0 true 1024 (STRSEG (lit "b")) sample_pool_tagged
     = Ok true g' /\
     svc_mem g' !! 1024%N = Some s' /\
     svc_get_argv s' = lit "b" /\
     svc_get_tags s' = svc_get_tags (the_svc sample_pool_tagged 1024) /\
     svc_get_fds s' = svc_get_fds (the_svc sample_pool_tagged 1024) /\
     svc_get_triggers s' = svc_get_triggers (the_svc sample_pool_tagged 1024)).
Proof.
  destruct sample_pool_tagged_holds as (Hs & Hhold & Huniq & Hslot).
  destruct (svc_set_tags_argv_round_trip 64 4 0 true sample_pool_tagged 1024
              (the_svc sample_pool_tagged 1024) [(lit "tags", lit "a")] (lit "b")
              Hs Hhold Huniq Hslot) as [Htags Hargs].
  - apply (bool_decide_unpack _). vm_compute. exact I.
  - split.
    + apply Htags. split; [vm_compute; reflexivity|]. intros _. vm_compute.
      split; discriminate.
    + apply Hargs. split; [vm_compute; reflexivity|]. intros _. vm_compute.
      split; discriminate.
Defined.

Lemma svc_set_fds_round_trip_witness :
  exists g' s',
    svc_set_fds 64 4 0 true 1024 (STRSEG (lit "control.cmd")) sample_pool_tagged
    = Ok true g' /\
    svc_mem g' !! 1024%N = Some s' /\
    svc_get_fds s' = lit "control.cmd" /\
    svc_get_tags s' = svc_get_tags (the_svc sample_pool_tagged 1024) /\
    svc_get_argv s' = svc_get_argv (the_svc sample_pool_tagged 1024) /\
    svc_get_triggers s' = svc_get_triggers (the_svc sample_pool_tagged 1024).
Proof.
  destruct sample_pool_tagged_holds as (Hs & Hhold & Huniq & Hslot).
  apply (svc_set_fds_round_trip 64 4 0 true sample_pool_tagged 1024
           (the_svc sample_pool_tagged 1024) [(lit "tags", lit "a")]
           (lit "control.cmd") Hs Hhold Huniq Hslot).
  - apply (bool_decide_unpack _). vm_compute. exact I.
  - split; [vm_compute; reflexivity|]. intros _. vm_compute. split; discriminate.
Defined.

(** ** The assertions of [svc_check] on the buffer *)

Lemma encode_ends_with_NUL kvs :
  kvs <> [] -> exists e, encode kvs = e ++ [NUL].
Proof.
  destruct kvs as [|kv kvs] using rev_ind; [congruence|]. intros _.
  rewrite encode_app. exists (encode kvs ++ kv.1 ++ EQUALS :: kv.2).
  rewrite encode_cons. unfold entry. change (encode []) with (@nil char).
  rewrite app_nil_r, <- !app_assoc. cbn [app]. reflexivity.
Qed.

Lemma vars_hold_checks (s : service_t) kvs :
  vars_hold s kvs ->
  vars_len s >= 0 /\
  (vars_len s = 0 \/ peek (vars_data s) (vars_len s - 1) = NUL).
Proof.
  intros (Hlen & Hview & _). split; [lia|].
  destruct kvs as [|kv kvs]; [left; rewrite Hlen; reflexivity|]. right.
  destruct (encode_ends_with_NUL (kv :: kvs) ltac:(discriminate)) as [e He].
  rewrite He in Hview, Hlen. rewrite length_app in Hlen, Hview. cbn [length] in *.
  unfold peek. replace (Z.to_nat (vars_len s - 1)) with (length e) by lia.
  assert (Hn : nth (length e) (take (length e + 1) (vars_data s)) 0 = NUL).
  { rewrite Hview. rewrite app_nth2 by lia. rewrite Nat.sub_diag. reflexivity. }
  rewrite <- Hn.
  rewrite <- (take_drop (length e + 1) (vars_data s)) at 1.
  apply app_nth1. rewrite Hview, length_app. cbn [length]. lia.
Qed.

Section BufferChecks.
Variable NAME_BUF_SIZE : Z.
Variable NAME_BUF_OFFSET : Z.
Variable fresh_byte : char.

(** X19: a [svc_set_var] of a buffer that fits (the capacity test finds
    room and, in a pool, the buffer ends within [name_buf] before and
    after the call), on a record whose buffer is a well formed sequence
    of entries and, in a pool, ends within the slot, returns true and
    leaves a buffer that is a well formed sequence of entries again,
    with the key set or removed, that still ends within [name_buf] in a
    pool, and that passes the assertions of [svc_check] on the buffer:
    a length that is not negative, a NUL as the last byte when it is
    not empty, and, in a pool, an end within the slot. *)
Theorem svc_set_var_keeps_buffer_checks (ok : bool) (g : core) (svc : N)
    (s : service_t) kvs (k : list char) (v : option (list char)) :
  svc_mem g !! svc = Some s ->
  vars_hold s kvs -> slot_ok NAME_BUF_SIZE g s ->
  buffer_checks NAME_BUF_OFFSET g s ->
  key_ok k -> (forall x, v = Some x -> value_ok x) ->
  fits NAME_BUF_SIZE NAME_BUF_OFFSET ok g s (length (encode (kv_put k v kvs))) ->
  exists g' s',
    svc_set_var NAME_BUF_SIZE NAME_BUF_OFFSET fresh_byte ok svc (STRSEG k)
      (option_map STRSEG v) g = Ok true g' /\
    svc_mem g' !! svc = Some s' /\
    vars_hold s' (kv_put k v kvs) /\
    slot_ok NAME_BUF_SIZE g' s' /\
    in_name_buf NAME_BUF_SIZE g' s' /\
    buffer_checks NAME_BUF_OFFSET g' s'.
Proof.
  intros Hs Hhold Hslot (_ & _ & Hbound) Hk Hv Hfit.
  destruct (svc_set_var_put NAME_BUF_SIZE NAME_BUF_OFFSET fresh_byte ok g svc s kvs k v
              Hs Hhold Hslot Hk Hv Hfit) as (buf & Hrun & Hhold' & Hslot').
  destruct Hfit as [Hroom Hin].
  eexists _, _. split; [exact Hrun|].
  split; [apply lookup_insert_eq|]. split; [exact Hhold'|].
  split; [exact Hslot'|]. split.
  - intros Hpool. core_simpl in Hpool. destruct (Hin Hpool) as [_ Hn].
    unfold name_buf_room in *. cbn [vars_len name_buf set_vars]. exact Hn.
  - destruct (vars_hold_checks _ _ Hhold') as [C1 C2].
    split; [exact C1|]. split; [exact C2|].
    core_simpl. intros Hpool. specialize (Hbound Hpool).
    cbn [vars_len name_buf set_vars].
    unfold no_room, pool_capacity in Hroom. rewrite Hpool in Hroom.
    apply andb_false_iff in Hroom as [Hroom|Hroom].
    + apply Z.ltb_ge in Hroom. lia.
    + apply Z.ltb_ge in Hroom. lia.
Qed.

End BufferChecks.

Lemma svc_set_var_keeps_buffer_checks_witness :
  exists g' s',
    svc_set_var 64 4 0 true 1024 (STRSEG (lit "args")) (Some (STRSEG (lit "-v")))
      sample_pool_tagged = Ok true g' /\
    svc_mem g' !! 1024%N = Some s' /\
    vars_hold s' (kv_put (lit "args") (Some (lit "-v")) [(lit "tags", lit "a")]) /\
    slot_ok 64 g' s' /\
    in_name_buf 64 g' s' /\
    buffer_checks 4 g' s'.
Proof.
  destruct sample_pool_tagged_holds as (Hs & Hhold & _ & Hslot).
  apply (svc_set_var_keeps_buffer_checks 64 4 0 true sample_pool_tagged 1024
           (the_svc sample_pool_tagged 1024) [(lit "tags", lit "a")]
           (lit "args") (Some (lit "-v")) Hs Hhold Hslot).
  - split; [vm_compute; discriminate|]. split; [right; vm_compute; reflexivity|].
    intros _. vm_compute. discriminate.
  - split; apply (bool_decide_unpack _); vm_compute; exact I.
  - intros x [= <-]. apply (bool_decide_unpack _). vm_compute. exact I.
  - split; [vm_compute; reflexivity|]. intros _. vm_compute. split; discriminate.
Defined.

(** ** The capacity test and the end of [name_buf] *)

Section Overrun.
Variable NAME_BUF_SIZE : Z.
Variable NAME_BUF_OFFSET : Z.
Variable fresh_byte : char.


End Overrun.


(* ===================================================================== *)
(** * No wild pointer *)
(* ===================================================================== *)























Section SettersSafe.
Variable NAME_BUF_SIZE : Z.
Variable NAME_BUF_OFFSET : Z.
Variable sig_num_by_name : list char -> Z.
Variable NSIG : Z.
Variable fresh_byte : char.





End SettersSafe.

(** ** The tick *)





Section Safe.
Variable NAME_BUF_SIZE : Z.
Variable FORK_RETRY_DELAY : Z.
Variable NAME_BUF_OFFSET : Z.
Variable SIZEOF_SERVICE : Z.
Variable sig_num_by_name : list char -> Z.
Variable NSIG : Z.
Variable fresh_byte : char.



End Safe.


(* ===================================================================== *)
(** * The pool *)
(* ===================================================================== *)

Lemma round_to_16 (x : Z) :
  0 < x ->
  let r := Z.lor (x - 1) 15 + 1 in
  r mod 16 = 0 /\ x <= r < x + 16.
Proof.
  intros Hx r.
  assert (Hl : Z.lor (x - 1) 15 = x - 1 + 15 - (x - 1) mod 16).
  { pose proof (Z.add_lor_land (x - 1) 15) as H.
    change 15 with (Z.ones 4) in H at 2.
    rewrite Z.land_ones in H by lia. change (2 ^ 4) with 16 in H. lia. }
  subst r. rewrite Hl.
  pose proof (Z.div_mod (x - 1) 16 ltac:(lia)) as Hdm.
  pose proof (Z.mod_pos_bound (x - 1) 16 ltac:(lia)) as Hb.
  split; [|lia].
  replace (x - 1 + 15 - (x - 1) mod 16 + 1) with (((x - 1) / 16 + 1) * 16) by lia.
  apply Z.mod_mul. lia.
Qed.

Section Pool.
Variable NAME_BUF_SIZE : Z.
Variable NAME_BUF_OFFSET : Z.
Variable SIZEOF_SERVICE : Z.
Variable fresh_byte : char.

(** X21: [svc_preallocate], on the initial state, sets up a pool of
    [count] slots and no live record: the size of a slot is the size
    asked for rounded up to the next multiple of 16; the slots are at
    [pool_base + i * size], apart by at least the size of a slot, so
    that no two overlap; and the invariant of the module holds. *)
Theorem svc_preallocate_slots (pool_base : N) (count data_size_each now : Z)
    (evs : list sig_event) (ls : list launch) :
  0 < SIZEOF_SERVICE -> 0 < data_size_each -> 0 <= count ->
  let g := svc_preallocate SIZEOF_SERVICE pool_base count data_size_each
             (svc_init now evs ls) in
  let size := svc_pool_size_each g in
  svc_pool g = true /\ live g = [] /\
  Z.of_nat (length (svc_list g)) = count /\
  size mod 16 = 0 /\
  SIZEOF_SERVICE + data_size_each <= size < SIZEOF_SERVICE + data_size_each + 16 /\
  (forall i, 0 <= i < count ->
     svc_list g !! Z.to_nat i = Some (pool_base + Z.to_N (size * i))%N) /\
  (forall i j p q, (i < j)%nat ->
     svc_list g !! i = Some p -> svc_list g !! j = Some q ->
     Z.of_N p + size <= Z.of_N q) /\
  core_inv g.
Proof.
  intros Hs Hd Hc g size.
  destruct (round_to_16 (SIZEOF_SERVICE + data_size_each) ltac:(lia)) as [Hm Hr].
  cbv zeta in Hm, Hr.
  assert (Hsize : size = Z.lor (SIZEOF_SERVICE + data_size_each - 1) 15 + 1)
    by reflexivity.
  assert (Hlist : svc_list g
                  = List.map (fun i => (pool_base + Z.to_N (size * Z.of_nat i))%N)
                             (seq 0 (Z.to_nat count))) by reflexivity.
  assert (Hlook : forall i p, svc_list g !! i = Some p ->
                    (i < Z.to_nat count)%nat /\
                    p = (pool_base + Z.to_N (size * Z.of_nat i))%N).
  { intros i p Hp. rewrite Hlist in Hp.
    change (List.map ?f ?l) with (f <$> l) in Hp.
    rewrite list_lookup_fmap in Hp.
    destruct (seq 0 (Z.to_nat count) !! i) as [k|] eqn:Ek; [|discriminate].
    apply lookup_seq in Ek as [-> Hlt]. injection Hp as <-. auto. }
  split; [reflexivity|]. split; [reflexivity|]. split.
  { rewrite Hlist, length_map, length_seq. lia. }
  split; [rewrite Hsize; exact Hm|]. split; [rewrite Hsize; exact Hr|]. split.
  { intros i Hi. rewrite Hlist. change (List.map ?f ?l) with (f <$> l).
    rewrite list_lookup_fmap, lookup_seq_lt by lia. cbn [fmap option_fmap option_map].
    rewrite Nat.add_0_l, Z2Nat.id by lia. reflexivity. }
  split.
  { intros i j p q Hij Hp Hq.
    destruct (Hlook i p Hp) as [_ ->]. destruct (Hlook j q Hq) as [_ ->].
    rewrite !N2Z.inj_add, !Z2N.id by nia. nia. }
  apply core_inv_svc_preallocate; lia.
Qed.

End Pool.

Lemma svc_preallocate_slots_witness :
  let g := svc_preallocate 200 1024 2 32 (svc_init 0 [] []) in
  let size := svc_pool_size_each g in
  svc_pool g = true /\ live g = [] /\
  Z.of_nat (length (svc_list g)) = 2 /\
  size mod 16 = 0 /\
  200 + 32 <= size < 200 + 32 + 16 /\
  (forall i, 0 <= i < 2 ->
     svc_list g !! Z.to_nat i = Some (1024 + Z.to_N (size * i))%N) /\
  (forall i j p q, (i < j)%nat ->
     svc_list g !! i = Some p -> svc_list g !! j = Some q ->
     Z.of_N p + size <= Z.of_N q) /\
  core_inv g.
Proof.
  apply (svc_preallocate_slots 200 1024 2 32 0 [] []); lia.
Defined.

(* ===================================================================== *)
(** * The PID index *)
(* ===================================================================== *)

(** ** The search of a tree in which keys may be equal *)

Section SearchWithTies.
Variable cmp : N -> Z.
Variable le : N -> N -> Prop.
Hypothesis cmp_down : forall x y, le y x -> 0 < cmp x -> 0 < cmp y.
Hypothesis cmp_up : forall x y, le x y -> cmp x < 0 -> cmp y < 0.

Lemma RBTree_Find_from_ties (t : RBTree) :
  StronglySorted le (elements t) ->
  (exists y, y ∈ elements t /\ cmp y = 0) ->
  forall acc, exists n,
    RBTree_Find_from cmp t acc = {| Nearest := Some n; Relation := 0 |} /\
    n ∈ elements t /\ cmp n = 0.
Proof.
  induction t as [|l IHl x r IHr]; cbn [elements]; intros Hs (y & Hy & Hc) acc.
  { apply elem_of_nil in Hy. contradiction. }
  destruct (StronglySorted_split _ _ _ _ Hs) as (Hsl & Hsr & Hlx & Hxr & _).
  rewrite Forall_forall in Hlx, Hxr.
  cbn [RBTree_Find_from]. cbv zeta.
  destruct (Z.ltb_spec (cmp x) 0) as [Hlt|Hge].
  - assert (Hyl : y ∈ elements l).
    { apply elem_of_app in Hy as [Hy|Hy]; [exact Hy|].
      apply elem_of_cons in Hy as [->|Hy]; [lia|].
      pose proof (cmp_up x y (Hxr y Hy) Hlt). lia. }
    destruct (IHl Hsl (ex_intro _ y (conj Hyl Hc))
                {| Nearest := Some x; Relation := cmp x |}) as (n & -> & Hn & Hcn).
    exists n. repeat split; [|exact Hcn]. apply elem_of_app. left. exact Hn.
  - destruct (Z.gtb_spec (cmp x) 0) as [Hgt|Hle].
    + assert (Hyr : y ∈ elements r).
      { apply elem_of_app in Hy as [Hy|Hy].
        - pose proof (cmp_down x y (Hlx y Hy) ltac:(lia)). lia.
        - apply elem_of_cons in Hy as [->|Hy]; [lia | exact Hy]. }
      destruct (IHr Hsr (ex_intro _ y (conj Hyr Hc))
                  {| Nearest := Some x; Relation := cmp x |}) as (n & -> & Hn & Hcn).
      exists n. repeat split; [|exact Hcn]. apply elem_of_app. right. right.
      exact Hn.
    + exists x. assert (cmp x = 0) as -> by lia.
      repeat split. apply elem_of_app. right. left.
Qed.

End SearchWithTies.

(** ** The order of the PID index *)

Lemma svc_by_pid_compare_live (g : core) (key : Z) (x : N) :
  is_Some (svc_mem g !! x) ->
  svc_by_pid_compare g key x
  = (if key <? pid (the_svc g x) then -1
     else if key >? pid (the_svc g x) then 1 else 0).
Proof.
  intros [s Hs]. unfold svc_by_pid_compare, the_svc. rewrite Hs. reflexivity.
Qed.

Lemma pid_index_ok_eq (g g' : core) :
  svc_by_pid_index g' = svc_by_pid_index g ->
  (forall q, q ∈ elements (svc_by_pid_index g) ->
             pid (the_svc g' q) = pid (the_svc g q)) ->
  pid_index_ok g -> pid_index_ok g'.
Proof.
  intros Hidx Hsame Hok. unfold pid_index_ok. rewrite Hidx.
  eapply StronglySorted_impl_in; [|exact Hok].
  intros x y Hx Hy. cbv beta. rewrite (Hsame x Hx), (Hsame y Hy). auto.
Qed.

Lemma kp_ret (p : N) {A} (a : A) : keeps_pid_order p (ret a).
Proof. intros g a' g' _ Hok _ [= _ <-]. exact Hok. Qed.

Lemma kp_gets (p : N) {A} (f : core -> A) : keeps_pid_order p (gets f).
Proof. intros g a' g' _ Hok _ [= _ <-]. exact Hok. Qed.

Lemma kp_throw (p : N) {A} (e : abort) : keeps_pid_order p (throw (A := A) e).
Proof. intros g a' g' _ _ _ H. discriminate H. Qed.

Lemma kp_deref (p q : N) : keeps_pid_order p (deref q).
Proof.
  intros g a' g' _ Hok _ H. unfold deref in H.
  destruct (svc_mem g !! q); [|discriminate]. injection H as _ <-. exact Hok.
Qed.

Lemma kp_bind (p : N) {A B} (m : M A) (k : A -> M B) :
  keeps p m -> keeps_pid_order p m -> (forall a, keeps_pid_order p (k a)) ->
  keeps_pid_order p (bind m k).
Proof.
  intros Hk Hm Hka g b g' Hinv Hok Hp H. unfold bind in H.
  destruct (m g) as [a g1|] eqn:E; [|discriminate].
  destruct (Hk g a g1 Hinv Hp E) as [Hinv1 Hl1].
  apply (Hka a g1 b g' Hinv1 (Hm g a g1 Hinv Hok Hp E)); [|exact H].
  rewrite Hl1. exact Hp.
Qed.

Lemma kp_when (p : N) (b : bool) (m : M unit) :
  keeps_pid_order p m -> keeps_pid_order p (when_ b m).
Proof. intros Hm. destruct b; [exact Hm | apply kp_ret]. Qed.

Lemma kp_modify (p : N) (f : core -> core) :
  (forall g, svc_mem (f g) = svc_mem g /\
             svc_by_pid_index (f g) = svc_by_pid_index g) ->
  keeps_pid_order p (modify f).
Proof.
  intros Hf g a g' _ Hok _ H. unfold modify in H. injection H as _ <-.
  destruct (Hf g) as [Hm Hi].
  apply (pid_index_ok_eq g (f g) Hi); [|exact Hok].
  intros q _. unfold the_svc. rewrite Hm. reflexivity.
Qed.

Lemma kp_update (p : N) (f : service_t -> service_t) :
  (forall s, pid (f s) = pid s) -> keeps_pid_order p (update p f).
Proof.
  intros Hf g a g' _ Hok _ H. unfold update in H.
  destruct (svc_mem g !! p) as [s|] eqn:Hs; [|discriminate]. injection H as _ <-.
  apply (pid_index_ok_eq g); [reflexivity | | exact Hok].
  intros q _. rewrite the_svc_insert. destruct (decide (q = p)) as [->|]; [|reflexivity].
  rewrite Hf. unfold the_svc. rewrite Hs. reflexivity.
Qed.

Lemma kp_svc_set_active (p : N) (b : bool) : keeps_pid_order p (svc_set_active p b).
Proof.
  intros g a g' _ Hok _ H. rewrite svc_set_active_ok in H. injection H as _ <-.
  destruct b, (linked p (svc_active_list g)); exact Hok.
Qed.

Lemma kp_svc_set_sigwake (p : N) (b : bool) :
  keeps_pid_order p (svc_set_sigwake p b).
Proof.
  unfold svc_set_sigwake.
  apply kp_bind; [apply keeps_update; reflexivity | apply kp_update; reflexivity|].
  intros _ g a g' _ Hok _ H. unfold bind, gets, modify, ret in H.
  destruct (b && negb (linked p (svc_sigwake_list g)));
    [|destruct (negb b && linked p (svc_sigwake_list g))];
    injection H as _ <-; exact Hok.
Qed.

(** [svc_change_pid] takes the record out of the index, and puts it
    back at the place of its new [pid]. *)
Lemma kp_svc_change_pid (p : N) (new_pid : Z) :
  keeps_pid_order p (svc_change_pid p new_pid).
Proof.
  intros g a g' Hinv Hok Hp H.
  pose proof Hinv as [(H1 & H2 & H3 & H4 & H5 & H6 & H7 & H8) _].
  destruct (H4 p Hp) as [s Hs].
  rewrite (svc_change_pid_ok g p s new_pid Hs) in H. injection H as _ Eg.
  assert (Hsp : the_svc g p = s) by (unfold the_svc; rewrite Hs; reflexivity).
  set (idx1 := if pid s =? 0 then svc_by_pid_index g
               else RBTreeNode_Prune (svc_by_pid_index g) p).
  assert (Hin1 : forall q, q ∈ elements idx1
                           <-> q ∈ elements (svc_by_pid_index g) /\ q <> p).
  { intros q. subst idx1. destruct (Z.eqb_spec (pid s) 0) as [E|E].
    - split; [|tauto]. intros Hq. split; [exact Hq|]. intros ->.
      apply H8 in Hq as [_ Hq]. rewrite Hsp in Hq. contradiction.
    - apply elem_of_Prune, H7. }
  assert (Emem : svc_mem g' = <[p := set_pid new_pid s]> (svc_mem g)).
  { rewrite <- Eg. cbv zeta. destruct (pid s =? 0), (new_pid =? 0); reflexivity. }
  assert (Eidx : svc_by_pid_index g'
                 = if new_pid =? 0 then idx1
                   else RBTree_Add (svc_by_pid_compare g' new_pid) idx1 p).
  { rewrite <- Eg at 1. rewrite <- Emem. subst idx1. rewrite <- Eg. cbv zeta.
    destruct (pid s =? 0), (new_pid =? 0); reflexivity. }
  assert (Hpidq : forall q, pid (the_svc g' q)
                            = if decide (q = p) then new_pid else pid (the_svc g q)).
  { intros q. unfold the_svc at 1. rewrite Emem.
    destruct (decide (q = p)) as [->|Hne].
    - rewrite lookup_insert_eq. reflexivity.
    - rewrite lookup_insert_ne by congruence. reflexivity. }
  assert (Hs1 : StronglySorted
                  (fun x y => pid (the_svc g' x) <= pid (the_svc g' y))
                  (elements idx1)).
  { assert (Hs0 : StronglySorted
                    (fun x y => pid (the_svc g x) <= pid (the_svc g y))
                    (elements idx1)).
    { subst idx1. destruct (pid s =? 0); [exact Hok|].
      rewrite elements_RBTreeNode_Prune by exact H7.
      apply StronglySorted_filter_ne, Hok. }
    eapply StronglySorted_impl_in; [|exact Hs0].
    intros x y Hx Hy. cbv beta. rewrite !Hpidq.
    apply Hin1 in Hx as [_ Hx]. apply Hin1 in Hy as [_ Hy].
    destruct (decide (x = p)); [contradiction|].
    destruct (decide (y = p)); [contradiction|]. auto. }
  unfold pid_index_ok. rewrite Eidx.
  destruct (new_pid =? 0); [exact Hs1|].
  apply (RBTree_Add_sorted (svc_by_pid_compare g' new_pid)
           (fun x y => pid (the_svc g' x) <= pid (the_svc g' y))).
  - intros x y z. cbv beta. lia.
  - exact Hs1.
  - intros x Hx. apply Hin1 in Hx as [Hx Hne].
    rewrite svc_by_pid_compare_live.
    2:{ rewrite Emem, lookup_insert_ne by congruence. apply H4, H8, Hx. }
    rewrite (Hpidq p). destruct (decide (p = p)); [|congruence].
    destruct (Z.ltb_spec new_pid (pid (the_svc g' x))) as [Hlt|Hge].
    + cbn. lia.
    + destruct (Z.gtb_spec new_pid (pid (the_svc g' x))); cbn; lia.
Qed.

Ltac kp_step :=
  first
    [ apply kp_ret
    | apply kp_gets
    | apply kp_throw
    | apply kp_deref
    | apply kp_svc_set_active
    | apply kp_svc_set_sigwake
    | apply kp_svc_change_pid
    | apply kp_update; reflexivity
    | apply kp_modify; intros ?; split; reflexivity
    | apply kp_when ].

Ltac kp_auto :=
  repeat match goal with
         | |- keeps_pid_order _ (if ?c then _ else _) => destruct c
         | |- keeps_pid_order _ (match ?x with _ => _ end) => destruct x
         | |- keeps_pid_order _ (let '(_, _) := ?x in _) => destruct x
         | |- keeps_pid_order _ (bind ?m _) =>
             apply kp_bind;
             [first [ apply keeps_svc_handle_start | apply keeps_svc_do_fork
                    | apply keeps_svc_set_var | repeat keeps_step ]
             | | intros ?]
         | |- _ => kp_step
         end.

Lemma kp_svc_notify_state (p : N) : keeps_pid_order p (svc_notify_state p).
Proof. unfold svc_notify_state. kp_auto. Qed.

Lemma kp_svc_check_sigwake (NSIG : Z) (p : N) :
  keeps_pid_order p (svc_check_sigwake NSIG p).
Proof. unfold svc_check_sigwake. kp_auto. Qed.

Lemma kp_svc_handle_start (p : N) (when : Z) :
  keeps_pid_order p (svc_handle_start p when).
Proof.
  unfold svc_handle_start.
  repeat match goal with
         | |- keeps_pid_order _ (if ?c then _ else _) => destruct c
         | |- keeps_pid_order _ (svc_notify_state _) => apply kp_svc_notify_state
         | |- keeps_pid_order _ (bind ?m _) =>
             apply kp_bind; [repeat keeps_step | | intros ?]
         | |- _ => kp_step
         end.
Qed.

Lemma kp_svc_cancel_start (p : N) : keeps_pid_order p (svc_cancel_start p).
Proof.
  unfold svc_cancel_start.
  repeat match goal with
         | |- keeps_pid_order _ (if ?c then _ else _) => destruct c
         | |- keeps_pid_order _ (svc_notify_state _) => apply kp_svc_notify_state
         | |- keeps_pid_order _ (bind ?m _) =>
             apply kp_bind; [repeat keeps_step | | intros ?]
         | |- _ => kp_step
         end.
Qed.

Lemma kp_svc_handle_reaped (p : N) (wstat : Z) :
  keeps_pid_order p (svc_handle_reaped p wstat).
Proof. unfold svc_handle_reaped. kp_auto. Qed.

Lemma kp_svc_do_fork (p : N) : keeps_pid_order p (svc_do_fork p).
Proof.
  unfold svc_do_fork. apply kp_bind; [apply keeps_deref | apply kp_deref|].
  intros s. apply kp_bind; [apply keeps_gets | apply kp_gets|]. intros ls.
  apply kp_bind; [apply keeps_modify; frame_tac
                 | apply kp_modify; intros ?; split; reflexivity|].
  intros _. cbv zeta. kp_auto.
Qed.

Lemma kp_svc_run (FORK_RETRY_DELAY NSIG : Z) (fuel : nat) (p : N) :
  keeps_pid_order p (svc_run FORK_RETRY_DELAY NSIG fuel p).
Proof.
  induction fuel as [|fuel IH]; cbn [svc_run]; [apply kp_throw|].
  apply kp_bind; [apply keeps_deref | apply kp_deref|]. intros s.
  apply kp_bind; [apply keeps_gets | apply kp_gets|]. intros now.
  repeat match goal with
         | |- keeps_pid_order _ (if ?c then _ else _) => destruct c
         | |- keeps_pid_order _ (svc_run _ _ _ _) => exact IH
         | |- keeps_pid_order _ (svc_handle_start _ _) => apply kp_svc_handle_start
         | |- keeps_pid_order _ (svc_do_fork _) => apply kp_svc_do_fork
         | |- keeps_pid_order _ (svc_notify_state _) => apply kp_svc_notify_state
         | |- keeps_pid_order _ (svc_check_sigwake _ _) =>
             apply kp_svc_check_sigwake
         | |- keeps_pid_order _ (bind ?m _) =>
             apply kp_bind;
             [first [ apply keeps_svc_handle_start | apply keeps_svc_do_fork
                    | apply keeps_svc_notify_state
                    | apply keeps_svc_check_sigwake
                    | destruct (auto_restart s);
                      [apply keeps_ret | apply keeps_svc_check_sigwake]
                    | match goal with
                      | |- keeps _ (if ?c then _ else _) =>
                          destruct c; repeat first
                            [ apply keeps_svc_handle_start
                            | apply keeps_svc_notify_state | keeps_step ]
                      end
                    | repeat keeps_step ]
             | | intros ?]
         | |- _ => kp_step
         end.
Qed.

Section SettersPid.
Variable NAME_BUF_SIZE : Z.
Variable NAME_BUF_OFFSET : Z.
Variable sig_num_by_name : list char -> Z.
Variable NSIG : Z.
Variable fresh_byte : char.

Lemma kp_svc_set_var (ok : bool) (p : N) (name : strseg_t)
    (value : option strseg_t) :
  keeps_pid_order p (svc_set_var NAME_BUF_SIZE NAME_BUF_OFFSET fresh_byte ok p name value).
Proof.
  unfold svc_set_var. apply kp_bind; [apply keeps_deref | apply kp_deref|].
  intros s. apply kp_bind; [apply keeps_gets | apply kp_gets|]. intros pool.
  apply kp_bind; [apply keeps_gets | apply kp_gets|]. intros size_each. cbv zeta.
  destruct (find_var _ _ _ _) as [[found oldval] tail]. kp_auto.
Qed.

Lemma kp_svc_set_fds (ok : bool) (p : N) (seg : strseg_t) :
  keeps_pid_order p (svc_set_fds NAME_BUF_SIZE NAME_BUF_OFFSET fresh_byte ok p seg).
Proof.
  unfold svc_set_fds. cbv zeta. apply kp_bind.
  - destruct (strseg_cmp _ _ =? 0); [|apply keeps_svc_set_var].
    apply keeps_bind; [apply keeps_svc_set_var|]. intros _. apply keeps_ret.
  - destruct (strseg_cmp _ _ =? 0); [|apply kp_svc_set_var].
    apply kp_bind; [apply keeps_svc_set_var | apply kp_svc_set_var|].
    intros _. apply kp_ret.
  - intros r. destruct (negb r); [apply kp_ret|].
    destruct (scan_fds _ _ _ _ _) as [[e c] k]. kp_auto.
Qed.

Lemma kp_svc_set_restart_interval (p : N) (interval : Z) :
  keeps_pid_order p (svc_set_restart_interval p interval).
Proof. unfold svc_set_restart_interval. kp_auto. Qed.

Lemma kp_svc_set_triggers (ok : bool) (p : N) (seg : strseg_t) :
  keeps_pid_order p
    (svc_set_triggers NAME_BUF_SIZE NAME_BUF_OFFSET sig_num_by_name NSIG fresh_byte ok p seg).
Proof.
  unfold svc_set_triggers.
  destruct (parse_triggers _ _ _ _ _ _ _) as [[[autostart enable_sigs] sigs]|];
    [|apply kp_ret].
  apply kp_bind; [apply keeps_svc_set_var | apply kp_svc_set_var|]. intros r.
  destruct (negb r); [apply kp_ret|].
  apply kp_bind; [apply keeps_update; reflexivity | apply kp_update; reflexivity|].
  intros _.
  apply kp_bind; [apply keeps_update; reflexivity | apply kp_update; reflexivity|].
  intros _.
  apply kp_bind; [apply keeps_svc_set_sigwake | apply kp_svc_set_sigwake|].
  intros _.
  apply kp_bind; [apply keeps_deref | apply kp_deref|]. intros s.
  apply kp_bind.
  - destruct (auto_restart s); [apply keeps_ret | apply keeps_svc_check_sigwake].
  - destruct (auto_restart s); [apply kp_ret | apply kp_svc_check_sigwake].
  - intros pending. apply kp_bind.
    + destruct pending; [|apply keeps_ret].
      apply keeps_bind; [apply keeps_gets|]. intros now.
      apply keeps_bind; [apply keeps_svc_handle_start|]. intros _. apply keeps_ret.
    + destruct pending; [|apply kp_ret].
      apply kp_bind; [apply keeps_gets | apply kp_gets|]. intros now.
      apply kp_bind; [apply keeps_svc_handle_start | apply kp_svc_handle_start|].
      intros _. apply kp_ret.
    + intros _. apply kp_ret.
Qed.

End SettersPid.

Lemma for_each_pid_order (l : list N) (body : N -> M unit) :
  (forall p, keeps p (body p)) -> (forall p, keeps_pid_order p (body p)) ->
  forall g a g', core_inv g -> pid_index_ok g -> (forall p, p ∈ l -> p ∈ live g) ->
                 for_each l body g = Ok a g' -> pid_index_ok g'.
Proof.
  intros Hk Hn. induction l as [|p l IH]; intros g a g' Hinv Hok Hl H.
  - injection H as _ <-. exact Hok.
  - cbn [for_each] in H. unfold bind in H.
    destruct (body p g) as [u g1|] eqn:E; [|discriminate].
    destruct (Hk p g u g1 Hinv ltac:(apply Hl; left) E) as [Hinv1 Hl1].
    apply (IH g1 a g' Hinv1); [|
      intros q Hq; rewrite Hl1; apply Hl; right; exact Hq | exact H].
    apply (Hn p g u g1 Hinv Hok ltac:(apply Hl; left) E).
Qed.

Lemma kp_wake_by_signal (NSIG signum : Z) (p : N) :
  keeps_pid_order p (wake_by_signal NSIG signum p).
Proof.
  unfold wake_by_signal. apply kp_bind; [apply keeps_deref | apply kp_deref|].
  intros s.
  destruct (negb (sigismember NSIG (autostart_signals s) signum =? 0));
    [|apply kp_ret].
  apply kp_bind; [apply keeps_gets | apply kp_gets|]. intros now.
  apply kp_bind; [apply keeps_svc_handle_start | apply kp_svc_handle_start|].
  intros _. apply kp_ret.
Qed.

Lemma signal_sweep_pid_order (NSIG : Z) (fuel : nat) :
  forall g a g', core_inv g -> pid_index_ok g ->
                 signal_sweep NSIG fuel g = Ok a g' -> pid_index_ok g'.
Proof.
  induction fuel as [|fuel IH]; intros g a g' Hinv Hok H; cbn [signal_sweep] in H.
  - injection H as _ <-. exact Hok.
  - unfold bind at 1 2, gets at 1 2 in H.
    destruct (sig_get_new_events (sig_events g) (svc_last_signal_ts g)) as [e|].
    2:{ injection H as _ <-. exact Hok. }
    unfold bind at 1, gets at 1 in H. unfold bind at 1 in H.
    destruct (for_each (svc_sigwake_list g) (wake_by_signal NSIG (ev_signum e)) g)
      as [u g1|] eqn:E; [|discriminate].
    destruct (keeps_for_each _ _ (keeps_wake_by_signal NSIG (ev_signum e))
                g u g1 Hinv (proj2 (proj2 Hinv)) E) as [Hinv1 _].
    pose proof (for_each_pid_order _ _ (keeps_wake_by_signal NSIG (ev_signum e))
                  (kp_wake_by_signal NSIG (ev_signum e)) g u g1 Hinv Hok
                  (proj2 (proj2 Hinv)) E) as Hok1.
    unfold bind at 1, modify at 1 in H.
    apply (IH _ a g' (core_inv_put_last_signal_ts (ev_ts e) g1 Hinv1)); [|exact H].
    exact Hok1.
Qed.

Lemma svc_run_active_pid_order (FORK_RETRY_DELAY NSIG : Z) (fuel : nat) :
  forall g a g', core_inv g -> pid_index_ok g ->
                 svc_run_active FORK_RETRY_DELAY NSIG fuel g = Ok a g' ->
                 pid_index_ok g'.
Proof.
  intros g a g' Hinv Hok H. unfold svc_run_active in H.
  unfold bind at 1 2, gets at 1 2 in H. unfold bind at 1 in H.
  destruct (when_ _ _ g) as [[] g1|] eqn:E; [|discriminate].
  assert (H1 : core_inv g1 /\ pid_index_ok g1).
  { unfold when_ in E. destruct (negb (bool_decide (svc_sigwake_list g = []))).
    - split; [apply (signal_sweep_inv _ _ _ _ _ Hinv E)
             | apply (signal_sweep_pid_order _ _ _ _ _ Hinv Hok E)].
    - injection E as <-. auto. }
  destruct H1 as [Hinv1 Hok1].
  unfold bind at 1, gets at 1 in H.
  apply (for_each_pid_order _ _ (keeps_svc_run FORK_RETRY_DELAY NSIG fuel)
           (kp_svc_run FORK_RETRY_DELAY NSIG fuel) g1 a g' Hinv1 Hok1
           (proj1 (proj2 Hinv1)) H).
Qed.

Section PidOrder.
Variable NAME_BUF_SIZE : Z.
Variable FORK_RETRY_DELAY : Z.
Variable NAME_BUF_OFFSET : Z.
Variable SIZEOF_SERVICE : Z.
Variable sig_num_by_name : list char -> Z.
Variable NSIG : Z.
Variable fresh_byte : char.

Lemma run_op_pid_order (o : op) (g : core) (a : unit) (g' : core) :
  core_inv g -> pid_index_ok g -> op_allowed g o ->
  run_op NAME_BUF_SIZE FORK_RETRY_DELAY NAME_BUF_OFFSET sig_num_by_name NSIG
         fresh_byte o g = Ok a g' ->
  pid_index_ok g'.
Proof.
  intros Hinv Hok Hallow H.
  pose proof Hinv as [(H1 & H2 & H3 & H4 & H5 & H6 & H7 & H8) _].
  destruct o as [al name|p|p when|p|p wstat|p new_pid|fuel p|fuel
                 |ok p name value|ok p seg|ok p seg|ok p seg|p interval
                 |ok p seg|p on];
    cbn [run_op op_allowed] in *.
  - unfold bind in H.
    destruct (svc_by_name _ _ _ _ g) as [r g1|] eqn:E; [|discriminate].
    injection H as _ <-. unfold svc_by_name in E.
    unfold bind at 1, gets at 1 in E. cbv zeta in E. cbn [id] in E.
    destruct (Relation _ =? 0); [injection E as _ <-; exact Hok|].
    destruct (true && svc_check_name NAME_BUF_SIZE name);
      [|injection E as _ <-; exact Hok].
    destruct (svc_new_inv NAME_BUF_SIZE al name g r g1 Hinv Hallow E)
      as [_ Hcr].
    destruct r as [svc|].
    + destruct Hcr as (Hnew & _ & _ & Hothers & _ & Hidx).
      apply (pid_index_ok_eq g g1 Hidx); [|exact Hok].
      intros q Hq. unfold the_svc. rewrite Hothers; [reflexivity|].
      intros ->. apply Hnew, H8, Hq.
    + destruct Hcr as (_ & Hmem & _ & Hidx).
      apply (pid_index_ok_eq g g1 Hidx); [|exact Hok].
      intros q _. unfold the_svc. rewrite Hmem. reflexivity.
  - destruct (svc_delete_inv g p a g' Hinv Hallow H)
      as (_ & _ & Hsvc & _ & _ & Hidx).
    unfold pid_index_ok. rewrite Hidx.
    assert (Hs0 : StronglySorted
                    (fun x y => pid (the_svc g x) <= pid (the_svc g y))
                    (elements (if pid (the_svc g p) =? 0 then svc_by_pid_index g
                               else RBTreeNode_Prune (svc_by_pid_index g) p))).
    { destruct (pid (the_svc g p) =? 0); [exact Hok|].
      rewrite elements_RBTreeNode_Prune by exact H7.
      apply StronglySorted_filter_ne, Hok. }
    assert (Hne : forall q,
              q ∈ elements (if pid (the_svc g p) =? 0 then svc_by_pid_index g
                            else RBTreeNode_Prune (svc_by_pid_index g) p) ->
              q <> p).
    { intros q Hq. destruct (Z.eqb_spec (pid (the_svc g p)) 0) as [E|E].
      - intros ->. apply H8 in Hq as [_ Hq]. contradiction.
      - apply elem_of_Prune in Hq as [_ Hq]; [exact Hq | exact H7]. }
    eapply StronglySorted_impl_in; [|exact Hs0].
    intros x y Hx Hy. cbv beta.
    rewrite !Hsvc by (apply Hne; assumption). auto.
  - eapply (kp_bind p _ _ (keeps_svc_handle_start p when)
              (kp_svc_handle_start p when) (fun _ => kp_ret p tt)); eassumption.
  - eapply (kp_bind p _ _ (keeps_svc_cancel_start p)
              (kp_svc_cancel_start p) (fun _ => kp_ret p tt)); eassumption.
  - eapply (kp_svc_handle_reaped p wstat); eassumption.
  - eapply (kp_svc_change_pid p new_pid); eassumption.
  - eapply (kp_svc_run FORK_RETRY_DELAY NSIG fuel p); eassumption.
  - eapply (svc_run_active_pid_order FORK_RETRY_DELAY NSIG fuel); eassumption.
  - eapply (kp_bind p _ _ (keeps_svc_set_var _ _ _ ok p name value)
              (kp_svc_set_var _ _ _ ok p name value) (fun _ => kp_ret p tt));
      eassumption.
  - eapply (kp_bind p _ _ (keeps_svc_set_tags _ _ _ ok p seg)
              (kp_svc_set_var _ _ _ ok p _ _) (fun _ => kp_ret p tt)); eassumption.
  - eapply (kp_bind p _ _ (keeps_svc_set_argv _ _ _ ok p seg)
              (kp_svc_set_var _ _ _ ok p _ _) (fun _ => kp_ret p tt)); eassumption.
  - eapply (kp_bind p _ _ (keeps_svc_set_fds _ _ _ ok p seg)
              (kp_svc_set_fds _ _ _ ok p seg) (fun _ => kp_ret p tt)); eassumption.
  - eapply (kp_bind p _ _ (keeps_svc_set_restart_interval p interval)
              (kp_svc_set_restart_interval p interval) (fun _ => kp_ret p tt));
      eassumption.
  - eapply (kp_bind p _ _ (keeps_svc_set_triggers _ _ _ _ _ ok p seg)
              (kp_svc_set_triggers _ _ _ _ _ ok p seg) (fun _ => kp_ret p tt));
      eassumption.
  - eapply (kp_svc_set_sigwake p on); eassumption.
Qed.

Lemma reachable_pid_index_ok (g : core) :
  reachable NAME_BUF_SIZE FORK_RETRY_DELAY NAME_BUF_OFFSET SIZEOF_SERVICE
            sig_num_by_name NSIG fresh_byte g ->
  pid_index_ok g.
Proof.
  induction 1 as [now evs ls|now evs ls base count dsize Hs Hd
                  |g now next evs ls _ IH|g o a g' Hr IH Hok Hrun].
  - constructor.
  - constructor.
  - exact IH.
  - apply (run_op_pid_order o g a g'); try assumption.
    apply (reachable_core_inv _ _ _ _ _ _ _ g Hr).
Qed.

(** X22: in a state that satisfies the invariant of the module and
    whose PID index holds its records in the order of their [pid],
    [svc_by_pid] returns a live record whose [pid] is the one asked
    for, and it returns one whenever a live record has that [pid] and
    the [pid] is not 0; it returns none for 0. *)
Theorem svc_by_pid_finds (g : core) (key : Z) :
  core_inv g -> pid_index_ok g ->
  (forall p, svc_by_pid g key = Some p ->
             p ∈ live g /\ pid (the_svc g p) = key /\ key <> 0) /\
  (forall p, p ∈ live g -> pid (the_svc g p) = key -> key <> 0 ->
             exists q, svc_by_pid g key = Some q).
Proof.
  intros Hinv Hok.
  pose proof Hinv as [(H1 & H2 & H3 & H4 & H5 & H6 & H7 & H8) _].
  assert (Hcmp : forall x, x ∈ elements (svc_by_pid_index g) ->
            svc_by_pid_compare g key x
            = (if key <? pid (the_svc g x) then -1
               else if key >? pid (the_svc g x) then 1 else 0)).
  { intros x Hx. apply svc_by_pid_compare_live, H4, H8, Hx. }
  split.
  - intros p Hfind. unfold svc_by_pid in Hfind. cbv zeta in Hfind.
    destruct (Z.eqb_spec (Relation (RBTree_Find (svc_by_pid_compare g key)
                                      (svc_by_pid_index g))) 0) as [Hrel|Hrel];
      [|discriminate].
    unfold RBTree_Find in Hfind, Hrel.
    destruct (RBTree_Find_from_elem _ _ _ _ Hfind) as [Hp|Hp]; [|discriminate].
    pose proof (proj1 (H8 p) Hp) as [Hlive Hpid]. split; [exact Hlive|].
    destruct (RBTree_Find_from_relation _ _ _ _ Hfind) as [E|E].
    + rewrite E, (Hcmp p Hp) in Hrel.
      destruct (Z.ltb_spec key (pid (the_svc g p))); [discriminate|].
      destruct (Z.gtb_spec key (pid (the_svc g p))); [discriminate|].
      split; lia.
    + rewrite E in Hfind. discriminate.
  - intros p Hlive Hpid Hkey.
    assert (Hp : p ∈ elements (svc_by_pid_index g)).
    { apply H8. split; [exact Hlive | lia]. }
    (* the search, with the comparison written on the pids *)
    set (cmp := fun x => if key <? pid (the_svc g x) then -1
                         else if key >? pid (the_svc g x) then 1 else 0).
    assert (Efind : RBTree_Find (svc_by_pid_compare g key) (svc_by_pid_index g)
                    = RBTree_Find cmp (svc_by_pid_index g)).
    { unfold RBTree_Find. apply RBTree_Find_from_ext. exact Hcmp. }
    destruct (RBTree_Find_from_ties cmp
                (fun x y => pid (the_svc g x) <= pid (the_svc g y)))
      with (t := svc_by_pid_index g) (acc := {| Nearest := None; Relation := -1 |})
      as (n & Hn & _).
    + intros x y. subst cmp. cbv beta.
      destruct (Z.ltb_spec key (pid (the_svc g x))); [lia|].
      destruct (Z.gtb_spec key (pid (the_svc g x))); [|lia].
      destruct (Z.ltb_spec key (pid (the_svc g y))); [lia|].
      destruct (Z.gtb_spec key (pid (the_svc g y))); lia.
    + intros x y. subst cmp. cbv beta.
      destruct (Z.ltb_spec key (pid (the_svc g x))).
      * destruct (Z.ltb_spec key (pid (the_svc g y))); lia.
      * destruct (Z.gtb_spec key (pid (the_svc g x))); lia.
    + exact Hok.
    + exists p. split; [exact Hp|]. subst cmp. cbv beta. rewrite Hpid.
      rewrite Z.ltb_irrefl.
      destruct (Z.gtb_spec key key); [lia | reflexivity].
    + exists n. unfold svc_by_pid. cbv zeta. rewrite Efind.
      unfold RBTree_Find. rewrite Hn. reflexivity.
Qed.

End PidOrder.

Lemma sample_run_3_reachable :
  reachable 64 (Z.shiftl 10 32) 4 200 sample_sig_num_by_name 65 0 sample_run_3.
Proof.
  apply (reach_step _ _ _ _ _ _ _ sample_run_2 (op_tick 3) tt).
  - exact sample_run_reachable.
  - exact I.
  - vm_compute. reflexivity.
Defined.

Lemma svc_by_pid_finds_witness :
  (forall p, svc_by_pid sample_run_3 4242 = Some p ->
             p ∈ live sample_run_3 /\ pid (the_svc sample_run_3 p) = 4242
             /\ 4242 <> 0) /\
  (forall p, p ∈ live sample_run_3 -> pid (the_svc sample_run_3 p) = 4242 ->
             4242 <> 0 -> exists q, svc_by_pid sample_run_3 4242 = Some q).
Proof.
  apply (svc_by_pid_finds sample_run_3 4242).
  - apply (reachable_core_inv _ _ _ _ _ _ _ _ sample_run_3_reachable).
  - apply (reachable_pid_index_ok _ _ _ _ _ _ _ _ sample_run_3_reachable).
Defined.

(* ===================================================================== *)
(** * Properties that every live record keeps *)
(* ===================================================================== *)

(** The shape of the state [svc_set_var] returns: nothing has changed,
    or the buffer of the record has been replaced, by one that in a
    pool is not longer than the old one or ends within [name_buf]. *)
Lemma svc_set_var_shape (NAME_BUF_SIZE NAME_BUF_OFFSET : Z) (fresh_byte : char)
    (ok : bool) (svc : N) (name : strseg_t) (value : option strseg_t)
    (g : core) (b : bool) (g' : core) :
  svc_set_var NAME_BUF_SIZE NAME_BUF_OFFSET fresh_byte ok svc name value g
  = Ok b g' ->
  g' = g \/
  exists s buf l,
    svc_mem g !! svc = Some s /\
    g' = put_mem (<[svc := set_vars buf l s]> (svc_mem g)) g /\
    (svc_pool g = true ->
     l <= vars_len s \/ l <= name_buf_room NAME_BUF_SIZE s).
Proof.
  unfold svc_set_var. unfold_monad.
  destruct (svc_mem g !! svc) as [s|] eqn:Hs; [|discriminate].
  destruct (find_var _ _ _ _) as [[found oldval] tail].
  match goal with |- context [match ?room with Some _ => _ | None => _ end] =>
    destruct room as [buf|] end.
  2:{ intros [= _ <-]. left. reflexivity. }
  match goal with |- context [if ?c then _ else _] =>
    destruct c eqn:Ec end; [discriminate|].
  intros H. right.
  assert (Hb : svc_pool g = true ->
               vars_len s
               + (if found
                  then match value with
                       | Some v => len v - len oldval
                       | None => - (len oldval + 1 + len name + 1)
                       end
                  else match value with
                       | Some v => len name + 1 + len v + 1
                       | None => 0
                       end) <= vars_len s
               \/ vars_len s
                  + (if found
                     then match value with
                          | Some v => len v - len oldval
                          | None => - (len oldval + 1 + len name + 1)
                          end
                     else match value with
                          | Some v => len name + 1 + len v + 1
                          | None => 0
                          end) <= name_buf_room NAME_BUF_SIZE s).
  { intros Hpool. rewrite Hpool in Ec. cbn [andb] in Ec. unfold name_buf_room.
    apply andb_false_iff in Ec as [Ec|Ec].
    - left. destruct (Z.gtb_spec
                        (if found
                         then match value with
                              | Some v => len v - len oldval
                              | None => - (len oldval + 1 + len name + 1)
                              end
                         else match value with
                              | Some v => len name + 1 + len v + 1
                              | None => 0
                              end) 0); [discriminate | lia].
    - right. match type of Ec with (?a >? ?b) = false =>
        destruct (Z.gtb_spec a b); [discriminate | lia] end. }
  destruct found, value; cbn in H; rewrite Hs in H; injection H as _ <-;
    eexists s, _, _; (split; [reflexivity|]); (split; [reflexivity | exact Hb]).
Qed.

(** Creation and deletion do not change whether there is a pool. *)
Lemma sp_ret {A} (a : A) : pres same_pool (ret a).
Proof. intros g a' g' [= _ <-]. reflexivity. Qed.

Lemma sp_gets {A} (f : core -> A) : pres same_pool (gets f).
Proof. intros g a' g' [= _ <-]. reflexivity. Qed.

Lemma sp_deref (q : N) : pres same_pool (deref q).
Proof.
  intros g a' g' H. unfold deref in H.
  destruct (svc_mem g !! q); [|discriminate]. injection H as _ <-. reflexivity.
Qed.

Lemma sp_update (q : N) (f : service_t -> service_t) : pres same_pool (update q f).
Proof.
  intros g a' g' H. unfold update in H.
  destruct (svc_mem g !! q); [|discriminate]. injection H as _ <-. reflexivity.
Qed.

Lemma sp_modify (f : core -> core) :
  (forall g, svc_pool (f g) = svc_pool g) -> pres same_pool (modify f).
Proof. intros Hf g a g' [= _ <-]. apply Hf. Qed.

Lemma sp_bind {A B} (m : M A) (k : A -> M B) :
  pres same_pool m -> (forall a, pres same_pool (k a)) ->
  pres same_pool (bind m k).
Proof.
  intros Hm Hk g b g' H. unfold bind in H.
  destruct (m g) as [a g1|] eqn:E; [|discriminate].
  unfold same_pool. rewrite (Hk a g1 b g' H). apply (Hm g a g1 E).
Qed.

Ltac sp_auto :=
  repeat match goal with
         | |- pres same_pool (if ?c then _ else _) => destruct c
         | |- pres same_pool (match ?x with _ => _ end) => destruct x
         | |- pres same_pool (when_ ?b _) => unfold when_
         | |- pres same_pool (bind _ _) => apply sp_bind; [|intros ?]
         | |- pres same_pool (ret _) => apply sp_ret
         | |- pres same_pool (gets _) => apply sp_gets
         | |- pres same_pool (deref _) => apply sp_deref
         | |- pres same_pool (update _ _) => apply sp_update
         | |- pres same_pool (modify _) => apply sp_modify; intros ?; reflexivity
         end.

Lemma sp_svc_new (NAME_BUF_SIZE : Z) (a : alloc) (name : strseg_t) :
  pres same_pool (svc_new NAME_BUF_SIZE a name).
Proof. unfold svc_new, svc_list_resize, svc_ctor. sp_auto. Qed.

Lemma sp_svc_delete (svc : N) : pres same_pool (svc_delete svc).
Proof.
  unfold svc_delete, svc_dtor, svc_set_active, svc_set_sigwake. sp_auto.
Qed.

Ltac state_disj :=
  first [ left; reflexivity
        | right; left; reflexivity
        | right; right; left; reflexivity
        | right; right; right; reflexivity ].

Section RecordInvariant.
Variable Q : bool -> service_t -> Prop.
Hypothesis Q_state : forall b s v, state_ok v -> Q b s -> Q b (set_state v s).
Hypothesis Q_ext : forall b s s',
  state s' = state s -> name_buf s' = name_buf s -> vars_len s' = vars_len s ->
  Q b s -> Q b s'.

Lemma recs_ok_eq (g g' : core) :
  live g' = live g -> svc_pool g' = svc_pool g ->
  (forall q, q ∈ live g -> Q (svc_pool g) (the_svc g q) ->
             Q (svc_pool g) (the_svc g' q)) ->
  recs_ok Q g -> recs_ok Q g'.
Proof.
  intros Hl Hpool Hsame Hok q Hq. rewrite Hl in Hq. rewrite Hpool.
  apply Hsame; [exact Hq|]. apply Hok, Hq.
Qed.

Lemma kr_ret (p : N) {A} (a : A) : keeps_recs Q p (ret a).
Proof. intros g a' g' _ Hok _ [= _ <-]. exact Hok. Qed.

Lemma kr_gets (p : N) {A} (f : core -> A) : keeps_recs Q p (gets f).
Proof. intros g a' g' _ Hok _ [= _ <-]. exact Hok. Qed.

Lemma kr_throw (p : N) {A} (e : abort) : keeps_recs Q p (throw (A := A) e).
Proof. intros g a' g' _ _ _ H. discriminate H. Qed.

Lemma kr_deref (p q : N) : keeps_recs Q p (deref q).
Proof.
  intros g a' g' _ Hok _ H. unfold deref in H.
  destruct (svc_mem g !! q); [|discriminate]. injection H as _ <-. exact Hok.
Qed.

Lemma kr_bind (p : N) {A B} (m : M A) (k : A -> M B) :
  keeps p m -> keeps_recs Q p m -> (forall a, keeps_recs Q p (k a)) ->
  keeps_recs Q p (bind m k).
Proof.
  intros Hk Hm Hka g b g' Hinv Hok Hp H. unfold bind in H.
  destruct (m g) as [a g1|] eqn:E; [|discriminate].
  destruct (Hk g a g1 Hinv Hp E) as [Hinv1 Hl1].
  apply (Hka a g1 b g' Hinv1 (Hm g a g1 Hinv Hok Hp E)); [|exact H].
  rewrite Hl1. exact Hp.
Qed.

Lemma kr_when (p : N) (b : bool) (m : M unit) :
  keeps_recs Q p m -> keeps_recs Q p (when_ b m).
Proof. intros Hm. destruct b; [exact Hm | apply kr_ret]. Qed.

Lemma kr_modify (p : N) (f : core -> core) :
  (forall g, svc_mem (f g) = svc_mem g /\ svc_list (f g) = svc_list g /\
             svc_list_count (f g) = svc_list_count g /\
             svc_pool (f g) = svc_pool g) ->
  keeps_recs Q p (modify f).
Proof.
  intros Hf g a g' _ Hok _ H. unfold modify in H. injection H as _ <-.
  destruct (Hf g) as (Hm & Hl & Hc & Hpool).
  apply (recs_ok_eq g); [apply live_eq; assumption | exact Hpool | | exact Hok].
  intros q _. unfold the_svc. rewrite Hm. auto.
Qed.

Lemma kr_update (p : N) (f : service_t -> service_t) :
  (forall b s, Q b s -> Q b (f s)) -> keeps_recs Q p (update p f).
Proof.
  intros Hf g a g' _ Hok Hp H. unfold update in H.
  destruct (svc_mem g !! p) as [s|] eqn:Hs; [|discriminate]. injection H as _ <-.
  apply (recs_ok_eq g); [reflexivity | reflexivity | | exact Hok].
  intros q _. rewrite the_svc_insert. destruct (decide (q = p)) as [->|]; [|auto].
  unfold the_svc. rewrite Hs. apply Hf.
Qed.

Lemma kr_svc_set_active (p : N) (b : bool) : keeps_recs Q p (svc_set_active p b).
Proof.
  intros g a g' _ Hok _ H. rewrite svc_set_active_ok in H. injection H as _ <-.
  destruct b, (linked p (svc_active_list g)); exact Hok.
Qed.

Ltac rec_side :=
  intros ? ? ?;
  first [ apply Q_state; [state_disj | assumption]
        | eapply Q_ext; [| | | eassumption]; reflexivity ].

Lemma kr_svc_set_sigwake (p : N) (b : bool) : keeps_recs Q p (svc_set_sigwake p b).
Proof.
  unfold svc_set_sigwake.
  apply kr_bind; [apply keeps_update; reflexivity | apply kr_update; rec_side|].
  intros _ g a g' _ Hok _ H. unfold bind, gets, modify, ret in H.
  destruct (b && negb (linked p (svc_sigwake_list g)));
    [|destruct (negb b && linked p (svc_sigwake_list g))];
    injection H as _ <-; exact Hok.
Qed.

Lemma kr_svc_change_pid (p : N) (new_pid : Z) :
  keeps_recs Q p (svc_change_pid p new_pid).
Proof.
  intros g a g' Hinv Hok Hp H.
  pose proof Hinv as [(_ & _ & _ & H4 & _) _].
  destruct (H4 p Hp) as [s Hs].
  rewrite (svc_change_pid_ok g p s new_pid Hs) in H. injection H as _ Eg.
  assert (Emem : svc_mem g' = <[p := set_pid new_pid s]> (svc_mem g)).
  { rewrite <- Eg. cbv zeta. destruct (pid s =? 0), (new_pid =? 0); reflexivity. }
  apply (recs_ok_eq g); [| | | exact Hok].
  - rewrite <- Eg. cbv zeta. destruct (pid s =? 0), (new_pid =? 0); reflexivity.
  - rewrite <- Eg. cbv zeta. destruct (pid s =? 0), (new_pid =? 0); reflexivity.
  - intros q _. unfold the_svc at 2. rewrite Emem.
    destruct (decide (q = p)) as [->|Hne].
    + rewrite lookup_insert_eq. unfold the_svc. rewrite Hs. cbn [default].
      apply Q_ext; reflexivity.
    + rewrite lookup_insert_ne by congruence. auto.
Qed.

Ltac kr_step :=
  first
    [ apply kr_ret
    | apply kr_gets
    | apply kr_throw
    | apply kr_deref
    | apply kr_svc_set_active
    | apply kr_svc_set_sigwake
    | apply kr_svc_change_pid
    | apply kr_update; rec_side
    | apply kr_modify; intros ?; repeat split; reflexivity
    | apply kr_when ].

Ltac kr_auto :=
  repeat match goal with
         | |- keeps_recs _ _ (if ?c then _ else _) => destruct c
         | |- keeps_recs _ _ (match ?x with _ => _ end) => destruct x
         | |- keeps_recs _ _ (let '(_, _) := ?x in _) => destruct x
         | |- keeps_recs _ _ (bind ?m _) =>
             apply kr_bind;
             [first [ apply keeps_svc_handle_start | apply keeps_svc_do_fork
                    | apply keeps_svc_set_var | repeat keeps_step ]
             | | intros ?]
         | |- _ => kr_step
         end.

Lemma kr_svc_notify_state (p : N) : keeps_recs Q p (svc_notify_state p).
Proof. unfold svc_notify_state. kr_auto. Qed.

Lemma kr_svc_check_sigwake (NSIG : Z) (p : N) :
  keeps_recs Q p (svc_check_sigwake NSIG p).
Proof. unfold svc_check_sigwake. kr_auto. Qed.

Lemma kr_svc_handle_start (p : N) (when : Z) :
  keeps_recs Q p (svc_handle_start p when).
Proof.
  unfold svc_handle_start.
  repeat match goal with
         | |- keeps_recs _ _ (if ?c then _ else _) => destruct c
         | |- keeps_recs _ _ (svc_notify_state _) => apply kr_svc_notify_state
         | |- keeps_recs _ _ (bind ?m _) =>
             apply kr_bind; [repeat keeps_step | | intros ?]
         | |- _ => kr_step
         end.
Qed.

Lemma kr_svc_cancel_start (p : N) : keeps_recs Q p (svc_cancel_start p).
Proof.
  unfold svc_cancel_start.
  repeat match goal with
         | |- keeps_recs _ _ (if ?c then _ else _) => destruct c
         | |- keeps_recs _ _ (svc_notify_state _) => apply kr_svc_notify_state
         | |- keeps_recs _ _ (bind ?m _) =>
             apply kr_bind; [repeat keeps_step | | intros ?]
         | |- _ => kr_step
         end.
Qed.

Lemma kr_svc_handle_reaped (p : N) (wstat : Z) :
  keeps_recs Q p (svc_handle_reaped p wstat).
Proof. unfold svc_handle_reaped. kr_auto. Qed.

Lemma kr_svc_do_fork (p : N) : keeps_recs Q p (svc_do_fork p).
Proof.
  unfold svc_do_fork. apply kr_bind; [apply keeps_deref | apply kr_deref|].
  intros s. apply kr_bind; [apply keeps_gets | apply kr_gets|]. intros ls.
  apply kr_bind; [apply keeps_modify; frame_tac
                 | apply kr_modify; intros ?; repeat split; reflexivity|].
  intros _. cbv zeta. kr_auto.
Qed.

Lemma kr_svc_run (FORK_RETRY_DELAY NSIG : Z) (fuel : nat) (p : N) :
  keeps_recs Q p (svc_run FORK_RETRY_DELAY NSIG fuel p).
Proof.
  induction fuel as [|fuel IH]; cbn [svc_run]; [apply kr_throw|].
  apply kr_bind; [apply keeps_deref | apply kr_deref|]. intros s.
  apply kr_bind; [apply keeps_gets | apply kr_gets|]. intros now.
  repeat match goal with
         | |- keeps_recs _ _ (if ?c then _ else _) => destruct c
         | |- keeps_recs _ _ (svc_run _ _ _ _) => exact IH
         | |- keeps_recs _ _ (svc_handle_start _ _) => apply kr_svc_handle_start
         | |- keeps_recs _ _ (svc_do_fork _) => apply kr_svc_do_fork
         | |- keeps_recs _ _ (svc_notify_state _) => apply kr_svc_notify_state
         | |- keeps_recs _ _ (svc_check_sigwake _ _) => apply kr_svc_check_sigwake
         | |- keeps_recs _ _ (bind ?m _) =>
             apply kr_bind;
             [first [ apply keeps_svc_handle_start | apply keeps_svc_do_fork
                    | apply keeps_svc_notify_state
                    | apply keeps_svc_check_sigwake
                    | destruct (auto_restart s);
                      [apply keeps_ret | apply keeps_svc_check_sigwake]
                    | match goal with
                      | |- keeps _ (if ?c then _ else _) =>
                          destruct c; repeat first
                            [ apply keeps_svc_handle_start
                            | apply keeps_svc_notify_state | keeps_step ]
                      end
                    | repeat keeps_step ]
             | | intros ?]
         | |- _ => kr_step
         end.
Qed.

Section SettersRecords.
Variable NAME_BUF_SIZE : Z.
Variable NAME_BUF_OFFSET : Z.
Variable sig_num_by_name : list char -> Z.
Variable NSIG : Z.
Variable fresh_byte : char.
Hypothesis Q_vars : forall b s buf l,
  (b = true -> l <= vars_len s \/ l <= name_buf_room NAME_BUF_SIZE s) ->
  Q b s -> Q b (set_vars buf l s).

Lemma kr_svc_set_var (ok : bool) (p : N) (name : strseg_t)
    (value : option strseg_t) :
  keeps_recs Q p
    (svc_set_var NAME_BUF_SIZE NAME_BUF_OFFSET fresh_byte ok p name value).
Proof.
  intros g b g' _ Hok Hp H.
  destruct (svc_set_var_shape _ _ _ _ _ _ _ _ _ _ H)
    as [->|(s & buf & l & Hs & -> & Hb)]; [exact Hok|].
  apply (recs_ok_eq g); [reflexivity | reflexivity | | exact Hok].
  intros q _. rewrite the_svc_insert. destruct (decide (q = p)) as [->|]; [|auto].
  unfold the_svc. rewrite Hs. cbn [default]. apply Q_vars, Hb.
Qed.

Lemma kr_svc_set_fds (ok : bool) (p : N) (seg : strseg_t) :
  keeps_recs Q p
    (svc_set_fds NAME_BUF_SIZE NAME_BUF_OFFSET fresh_byte ok p seg).
Proof.
  unfold svc_set_fds. cbv zeta. apply kr_bind.
  - destruct (strseg_cmp _ _ =? 0); [|apply keeps_svc_set_var].
    apply keeps_bind; [apply keeps_svc_set_var|]. intros _. apply keeps_ret.
  - destruct (strseg_cmp _ _ =? 0); [|apply kr_svc_set_var].
    apply kr_bind; [apply keeps_svc_set_var | apply kr_svc_set_var|].
    intros _. apply kr_ret.
  - intros r. destruct (negb r); [apply kr_ret|].
    destruct (scan_fds _ _ _ _ _) as [[e c] k]. kr_auto.
Qed.

Lemma kr_svc_set_restart_interval (p : N) (interval : Z) :
  keeps_recs Q p (svc_set_restart_interval p interval).
Proof. unfold svc_set_restart_interval. kr_auto. Qed.

Lemma kr_svc_set_triggers (ok : bool) (p : N) (seg : strseg_t) :
  keeps_recs Q p
    (svc_set_triggers NAME_BUF_SIZE NAME_BUF_OFFSET sig_num_by_name NSIG
       fresh_byte ok p seg).
Proof.
  unfold svc_set_triggers.
  destruct (parse_triggers _ _ _ _ _ _ _) as [[[autostart enable_sigs] sigs]|];
    [|apply kr_ret].
  apply kr_bind; [apply keeps_svc_set_var | apply kr_svc_set_var|]. intros r.
  destruct (negb r); [apply kr_ret|].
  apply kr_bind; [apply keeps_update; reflexivity | apply kr_update; rec_side|].
  intros _.
  apply kr_bind; [apply keeps_update; reflexivity | apply kr_update; rec_side|].
  intros _.
  apply kr_bind; [apply keeps_svc_set_sigwake | apply kr_svc_set_sigwake|].
  intros _.
  apply kr_bind; [apply keeps_deref | apply kr_deref|]. intros s.
  apply kr_bind.
  - destruct (auto_restart s); [apply keeps_ret | apply keeps_svc_check_sigwake].
  - destruct (auto_restart s); [apply kr_ret | apply kr_svc_check_sigwake].
  - intros pending. apply kr_bind.
    + destruct pending; [|apply keeps_ret].
      apply keeps_bind; [apply keeps_gets|]. intros now.
      apply keeps_bind; [apply keeps_svc_handle_start|]. intros _. apply keeps_ret.
    + destruct pending; [|apply kr_ret].
      apply kr_bind; [apply keeps_gets | apply kr_gets|]. intros now.
      apply kr_bind; [apply keeps_svc_handle_start | apply kr_svc_handle_start|].
      intros _. apply kr_ret.
    + intros _. apply kr_ret.
Qed.

End SettersRecords.

Lemma for_each_recs (l : list N) (body : N -> M unit) :
  (forall p, keeps p (body p)) -> (forall p, keeps_recs Q p (body p)) ->
  forall g a g', core_inv g -> recs_ok Q g -> (forall p, p ∈ l -> p ∈ live g) ->
                 for_each l body g = Ok a g' -> recs_ok Q g'.
Proof.
  intros Hk Hn. induction l as [|p l IH]; intros g a g' Hinv Hok Hl H.
  - injection H as _ <-. exact Hok.
  - cbn [for_each] in H. unfold bind in H.
    destruct (body p g) as [u g1|] eqn:E; [|discriminate].
    destruct (Hk p g u g1 Hinv ltac:(apply Hl; left) E) as [Hinv1 Hl1].
    apply (IH g1 a g' Hinv1); [|
      intros q Hq; rewrite Hl1; apply Hl; right; exact Hq | exact H].
    apply (Hn p g u g1 Hinv Hok ltac:(apply Hl; left) E).
Qed.

Lemma kr_wake_by_signal (NSIG signum : Z) (p : N) :
  keeps_recs Q p (wake_by_signal NSIG signum p).
Proof.
  unfold wake_by_signal. apply kr_bind; [apply keeps_deref | apply kr_deref|].
  intros s.
  destruct (negb (sigismember NSIG (autostart_signals s) signum =? 0));
    [|apply kr_ret].
  apply kr_bind; [apply keeps_gets | apply kr_gets|]. intros now.
  apply kr_bind; [apply keeps_svc_handle_start | apply kr_svc_handle_start|].
  intros _. apply kr_ret.
Qed.

Lemma signal_sweep_recs (NSIG : Z) (fuel : nat) :
  forall g a g', core_inv g -> recs_ok Q g ->
                 signal_sweep NSIG fuel g = Ok a g' -> recs_ok Q g'.
Proof.
  induction fuel as [|fuel IH]; intros g a g' Hinv Hok H; cbn [signal_sweep] in H.
  - injection H as _ <-. exact Hok.
  - unfold bind at 1 2, gets at 1 2 in H.
    destruct (sig_get_new_events (sig_events g) (svc_last_signal_ts g)) as [e|].
    2:{ injection H as _ <-. exact Hok. }
    unfold bind at 1, gets at 1 in H. unfold bind at 1 in H.
    destruct (for_each (svc_sigwake_list g) (wake_by_signal NSIG (ev_signum e)) g)
      as [u g1|] eqn:E; [|discriminate].
    destruct (keeps_for_each _ _ (keeps_wake_by_signal NSIG (ev_signum e))
                g u g1 Hinv (proj2 (proj2 Hinv)) E) as [Hinv1 _].
    pose proof (for_each_recs _ _ (keeps_wake_by_signal NSIG (ev_signum e))
                  (kr_wake_by_signal NSIG (ev_signum e)) g u g1 Hinv Hok
                  (proj2 (proj2 Hinv)) E) as Hok1.
    unfold bind at 1, modify at 1 in H.
    apply (IH _ a g' (core_inv_put_last_signal_ts (ev_ts e) g1 Hinv1)); [|exact H].
    exact Hok1.
Qed.

Lemma svc_run_active_recs (FORK_RETRY_DELAY NSIG : Z) (fuel : nat) :
  forall g a g', core_inv g -> recs_ok Q g ->
                 svc_run_active FORK_RETRY_DELAY NSIG fuel g = Ok a g' ->
                 recs_ok Q g'.
Proof.
  intros g a g' Hinv Hok H. unfold svc_run_active in H.
  unfold bind at 1 2, gets at 1 2 in H. unfold bind at 1 in H.
  destruct (when_ _ _ g) as [[] g1|] eqn:E; [|discriminate].
  assert (H1 : core_inv g1 /\ recs_ok Q g1).
  { unfold when_ in E. destruct (negb (bool_decide (svc_sigwake_list g = []))).
    - split; [apply (signal_sweep_inv _ _ _ _ _ Hinv E)
             | apply (signal_sweep_recs _ _ _ _ _ Hinv Hok E)].
    - injection E as <-. auto. }
  destruct H1 as [Hinv1 Hok1].
  unfold bind at 1, gets at 1 in H.
  apply (for_each_recs _ _ (keeps_svc_run FORK_RETRY_DELAY NSIG fuel)
           (kr_svc_run FORK_RETRY_DELAY NSIG fuel) g1 a g' Hinv1 Hok1
           (proj1 (proj2 Hinv1)) H).
Qed.

Section OperationsRecords.
Variable NAME_BUF_SIZE : Z.
Variable FORK_RETRY_DELAY : Z.
Variable NAME_BUF_OFFSET : Z.
Variable sig_num_by_name : list char -> Z.
Variable NSIG : Z.
Variable fresh_byte : char.
Hypothesis Q_vars : forall b s buf l,
  (b = true -> l <= vars_len s \/ l <= name_buf_room NAME_BUF_SIZE s) ->
  Q b s -> Q b (set_vars buf l s).

Lemma run_op_recs (o : op) (g : core) (a : unit) (g' : core) :
  core_inv g -> recs_ok Q g -> op_allowed g o ->
  (forall al name, o = op_create al name ->
     svc_check_name NAME_BUF_SIZE name = true ->
     Q (svc_pool g) (svc_ctor_object NAME_BUF_SIZE (svc_pool g) name)) ->
  run_op NAME_BUF_SIZE FORK_RETRY_DELAY NAME_BUF_OFFSET sig_num_by_name NSIG
         fresh_byte o g = Ok a g' ->
  recs_ok Q g'.
Proof.
  intros Hinv Hok Hallow Hctor H.
  destruct o as [al name|p|p when|p|p wstat|p new_pid|fuel p|fuel
                 |ok p name value|ok p seg|ok p seg|ok p seg|p interval
                 |ok p seg|p on];
    cbn [run_op op_allowed] in *.
  - unfold bind in H.
    destruct (svc_by_name _ _ _ _ g) as [r g1|] eqn:E; [|discriminate].
    injection H as _ <-. unfold svc_by_name in E.
    unfold bind at 1, gets at 1 in E. cbv zeta in E. cbn [id] in E.
    destruct (Relation _ =? 0); [injection E as _ <-; exact Hok|].
    destruct (svc_check_name NAME_BUF_SIZE name) eqn:Echeck; cbn [andb] in E;
      [|injection E as _ <-; exact Hok].
    destruct (svc_new_inv NAME_BUF_SIZE al name g r g1 Hinv Hallow E)
      as [_ Hcr].
    pose proof (sp_svc_new NAME_BUF_SIZE al name g r g1 E) as Hpool.
    unfold same_pool in Hpool.
    destruct r as [svc|].
    + destruct Hcr as (Hnew & Hlive & Hobj & Hothers & _).
      intros q Hq. rewrite Hpool. rewrite Hlive in Hq.
      apply elem_of_app in Hq as [Hq|Hq].
      * unfold the_svc. rewrite Hothers by (intros ->; contradiction).
        apply Hok, Hq.
      * apply list_elem_of_singleton in Hq as ->. rewrite Hobj.
        apply (Hctor al name eq_refl Echeck).
    + destruct Hcr as (Hlive & Hmem & _).
      apply (recs_ok_eq g g1 Hlive Hpool); [|exact Hok].
      intros q _. unfold the_svc. rewrite Hmem. auto.
  - destruct (svc_delete_inv g p a g' Hinv Hallow H) as (_ & Hlive & Hsvc & _).
    pose proof (sp_svc_delete p g a g' H) as Hpool. unfold same_pool in Hpool.
    intros q Hq. rewrite Hpool. apply Hlive in Hq as [Hq Hne].
    rewrite Hsvc by exact Hne. apply Hok, Hq.
  - eapply (kr_bind p _ _ (keeps_svc_handle_start p when)
              (kr_svc_handle_start p when) (fun _ => kr_ret p tt)); eassumption.
  - eapply (kr_bind p _ _ (keeps_svc_cancel_start p)
              (kr_svc_cancel_start p) (fun _ => kr_ret p tt)); eassumption.
  - eapply (kr_svc_handle_reaped p wstat); eassumption.
  - eapply (kr_svc_change_pid p new_pid); eassumption.
  - eapply (kr_svc_run FORK_RETRY_DELAY NSIG fuel p); eassumption.
  - eapply (svc_run_active_recs FORK_RETRY_DELAY NSIG fuel); eassumption.
  - eapply (kr_bind p _ _ (keeps_svc_set_var _ _ _ ok p name value)
              (kr_svc_set_var _ _ _ Q_vars ok p name value)
              (fun _ => kr_ret p tt)); eassumption.
  - eapply (kr_bind p _ _ (keeps_svc_set_tags _ _ _ ok p seg)
              (kr_svc_set_var _ _ _ Q_vars ok p _ _) (fun _ => kr_ret p tt));
      eassumption.
  - eapply (kr_bind p _ _ (keeps_svc_set_argv _ _ _ ok p seg)
              (kr_svc_set_var _ _ _ Q_vars ok p _ _) (fun _ => kr_ret p tt));
      eassumption.
  - eapply (kr_bind p _ _ (keeps_svc_set_fds _ _ _ ok p seg)
              (kr_svc_set_fds _ _ _ Q_vars ok p seg) (fun _ => kr_ret p tt));
      eassumption.
  - eapply (kr_bind p _ _ (keeps_svc_set_restart_interval p interval)
              (kr_svc_set_restart_interval p interval) (fun _ => kr_ret p tt));
      eassumption.
  - eapply (kr_bind p _ _ (keeps_svc_set_triggers _ _ _ _ _ ok p seg)
              (kr_svc_set_triggers _ _ _ _ _ Q_vars ok p seg)
              (fun _ => kr_ret p tt)); eassumption.
  - eapply (kr_svc_set_sigwake p on); eassumption.
Qed.

End OperationsRecords.

End RecordInvariant.

(** ** The states of the live records *)

Lemma in_state_state (b : bool) (s : service_t) (v : Z) :
  state_ok v -> in_state b s -> in_state b (set_state v s).
Proof. intros Hv _. exact Hv. Qed.

Lemma in_state_ext (b : bool) (s s' : service_t) :
  state s' = state s -> name_buf s' = name_buf s -> vars_len s' = vars_len s ->
  in_state b s -> in_state b s'.
Proof. unfold in_state. intros -> _ _ H. exact H. Qed.

Lemma in_state_vars (NAME_BUF_SIZE : Z) (b : bool) (s : service_t)
    (buf : list char) (l : Z) :
  (b = true -> l <= vars_len s \/ l <= name_buf_room NAME_BUF_SIZE s) ->
  in_state b s -> in_state b (set_vars buf l s).
Proof. intros _ H. exact H. Qed.

Lemma ks_svc_run (FORK_RETRY_DELAY NSIG : Z) (fuel : nat) (p : N) :
  keeps_recs in_state p (svc_run FORK_RETRY_DELAY NSIG fuel p).
Proof. apply (kr_svc_run in_state in_state_state in_state_ext). Qed.

Lemma signal_sweep_states (NSIG : Z) (fuel : nat) :
  forall g a g', core_inv g -> states_ok g ->
                 signal_sweep NSIG fuel g = Ok a g' -> states_ok g'.
Proof. apply (signal_sweep_recs in_state in_state_state in_state_ext). Qed.

Section ReachStates.
Variable NAME_BUF_SIZE : Z.
Variable FORK_RETRY_DELAY : Z.
Variable NAME_BUF_OFFSET : Z.
Variable SIZEOF_SERVICE : Z.
Variable sig_num_by_name : list char -> Z.
Variable NSIG : Z.
Variable fresh_byte : char.

Lemma run_op_states (o : op) (g : core) (a : unit) (g' : core) :
  core_inv g -> states_ok g -> op_allowed g o ->
  run_op NAME_BUF_SIZE FORK_RETRY_DELAY NAME_BUF_OFFSET sig_num_by_name NSIG
         fresh_byte o g = Ok a g' ->
  states_ok g'.
Proof.
  intros Hinv Hok Hallow H.
  apply (run_op_recs in_state in_state_state in_state_ext NAME_BUF_SIZE
           FORK_RETRY_DELAY NAME_BUF_OFFSET sig_num_by_name NSIG fresh_byte
           (in_state_vars NAME_BUF_SIZE) o g a g' Hinv Hok Hallow); [|exact H].
  intros al name _ _. left. reflexivity.
Qed.

Lemma reachable_states_ok (g : core) :
  reachable NAME_BUF_SIZE FORK_RETRY_DELAY NAME_BUF_OFFSET SIZEOF_SERVICE
            sig_num_by_name NSIG fresh_byte g ->
  states_ok g.
Proof.
  induction 1 as [now evs ls|now evs ls base count dsize Hs Hd
                  |g now next evs ls _ IH|g o a g' Hr IH Hok Hrun].
  - intros q Hq. apply elem_of_nil in Hq. contradiction.
  - intros q Hq. apply elem_of_nil in Hq. contradiction.
  - exact IH.
  - apply (run_op_states o g a g'); try assumption.
    apply (reachable_core_inv _ _ _ _ _ _ _ g Hr).
Qed.


End ReachStates.


(** ** The variables of a pool stay within [name_buf] *)





Section ReachBuffers.
Variable NAME_BUF_SIZE : Z.
Variable FORK_RETRY_DELAY : Z.
Variable NAME_BUF_OFFSET : Z.
Variable SIZEOF_SERVICE : Z.
Variable sig_num_by_name : list char -> Z.
Variable NSIG : Z.
Variable fresh_byte : char.




End ReachBuffers.




(* ===================================================================== *)
(** * What a tick leaves on the active list *)
(* ===================================================================== *)

Lemma settled_untouched (q : N) (g g' : core) :
  untouched q g g' -> wake_now g' = wake_now g -> settled g q -> settled g' q.
Proof.
  intros (Hm & Ha & _) Hnow (s & Hs & Hst). exists s.
  split; [rewrite Hm; exact Hs|]. rewrite Hnow.
  destruct Hst as [(H1 & H2 & H3)|(H1 & H2)].
  - left. split; [exact H1|]. split; [exact H2|]. apply Ha, H3.
  - right. split; [exact H1|]. intros H. apply H2, Ha, H.
Qed.

Lemma wake_by_signal_returns (NSIG signum : Z) (p : N) (g : core) :
  core_inv g -> p ∈ live g -> exists g', wake_by_signal NSIG signum p g = Ok tt g'.
Proof.
  intros [(_ & _ & _ & H4 & _) _] Hp. destruct (H4 p Hp) as [s Hs].
  unfold wake_by_signal. unfold bind at 1, deref at 1. rewrite Hs.
  destruct (negb (sigismember NSIG (autostart_signals s) signum =? 0));
    [|eexists; reflexivity].
  unfold bind at 1, gets at 1. unfold bind at 1.
  destruct (svc_handle_start_any g p s (wake_now g) Hs) as (b & g' & _ & -> & _).
  eexists. reflexivity.
Qed.

Lemma for_each_wake_returns (NSIG signum : Z) (l : list N) :
  forall g, core_inv g -> (forall p, p ∈ l -> p ∈ live g) ->
            exists g', for_each l (wake_by_signal NSIG signum) g = Ok tt g'.
Proof.
  induction l as [|p l IH]; intros g Hinv Hl; [eexists; reflexivity|].
  cbn [for_each]. unfold bind.
  destruct (wake_by_signal_returns NSIG signum p g Hinv ltac:(apply Hl; left))
    as [g1 E].
  rewrite E.
  destruct (keeps_wake_by_signal NSIG signum p g tt g1 Hinv
              ltac:(apply Hl; left) E) as [Hinv1 Hl1].
  apply (IH g1 Hinv1). intros q Hq. rewrite Hl1. apply Hl. right. exact Hq.
Qed.

Lemma for_each_wake_now (l : list N) (body : N -> M unit) :
  (forall p, pres (only_touches p) (body p)) ->
  forall g a g', for_each l body g = Ok a g' -> wake_now g' = wake_now g.
Proof.
  intros Hbody. induction l as [|p l IH]; intros g a g' H.
  - injection H as _ <-. reflexivity.
  - cbn [for_each] in H. unfold bind in H.
    destruct (body p g) as [u g1|] eqn:E; [|discriminate].
    rewrite (IH g1 a g' H).
    destruct (Hbody p g u g1 E) as (_ & _ & _ & _ & _ & _ & _ & _ & _ & _ & Hn & _).
    exact Hn.
Qed.

Lemma signal_sweep_returns (NSIG : Z) (fuel : nat) :
  forall g, core_inv g ->
            exists g', signal_sweep NSIG fuel g = Ok tt g' /\
                       wake_now g' = wake_now g.
Proof.
  induction fuel as [|fuel IH]; intros g Hinv; cbn [signal_sweep].
  - eexists. split; reflexivity.
  - unfold bind at 1 2, gets at 1 2.
    destruct (sig_get_new_events (sig_events g) (svc_last_signal_ts g)) as [e|].
    2:{ eexists. split; reflexivity. }
    unfold bind at 1, gets at 1. unfold bind at 1.
    destruct (for_each_wake_returns NSIG (ev_signum e) (svc_sigwake_list g) g Hinv
                (proj2 (proj2 Hinv))) as [g1 E].
    rewrite E.
    destruct (keeps_for_each _ _ (keeps_wake_by_signal NSIG (ev_signum e))
                g tt g1 Hinv (proj2 (proj2 Hinv)) E) as [Hinv1 _].
    pose proof (for_each_wake_now _ _ (pres_wake_by_signal NSIG (ev_signum e))
                  g tt g1 E) as Hn1.
    unfold bind at 1, modify at 1.
    destruct (IH _ (core_inv_put_last_signal_ts (ev_ts e) g1 Hinv1))
      as (g' & Hrun & Hn).
    exists g'. split; [exact Hrun|]. rewrite Hn. exact Hn1.
Qed.

Section TickSettles.
Variable FORK_RETRY_DELAY : Z.
Variable NSIG : Z.
Hypothesis delay_pos : 0 < FORK_RETRY_DELAY.

Lemma for_each_svc_run_settles (fuel : nat) (l : list N) :
  forall g, core_inv g -> states_ok g -> (forall p, p ∈ l -> p ∈ live g) ->
            0 <= wake_now g -> in_int64 (wake_now g + FORK_RETRY_DELAY) ->
            for_each l (svc_run FORK_RETRY_DELAY NSIG (S (S (S fuel)))) g
            = Abort InChild \/
            exists g',
              for_each l (svc_run FORK_RETRY_DELAY NSIG (S (S (S fuel)))) g
              = Ok tt g' /\
              wake_now g' = wake_now g /\
              (forall p, p ∈ l -> settled g' p) /\
              (forall q, q ∉ l -> untouched q g g').
Proof.
  induction l as [|p l IH]; intros g Hinv Hok Hl Hnow Hnd.
  - right. exists g. split; [reflexivity|]. split; [reflexivity|].
    split; [intros p Hp; apply elem_of_nil in Hp; contradiction|].
    intros q _. apply untouched_refl.
  - assert (Hp : p ∈ live g) by (apply Hl; left).
    pose proof Hinv as [(_ & _ & _ & H4 & _) _]. destruct (H4 p Hp) as [s Hs].
    assert (Hst : state_ok (state s)).
    { specialize (Hok p Hp). unfold the_svc in Hok. rewrite Hs in Hok. exact Hok. }
    remember (for_each (p :: l) (svc_run FORK_RETRY_DELAY NSIG (S (S (S fuel)))) g)
      as r eqn:Er.
    cbn [for_each] in Er. unfold bind in Er.
    destruct (svc_run_settles_spec FORK_RETRY_DELAY NSIG delay_pos fuel g p s Hs Hst Hnow Hnd)
      as [E|(g1 & E & Hset)]; rewrite E in Er.
    + left. exact Er.
    + destruct (keeps_svc_run FORK_RETRY_DELAY NSIG _ p g tt g1 Hinv Hp E)
        as [Hinv1 Hl1].
      pose proof (ks_svc_run FORK_RETRY_DELAY NSIG _ p g tt g1 Hinv Hok Hp E)
        as Hok1.
      pose proof (pres_svc_run FORK_RETRY_DELAY NSIG _ p g tt g1 E) as Hot.
      assert (Hn1 : wake_now g1 = wake_now g).
      { destruct Hot as (_ & _ & _ & _ & _ & _ & _ & _ & _ & _ & Hn & _).
        exact Hn. }
      destruct (IH g1 Hinv1 Hok1) as [E2|(g' & E2 & Hn2 & Hset2 & Hun2)].
      * intros q Hq. rewrite Hl1. apply Hl. right. exact Hq.
      * rewrite Hn1. exact Hnow.
      * rewrite Hn1. exact Hnd.
      * left. rewrite Er. exact E2.
      * right. exists g'. split; [rewrite Er; exact E2|].
        split; [rewrite Hn2; exact Hn1|]. split.
        -- intros q Hq. destruct (decide (q ∈ l)) as [Hin|Hout];
             [apply Hset2, Hin|].
           apply elem_of_cons in Hq as [->|Hq]; [|contradiction].
           apply (settled_untouched p g1 g' (Hun2 p Hout) Hn2 Hset).
        -- intros q Hq. apply not_elem_of_cons in Hq as [Hne Hq].
           apply (untouched_trans q g g1 g').
           ++ apply (only_touches_untouched p q g g1 Hne Hot).
           ++ apply Hun2, Hq.
Qed.

(** X24: a tick over a state that satisfies the invariant of the
    module and whose live records are each in one of the four states,
    with a positive retry delay, a clock that is not negative and such
    that [now + FORK_RETRY_DELAY] is an [int64_t], and three passes
    allowed to each [svc_run], ends in the child of a [fork] or
    returns, and then every record left on the active list is in START
    and waits for a time still to come: what is DOWN, UP or REAPED has
    left the list. *)
Theorem svc_run_active_settles (fuel : nat) (g : core) :
  core_inv g -> states_ok g ->
  0 <= wake_now g -> in_int64 (wake_now g + FORK_RETRY_DELAY) ->
  svc_run_active FORK_RETRY_DELAY NSIG (S (S (S fuel))) g = Abort InChild \/
  exists g',
    svc_run_active FORK_RETRY_DELAY NSIG (S (S (S fuel))) g = Ok tt g' /\
    forall p, p ∈ svc_active_list g' ->
              exists s, svc_mem g' !! p = Some s /\
                        state s = SVC_STATE_START /\
                        wrap64 (start_time s - wake_now g') > 0.
Proof.
  intros Hinv Hok Hnow Hnd.
  remember (svc_run_active FORK_RETRY_DELAY NSIG (S (S (S fuel))) g) as r eqn:Er.
  unfold svc_run_active in Er.
  unfold bind at 1 2, gets at 1 2 in Er. unfold bind at 1 in Er.
  assert (Hsweep : exists g1,
            when_ (negb (bool_decide (svc_sigwake_list g = [])))
                  (signal_sweep NSIG (S (length (sig_events g)))) g = Ok tt g1
            /\ core_inv g1 /\ states_ok g1 /\ wake_now g1 = wake_now g).
  { unfold when_. destruct (negb (bool_decide (svc_sigwake_list g = []))).
    - destruct (signal_sweep_returns NSIG (S (length (sig_events g))) g Hinv)
        as (g1 & E & Hn).
      exists g1. split; [exact E|].
      split; [apply (signal_sweep_inv _ _ _ _ _ Hinv E)|].
      split; [apply (signal_sweep_states _ _ _ _ _ Hinv Hok E) | exact Hn].
    - exists g. auto. }
  destruct Hsweep as (g1 & E & Hinv1 & Hok1 & Hn1). rewrite E in Er.
  unfold bind at 1, gets at 1 in Er.
  destruct (for_each_svc_run_settles fuel (svc_active_list g1) g1 Hinv1 Hok1
              (proj1 (proj2 Hinv1)) ltac:(rewrite Hn1; exact Hnow)
              ltac:(rewrite Hn1; exact Hnd))
    as [E2|(g' & E2 & _ & Hset & Hun)].
  - left. rewrite Er. exact E2.
  - right. exists g'. split; [rewrite Er; exact E2|].
    intros p Hp. destruct (decide (p ∈ svc_active_list g1)) as [Hin|Hout].
    + destruct (Hset p Hin) as (s & Hs & [(H1 & H2 & _)|(_ & H2)]);
        [|contradiction].
      exists s. auto.
    + destruct (Hun p Hout) as (_ & Ha & _). apply Ha in Hp. contradiction.
Qed.

End TickSettles.

Lemma sample_waiting_reachable :
  reachable 64 (Z.shiftl 10 32) 4 200 sample_sig_num_by_name 65 0 sample_waiting.
Proof.
  apply (reach_step _ _ _ _ _ _ _ sample_run_1 (op_start 16 (Z.shiftl 130 32)) tt).
  - apply (reach_step _ _ _ _ _ _ _ sample_run_0
             (op_create (sample_alloc 16) (STRSEG (lit "web"))) tt).
    + apply reach_init.
    + intros _. apply (bool_decide_unpack _). vm_compute. exact I.
    + vm_compute. reflexivity.
  - cbn [op_allowed]. apply (bool_decide_unpack _). vm_compute. exact I.
  - vm_compute. reflexivity.
Defined.

Lemma svc_run_active_settles_witness :
  svc_run_active (Z.shiftl 10 32) 65 3 sample_waiting = Abort InChild \/
  exists g',
    svc_run_active (Z.shiftl 10 32) 65 3 sample_waiting = Ok tt g' /\
    forall p, p ∈ svc_active_list g' ->
              exists s, svc_mem g' !! p = Some s /\
                        state s = SVC_STATE_START /\
                        wrap64 (start_time s - wake_now g') > 0.
Proof.
  apply (svc_run_active_settles (Z.shiftl 10 32) 65 ltac:(vm_compute; reflexivity)
           0 sample_waiting).
  - apply (reachable_core_inv _ _ _ _ _ _ _ _ sample_waiting_reachable).
  - apply (reachable_states_ok _ _ _ _ _ _ _ _ sample_waiting_reachable).
  - vm_compute. discriminate.
  - vm_compute. split; [discriminate | reflexivity].
Defined.
